(* ===== verification/_CoqProject ===== *)
-Q . S2P
Prelude.v
ResultCodes.v
Monad.v
Invariants.v
Wire.v
ByteOrder.v
Slices.v
Text.v
Buffer.v
BufferFacts.v
Values.v
Cdt.v
Encoder.v
EncoderFacts.v
Decoder.v
DecoderFacts.v
RoundTrip.v
Particle.v
Expressions.v
MsgPack.v
WellFormed.v
Operations.v
ListOperations.v
MapOperations.v
BitOperations.v
HllOperations.v
ExpressionBuilders.v
ListExpressions.v
MapExpressions.v
BitExpressions.v
HllExpressions.v
BuilderFacts.v
OperationFacts.v
Policy.v
Records.v
Connection.v
Statements.v
Commands.v
CommandFacts.v
RecordCommands.v
Queries.v
QueryFacts.v
BatchFacts.v
Responses.v
Recordset.v
Streams.v
ConnectionFacts.v
ResponseFacts.v
StreamFacts.v
BatchResponseFacts.v
RecordsetFacts.v
ResponseTotality.v
Execute.v
Admin.v
ClientPolicy.v
AdminFacts.v
ExecuteFacts.v
Hosts.v
Info.v
ConnectionPool.v
PoolFacts.v
Nodes.v
Cluster.v
PartitionFacts.v
Termination.v
ClusterFacts.v
RemovalFacts.v
RefreshFacts.v
ClusterExecute.v
EndToEnd.v
Tasks.v
BatchExecutor.v
BatchExecutorFacts.v
BatchEndToEnd.v
Client.v
ClientEndToEnd.v
PutGet.v
ClientFacts.v
ScanFacts.v
Benchmark.v
