(* ===== verification/Prelude.v ===== *)
(** * Verification of the Aerospike Rust client

    This library models the client under [src/src/], from the call of an
    operation to the bytes on a socket and back, and proves it correct.

    ** The program

    A call of the API ([client.rs]) names a record by a [Key], takes a policy and
    some data (bins, operations, a statement), and becomes a command
    ([commands/*_command.rs]).  The retry loop ([commands/single_command.rs])
    finds a node in the partition map of the cluster ([cluster/*.rs]), takes a
    connection from its pool ([net/connection_pool.rs]), lets the command write
    its message into the buffer of the connection ([commands/buffer.rs]), sends
    it and lets the command read the response; it then puts the connection back,
    or closes it and tries again.

    A message is built in two passes: one adds up the sizes of the fields and
    operations, the buffer is resized, the other writes them; the total length is
    patched in at the end.  Values are particles ([value.rs]), and lists, maps,
    collection operations and filter expressions are MessagePack
    ([msgpack/*.rs]), written by functions that count when they have no buffer.
    Responses are a record, a stream of groups of records, or the rows of a batch.

    Scans and queries start a thread per node, which push records on a bounded
    queue that the caller iterates over ([query/recordset.rs]).  A batch is split
    by node and executed by a pool of threads ([batch/batch_executor.rs]).  A
    thread tends the cluster: it asks nodes for their peers and partitions in
    the info protocol ([commands/info_command.rs]), validates new nodes and drops
    those that failed.  Tasks ([task/*.rs]) poll the same protocol.  A tool
    measures the client ([tools/benchmark/src/]).

    ** Files

    Shared: [Prelude] (integers at their width, bytes), [Monad] ([outcome]: a
    value, an error, a panic, out of fuel, the first two with the state reached),
    [Invariants] ([stays], what a computation keeps; [terminates]), [Slices]
    (slices and their panics), [ByteOrder], [Text] (UTF-8, splitting, searching
    and parsing of strings), [ResultCodes], [Wire].

    Data and messages:
    - [Buffer], [BufferFacts]: the primitives of [commands/buffer.rs].
    - [Values], [Particle]: [value.rs].  [Encoder], [EncoderFacts], [Decoder],
      [DecoderFacts], [RoundTrip]: [msgpack/]; [MsgPack], [WellFormed]: the
      grammar of MessagePack, and that packed operations and expressions obey it.
    - [Cdt], [Operations], [ListOperations], [MapOperations], [BitOperations],
      [HllOperations], [OperationFacts]: [operations/].
    - [Expressions], [ExpressionBuilders], [ListExpressions], [MapExpressions],
      [BitExpressions], [HllExpressions], [BuilderFacts]: [expressions/].
    - [Policy], [ClientPolicy], [Statements], [Records]: [policy/], [key.rs],
      [query/statement.rs], [query/filter.rs], [record.rs].
    - [Commands], [CommandFacts], [RecordCommands], [Queries], [QueryFacts],
      [BatchFacts]: the commands of [commands/buffer.rs] and their messages.
    - [Admin], [AdminFacts]: [commands/admin_command.rs].

    Responses and execution:
    - [Connection], [ConnectionFacts]: [net/connection.rs].
    - [Responses], [ResponseFacts]: the responses of commands on one record;
      [Streams], [StreamFacts], [BatchResponseFacts]: of scans, queries and
      batches; [ResponseTotality]: parsing ends on every input.
    - [Recordset], [RecordsetFacts]: [query/recordset.rs] under concurrency.
    - [Execute], [ExecuteFacts]: the trait [Command] with its ten
      implementations as a class, and the retry loop over an environment.

    Cluster and client:
    - [Hosts]: [net/host.rs], [net/parser.rs].  [Info]: [commands/info_command.rs].
    - [ConnectionPool], [PoolFacts]: [net/connection_pool.rs].
    - [Nodes], [Cluster], [PartitionFacts], [Termination], [ClusterFacts],
      [RemovalFacts], [RefreshFacts]: [cluster/].  [ClusterExecute], [EndToEnd]:
      the cluster as the environment of commands, and commands from call to answer.
    - [Tasks]: [task/].  [BatchExecutor], [BatchExecutorFacts],
      [BatchEndToEnd]: [batch/].  [Client], [ClientFacts], [ClientEndToEnd],
      [PutGet]: [client.rs]; [ScanFacts]: the threads of scans and queries.
    - [Benchmark]: [tools/benchmark/src/].

    A definition has the name of the function it models (a trailing underscore
    or a prefix where Rocq or another component needs the name), a method on
    [&mut self] is a computation on its state, and a command is a pair of its own
    state and the connection.

    ** What is shown

    - Serialisation: decoding ends on every input; particles and MessagePack
      values survive the wire; the two passes agree, and what they write is a
      reference encoding and well formed ([DecoderFacts], [Particle],
      [RoundTrip], [Operations], [WellFormed]); builders of operations declare
      what they do, and calls in expressions are packed as the operations of the
      same name ([OperationFacts]); built expressions can be packed
      ([BuilderFacts]); which values other formats can tell apart ([Values]).
    - Messages: [builds m hdr body] ([CommandFacts]): from any buffer, whatever
      an earlier command left in it, [m] leaves exactly the protocol header,
      [hdr] and [body], or fails before writing when the message is too large; it
      is shown for every command, with reference encodings.  Keys and digests
      ([Policy]); administration ([AdminFacts]).
    - Responses: a well-formed response is parsed into exactly what it holds,
      and exactly the message is taken from the stream ([ResponseFacts],
      [StreamFacts], [BatchResponseFacts]); parsing ends on every input, that of a
      stream if its consumer makes room ([ResponseTotality]).
    - Execution: the retry loop equals its reference, and returns or invalidates
      every connection it takes once ([ExecuteFacts]).
    - What is put is what is got, on a server that stores bytes ([PutGet]).
    - From call to answer, after any number of failed attempts: what is sent,
      what is taken from the stream, what is returned and what becomes of the
      connection, of reads and writes ([EndToEnd]), of operations, functions,
      deletions and tests of existence ([ClientEndToEnd]), of the threads of scans
      and queries ([ScanFacts]) and of the jobs of a batch ([BatchEndToEnd]).
    - Concurrency: queues of connections count what exists, but for what was in use
      when they were cleared, within the limit per node ([PoolFacts]); record sets
      deliver every record once if nobody closes them, and can always go on to
      the end ([RecordsetFacts]), and the code of the threads of a scan refines the
      producers of that system, whatever their nodes answer ([ScanFacts]); threads
      of a batch execute every command once, or the result is an error
      ([BatchExecutorFacts]), and from nodes that answer from a database they bring
      its rows in every interleaving ([BatchEndToEnd]).
    - Cluster: keys are routed to the owner of their partition, and the answers
      of nodes keep the partition map complete ([PartitionFacts]); a node that
      answers is refreshed exactly, and gets the partitions it claims and no
      others ([RefreshFacts]); tending ends ([Termination]), keeps the cluster well
      formed ([ClusterFacts]) and takes out exactly the nodes that are expendable
      ([RemovalFacts]); the info protocol and host lists are read back ([Info],
      [Hosts]).
    - Client: scans cover every partition once, index commands have the verdict
      of their answer ([ClientFacts]); waiting for a task ends ([Tasks]); the
      benchmark counts every request ([Benchmark]).

    Faults of the code are theorems too: a query with a filter and no bins
    ([QueryFacts.set_query_empty_bins]), the length of a batch field after a
    filter ([BatchFacts.batch_length_exact]), a scan whose record set is closed
    ([StreamFacts.closed_stream]), lost errors ([StreamFacts.stream_error]), a
    full queue that keeps nothing ([PoolFacts.full_queue_keeps_nothing]), a batch
    without threads ([BatchExecutorFacts.batch_jobs_joined]), a scan without
    nodes ([ClientFacts.empty_scan_never_ends]) or with one that fails
    ([ScanFacts.failed_scan_looks_complete]), removed nodes that stay connected
    ([RemovalFacts.nodes_removed]), a cleared queue whose connections are then
    invalidated ([PoolFacts.pool_invariant]), arguments that a call and the operation
    of its name do not agree on ([OperationFacts.calls_are_operations]), a report on
    nothing ([Benchmark.empty_report_panics]).

    ** Conventions and bounds

    Integers are [Z]; casts wrap ([as_u8] and the like) and [usize] arithmetic
    that can underflow is checked and panics, as in a build with overflow checks.
    Additions of sizes are exact: a size that overflows [usize] cannot be the
    size of data in memory.  Strings are their UTF-8 bytes; floats are their IEEE
    bit patterns; a [HashMap] of values is the list of its entries in iteration
    order, and theorems hold for every order; the bins of a record and the lines
    of an info answer are [gmap]s.  References to values are the values: the
    builders never mutate what they borrow.  Formatted error messages are
    represented by their format string.

    A socket is a stream of bytes in each direction, with what the peer still
    accepts.  Nodes are in a heap, and a [NodeId] is an [Arc<Node>]; the queues of
    all pools are in a store, and a pool refers to them by their positions.  Where
    threads interfere, an operation under a lock is one step, and so is an atomic
    access to a record set, a method of which is a program of accesses: record sets,
    queues of connections and the threads of a batch are step relations with
    theorems on every interleaving.  The accesses are in one order that all threads
    see, although the code asks for less ([Ordering::Relaxed]).  Between two commands
    of a batch the cluster and the network may have changed in any way.  Only the
    tending thread changes the cluster; that nobody else refers to a node
    ([Arc::get_mut]) is decided by the references of the cluster.

    A panic ends the run: what destructors do while it unwinds (a connection goes
    back to its pool, a stream command signals its end) is not modelled, except that
    a panic of the first tending thread is an error of [Cluster::new].

    Loops without a structural bound take fuel.  [bytes_to_particle_terminates],
    [responses_terminate], [execute_attempts], [tending_ends] and [wait_ends] say
    how much is enough: the bytes left to decode, the bytes in the stream, the
    number of retries, the readings of the clock up to the timeout, the seconds
    of the timeout.  The thread of a scan ends when its consumer makes room
    ([makes_room], [roomy]); without room it pushes a record again and again, as the
    code does ([full_set_spins]).

    The outside of the program is a parameter: the crates as [ByteOrder],
    [Ripemd160] and [Bcrypt] with their documented laws, [Base64],
    [Base64Encode] and [ValueFmt] (the [Display] of floats and the [Debug] of
    containers) without; the system as [Clock], [Timer], [Dialer] (opening a
    connection), [Resolver] (names) and [Files]; the order of a [HashMap] as
    [HashOrder]; random numbers as [Rng]; other threads that use a record set as
    [Interference]; the formats of the crate [serde] as [Serializer].

    ** Not modelled

    The capacity of the buffer, its reclaiming, allocation failure, logging and
    the rendering of values for people: no result depends on them.  The thread
    pools and the threads of the operating system: the model has their programs.
    The macros that only abbreviate constructors, the instances that [serde]
    derives, [user.rs], a structure that nothing uses, the command line of the
    tool, the micro-benchmarks and tests. *)

From stdpp Require Import base list strings.
From Stdlib Require Import ZArith Lia Setoid Morphisms Ascii.
From Stdlib Require Import DecimalString.

#[global] Open Scope Z_scope.

(** ** Machine integers, bytes and strings

    A [w]-bit integer is a [Z]; the [as] casts of Rust are the wrap-around
    functions below.  A byte is a [Z] in [[0,256)], a byte slice and the
    UTF-8 contents of a [String] are lists of bytes. *)

Abbreviation bytes := (list Z).

Definition wrap_u (w z : Z) : Z := z mod 2 ^ w.

Definition wrap_i (w z : Z) : Z :=
  (z + 2 ^ (w - 1)) mod 2 ^ w - 2 ^ (w - 1).

Definition as_u8 (z : Z) : Z := wrap_u 8 z.

Definition as_u16 (z : Z) : Z := wrap_u 16 z.

Definition as_u32 (z : Z) : Z := wrap_u 32 z.

Definition as_u64 (z : Z) : Z := wrap_u 64 z.

Definition as_i8 (z : Z) : Z := wrap_i 8 z.

Definition as_i16 (z : Z) : Z := wrap_i 16 z.

Definition as_i32 (z : Z) : Z := wrap_i 32 z.

Definition as_i64 (z : Z) : Z := wrap_i 64 z.

Definition in_u (w z : Z) : Prop := 0 <= z < 2 ^ w.

Definition in_i (w z : Z) : Prop := - 2 ^ (w - 1) <= z < 2 ^ (w - 1).

Definition is_byte (z : Z) : Prop := 0 <= z < 256.

Abbreviation all_bytes := (Forall is_byte).

(** The UTF-8 bytes of a literal, and the decimal rendering of an integer by
    [to_string]/[format!]. *)
Definition str (s : string) : bytes :=
  (fun c => Z.of_N (N_of_ascii c)) <$> String.list_ascii_of_string s.

Definition dec_string (z : Z) : string :=
  NilZero.string_of_int (Z.to_int z).

(** The length of a slice, as the [usize] the code computes with. *)
Definition len {A} (l : list A) : Z := Z.of_nat (length l).

Lemma wrap_u_range w z : 0 <= w -> in_u w (wrap_u w z).
Proof. intros. unfold in_u, wrap_u. apply Z.mod_pos_bound. lia. Qed.

Lemma wrap_u_id w z : in_u w z -> wrap_u w z = z.
Proof. unfold in_u, wrap_u. intros. apply Z.mod_small. lia. Qed.

Lemma wrap_i_range w z : 0 < w -> in_i w (wrap_i w z).
Proof.
  intros Hw. unfold in_i, wrap_i.
  assert (2 ^ w = 2 * 2 ^ (w - 1)) as E
    by (rewrite <- Z.pow_succ_r by lia; f_equal; lia).
  pose proof (Z.mod_pos_bound (z + 2 ^ (w - 1)) (2 ^ w)). lia.
Qed.

Lemma wrap_i_id w z : 0 < w -> in_i w z -> wrap_i w z = z.
Proof.
  intros Hw. unfold in_i, wrap_i. intros H.
  assert (2 ^ w = 2 * 2 ^ (w - 1)) as E
    by (rewrite <- Z.pow_succ_r by lia; f_equal; lia).
  rewrite Z.mod_small; lia.
Qed.

(** Casting to the unsigned type and back is the identity on signed values:
    the shape of every [write_iN]/[read_iN] pair. *)
Lemma wrap_i_wrap_u w z : 0 < w -> wrap_i w (wrap_u w z) = wrap_i w z.
Proof.
  intros Hw. unfold wrap_i, wrap_u. rewrite Zplus_mod_idemp_l. reflexivity.
Qed.

Lemma as_u8_byte z : is_byte (as_u8 z).
Proof. apply (wrap_u_range 8). lia. Qed.

Lemma as_u8_id z : is_byte z -> as_u8 z = z.
Proof. intros. apply (wrap_u_id 8). exact H. Qed.

(** Or-ing a small value into a multiple of a power of two adds it. *)
Lemma lor_add a b k :
  0 <= k -> 0 <= b < 2 ^ k -> Z.lor (a * 2 ^ k) b = a * 2 ^ k + b.
Proof.
  intros Hk Hb. rewrite <- Z.add_lor_land.
  enough (Z.land (a * 2 ^ k) b = 0) as -> by lia.
  apply Z.bits_inj'. intros n Hn. rewrite Z.land_spec, Z.bits_0.
  destruct (Z.ltb_spec n k).
  - rewrite Z.mul_pow2_bits_low by lia. reflexivity.
  - rewrite <- (Z.mod_small b (2 ^ k)), Z.mod_pow2_bits_high by lia.
    apply andb_false_r.
Qed.

(** Masking with [2 ^ k - 1] is the remainder. *)
Lemma land_mask v k : 0 <= k -> Z.land v (Z.ones k) = v mod 2 ^ k.
Proof. intros. apply Z.land_ones. lia. Qed.

Lemma len_nonneg {A} (l : list A) : 0 <= len l.
Proof. unfold len. lia. Qed.

Lemma len_nil {A} : len (@nil A) = 0.
Proof. reflexivity. Qed.

Lemma len_cons {A} (x : A) l : len (x :: l) = 1 + len l.
Proof. unfold len. cbn [length]. lia. Qed.

Lemma len_app {A} (l k : list A) : len (l ++ k) = len l + len k.
Proof. unfold len. rewrite length_app. lia. Qed.

Lemma len_map {A B} (f : A -> B) l : len (f <$> l) = len l.
Proof. unfold len. rewrite length_fmap. reflexivity. Qed.

(** Normalising the size arithmetic of byte strings. *)
Create Rewrite HintDb sizes.
#[export] Hint Rewrite @len_nil @len_cons @len_app @len_map : sizes.

Ltac size_lia := autorewrite with sizes in *; lia.

(** The lengths in a hypothesis are not negative. *)
Ltac note_lengths H :=
  repeat match type of H with
  | context [len ?x] =>
      lazymatch goal with
      | _ : 0 <= len x |- _ => fail
      | _ => pose proof (len_nonneg x)
      end
  end.

Ltac range_lia :=
  unfold is_byte, in_u, in_i in *; simpl Z.pow in *; lia.

(** Decides every range test of the goal that the context settles. *)
Ltac decide_tests :=
  repeat match goal with
  | |- context [?a <? ?b] =>
      first [ replace (a <? b) with true by (symmetry; apply Z.ltb_lt; lia)
            | replace (a <? b) with false by (symmetry; apply Z.ltb_ge; lia) ]
  | |- context [?a <=? ?b] =>
      first [ replace (a <=? b) with true by (symmetry; apply Z.leb_le; lia)
            | replace (a <=? b) with false by (symmetry; apply Z.leb_gt; lia) ]
  | |- context [?a =? ?b] =>
      first [ replace (a =? b) with false by (symmetry; apply Z.eqb_neq; lia)
            | replace (a =? b) with true by (symmetry; apply Z.eqb_eq; lia) ]
  end; cbn [andb orb].
