(* ===== verification/ResultCodes.v ===== *)
(** * Server result codes ([src/src/result_code.rs])

    The enum, the decoding of the status byte of a response and the text of
    each code.  Decoding is total and loses nothing: unassigned codes are kept
    in [Unknown]. *)

From stdpp Require Import base decidable strings.
From Stdlib Require Import ZArith Lia.
From S2P Require Import Prelude.

Module ResultCode.

(** [enum ResultCode]. *)
Inductive ResultCode : Type :=
| Ok
| ServerError
| KeyNotFoundError
| GenerationError
| ParameterError
| KeyExistsError
| BinExistsError
| ClusterKeyMismatch
| ServerMemError
| Timeout
| NoXds
| ServerNotAvailable
| BinTypeError
| RecordTooBig
| KeyBusy
| ScanAbort
| UnsupportedFeature
| BinNotFound
| DeviceOverload
| KeyMismatch
| InvalidNamespace
| BinNameTooLong
| FailForbidden
| ElementNotFound
| ElementExists
| EnterpriseOnly
| QueryEnd
| SecurityNotSupported
| SecurityNotEnabled
| SecuritySchemeNotSupported
| InvalidCommand
| InvalidField
| IllegalState
| InvalidUser
| UserAlreadyExists
| InvalidPassword
| ExpiredPassword
| ForbiddenPassword
| InvalidCredential
| InvalidRole
| RoleAlreadyExists
| InvalidPrivilege
| NotAuthenticated
| RoleViolation
| UdfBadResponse
| LargeItemNotFound
| BatchDisabled
| BatchMaxRequestsExceeded
| BatchQueuesFull
| IndexFound
| IndexNotFound
| IndexOom
| IndexNotReadable
| IndexGeneric
| IndexNameMaxLen
| IndexMaxCount
| QueryAborted
| QueryQueueFull
| QueryTimeout
| QueryGeneric
| QueryNetioErr
| QueryDuplicate
| Unknown (code : Z).

(** [ResultCode::from_u8], also [From<u8>]. *)
Definition from_u8 (n : Z) : ResultCode :=
  match n with
  | 0 => Ok
  | 1 => ServerError
  | 2 => KeyNotFoundError
  | 3 => GenerationError
  | 4 => ParameterError
  | 5 => KeyExistsError
  | 6 => BinExistsError
  | 7 => ClusterKeyMismatch
  | 8 => ServerMemError
  | 9 => Timeout
  | 10 => NoXds
  | 11 => ServerNotAvailable
  | 12 => BinTypeError
  | 13 => RecordTooBig
  | 14 => KeyBusy
  | 15 => ScanAbort
  | 16 => UnsupportedFeature
  | 17 => BinNotFound
  | 18 => DeviceOverload
  | 19 => KeyMismatch
  | 20 => InvalidNamespace
  | 21 => BinNameTooLong
  | 22 => FailForbidden
  | 23 => ElementNotFound
  | 24 => ElementExists
  | 25 => EnterpriseOnly
  | 50 => QueryEnd
  | 51 => SecurityNotSupported
  | 52 => SecurityNotEnabled
  | 53 => SecuritySchemeNotSupported
  | 54 => InvalidCommand
  | 55 => InvalidField
  | 56 => IllegalState
  | 60 => InvalidUser
  | 61 => UserAlreadyExists
  | 62 => InvalidPassword
  | 63 => ExpiredPassword
  | 64 => ForbiddenPassword
  | 65 => InvalidCredential
  | 70 => InvalidRole
  | 71 => RoleAlreadyExists
  | 72 => InvalidPrivilege
  | 80 => NotAuthenticated
  | 81 => RoleViolation
  | 100 => UdfBadResponse
  | 125 => LargeItemNotFound
  | 150 => BatchDisabled
  | 151 => BatchMaxRequestsExceeded
  | 152 => BatchQueuesFull
  | 200 => IndexFound
  | 201 => IndexNotFound
  | 202 => IndexOom
  | 203 => IndexNotReadable
  | 204 => IndexGeneric
  | 205 => IndexNameMaxLen
  | 206 => IndexMaxCount
  | 210 => QueryAborted
  | 211 => QueryQueueFull
  | 212 => QueryTimeout
  | 213 => QueryGeneric
  | 214 => QueryNetioErr
  | 215 => QueryDuplicate
  | code => Unknown code
  end.

(** The discriminant the server sends for a code; the inverse that
    [from_u8] is checked against. *)
Definition code_of (rc : ResultCode) : Z :=
  match rc with
  | Ok => 0
  | ServerError => 1
  | KeyNotFoundError => 2
  | GenerationError => 3
  | ParameterError => 4
  | KeyExistsError => 5
  | BinExistsError => 6
  | ClusterKeyMismatch => 7
  | ServerMemError => 8
  | Timeout => 9
  | NoXds => 10
  | ServerNotAvailable => 11
  | BinTypeError => 12
  | RecordTooBig => 13
  | KeyBusy => 14
  | ScanAbort => 15
  | UnsupportedFeature => 16
  | BinNotFound => 17
  | DeviceOverload => 18
  | KeyMismatch => 19
  | InvalidNamespace => 20
  | BinNameTooLong => 21
  | FailForbidden => 22
  | ElementNotFound => 23
  | ElementExists => 24
  | EnterpriseOnly => 25
  | QueryEnd => 50
  | SecurityNotSupported => 51
  | SecurityNotEnabled => 52
  | SecuritySchemeNotSupported => 53
  | InvalidCommand => 54
  | InvalidField => 55
  | IllegalState => 56
  | InvalidUser => 60
  | UserAlreadyExists => 61
  | InvalidPassword => 62
  | ExpiredPassword => 63
  | ForbiddenPassword => 64
  | InvalidCredential => 65
  | InvalidRole => 70
  | RoleAlreadyExists => 71
  | InvalidPrivilege => 72
  | NotAuthenticated => 80
  | RoleViolation => 81
  | UdfBadResponse => 100
  | LargeItemNotFound => 125
  | BatchDisabled => 150
  | BatchMaxRequestsExceeded => 151
  | BatchQueuesFull => 152
  | IndexFound => 200
  | IndexNotFound => 201
  | IndexOom => 202
  | IndexNotReadable => 203
  | IndexGeneric => 204
  | IndexNameMaxLen => 205
  | IndexMaxCount => 206
  | QueryAborted => 210
  | QueryQueueFull => 211
  | QueryTimeout => 212
  | QueryGeneric => 213
  | QueryNetioErr => 214
  | QueryDuplicate => 215
  | Unknown code => code
  end.

(** [ResultCode::into_string]. *)
Definition into_string (rc : ResultCode) : string :=
  (match rc with
  | Ok => "ok"
  | ServerError => "Server error"
  | KeyNotFoundError => "Key not found"
  | GenerationError => "Generation error"
  | ParameterError => "Parameter error"
  | KeyExistsError => "Key already exists"
  | BinExistsError => "Bin already exists"
  | ClusterKeyMismatch => "Cluster key mismatch"
  | ServerMemError => "Server memory error"
  | Timeout => "Timeout"
  | NoXds => "Xds not available"
  | ServerNotAvailable => "Server not available"
  | BinTypeError => "Bin type error"
  | RecordTooBig => "Record too big"
  | KeyBusy => "Hot key"
  | ScanAbort => "Scan aborted"
  | UnsupportedFeature => "Unsupported Server Feature"
  | BinNotFound => "Bin not found"
  | DeviceOverload => "Device overload"
  | KeyMismatch => "Key mismatch"
  | InvalidNamespace => "Namespace not found"
  | BinNameTooLong => "Bin name length greater than 14 characters"
  | FailForbidden => "OperationType not allowed at this time"
  | ElementNotFound => "Element not found"
  | ElementExists => "Element already exists"
  | EnterpriseOnly => "Enterprise-only feature not supported by community edition"
  | QueryEnd => "Query end"
  | SecurityNotSupported => "Security not supported"
  | SecurityNotEnabled => "Security not enabled"
  | SecuritySchemeNotSupported => "Security scheme not supported"
  | InvalidCommand => "Invalid command"
  | InvalidField => "Invalid field"
  | IllegalState => "Illegal state"
  | InvalidUser => "Invalid user"
  | UserAlreadyExists => "User already exists"
  | InvalidPassword => "Invalid password"
  | ExpiredPassword => "Expired password"
  | ForbiddenPassword => "Forbidden password"
  | InvalidCredential => "Invalid credential"
  | InvalidRole => "Invalid role"
  | RoleAlreadyExists => "Role already exists"
  | InvalidPrivilege => "Invalid privilege"
  | NotAuthenticated => "Not authenticated"
  | RoleViolation => "Role violation"
  | UdfBadResponse => "Udf returned error"
  | LargeItemNotFound => "Large collection item not found"
  | BatchDisabled => "Batch functionality has been disabled"
  | BatchMaxRequestsExceeded => "Batch max requests have been exceeded"
  | BatchQueuesFull => "All batch queues are full"
  | IndexFound => "Index already exists"
  | IndexNotFound => "Index not found"
  | IndexOom => "Index out of memory"
  | IndexNotReadable => "Index not readable"
  | IndexGeneric => "Index error"
  | IndexNameMaxLen => "Index name max length exceeded"
  | IndexMaxCount => "Index count exceeds max"
  | QueryAborted => "Query aborted"
  | QueryQueueFull => "Query queue full"
  | QueryTimeout => "Query timeout"
  | QueryGeneric => "Query error"
  | QueryNetioErr => "Query NetIo error on server"
  | QueryDuplicate => "Duplicate TaskId sent for the statement"
  | Unknown code => "Unknown server error code: " ++ dec_string code
  end)%string.

#[global] Instance ResultCode_eq_dec : EqDecision ResultCode.
Proof. solve_decision. Defined.

(** Every status byte decodes to a code with that discriminant. *)
Lemma code_of_from_u8 n : code_of (from_u8 n) = n.
Proof.
  unfold from_u8.
  repeat match goal with
  | |- context [match ?x with _ => _ end] => is_var x; destruct x
  end; reflexivity.
Qed.

Lemma from_u8_inj n m : from_u8 n = from_u8 m -> n = m.
Proof. intros H. rewrite <- (code_of_from_u8 n), H. apply code_of_from_u8. Qed.

Lemma from_u8_Ok n : from_u8 n = Ok <-> n = 0.
Proof.
  split; [|intros ->; reflexivity].
  intros H. rewrite <- (code_of_from_u8 n), H. reflexivity.
Qed.

Lemma from_u8_KeyNotFound n : from_u8 n = KeyNotFoundError <-> n = 2.
Proof.
  split; [|intros ->; reflexivity].
  intros H. rewrite <- (code_of_from_u8 n), H. reflexivity.
Qed.

End ResultCode.

Abbreviation ResultCode := ResultCode.ResultCode.
