(* ===== verification/Monad.v ===== *)
(** * Fallible stateful computations

    [Result<T>] functions on a mutable receiver are state transformers with
    four outcomes: [Ok], [Err] (keeping the state reached, which callers that
    discard an error go on with), a panic, and the exhaustion of the fuel that
    bounds a loop of the model.  Arithmetic follows the overflow-checked
    profile: an unsigned subtraction below zero panics. *)

From stdpp Require Import base list strings.
From Stdlib Require Import ZArith Lia Setoid Morphisms.
From S2P Require Import Prelude ResultCodes.

(** [errors.rs]: the error kinds.  A formatted message is represented by its
    format string. *)
Inductive ErrorKind : Type :=
| Base64Error
| InvalidUtf8
| Io
| MpscRecv
| ParseAddr
| ParseInt
| PwHash
| BadResponse (details : string)
| ConnectionError (details : string)
| InvalidArgument (details : string)
| InvalidNode (details : string)
| NoMoreConnections
| ServerError (rc : ResultCode)
| UdfBadResponse (details : bytes)
| TimeoutError (details : string)
| Msg (details : string).

Inductive outcome (S A : Type) : Type :=
| Ret (a : A) (s : S)
| Throw (e : ErrorKind) (s : S)
| Panic
| NoFuel.

Arguments Ret {S A} a s.
Arguments Throw {S A} e s.
Arguments Panic {S A}.
Arguments NoFuel {S A}.

Definition M (S A : Type) : Type := S -> outcome S A.

Definition ret {S A} (a : A) : M S A := fun s => Ret a s.

Definition throw {S A} (e : ErrorKind) : M S A := fun s => Throw e s.

Definition panic {S A} : M S A := fun _ => Panic.

Definition no_fuel {S A} : M S A := fun _ => NoFuel.

Definition get {S} : M S S := fun s => Ret s s.

Definition put {S} (s' : S) : M S unit := fun _ => Ret tt s'.

Definition bind {S A B} (m : M S A) (k : A -> M S B) : M S B :=
  fun s =>
    match m s with
    | Ret a s' => k a s'
    | Throw e s' => Throw e s'
    | Panic => Panic
    | NoFuel => NoFuel
    end.

(** [let _ = m;]: the error is dropped, the state it left is kept. *)
Definition discard {S A} (m : M S A) : M S unit :=
  fun s =>
    match m s with
    | Ret _ s' | Throw _ s' => Ret tt s'
    | Panic => Panic
    | NoFuel => NoFuel
    end.

(** A [match] on the result of a call. *)
Definition catch {S A} (m : M S A) : M S (A + ErrorKind) :=
  fun s =>
    match m s with
    | Ret a s' => Ret (inl a) s'
    | Throw e s' => Ret (inr e) s'
    | Panic => Panic
    | NoFuel => NoFuel
    end.

(** A method on one component of the state. *)
Definition on_fst {S1 S2 A} (m : M S1 A) : M (S1 * S2) A :=
  fun s =>
    match m (fst s) with
    | Ret a s' => Ret a (s', snd s)
    | Throw e s' => Throw e (s', snd s)
    | Panic => Panic
    | NoFuel => NoFuel
    end.

Definition on_snd {S1 S2 A} (m : M S2 A) : M (S1 * S2) A :=
  fun s =>
    match m (snd s) with
    | Ret a s' => Ret a (fst s, s')
    | Throw e s' => Throw e (fst s, s')
    | Panic => Panic
    | NoFuel => NoFuel
    end.

Definition when {S} (b : bool) (m : M S unit) : M S unit :=
  if b then m else ret tt.

Declare Scope m_scope.
Delimit Scope m_scope with m.
Notation "'let!' x := m 'in' k" := (bind m (fun x => k))
  (at level 10, x pattern, m at level 100, k at level 200) : m_scope.
Notation "m ;;; k" := (bind m (fun _ => k))
  (at level 100, right associativity) : m_scope.
#[global] Open Scope m_scope.

(** An [Option] whose absence panics: [unwrap], indexing. *)
Definition unwrap {S A} (o : option A) : M S A :=
  match o with Some a => ret a | None => panic end.

(** [a - b] on [usize]. *)
Definition usize_sub {S} (a b : Z) : M S Z :=
  if b <=? a then ret (a - b) else panic.

(** A [usize] sum or product that may exceed the word. *)
Definition usize_checked {S} (v : Z) : M S Z :=
  if v <? 2 ^ 64 then ret v else panic.

(** [for x in l]. *)
Fixpoint for_each {S A} (l : list A) (f : A -> M S unit) : M S unit :=
  match l with
  | [] => ret tt
  | x :: l' => f x ;;; for_each l' f
  end.

(** [for _ in 0..count], collecting the results; the fuel bounds the number
    of iterations. *)
Fixpoint repeat_m {S A} (fuel : nat) (count : Z) (f : M S A) : M S (list A) :=
  if count <=? 0 then ret []
  else
    match fuel with
    | O => no_fuel
    | Datatypes.S fuel' =>
        let! x := f in
        let! xs := repeat_m fuel' (count - 1) f in
        ret (x :: xs)
    end.

(** [for _ in 0..n] with a loop state. *)
Fixpoint for_range {S B} (n : nat) (f : B -> M S B) (acc : B) : M S B :=
  match n with
  | O => ret acc
  | Datatypes.S n' => let! acc' := f acc in for_range n' f acc'
  end.

(** ** Equality of computations

    Two computations are equal when they have the same outcome in every
    state. *)

Definition meq {S A} (m1 m2 : M S A) : Prop := forall s, m1 s = m2 s.

Infix "≈" := meq (at level 70) : m_scope.

#[export] Instance meq_equiv {S A} : Equivalence (@meq S A).
Proof. split; unfold meq; repeat intro; congruence. Qed.

#[export] Instance bind_proper {S A B} :
  Proper (meq ==> pointwise_relation A meq ==> meq) (@bind S A B).
Proof.
  intros m1 m2 Hm k1 k2 Hk s. unfold bind. rewrite Hm.
  destruct (m2 s); try reflexivity. apply Hk.
Qed.

#[export] Instance discard_proper {S A} :
  Proper (meq ==> meq) (@discard S A).
Proof. intros m1 m2 Hm s. unfold discard. rewrite Hm. reflexivity. Qed.

Lemma bind_ret_l {S A B} (a : A) (k : A -> M S B) : bind (ret a) k ≈ k a.
Proof. intros s. reflexivity. Qed.

Lemma bind_ret_r {S A} (m : M S A) : bind m ret ≈ m.
Proof. intros s. unfold bind, ret. destruct (m s); reflexivity. Qed.

Lemma bind_assoc {S A B C} (m : M S A) (k : A -> M S B) (h : B -> M S C) :
  bind (bind m k) h ≈ bind m (fun a => bind (k a) h).
Proof. intros s. unfold bind. destruct (m s); reflexivity. Qed.

Lemma bind_panic {S A B} (k : A -> M S B) : bind panic k ≈ panic.
Proof. intros s. reflexivity. Qed.

Lemma bind_throw {S A B} e (k : A -> M S B) : bind (throw e) k ≈ throw e.
Proof. intros s. reflexivity. Qed.

(** Unfolding one step of a computation at a given state. *)
Lemma bind_Ret {S A B} (m : M S A) (k : A -> M S B) s a s' :
  m s = Ret a s' -> bind m k s = k a s'.
Proof. intros H. unfold bind. rewrite H. reflexivity. Qed.

Lemma bind_Ret_inv {S A B} (m : M S A) (k : A -> M S B) s b s' :
  bind m k s = Ret b s' -> exists a s1, m s = Ret a s1 /\ k a s1 = Ret b s'.
Proof. unfold bind. destruct (m s) as [a s1|? ?| |]; try discriminate. eauto. Qed.

Create Rewrite HintDb monad.
#[export] Hint Rewrite @bind_ret_l @bind_ret_r @bind_assoc @bind_panic
  @bind_throw : monad.
