(* ===== verification/Invariants.v ===== *)
(** * Reasoning about what a computation keeps

    [stays R m]: every result of [m], an error too, leaves a state that is
    related by [R] to the one before, for a preorder [R].  [holds P m Q]: from a
    state in [P], a value leaves a state in [Q], and an error one in [P].  A
    panic ends the thread, so nothing is claimed of the state after it. *)

From stdpp Require Import base list strings.
From Stdlib Require Import ZArith Lia.
From S2P Require Import Prelude ResultCodes Monad.

Definition stays {S A} (R : relation S) (m : M S A) : Prop :=
  forall s, match m s with Ret _ s' | Throw _ s' => R s s' | _ => True end.

Section Stays.
Context {S : Type} (R : relation S) `{!PreOrder R}.

Lemma stays_ret {A} (a : A) : stays R (ret a).
Proof. intros s. cbn. reflexivity. Qed.

Lemma stays_throw {A} e : stays R (throw (A := A) e).
Proof. intros s. cbn. reflexivity. Qed.

Lemma stays_panic {A} : stays R (panic (A := A)).
Proof. intros s. exact I. Qed.

Lemma stays_no_fuel {A} : stays R (no_fuel (A := A)).
Proof. intros s. exact I. Qed.

Lemma stays_get : stays R get.
Proof. intros s. cbn. reflexivity. Qed.

Lemma stays_unwrap {A} (o : option A) : stays R (unwrap o).
Proof. destruct o; [apply stays_ret|apply stays_panic]. Qed.

Lemma stays_usize_checked v : stays R (usize_checked v).
Proof. unfold usize_checked. destruct (v <? 2 ^ 64); [apply stays_ret|apply stays_panic]. Qed.

Lemma stays_usize_sub a b : stays R (usize_sub a b).
Proof. unfold usize_sub. destruct (b <=? a); [apply stays_ret|apply stays_panic]. Qed.

Lemma stays_bind {A B} (m : M S A) (k : A -> M S B) :
  stays R m -> (forall a, stays R (k a)) -> stays R (bind m k).
Proof.
  intros Hm Hk s. specialize (Hm s). unfold bind. destruct (m s) as [a s'|e s'| |]; auto.
  specialize (Hk a s'). destruct (k a s'); auto; etransitivity; eassumption.
Qed.

Lemma stays_catch {A} (m : M S A) : stays R m -> stays R (catch m).
Proof. intros Hm s. specialize (Hm s). unfold catch. destruct (m s); exact Hm. Qed.

Lemma stays_discard {A} (m : M S A) : stays R m -> stays R (discard m).
Proof. intros Hm s. specialize (Hm s). unfold discard. destruct (m s); exact Hm. Qed.

Lemma stays_when b (m : M S unit) : stays R m -> stays R (when b m).
Proof. destruct b; [auto|intros _; apply stays_ret]. Qed.

Lemma stays_for_each {A} (l : list A) (f : A -> M S unit) :
  (forall x, stays R (f x)) -> stays R (for_each l f).
Proof.
  intros Hf. induction l as [|x l IH]; [apply stays_ret|].
  apply stays_bind; [apply Hf|intros _; exact IH].
Qed.

End Stays.

Lemma stays_on_fst {S1 S2 A} (R : relation (S1 * S2)) (m : M S1 A) :
  (forall s2, stays (fun s s' => R (s, s2) (s', s2)) m) -> stays R (on_fst m).
Proof.
  intros Hm [s1 s2]. specialize (Hm s2 s1). unfold on_fst. cbn. destruct (m s1); exact Hm.
Qed.

Lemma stays_on_snd {S1 S2 A} (R : relation (S1 * S2)) (m : M S2 A) :
  (forall s1, stays (fun s s' => R (s1, s) (s1, s')) m) -> stays R (on_snd m).
Proof.
  intros Hm [s1 s2]. specialize (Hm s1 s2). unfold on_snd. cbn. destruct (m s2); exact Hm.
Qed.

Lemma stays_proper {S A} (R : relation S) (m1 m2 : M S A) :
  m1 ≈ m2 -> stays R m1 -> stays R m2.
Proof. intros H Hm s. rewrite <- (H s). apply Hm. Qed.

(** Two states that agree on an observation. *)
Definition agree {S O} (f : S -> O) : relation S := fun s s' => f s' = f s.

#[export] Instance agree_preorder {S O} (f : S -> O) : PreOrder (agree f).
Proof. split; unfold agree; [intros s; reflexivity|intros s1 s2 s3 H1 H2; congruence]. Qed.

Create HintDb stays.
#[export] Hint Resolve stays_ret stays_throw stays_panic stays_no_fuel stays_get stays_unwrap
  stays_usize_checked stays_usize_sub stays_bind stays_catch stays_discard stays_when
  stays_for_each stays_on_fst stays_on_snd : stays.

(** ** Invariants with a postcondition *)

Definition holds {S A} (P : S -> Prop) (m : M S A) (Q : A -> S -> Prop) : Prop :=
  forall s, P s -> match m s with Ret a s' => Q a s' | Throw _ s' => P s' | _ => True end.

Section Holds.
Context {S : Type} (P : S -> Prop).

Lemma holds_ret {A} (a : A) (Q : A -> S -> Prop) :
  (forall s, P s -> Q a s) -> holds P (ret a) Q.
Proof. intros H s Hs. apply H, Hs. Qed.

Lemma holds_throw {A} e (Q : A -> S -> Prop) : holds P (throw e) Q.
Proof. intros s Hs. exact Hs. Qed.

Lemma holds_panic {A} (Q : A -> S -> Prop) : holds P panic Q.
Proof. intros s Hs. exact I. Qed.

Lemma holds_unwrap {A} (o : option A) (Q : A -> S -> Prop) :
  (forall a s, o = Some a -> P s -> Q a s) -> holds P (unwrap o) Q.
Proof.
  intros H. destruct o; [apply holds_ret; intros; apply H; auto|apply holds_panic].
Qed.

(** The invariant is kept between the two halves: [Q] says what more is known. *)
Lemma holds_bind {A B} (m : M S A) (k : A -> M S B) (Q1 : A -> S -> Prop) Q :
  holds P m (fun a s => P s /\ Q1 a s) ->
  (forall a s, P s -> Q1 a s -> match k a s with
                                | Ret b s' => Q b s' | Throw _ s' => P s' | _ => True end) ->
  holds P (bind m k) Q.
Proof.
  intros Hm Hk s Hs. specialize (Hm s Hs). unfold bind. destruct (m s); auto.
  destruct Hm. apply Hk; assumption.
Qed.

Lemma holds_weaken {A} (m : M S A) (Q Q' : A -> S -> Prop) :
  holds P m Q -> (forall a s, Q a s -> Q' a s) -> holds P m Q'.
Proof. intros Hm H s Hs. specialize (Hm s Hs). destruct (m s); auto. Qed.

End Holds.

(** ** Computations that end *)

(** [m] never runs out of the fuel of its loops. *)
Definition terminates {S A} (m : M S A) : Prop := forall s, m s <> NoFuel.

Lemma terminates_ret {S A} (a : A) : terminates (S := S) (ret a).
Proof. intros s. discriminate. Qed.

Lemma terminates_throw {S A} e : terminates (S := S) (A := A) (throw e).
Proof. intros s. discriminate. Qed.

Lemma terminates_panic {S A} : terminates (S := S) (A := A) panic.
Proof. intros s. discriminate. Qed.

Lemma terminates_get {S} : terminates (S := S) get.
Proof. intros s. discriminate. Qed.

Lemma terminates_put {S} (s : S) : terminates (put s).
Proof. intros s'. discriminate. Qed.

Lemma terminates_unwrap {S A} (o : option A) : terminates (S := S) (unwrap o).
Proof. destruct o; discriminate. Qed.

Lemma terminates_usize_checked {S} v : terminates (S := S) (usize_checked v).
Proof. unfold usize_checked. destruct (v <? 2 ^ 64); discriminate. Qed.

Lemma terminates_usize_sub {S} a b : terminates (S := S) (usize_sub a b).
Proof. unfold usize_sub. destruct (b <=? a); discriminate. Qed.

Lemma terminates_bind {S A B} (m : M S A) (k : A -> M S B) :
  terminates m -> (forall a, terminates (k a)) -> terminates (bind m k).
Proof.
  intros Hm Hk s. specialize (Hm s). unfold bind. destruct (m s); try congruence; apply Hk.
Qed.

Lemma terminates_catch {S A} (m : M S A) : terminates m -> terminates (catch m).
Proof. intros Hm s. specialize (Hm s). unfold catch. destruct (m s); congruence. Qed.

Lemma terminates_discard {S A} (m : M S A) : terminates m -> terminates (discard m).
Proof. intros Hm s. specialize (Hm s). unfold discard. destruct (m s); congruence. Qed.

Lemma terminates_when {S} b (m : M S unit) : terminates m -> terminates (when b m).
Proof. destruct b; [auto|intros _; apply terminates_ret]. Qed.

Lemma terminates_for_each {S A} (l : list A) (f : A -> M S unit) :
  (forall x, terminates (f x)) -> terminates (for_each l f).
Proof.
  intros Hf. induction l as [|x l IH]; [apply terminates_ret|].
  apply terminates_bind; [apply Hf|intros _; exact IH].
Qed.

Lemma terminates_on_fst {S1 S2 A} (m : M S1 A) :
  terminates m -> terminates (on_fst (S2 := S2) m).
Proof. intros Hm [s1 s2]. specialize (Hm s1). unfold on_fst. cbn. destruct (m s1); congruence. Qed.

Lemma terminates_on_snd {S1 S2 A} (m : M S2 A) :
  terminates m -> terminates (on_snd (S1 := S1) m).
Proof. intros Hm [s1 s2]. specialize (Hm s2). unfold on_snd. cbn. destruct (m s2); congruence. Qed.

Create HintDb terminates.
#[export] Hint Resolve terminates_ret terminates_throw terminates_panic terminates_get
  terminates_put terminates_unwrap terminates_usize_checked terminates_usize_sub
  terminates_bind terminates_catch terminates_discard terminates_when terminates_for_each
  terminates_on_fst terminates_on_snd : terminates.

(** Straight-line code, with the branches of its conditionals. *)
Ltac terminates :=
  repeat first
    [ progress intros
    | solve [auto with terminates]
    | apply terminates_bind | apply terminates_catch | apply terminates_when
    | apply terminates_on_fst | apply terminates_on_snd | apply terminates_for_each
    | case_match ].
