(* ===== verification/Wire.v ===== *)
(** * Wire-protocol enumerations

    [ParticleType] ([commands/particle_type.rs]), [FieldType]
    ([commands/field_type.rs]) and [OperationType] ([operations/mod.rs]) with
    their discriminants ([as u8]). *)

From stdpp Require Import base decidable.
From Stdlib Require Import ZArith Lia.
From S2P Require Import Prelude.

Module ParticleType.

(** [enum ParticleType]. *)
Inductive ParticleType : Type :=
| NULL
| INTEGER
| FLOAT
| STRING
| BLOB
| DIGEST
| BOOL
| HLL
| MAP
| LIST
| LDT
| GEOJSON.

(** [t as u8]. *)
Definition to_u8 (t : ParticleType) : Z :=
  match t with
  | NULL => 0
  | INTEGER => 1
  | FLOAT => 2
  | STRING => 3
  | BLOB => 4
  | DIGEST => 6
  | BOOL => 17
  | HLL => 18
  | MAP => 19
  | LIST => 20
  | LDT => 21
  | GEOJSON => 23
  end.

(** [From<u8> for ParticleType]; [None] is the [unreachable!()] arm. *)
Definition from_u8 (val : Z) : option ParticleType :=
  match val with
  | 0 => Some NULL
  | 1 => Some INTEGER
  | 2 => Some FLOAT
  | 3 => Some STRING
  | 4 => Some BLOB
  | 6 => Some DIGEST
  | 17 => Some BOOL
  | 18 => Some HLL
  | 19 => Some MAP
  | 20 => Some LIST
  | 21 => Some LDT
  | 23 => Some GEOJSON
  | _ => None
  end.

#[global] Instance ParticleType_eq_dec : EqDecision ParticleType.
Proof. solve_decision. Defined.

Lemma particle_from_to t : from_u8 (to_u8 t) = Some t.
Proof. destruct t; reflexivity. Qed.

Lemma particle_to_byte t : is_byte (to_u8 t).
Proof. destruct t; unfold is_byte; cbn; lia. Qed.

End ParticleType.

Abbreviation ParticleType := ParticleType.ParticleType.

Module FieldType.

(** [enum FieldType]. *)
Inductive FieldType : Type :=
| Namespace
| Table
| Key
| DigestRipe
| TranId
| ScanTimeout
| PIDArray
| IndexName
| IndexRange
| IndexType
| UdfPackageName
| UdfFunction
| UdfArgList
| UdfOp
| QueryBinList
| BatchIndex
| BatchIndexWithSet
| FilterExp.

(** [t as u8]. *)
Definition to_u8 (t : FieldType) : Z :=
  match t with
  | Namespace => 0
  | Table => 1
  | Key => 2
  | DigestRipe => 4
  | TranId => 7
  | ScanTimeout => 9
  | PIDArray => 11
  | IndexName => 21
  | IndexRange => 22
  | IndexType => 26
  | UdfPackageName => 30
  | UdfFunction => 31
  | UdfArgList => 32
  | UdfOp => 33
  | QueryBinList => 40
  | BatchIndex => 41
  | BatchIndexWithSet => 42
  | FilterExp => 43
  end.

#[global] Instance FieldType_eq_dec : EqDecision FieldType.
Proof. solve_decision. Defined.

Lemma field_to_byte t : is_byte (to_u8 t).
Proof. destruct t; unfold is_byte; cbn; lia. Qed.

Lemma field_to_u8_inj t u : to_u8 t = to_u8 u -> t = u.
Proof. destruct t, u; cbn; congruence. Qed.

End FieldType.

Abbreviation FieldType := FieldType.FieldType.

Module OperationType.

(** [enum OperationType]. *)
Inductive OperationType : Type :=
| Read
| Write
| CdtRead
| CdtWrite
| Incr
| ExpRead
| ExpWrite
| Append
| Prepend
| Touch
| BitRead
| BitWrite
| Delete
| HllRead
| HllWrite.

(** [t as u8]. *)
Definition to_u8 (t : OperationType) : Z :=
  match t with
  | Read => 1
  | Write => 2
  | CdtRead => 3
  | CdtWrite => 4
  | Incr => 5
  | ExpRead => 7
  | ExpWrite => 8
  | Append => 9
  | Prepend => 10
  | Touch => 11
  | BitRead => 12
  | BitWrite => 13
  | Delete => 14
  | HllRead => 15
  | HllWrite => 16
  end.

#[global] Instance OperationType_eq_dec : EqDecision OperationType.
Proof. solve_decision. Defined.

Lemma operation_to_byte t : is_byte (to_u8 t).
Proof. destruct t; unfold is_byte; cbn; lia. Qed.

Lemma operation_to_u8_inj t u : to_u8 t = to_u8 u -> t = u.
Proof. destruct t, u; cbn; congruence. Qed.

End OperationType.

Abbreviation OperationType := OperationType.OperationType.
