(* ===== verification/ByteOrder.v ===== *)
(** * The byteorder interface

    The client serialises integers with the [byteorder] crate.  The crate is
    an interface here: a class of its operations with the documented equations
    (network order is most significant byte first, little endian least
    significant byte first).  Every component that touches the wire is stated
    against the class; [byteorder_model] shows that it can be implemented. *)

From stdpp Require Import base list.
From Stdlib Require Import ZArith Lia.
From S2P Require Import Prelude.

Class ByteOrder := {
  (** [NetworkEndian::write_uN] on [n] bytes, [NetworkEndian::read_uN]. *)
  write_be : nat -> Z -> bytes;
  read_be : bytes -> Z;
  (** [LittleEndian::write_uN] on [n] bytes, [read_uN::<LittleEndian>]. *)
  write_le : nat -> Z -> bytes;
  read_le : bytes -> Z;
  write_be_0 v : write_be 0 v = [];
  write_be_S n v :
    write_be (S n) v = (v / 2 ^ (8 * Z.of_nat n)) mod 256 :: write_be n v;
  read_be_nil : read_be [] = 0;
  read_be_cons b bs : read_be (b :: bs) = b * 2 ^ (8 * len bs) + read_be bs;
  write_le_0 v : write_le 0 v = [];
  write_le_S n v : write_le (S n) v = v mod 256 :: write_le n (v / 256);
  read_le_nil : read_le [] = 0;
  read_le_cons b bs : read_le (b :: bs) = b + 256 * read_le bs
}.

Fixpoint be_bytes (n : nat) (v : Z) : bytes :=
  match n with
  | O => []
  | S n' => (v / 2 ^ (8 * Z.of_nat n')) mod 256 :: be_bytes n' v
  end.

Fixpoint be_value (bs : bytes) : Z :=
  match bs with
  | [] => 0
  | b :: bs' => b * 2 ^ (8 * len bs') + be_value bs'
  end.

Fixpoint le_bytes (n : nat) (v : Z) : bytes :=
  match n with
  | O => []
  | S n' => v mod 256 :: le_bytes n' (v / 256)
  end.

Fixpoint le_value (bs : bytes) : Z :=
  match bs with
  | [] => 0
  | b :: bs' => b + 256 * le_value bs'
  end.

(** A concrete implementation of the interface. *)
#[refine] Instance byteorder_model : ByteOrder := {|
  write_be := be_bytes;
  read_be := be_value;
  write_le := le_bytes;
  read_le := le_value
|}.
Proof. all: reflexivity. Defined.

Section Laws.
Context `{BO : ByteOrder}.

Lemma length_write_be n v : length (write_be n v) = n.
Proof. induction n; rewrite ?write_be_0, ?write_be_S; cbn; congruence. Qed.

Lemma len_write_be n v : len (write_be n v) = Z.of_nat n.
Proof. unfold len. rewrite length_write_be. reflexivity. Qed.

Lemma length_write_le n v : length (write_le n v) = n.
Proof.
  revert v. induction n; intros; rewrite ?write_le_0, ?write_le_S; cbn;
    congruence.
Qed.

Lemma len_write_le n v : len (write_le n v) = Z.of_nat n.
Proof. unfold len. rewrite length_write_le. reflexivity. Qed.

Lemma write_be_bytes n v : all_bytes (write_be n v).
Proof.
  induction n; rewrite ?write_be_0, ?write_be_S; constructor; auto.
  unfold is_byte. apply Z.mod_pos_bound. lia.
Qed.

Lemma write_le_bytes n v : all_bytes (write_le n v).
Proof.
  revert v. induction n; intros; rewrite ?write_le_0, ?write_le_S;
    constructor; auto.
  unfold is_byte. apply Z.mod_pos_bound. lia.
Qed.

Lemma pow_8_S n : 2 ^ (8 * Z.of_nat (S n)) = 256 * 2 ^ (8 * Z.of_nat n).
Proof.
  replace (8 * Z.of_nat (S n)) with (8 + 8 * Z.of_nat n) by lia.
  rewrite Z.pow_add_r by lia. reflexivity.
Qed.

(** Reading back what was written gives the value modulo the width. *)
Lemma read_write_be_mod n v :
  read_be (write_be n v) = v mod 2 ^ (8 * Z.of_nat n).
Proof.
  induction n as [|n IH].
  - rewrite write_be_0, read_be_nil. symmetry. apply Z.mod_1_r.
  - rewrite write_be_S, read_be_cons, len_write_be, IH, pow_8_S.
    set (p := 2 ^ (8 * Z.of_nat n)).
    assert (0 < p) by (apply Z.pow_pos_nonneg; lia).
    rewrite (Z.mul_comm 256 p), Z.rem_mul_r by lia. lia.
Qed.

Lemma read_write_le_mod n v :
  read_le (write_le n v) = v mod 2 ^ (8 * Z.of_nat n).
Proof.
  revert v. induction n as [|n IH]; intros v.
  - rewrite write_le_0, read_le_nil. symmetry. apply Z.mod_1_r.
  - rewrite write_le_S, read_le_cons, IH, pow_8_S.
    rewrite Z.rem_mul_r by (try apply Z.pow_pos_nonneg; lia). lia.
Qed.

Lemma read_write_be n v :
  in_u (8 * Z.of_nat n) v -> read_be (write_be n v) = v.
Proof. intros H. rewrite read_write_be_mod. apply Z.mod_small, H. Qed.

Lemma read_write_le n v :
  in_u (8 * Z.of_nat n) v -> read_le (write_le n v) = v.
Proof. intros H. rewrite read_write_le_mod. apply Z.mod_small, H. Qed.

Lemma read_be_range bs : all_bytes bs -> in_u (8 * len bs) (read_be bs).
Proof.
  induction 1 as [|b bs Hb _ IH]; unfold in_u in *.
  - rewrite read_be_nil. change (2 ^ (8 * len [])) with 1. lia.
  - rewrite read_be_cons, len_cons.
    replace (8 * (1 + len bs)) with (8 + 8 * len bs) by lia.
    rewrite Z.pow_add_r by (pose proof (len_nonneg bs); lia).
    unfold is_byte in Hb. change (2 ^ 8) with 256.
    set (p := 2 ^ (8 * len bs)) in *.
    pose proof (Z.mul_le_mono_nonneg_r b 255 p).
    pose proof (Z.mul_nonneg_nonneg b p). lia.
Qed.

Lemma read_le_range bs : all_bytes bs -> in_u (8 * len bs) (read_le bs).
Proof.
  induction 1 as [|b bs Hb _ IH]; unfold in_u in *.
  - rewrite read_le_nil. change (2 ^ (8 * len [])) with 1. lia.
  - rewrite read_le_cons, len_cons.
    replace (8 * (1 + len bs)) with (8 + 8 * len bs) by lia.
    rewrite Z.pow_add_r by (pose proof (len_nonneg bs); lia).
    unfold is_byte in Hb. change (2 ^ 8) with 256.
    set (p := 2 ^ (8 * len bs)) in *.
    pose proof (Z.mul_le_mono_nonneg_r b 255 p).
    pose proof (Z.mul_nonneg_nonneg b p). lia.
Qed.

(** Only the value modulo the width is written. *)
Lemma write_be_mod n m v :
  (n <= m)%nat -> write_be n (v mod 2 ^ (8 * Z.of_nat m)) = write_be n v.
Proof.
  intros Hm. induction n as [|n IH].
  - rewrite !write_be_0. reflexivity.
  - rewrite !write_be_S, IH by lia. f_equal.
    replace (8 * Z.of_nat m)
      with (8 * Z.of_nat n + (8 + 8 * Z.of_nat (m - S n))) by lia.
    rewrite !Z.pow_add_r by lia.
    set (p := 2 ^ (8 * Z.of_nat n)). set (q := 2 ^ (8 * Z.of_nat (m - S n))).
    assert (0 < p) by (apply Z.pow_pos_nonneg; lia).
    assert (0 < q) by (apply Z.pow_pos_nonneg; lia).
    change (2 ^ 8) with 256.
    rewrite (Z.rem_mul_r v p (256 * q)) by lia.
    rewrite Z.add_comm, (Z.mul_comm p), Z.div_add_l by lia.
    rewrite (Z.div_small (v mod p)) by (apply Z.mod_pos_bound; lia).
    rewrite Z.add_0_r, Z.rem_mul_r by lia.
    rewrite (Z.mul_comm 256), Z_mod_plus_full.
    apply Z.mod_mod. lia.
Qed.

Lemma write_be_u16 v : write_be 2 (as_u16 v) = write_be 2 v.
Proof. apply (write_be_mod 2 2). lia. Qed.

Lemma write_be_u32 v : write_be 4 (as_u32 v) = write_be 4 v.
Proof. apply (write_be_mod 4 4). lia. Qed.

Lemma write_be4_inj x y :
  0 <= x < 2 ^ 32 -> 0 <= y < 2 ^ 32 -> write_be 4 x = write_be 4 y -> x = y.
Proof.
  intros Hx Hy E. apply (f_equal read_be) in E. rewrite !read_write_be_mod in E.
  change (8 * Z.of_nat 4) with 32 in E. rewrite !Z.mod_small in E; lia.
Qed.

Lemma write_be_inj n v w :
  in_u (8 * Z.of_nat n) v -> in_u (8 * Z.of_nat n) w ->
  write_be n v = write_be n w -> v = w.
Proof.
  intros Hv Hw H. rewrite <- (read_write_be n v Hv), H.
  apply read_write_be, Hw.
Qed.

End Laws.

#[export] Hint Rewrite @len_write_be @len_write_le : sizes.
