(* ===== verification/Slices.v ===== *)
(** * Indexing and slicing of byte vectors

    Rust's checked indexing ([v[i]], [&v[a..b]], writes through
    [&mut v[a..b]]), with the framing lemmas every buffer operation uses. *)

From stdpp Require Import base list.
From Stdlib Require Import ZArith Lia.
From S2P Require Import Prelude.

(** The bounds check of [v[a..b]]. *)
Definition slice_ok (d : bytes) (a b : Z) : bool :=
  (0 <=? a) && (a <=? b) && (b <=? len d).

(** [&v[a..b]]; [None] is the out-of-range panic. *)
Definition slice (d : bytes) (a b : Z) : option bytes :=
  if slice_ok d a b
  then Some (take (Z.to_nat (b - a)) (drop (Z.to_nat a) d))
  else None.

(** [v[i]]. *)
Definition index (d : bytes) (i : Z) : option Z :=
  if i <? 0 then None else d !! Z.to_nat i.

(** Overwriting [&mut v[a..a + |bs|]] with [bs]. *)
Definition splice (d : bytes) (a : Z) (bs : bytes) : bytes :=
  take (Z.to_nat a) d ++ bs ++ drop (Z.to_nat (a + len bs)) d.

(** [Vec::resize(n, 0)]. *)
Definition vec_resize (n : Z) (d : bytes) : bytes := resize (Z.to_nat n) 0 d.

Lemma slice_ok_spec d a b :
  slice_ok d a b = true <-> 0 <= a <= b /\ b <= len d.
Proof. unfold slice_ok. rewrite !andb_true_iff, !Z.leb_le. lia. Qed.

(** A range inside the vector cuts it in three. *)
Lemma slice_split d a n :
  0 <= a -> 0 <= n -> a + n <= len d ->
  exists l1 mid l2 : bytes, d = l1 ++ mid ++ l2 /\ len l1 = a /\ len mid = n.
Proof.
  unfold len. intros Ha Hn Hd.
  exists (take (Z.to_nat a) d), (take (Z.to_nat n) (drop (Z.to_nat a) d)),
    (drop (Z.to_nat n) (drop (Z.to_nat a) d)).
  rewrite !take_drop. split; [reflexivity|].
  rewrite !length_take, length_drop. lia.
Qed.

Lemma slice_ok_app (l1 mid l2 : bytes) b :
  b = len l1 + len mid ->
  slice_ok (l1 ++ mid ++ l2) (len l1) b = true.
Proof.
  intros ->. apply slice_ok_spec. rewrite !len_app.
  pose proof (len_nonneg l1). pose proof (len_nonneg mid).
  pose proof (len_nonneg l2). lia.
Qed.

Lemma slice_app (l1 mid l2 : bytes) b :
  b = len l1 + len mid ->
  slice (l1 ++ mid ++ l2) (len l1) b = Some mid.
Proof.
  intros Hb. unfold slice. rewrite slice_ok_app by exact Hb. subst b.
  unfold len. rewrite Nat2Z.id, (drop_app_length l1).
  replace (Z.to_nat _) with (length mid) by lia.
  rewrite (take_app_length mid). reflexivity.
Qed.

Lemma splice_app (l1 mid l2 bs : bytes) :
  len mid = len bs ->
  splice (l1 ++ mid ++ l2) (len l1) bs = l1 ++ bs ++ l2.
Proof.
  unfold splice, len. intros H. rewrite Nat2Z.id, (take_app_length l1).
  replace (Z.to_nat _) with (length (l1 ++ mid)) by (rewrite length_app; lia).
  rewrite (app_assoc l1 mid l2), (drop_app_length (l1 ++ mid)). reflexivity.
Qed.

Lemma index_app (l1 l2 : bytes) x : index (l1 ++ x :: l2) (len l1) = Some x.
Proof.
  unfold index, len. destruct (Z.ltb_spec (Z.of_nat (length l1)) 0); [lia|].
  rewrite Nat2Z.id. apply list_lookup_middle. reflexivity.
Qed.

Lemma index_out d i : len d <= i -> index d i = None.
Proof.
  unfold index, len. intros H. destruct (Z.ltb_spec i 0); [lia|].
  apply lookup_ge_None_2. lia.
Qed.

Lemma index_in d i : 0 <= i < len d -> exists x, index d i = Some x.
Proof.
  unfold index, len. intros H. destruct (Z.ltb_spec i 0); [lia|].
  apply lookup_lt_is_Some_2. lia.
Qed.

Lemma len_splice d a bs :
  0 <= a -> a + len bs <= len d -> len (splice d a bs) = len d.
Proof.
  intros Ha H. pose proof (len_nonneg bs).
  destruct (slice_split d a (len bs)) as (l1 & mid & l2 & -> & <- & Hm);
    [lia..|].
  rewrite splice_app by exact Hm. rewrite !len_app. lia.
Qed.

Lemma len_vec_resize n d : 0 <= n -> len (vec_resize n d) = n.
Proof. intros. unfold len, vec_resize. rewrite length_resize. lia. Qed.
