(* ===== verification/Text.v ===== *)
(** * Strings

    [str::from_utf8] of the standard library, as the decoder uses it: a byte
    sequence is accepted when it is a concatenation of well-formed sequences of the
    Unicode standard (no overlong forms, no surrogates, at most U+10FFFF).  And what
    the host parser, the info protocol and the cluster use of [str]: splitting,
    joining, trimming and parsing integers, on UTF-8 bytes.  The separators are
    ASCII characters, which are bytes of their own in UTF-8. *)

From stdpp Require Import base list strings.
From Stdlib Require Import ZArith Lia DecimalString DecimalPos.
From S2P Require Import Prelude.

(** ** UTF-8 *)

Definition between (lo hi b : Z) : bool := (lo <=? b) && (b <=? hi).

Definition is_cont (b : Z) : bool := between 0x80 0xbf b.

(** One byte at a time; the fuel is the number of bytes left. *)
Fixpoint utf8_valid_fuel (n : nat) (s : bytes) : bool :=
  match n, s with
  | _, [] => true
  | O, _ => false
  | S n', a :: s1 =>
      if between 0x00 0x7f a then utf8_valid_fuel n' s1
      else if between 0xc2 0xdf a then
        match s1 with
        | b :: s2 => is_cont b && utf8_valid_fuel n' s2
        | _ => false
        end
      else if between 0xe0 0xef a then
        match s1 with
        | b :: c :: s3 =>
            (if a =? 0xe0 then between 0xa0 0xbf b
             else if a =? 0xed then between 0x80 0x9f b
             else is_cont b) && is_cont c && utf8_valid_fuel n' s3
        | _ => false
        end
      else if between 0xf0 0xf4 a then
        match s1 with
        | b :: c :: d :: s4 =>
            (if a =? 0xf0 then between 0x90 0xbf b
             else if a =? 0xf4 then between 0x80 0x8f b
             else is_cont b) && is_cont c && is_cont d
            && utf8_valid_fuel n' s4
        | _ => false
        end
      else false
  end.

Definition utf8_valid (s : bytes) : bool := utf8_valid_fuel (length s) s.

Lemma between_spec lo hi b : between lo hi b = true <-> lo <= b <= hi.
Proof. unfold between. rewrite andb_true_iff, !Z.leb_le. lia. Qed.

(** ASCII is valid UTF-8. *)
Lemma utf8_valid_ascii s :
  Forall (fun b => 0 <= b < 128) s -> utf8_valid s = true.
Proof.
  unfold utf8_valid. induction 1 as [|b s Hb _ IH]; [reflexivity|].
  cbn [length utf8_valid_fuel].
  replace (between 0x00 0x7f b) with true
    by (symmetry; apply between_spec; lia).
  exact IH.
Qed.

Example utf8_two : utf8_valid [0xc3; 0xa9] = true.
Proof. reflexivity. Qed.

Example utf8_overlong : utf8_valid [0xc0; 0x80] = false.
Proof. reflexivity. Qed.

Example utf8_surrogate : utf8_valid [0xed; 0xa0; 0x80] = false.
Proof. reflexivity. Qed.

(** ** Pieces and numbers *)

(** [s.split(p)]: the pieces between separators, at least one. *)
Fixpoint split (p : Z -> bool) (s : bytes) : list bytes :=
  match s with
  | [] => [[]]
  | c :: s' =>
      if p c then [] :: split p s'
      else
        match split p s' with
        | piece :: pieces => (c :: piece) :: pieces
        | [] => [[c]]
        end
  end.

(** [pieces.join(sep)]. *)
Fixpoint join (sep : Z) (pieces : list bytes) : bytes :=
  match pieces with
  | [] => []
  | [piece] => piece
  | piece :: pieces' => piece ++ sep :: join sep pieces'
  end.

Fixpoint trim_start (p : Z -> bool) (s : bytes) : bytes :=
  match s with
  | c :: s' => if p c then trim_start p s' else s
  | [] => []
  end.

(** [s.trim_matches(c)]. *)
Definition trim_matches (c : Z) (s : bytes) : bytes :=
  reverse (trim_start (Z.eqb c) (reverse (trim_start (Z.eqb c) s))).

(** The UTF-8 encodings of the white space of Unicode. *)
Definition white_space : list bytes :=
  ((fun c => [c]) <$> [9; 10; 11; 12; 13; 32])
  ++ [[0xc2; 0x85]; [0xc2; 0xa0]; [0xe1; 0x9a; 0x80]]
  ++ ((fun c => [0xe2; 0x80; 0x80 + Z.of_nat c]) <$> seq 0 11)
  ++ [[0xe2; 0x80; 0xa8]; [0xe2; 0x80; 0xa9]; [0xe2; 0x80; 0xaf]; [0xe2; 0x81; 0x9f];
      [0xe3; 0x80; 0x80]].

Definition strip_prefix (p s : bytes) : option bytes :=
  if bool_decide (take (length p) s = p) then Some (drop (length p) s) else None.

(** [s.trim_end()], from the last character; the fuel is the length. *)
Fixpoint trim_end_rev (fuel : nat) (s : bytes) : bytes :=
  match fuel with
  | O => s
  | S fuel' =>
      match list_find (fun w => is_Some (strip_prefix (reverse w) s)) white_space with
      | Some (_, w) => trim_end_rev fuel' (drop (length w) s)
      | None => s
      end
  end.

Definition trim_end (s : bytes) : bytes := reverse (trim_end_rev (length s) (reverse s)).

Definition starts_with (pat s : bytes) : bool := bool_decide (take (length pat) s = pat).

(** [s.find(pat)]: where the first occurrence starts. *)
Fixpoint find (pat s : bytes) : option Z :=
  if starts_with pat s then Some 0
  else match s with [] => None | _ :: s' => (i ← find pat s'; Some (i + 1)) end.

Definition contains (pat s : bytes) : bool := bool_decide (is_Some (find pat s)).

(** ** Integers *)

Definition digit (c : Z) : option Z :=
  if (48 <=? c) && (c <=? 57) then Some (c - 48) else None.

(** The digits after [acc], in a type with values from [lo] to [hi]; a negative
    number is accumulated downwards. *)
Fixpoint parse_digits (sign lo hi acc : Z) (s : bytes) : option Z :=
  match s with
  | [] => Some acc
  | c :: s' =>
      d ← digit c;
      let acc' := acc * 10 + sign * d in
      if (lo <=? acc') && (acc' <=? hi) then parse_digits sign lo hi acc' s' else None
  end.

(** [from_str] of the integer types: an optional sign and at least one digit. *)
Definition parse_int (signed : bool) (lo hi : Z) (s : bytes) : option Z :=
  match s with
  | [] => None
  | [c] => parse_digits 1 lo hi 0 [c]
  | c :: s' =>
      if c =? 43 then parse_digits 1 lo hi 0 s'
      else if (c =? 45) && signed then parse_digits (-1) lo hi 0 s'
      else parse_digits 1 lo hi 0 s
  end.

Definition parse_u16 : bytes -> option Z := parse_int false 0 65535.

Definition parse_isize : bytes -> option Z := parse_int true (- 2 ^ 63) (2 ^ 63 - 1).

(** ** Laws *)

Lemma split_nonempty p s : split p s <> [].
Proof.
  destruct s as [|c s]; cbn; [discriminate|].
  destruct (p c); [discriminate|]. destruct (split p s); discriminate.
Qed.

(** A piece without separators, alone or before one. *)
Lemma split_piece p s : Forall (fun c => p c = false) s -> split p s = [s].
Proof. induction 1 as [|c s Hc _ IH]; cbn; [reflexivity|]. rewrite Hc, IH. reflexivity. Qed.

Lemma split_sep p s c t :
  Forall (fun c => p c = false) s -> p c = true -> split p (s ++ c :: t) = s :: split p t.
Proof.
  intros Hs Hc. induction Hs as [|x s Hx _ IH]; cbn; [rewrite Hc; reflexivity|].
  rewrite Hx, IH. reflexivity.
Qed.

Lemma split_join sep pieces :
  pieces <> [] -> Forall (Forall (fun c => (sep =? c) = false)) pieces ->
  split (Z.eqb sep) (join sep pieces) = pieces.
Proof.
  intros Hne. induction 1 as [|s pieces Hs Hps IH]; [congruence|].
  destruct pieces as [|s' pieces]; [apply split_piece, Hs|].
  cbn [join]. rewrite split_sep by (assumption || apply Z.eqb_refl).
  f_equal. apply IH. discriminate.
Qed.

(** Every text is pieces joined by separators. *)
Lemma join_split sep s : join sep (split (Z.eqb sep) s) = s.
Proof.
  induction s as [|c s IH]; [reflexivity|]. cbn [split].
  pose proof (split_nonempty (Z.eqb sep) s) as Hne.
  destruct (Z.eqb_spec sep c) as [<-|]; destruct (split (Z.eqb sep) s) as [|t [|u ts]];
    try congruence; cbn [join app] in *; congruence.
Qed.

Lemma split_pieces p s :
  Forall (Forall (fun c => p c = false)) (split p s).
Proof.
  induction s as [|c s IH]; cbn; [repeat constructor|].
  destruct (p c) eqn:Hc; [repeat constructor; exact IH|].
  destruct (split p s) as [|t ts]; [repeat constructor; exact Hc|].
  inversion_clear IH. repeat constructor; assumption.
Qed.

(** *** Parsing what was printed *)

Fixpoint uint_digits (d : Decimal.uint) : list Z :=
  match d with
  | Decimal.Nil => []
  | Decimal.D0 d => 0 :: uint_digits d
  | Decimal.D1 d => 1 :: uint_digits d
  | Decimal.D2 d => 2 :: uint_digits d
  | Decimal.D3 d => 3 :: uint_digits d
  | Decimal.D4 d => 4 :: uint_digits d
  | Decimal.D5 d => 5 :: uint_digits d
  | Decimal.D6 d => 6 :: uint_digits d
  | Decimal.D7 d => 7 :: uint_digits d
  | Decimal.D8 d => 8 :: uint_digits d
  | Decimal.D9 d => 9 :: uint_digits d
  end.

Lemma uint_digits_range d : Forall (fun x => 0 <= x <= 9) (uint_digits d).
Proof. induction d; cbn; constructor; lia || assumption. Qed.

Lemma str_uint d : str (NilEmpty.string_of_uint d) = Z.add 48 <$> uint_digits d.
Proof. unfold str. induction d; cbn; [reflexivity|..]; rewrite <- IHd; reflexivity. Qed.

Definition value_from (acc : Z) (ds : list Z) : Z := foldl (fun a d => a * 10 + d) acc ds.

Lemma value_from_ge ds : forall acc,
  0 <= acc -> Forall (fun x => 0 <= x <= 9) ds -> acc <= value_from acc ds.
Proof.
  induction ds as [|d ds IH]; intros acc Ha Hds; [reflexivity|].
  inversion_clear Hds as [|? ? Hd Hds'].
  specialize (IH (acc * 10 + d) ltac:(lia) Hds').
  change (value_from acc (d :: ds)) with (value_from (acc * 10 + d) ds). lia.
Qed.

Lemma value_from_pos d : forall acc,
  value_from (Z.pos acc) (uint_digits d) = Z.pos (Pos.of_uint_acc d acc).
Proof. induction d; intros acc; [reflexivity|..]; cbn; rewrite <- IHd; f_equal; lia. Qed.

Lemma value_from_uint d : value_from 0 (uint_digits d) = Z.of_N (Pos.of_uint d).
Proof. induction d; [reflexivity|apply IHd|..]; apply value_from_pos. Qed.

Lemma parse_digits_value lo ds : forall acc hi,
  lo <= 0 -> 0 <= acc -> Forall (fun x => 0 <= x <= 9) ds -> value_from acc ds <= hi ->
  parse_digits 1 lo hi acc (Z.add 48 <$> ds) = Some (value_from acc ds).
Proof.
  induction ds as [|d ds IH]; intros acc hi Hlo Ha Hds Hv; [reflexivity|].
  inversion_clear Hds. change (value_from acc (d :: ds)) with (value_from (acc * 10 + d) ds) in *.
  pose proof (value_from_ge ds (acc * 10 + d) ltac:(lia) ltac:(assumption)).
  cbn [fmap list_fmap parse_digits]. unfold digit. decide_tests.
  replace (48 + d - 48) with d by lia. cbn [mbind option_bind].
  replace (acc * 10 + 1 * d) with (acc * 10 + d) by lia. decide_tests.
  apply IH; [exact Hlo|lia|assumption|exact Hv].
Qed.

Lemma parse_int_digits signed lo hi ds :
  lo <= 0 -> ds <> [] -> Forall (fun x => 0 <= x <= 9) ds -> value_from 0 ds <= hi ->
  parse_int signed lo hi (Z.add 48 <$> ds) = Some (value_from 0 ds).
Proof.
  intros Hlo Hne Hds Hv. pose proof (parse_digits_value lo ds 0 hi Hlo ltac:(lia) Hds Hv) as H.
  destruct ds as [|d [|d' ds]]; [congruence|exact H|].
  inversion_clear Hds. cbn [fmap list_fmap parse_int]. decide_tests. exact H.
Qed.

(** The digits of a number that is printed. *)
Lemma dec_string_digits n :
  0 <= n ->
  exists ds, str (dec_string n) = Z.add 48 <$> ds /\ ds <> [] /\
    Forall (fun x => 0 <= x <= 9) ds /\ value_from 0 ds = n.
Proof.
  intros Hn. destruct n as [|p|p]; [|clear Hn|lia].
  - exists [0]. repeat split; try discriminate. repeat constructor; lia.
  - exists (uint_digits (Pos.to_uint p)).
    assert (Pos.to_uint p <> Decimal.Nil) as Hnil by apply Unsigned.to_uint_nonnil.
    split; [|split; [|split]].
    + rewrite <- str_uint. unfold dec_string. cbn [Z.to_int].
      unfold NilZero.string_of_int, NilZero.string_of_uint.
      destruct (Pos.to_uint p); [congruence|reflexivity..].
    + destruct (Pos.to_uint p); [congruence|discriminate..].
    + apply uint_digits_range.
    + rewrite value_from_uint, DecimalPos.Unsigned.of_to. reflexivity.
Qed.

Lemma parse_u16_dec n : in_u 16 n -> parse_u16 (str (dec_string n)) = Some n.
Proof.
  intros [Hn Hm]. destruct (dec_string_digits n Hn) as (ds & -> & Hne & Hds & Hv).
  unfold parse_u16. rewrite parse_int_digits by (assumption || lia). rewrite Hv. reflexivity.
Qed.

(** No separator is a digit. *)
Lemma dec_string_free p n :
  0 <= n -> (forall d, 0 <= d <= 9 -> p (48 + d) = false) ->
  Forall (fun c => p c = false) (str (dec_string n)).
Proof.
  intros Hn Hp. destruct (dec_string_digits n Hn) as (ds & -> & _ & Hds & _).
  apply Forall_fmap. eapply Forall_impl; [exact Hds|]. intros d Hd. apply Hp, Hd.
Qed.

(** ** Finding *)

Lemma starts_with_app pat s : starts_with pat s = true <-> exists post, s = pat ++ post.
Proof.
  unfold starts_with. rewrite bool_decide_eq_true. split.
  - intros H. exists (drop (length pat) s). rewrite <- H at 1. symmetry. apply take_drop.
  - intros [post ->]. apply take_app_length.
Qed.

(** The first occurrence, if there is one. *)
Lemma find_spec pat s :
  match find pat s with
  | Some i => exists pre post, s = pre ++ pat ++ post /\ i = len pre /\
                forall pre' post', s = pre' ++ pat ++ post' -> len pre <= len pre'
  | None => forall pre post, s <> pre ++ pat ++ post
  end.
Proof.
  induction s as [|c s IH]; cbn [find].
  - destruct (starts_with pat []) eqn:Hs.
    + apply starts_with_app in Hs as [post Hp]. exists [], post. repeat split; [exact Hp|].
      intros pre' _ _. unfold len. cbn. lia.
    + intros [|x pre] post H; [|discriminate H].
      rewrite (proj2 (starts_with_app pat [])) in Hs by (exists post; exact H). discriminate.
  - destruct (starts_with pat (c :: s)) eqn:Hs.
    + apply starts_with_app in Hs as [post Hp]. exists [], post. repeat split; [exact Hp|].
      intros pre' _ _. unfold len. cbn. lia.
    + assert (forall post, c :: s <> pat ++ post) as Hno.
      { intros post H. rewrite (proj2 (starts_with_app pat (c :: s))) in Hs by (exists post; exact H).
        discriminate. }
      destruct (find pat s) as [i|]; cbn [mbind option_bind].
      * destruct IH as (pre & post & -> & -> & Hmin). exists (c :: pre), post.
        split; [reflexivity|]. split; [rewrite len_cons; lia|].
        intros [|x pre'] post' H; [apply Hno in H; contradiction|].
        injection H as -> H. rewrite !len_cons. specialize (Hmin _ _ H). lia.
      * intros [|x pre] post H; [apply Hno in H; contradiction|].
        injection H as -> H. apply IH in H. exact H.
Qed.
