(* ===== verification/Buffer.v ===== *)
(** * The command buffer ([src/commands/buffer.rs])

    [struct Buffer], its resizing and its primitive reads and writes.  Writes
    have a normal form, [emit bs]: they overwrite the bytes at the cursor and
    move it, or panic when the slice runs past the end.  Reads are described
    on a buffer cut at the cursor. *)

From stdpp Require Import base list strings.
From Stdlib Require Import ZArith Lia Setoid Morphisms.
From S2P Require Import Prelude ResultCodes Monad ByteOrder Slices Text.

(** [MAX_BUFFER_SIZE]: 1 MB and a header. *)
Definition MAX_BUFFER_SIZE : Z := 1024 * 1024 + 8.

Definition MSG_TOTAL_HEADER_SIZE : Z := 30.

Definition FIELD_HEADER_SIZE : Z := 5.

Definition OPERATION_HEADER_SIZE : Z := 8.

Definition MSG_REMAINING_HEADER_SIZE : Z := 22.

Definition DIGEST_SIZE : Z := 20.

Definition CL_MSG_VERSION : Z := 2.

Definition AS_MSG_TYPE : Z := 3.

(** [struct Buffer].  The capacity of the vector, which [reclaim_threshold]
    governs, has no effect on what is read or written. *)
Record Buffer : Type := mkBuffer {
  data_buffer : bytes;
  data_offset : Z;
  reclaim_threshold : Z
}.

Definition Buffer_new (reclaim : Z) : Buffer := mkBuffer [] 0 reclaim.

Definition set_data (d : bytes) (b : Buffer) : Buffer :=
  mkBuffer d (data_offset b) (reclaim_threshold b).

Definition set_offset (o : Z) (b : Buffer) : Buffer :=
  mkBuffer (data_buffer b) o (reclaim_threshold b).

(** [Duration]: seconds and nanoseconds. *)
Record Duration : Type := mkDuration { as_secs : Z; subsec_nanos : Z }.

Section Operations.
Context `{BO : ByteOrder}.

(** *** Sizing *)

Definition begin : M Buffer unit :=
  fun b => Ret tt (set_offset MSG_TOTAL_HEADER_SIZE b).

Definition resize_buffer (size : Z) : M Buffer unit :=
  fun b =>
    if size >? MAX_BUFFER_SIZE
    then Throw (Msg "Invalid size for buffer: {}") b
    else Ret tt (set_data (vec_resize size (data_buffer b)) b).

Definition size_buffer : M Buffer unit :=
  fun b => resize_buffer (data_offset b) b.

Definition reset_offset : M Buffer unit := fun b => Ret tt (set_offset 0 b).

(** [self.data_offset += n] of the estimate functions. *)
Definition add_offset (n : Z) : M Buffer unit :=
  fun b => Ret tt (set_offset (data_offset b + n) b).

(** *** Writing *)

Definition write_u8 (val : Z) : M Buffer Z :=
  fun b =>
    match index (data_buffer b) (data_offset b) with
    | Some _ =>
        Ret 1 (mkBuffer
                 (<[Z.to_nat (data_offset b) := val]> (data_buffer b))
                 (data_offset b + 1) (reclaim_threshold b))
    | None => Panic
    end.

Definition write_i8 (val : Z) : M Buffer Z := write_u8 (as_u8 val).

(** The slice writes of [byteorder] at the cursor: [n] is the width of the
    integer, [bs] what the crate stores in the slice. *)
Definition write_slice (n : Z) (bs : bytes) : M Buffer Z :=
  fun b =>
    if slice_ok (data_buffer b) (data_offset b) (data_offset b + n)
    then Ret n (mkBuffer (splice (data_buffer b) (data_offset b) bs)
                         (data_offset b + n) (reclaim_threshold b))
    else Panic.

Definition write_u16 (val : Z) : M Buffer Z := write_slice 2 (write_be 2 val).

Definition write_u16_little_endian (val : Z) : M Buffer Z :=
  write_slice 2 (write_le 2 val).

Definition write_i16 (val : Z) : M Buffer Z := write_u16 (as_u16 val).

Definition write_u32 (val : Z) : M Buffer Z := write_slice 4 (write_be 4 val).

Definition write_i32 (val : Z) : M Buffer Z := write_u32 (as_u32 val).

Definition write_u64 (val : Z) : M Buffer Z := write_slice 8 (write_be 8 val).

Definition write_i64 (val : Z) : M Buffer Z := write_u64 (as_u64 val).

Definition write_bool (val : bool) : M Buffer Z :=
  write_i8 (if val then 1 else 0).

(** Floats are their IEEE bit patterns, which is what the crate stores. *)
Definition write_f32 (bits : Z) : M Buffer Z := write_slice 4 (write_be 4 bits).

Definition write_f64 (bits : Z) : M Buffer Z := write_slice 8 (write_be 8 bits).

Definition write_bytes (bs : bytes) : M Buffer Z :=
  for_each bs (fun b => write_u8 b ;;; ret tt) ;;; ret (len bs).

Definition write_str (val : bytes) : M Buffer Z := write_bytes val.

Definition write_geo (value : bytes) : M Buffer Z :=
  write_u8 0 ;;; write_u8 0 ;;; write_u8 0 ;;;
  write_bytes value ;;;
  ret (3 + len value).

(** [as i32] on both parts; the [i32] sum is checked. *)
Definition write_timeout (val : option Duration) : M Buffer unit :=
  match val with
  | None => ret tt
  | Some d =>
      let! ms := usize_checked (as_secs d * 1000) in
      let millis := as_i32 ms + as_i32 (subsec_nanos d / 1000000) in
      if (millis <? - 2 ^ 31) || (2 ^ 31 <=? millis) then panic
      else
        fun b =>
          if slice_ok (data_buffer b) 22 (22 + 4)
          then Ret tt (set_data (splice (data_buffer b) 22
                                   (write_be 4 (as_u32 millis))) b)
          else Panic
  end.

(** *** Reading; [pos] selects an absolute position, [None] the cursor. *)

Definition read_at (n : Z) (pos : option Z) : M Buffer bytes :=
  fun b =>
    match pos with
    | Some p =>
        match slice (data_buffer b) p (p + n) with
        | Some bs => Ret bs b
        | None => Panic
        end
    | None =>
        match slice (data_buffer b) (data_offset b) (data_offset b + n) with
        | Some bs => Ret bs (set_offset (data_offset b + n) b)
        | None => Panic
        end
    end.

Definition skip_bytes (count : Z) : M Buffer unit :=
  fun b =>
    (let! o := usize_checked (data_offset b + count) in
     fun b => Ret tt (set_offset o b)) b.

Definition skip (count : Z) : M Buffer unit := skip_bytes count.

Definition peek : M Buffer Z :=
  fun b => unwrap (index (data_buffer b) (data_offset b)) b.

Definition read_u8 (pos : option Z) : M Buffer Z :=
  fun b =>
    match pos with
    | Some p => unwrap (index (data_buffer b) p) b
    | None =>
        (let! res := unwrap (index (data_buffer b) (data_offset b)) in
         add_offset 1 ;;; ret res) b
    end.

Definition read_i8 (pos : option Z) : M Buffer Z :=
  let! v := read_u8 pos in ret (as_i8 v).

Definition read_u16 (pos : option Z) : M Buffer Z :=
  let! bs := read_at 2 pos in ret (read_be bs).

Definition read_i16 (pos : option Z) : M Buffer Z :=
  let! v := read_u16 pos in ret (as_i16 v).

Definition read_u32 (pos : option Z) : M Buffer Z :=
  let! bs := read_at 4 pos in ret (read_be bs).

Definition read_i32 (pos : option Z) : M Buffer Z :=
  let! v := read_u32 pos in ret (as_i32 v).

Definition read_u64 (pos : option Z) : M Buffer Z :=
  let! bs := read_at 8 pos in ret (read_be bs).

Definition read_i64 (pos : option Z) : M Buffer Z :=
  let! v := read_u64 pos in ret (as_i64 v).

Definition read_msg_size (pos : option Z) : M Buffer Z :=
  let! size := read_i64 pos in
  ret (as_u64 (Z.land size 0xFFFFFFFFFFFF)).

Definition read_f32 (pos : option Z) : M Buffer Z :=
  let! bs := read_at 4 pos in ret (read_be bs).

Definition read_f64 (pos : option Z) : M Buffer Z :=
  let! bs := read_at 8 pos in ret (read_be bs).

Definition read_slice (count : Z) : M Buffer bytes :=
  fun b =>
    unwrap (slice (data_buffer b) (data_offset b) (data_offset b + count)) b.

Definition read_bytes (pos count : Z) : M Buffer bytes :=
  fun b => unwrap (slice (data_buffer b) pos (pos + count)) b.

(** The cursor moves only when the bytes are valid UTF-8. *)
Definition read_str (n : Z) : M Buffer bytes :=
  let! s := read_slice n in
  if utf8_valid s then add_offset n ;;; ret s else throw InvalidUtf8.

Definition read_blob (n : Z) : M Buffer bytes :=
  let! val := read_slice n in add_offset n ;;; ret val.

Definition read_bool (n : Z) : M Buffer bool :=
  if n <=? 0 then ret false
  else
    let! val := peek in add_offset n ;;; ret (negb (val =? 0)).

(** *** [end]: the 8-byte protocol header goes in front *)

Definition end_ : M Buffer unit :=
  let! b := get in
  let! body := usize_sub (data_offset b) 8 in
  let size := Z.lor (Z.lor (as_i64 body) (Z.shiftl CL_MSG_VERSION 56))
                    (Z.shiftl AS_MSG_TYPE 48) in
  reset_offset ;;; write_i64 size ;;; ret tt.

End Operations.
