(* ===== verification/BufferFacts.v ===== *)
(** * Reasoning about the command buffer

    [emit bs] is the normal form of every write; [emits m bs v] says that [m]
    writes exactly [bs] at the cursor and returns [v], in every state (a
    write that does not fit panics on both sides).  [reads m bs v] says that
    [m] consumes [bs] at the cursor and returns [v].  [advances m n v] is the
    normal form of the size estimates. *)

From stdpp Require Import base list strings.
From Stdlib Require Import ZArith Lia Setoid Morphisms.
From S2P Require Import Prelude ResultCodes Monad ByteOrder Slices Text Buffer.

(** ** Writes *)

Definition emit (bs : bytes) : M Buffer unit :=
  for_each bs (fun b => write_u8 b ;;; ret tt).

Definition emits {A} (m : M Buffer A) (bs : bytes) (v : A) : Prop :=
  m ≈ (emit bs ;;; ret v).

Lemma for_each_app {S A} (l1 l2 : list A) (f : A -> M S unit) :
  for_each (l1 ++ l2) f ≈ (for_each l1 f ;;; for_each l2 f).
Proof.
  induction l1 as [|x l1 IH]; cbn [for_each app].
  - rewrite bind_ret_l. reflexivity.
  - rewrite bind_assoc. apply bind_proper; [reflexivity|].
    intros []. exact IH.
Qed.

Lemma emit_app bs1 bs2 : emit (bs1 ++ bs2) ≈ (emit bs1 ;;; emit bs2).
Proof. apply for_each_app. Qed.

Lemma write_u8_frame v l1 x l2 rt :
  write_u8 v (mkBuffer (l1 ++ x :: l2) (len l1) rt)
  = Ret 1 (mkBuffer (l1 ++ v :: l2) (len l1 + 1) rt).
Proof.
  unfold write_u8. cbn. rewrite index_app. do 2 f_equal.
  unfold len. rewrite Nat2Z.id, insert_app_r_alt by lia.
  rewrite Nat.sub_diag. reflexivity.
Qed.

(** An emission into room of its size replaces that room. *)
Lemma emit_frame bs : forall l1 mid l2 rt,
  len mid = len bs ->
  emit bs (mkBuffer (l1 ++ mid ++ l2) (len l1) rt)
  = Ret tt (mkBuffer (l1 ++ bs ++ l2) (len l1 + len bs) rt).
Proof.
  induction bs as [|b bs IH]; intros l1 mid l2 rt Hm.
  - destruct mid; [|pose proof (len_nonneg mid); size_lia].
    cbn. rewrite len_nil, Z.add_0_r. reflexivity.
  - destruct mid as [|x mid]; [pose proof (len_nonneg bs); size_lia|].
    cbn [emit for_each app].
    rewrite !(bind_assoc _ _ _ _).
    rewrite (bind_Ret _ _ _ _ _ (write_u8_frame _ _ _ _ _)), bind_ret_l.
    change (for_each bs _) with (emit bs).
    specialize (IH (l1 ++ [b]) mid l2 rt).
    rewrite len_app, len_cons, len_nil, <- !(assoc_L (++)) in IH.
    cbn [app] in IH. replace (len l1 + (1 + 0)) with (len l1 + 1) in IH by lia.
    rewrite IH by size_lia. rewrite len_cons. do 2 f_equal. lia.
Qed.

(** An emission that runs past the end panics. *)
Lemma emit_overflow bs : forall d o rt,
  bs <> [] -> o < 0 \/ len d < o + len bs -> emit bs (mkBuffer d o rt) = Panic.
Proof.
  induction bs as [|b bs IH]; intros d o rt Hne Ho; [congruence|].
  cbn [emit for_each]. rewrite (bind_assoc _ _ _ _). unfold bind at 1.
  unfold write_u8 at 1. cbn [data_buffer data_offset reclaim_threshold].
  destruct (index d o) as [x|] eqn:Hi; [|reflexivity].
  unfold bind at 1, ret at 1. change (for_each bs _) with (emit bs).
  assert (0 <= o < len d) as Hod.
  { unfold index in Hi. destruct (Z.ltb_spec o 0); [discriminate|].
    apply lookup_lt_Some in Hi. unfold len. lia. }
  rewrite len_cons in Ho.
  destruct bs as [|b' bs]; [unfold len in *; cbn in *; lia|].
  apply IH; [congruence|right]. unfold len in *. rewrite length_insert.
  lia.
Qed.

(** Writing a non-empty slice of its declared width is an emission. *)
Lemma write_slice_emits n bs :
  len bs = n -> 0 < n -> emits (write_slice n bs) bs n.
Proof.
  intros Hn Hpos [d o rt]. unfold write_slice, bind.
  cbn [data_buffer data_offset reclaim_threshold].
  destruct (slice_ok d o (o + n)) eqn:Hok.
  - apply slice_ok_spec in Hok.
    destruct (slice_split d o n) as (l1 & mid & l2 & -> & <- & Hm); [lia..|].
    rewrite splice_app, emit_frame by lia. unfold ret. rewrite Hn. reflexivity.
  - rewrite emit_overflow; [reflexivity| |].
    + intros ->. rewrite len_nil in Hn. lia.
    + rewrite Hn. destruct (Z.ltb_spec o 0); [lia|].
      destruct (Z.ltb_spec (len d) (o + n)); [lia|].
      enough (slice_ok d o (o + n) = true) by congruence.
      apply slice_ok_spec. lia.
Qed.

#[export] Instance emits_proper {A} :
  Proper (meq ==> eq ==> eq ==> iff) (@emits A).
Proof.
  intros m1 m2 Hm bs _ <- v _ <-. unfold emits. rewrite Hm. reflexivity.
Qed.

Lemma emits_ret {A} (v : A) : emits (ret v) [] v.
Proof. unfold emits, emit. cbn. rewrite bind_ret_l. reflexivity. Qed.

Lemma emits_bind {A B} (m : M Buffer A) (k : A -> M Buffer B) bs1 bs2 v w :
  emits m bs1 v -> emits (k v) bs2 w -> emits (bind m k) (bs1 ++ bs2) w.
Proof.
  unfold emits. intros H1 H2.
  rewrite H1, emit_app, !bind_assoc. apply bind_proper; [reflexivity|].
  intros []. rewrite bind_ret_l, H2. reflexivity.
Qed.

(** The last step of a sequence, with the bytes in any shape. *)
Lemma emits_eq {A} (m : M Buffer A) bs bs' v :
  emits m bs v -> bs = bs' -> emits m bs' v.
Proof. intros H <-. exact H. Qed.

Lemma emits_eq' {A} (m : M Buffer A) bs bs' v v' :
  emits m bs v -> bs = bs' -> v = v' -> emits m bs' v'.
Proof. intros H <- <-. exact H. Qed.

(** A write whose count is dropped. *)
Lemma emits_drop {A} (m : M Buffer A) bs v :
  emits m bs v -> emits (m ;;; ret tt) bs tt.
Proof.
  intros H. eapply emits_eq; [eapply emits_bind; [exact H|apply emits_ret]|].
  apply app_nil_r.
Qed.

Lemma emits_for_each {A} (l : list A) (f : A -> M Buffer unit) g :
  (forall x, x ∈ l -> emits (f x) (g x) tt) ->
  emits (for_each l f) (concat (g <$> l)) tt.
Proof.
  induction l as [|x l IH]; intros H; [apply emits_ret|].
  cbn. eapply emits_bind; [apply H; left|].
  apply IH. intros y Hy. apply H. right. exact Hy.
Qed.

Section Writes.
Context `{BO : ByteOrder}.

Lemma write_u8_emits v : emits (write_u8 v) [v] 1.
Proof.
  intros [d o rt]. unfold emit. cbn [for_each].
  rewrite !(bind_assoc _ _ _ _). unfold bind.
  destruct (write_u8 v (mkBuffer d o rt)) eqn:E; try reflexivity.
  unfold write_u8 in E. cbn in E. destruct (index d o); inversion E; subst.
  reflexivity.
Qed.

Lemma write_i8_emits v : emits (write_i8 v) [as_u8 v] 1.
Proof. apply write_u8_emits. Qed.

Lemma write_u16_emits v : emits (write_u16 v) (write_be 2 v) 2.
Proof. apply write_slice_emits; [apply len_write_be|lia]. Qed.

Lemma write_u16_le_emits v :
  emits (write_u16_little_endian v) (write_le 2 v) 2.
Proof. apply write_slice_emits; [apply len_write_le|lia]. Qed.

Lemma write_i16_emits v : emits (write_i16 v) (write_be 2 v) 2.
Proof.
  unfold write_i16, as_u16, wrap_u. rewrite <- (write_be_mod 2 2) by lia.
  apply write_u16_emits.
Qed.

Lemma write_u32_emits v : emits (write_u32 v) (write_be 4 v) 4.
Proof. apply write_slice_emits; [apply len_write_be|lia]. Qed.

Lemma write_i32_emits v : emits (write_i32 v) (write_be 4 v) 4.
Proof.
  unfold write_i32, as_u32, wrap_u. rewrite <- (write_be_mod 4 4) by lia.
  apply write_u32_emits.
Qed.

Lemma write_u64_emits v : emits (write_u64 v) (write_be 8 v) 8.
Proof. apply write_slice_emits; [apply len_write_be|lia]. Qed.

Lemma write_i64_emits v : emits (write_i64 v) (write_be 8 v) 8.
Proof.
  unfold write_i64, as_u64, wrap_u. rewrite <- (write_be_mod 8 8) by lia.
  apply write_u64_emits.
Qed.

Lemma write_f32_emits v : emits (write_f32 v) (write_be 4 v) 4.
Proof. apply write_slice_emits; [apply len_write_be|lia]. Qed.

Lemma write_f64_emits v : emits (write_f64 v) (write_be 8 v) 8.
Proof. apply write_slice_emits; [apply len_write_be|lia]. Qed.

Lemma write_bool_emits (v : bool) :
  emits (write_bool v) [if v then 1 else 0] 1.
Proof. destruct v; apply write_u8_emits. Qed.

Lemma write_bytes_emits bs : emits (write_bytes bs) bs (len bs).
Proof. unfold emits, write_bytes, emit. reflexivity. Qed.

Lemma write_str_emits bs : emits (write_str bs) bs (len bs).
Proof. apply write_bytes_emits. Qed.

End Writes.

Create HintDb emits.
#[export] Hint Constants Opaque : emits.
#[export] Hint Resolve emits_ret write_u8_emits write_i8_emits
  write_u16_emits write_u16_le_emits write_i16_emits write_u32_emits
  write_i32_emits write_u64_emits write_i64_emits write_f32_emits
  write_f64_emits write_bool_emits write_bytes_emits write_str_emits : emits.

(** Decomposes a sequence of writes; the last goal compares the bytes. *)
Ltac emits_step :=
  match goal with
  | |- emits (bind _ _) _ _ => eapply emits_bind
  | |- emits _ _ _ => solve [eauto with emits]
  end.

Ltac emits_tac := eapply emits_eq; [repeat emits_step|].

Section WriteGeo.
Context `{BO : ByteOrder}.

Lemma write_geo_emits bs : emits (write_geo bs) ([0; 0; 0] ++ bs) (3 + len bs).
Proof. unfold write_geo. emits_tac. cbn. rewrite app_nil_r. reflexivity. Qed.

End WriteGeo.

#[export] Hint Resolve write_geo_emits : emits.

(** ** Reads *)

(** The buffer cut at the cursor. *)
Definition at_cursor (pre rest : bytes) (rt : Z) : Buffer :=
  mkBuffer (pre ++ rest) (len pre) rt.

Definition reads {A} (m : M Buffer A) (bs : bytes) (v : A) : Prop :=
  forall pre post rt,
    m (at_cursor pre (bs ++ post) rt) = Ret v (at_cursor (pre ++ bs) post rt).

Lemma reads_ret {A} (v : A) : reads (ret v) [] v.
Proof. intros pre post rt. rewrite app_nil_r. reflexivity. Qed.

Lemma reads_bind {A B} (m : M Buffer A) (k : A -> M Buffer B) bs1 bs2 v w :
  reads m bs1 v -> reads (k v) bs2 w -> reads (bind m k) (bs1 ++ bs2) w.
Proof.
  intros H1 H2 pre post rt. unfold bind.
  rewrite <- (assoc_L (++)), H1, H2, (assoc_L (++)). reflexivity.
Qed.

Lemma reads_eq {A} (m : M Buffer A) bs bs' v v' :
  reads m bs v -> bs = bs' -> v = v' -> reads m bs' v'.
Proof. intros H <- <-. exact H. Qed.

#[export] Instance reads_proper {A} :
  Proper (meq ==> eq ==> eq ==> iff) (@reads A).
Proof.
  intros m1 m2 Hm bs _ <- v _ <-. unfold reads.
  split; intros H pre post rt; [rewrite <- Hm|rewrite Hm]; apply H.
Qed.

Lemma offset_after (pre bs post : bytes) rt :
  mkBuffer (pre ++ bs ++ post) (len pre + len bs) rt
  = at_cursor (pre ++ bs) post rt.
Proof. unfold at_cursor. rewrite len_app, (assoc_L (++)). reflexivity. Qed.

Section Reads.
Context `{BO : ByteOrder}.

Lemma read_at_reads n bs : len bs = n -> reads (read_at n None) bs bs.
Proof.
  intros <- pre post rt. unfold read_at, at_cursor. cbn.
  rewrite slice_app by reflexivity. f_equal. apply (offset_after pre bs post).
Qed.

Lemma read_u8_reads b : reads (read_u8 None) [b] b.
Proof.
  intros pre post rt. unfold read_u8, at_cursor. cbn.
  rewrite index_app. cbn. f_equal.
  apply (offset_after pre [b] post).
Qed.

Lemma read_i8_reads b : reads (read_i8 None) [b] (as_i8 b).
Proof.
  unfold read_i8. change [b] with ([b] ++ []).
  eapply reads_bind; [apply read_u8_reads|apply reads_ret].
Qed.

(** An integer read, and its signed cast. *)
Lemma read_int_reads {A} n bs (f : Z -> A) :
  len bs = n ->
  reads (let! bs := read_at n None in ret (f (read_be bs))) bs (f (read_be bs)).
Proof.
  intros Hn. eapply reads_eq; [|apply app_nil_r|reflexivity].
  eapply reads_bind; [apply read_at_reads, Hn|apply reads_ret].
Qed.

Lemma read_u16_reads v :
  in_u 16 v -> reads (read_u16 None) (write_be 2 v) v.
Proof.
  intros Hv. eapply reads_eq; [apply (read_int_reads _ _ id)|reflexivity|].
  - apply len_write_be.
  - apply read_write_be, Hv.
Qed.

Lemma read_u32_reads v :
  in_u 32 v -> reads (read_u32 None) (write_be 4 v) v.
Proof.
  intros Hv. eapply reads_eq; [apply (read_int_reads _ _ id)|reflexivity|].
  - apply len_write_be.
  - apply read_write_be, Hv.
Qed.

Lemma read_u64_reads v :
  in_u 64 v -> reads (read_u64 None) (write_be 8 v) v.
Proof.
  intros Hv. eapply reads_eq; [apply (read_int_reads _ _ id)|reflexivity|].
  - apply len_write_be.
  - apply read_write_be, Hv.
Qed.

Lemma read_f32_reads v :
  in_u 32 v -> reads (read_f32 None) (write_be 4 v) v.
Proof. apply read_u32_reads. Qed.

Lemma read_f64_reads v :
  in_u 64 v -> reads (read_f64 None) (write_be 8 v) v.
Proof. apply read_u64_reads. Qed.

(** A signed value survives being written through its unsigned pattern. *)
Lemma signed_reads n (m : M Buffer Z) v :
  (0 < n)%nat ->
  m ≈ (let! bs := read_at (Z.of_nat n) None in ret (read_be bs)) ->
  in_i (8 * Z.of_nat n) v ->
  reads (let! u := m in ret (wrap_i (8 * Z.of_nat n) u)) (write_be n v) v.
Proof.
  intros Hn Hm Hv. rewrite Hm, bind_assoc. setoid_rewrite bind_ret_l.
  eapply reads_eq; [apply read_int_reads, len_write_be|reflexivity|].
  cbn. rewrite read_write_be_mod. fold (wrap_u (8 * Z.of_nat n) v).
  rewrite wrap_i_wrap_u, wrap_i_id by (assumption || lia). reflexivity.
Qed.

Lemma read_i16_reads v :
  in_i 16 v -> reads (read_i16 None) (write_be 2 v) v.
Proof. apply (signed_reads 2); [lia|reflexivity]. Qed.

Lemma read_i32_reads v :
  in_i 32 v -> reads (read_i32 None) (write_be 4 v) v.
Proof. apply (signed_reads 4); [lia|reflexivity]. Qed.

Lemma read_i64_reads v :
  in_i 64 v -> reads (read_i64 None) (write_be 8 v) v.
Proof. apply (signed_reads 8); [lia|reflexivity]. Qed.

Lemma read_slice_at pre bs post rt n :
  len bs = n ->
  read_slice n (at_cursor pre (bs ++ post) rt)
  = Ret bs (at_cursor pre (bs ++ post) rt).
Proof.
  intros <-. unfold read_slice, at_cursor. cbn.
  rewrite slice_app by reflexivity. reflexivity.
Qed.

Lemma add_offset_at pre bs post rt n :
  len bs = n ->
  add_offset n (at_cursor pre (bs ++ post) rt)
  = Ret tt (at_cursor (pre ++ bs) post rt).
Proof.
  intros <-. unfold add_offset, set_offset, at_cursor. cbn.
  f_equal. apply (offset_after pre bs post).
Qed.

Lemma read_blob_reads bs n : len bs = n -> reads (read_blob n) bs bs.
Proof.
  intros Hn pre post rt. unfold read_blob, bind.
  rewrite read_slice_at, add_offset_at by exact Hn. reflexivity.
Qed.

Lemma read_str_reads bs n :
  len bs = n -> utf8_valid bs = true -> reads (read_str n) bs bs.
Proof.
  intros Hn Hu pre post rt. unfold read_str, bind.
  rewrite read_slice_at by exact Hn. rewrite Hu.
  rewrite add_offset_at by exact Hn. reflexivity.
Qed.

Lemma peek_at pre b post rt :
  peek (at_cursor pre (b :: post) rt) = Ret b (at_cursor pre (b :: post) rt).
Proof. unfold peek, at_cursor. cbn. rewrite index_app. reflexivity. Qed.

Lemma read_bool_reads b : reads (read_bool 1) [b] (negb (b =? 0)).
Proof.
  intros pre post rt.
  change (read_bool 1)
    with (let! val := peek in add_offset 1 ;;; ret (negb (val =? 0))).
  unfold bind. cbn [app]. rewrite peek_at.
  rewrite (add_offset_at pre [b] post) by reflexivity. reflexivity.
Qed.

End Reads.

(** ** Size estimates *)

Definition advances {A} (m : M Buffer A) (n : Z) (v : A) : Prop :=
  m ≈ (add_offset n ;;; ret v).

Lemma add_offset_add n k : (add_offset n ;;; add_offset k) ≈ add_offset (n + k).
Proof.
  intros [d o rt]. unfold bind, add_offset, set_offset. cbn.
  do 2 f_equal. lia.
Qed.

Lemma add_offset_0 : add_offset 0 ≈ ret tt.
Proof.
  intros [d o rt]. unfold add_offset, set_offset. cbn.
  rewrite Z.add_0_r. reflexivity.
Qed.

#[export] Instance advances_proper {A} :
  Proper (meq ==> eq ==> eq ==> iff) (@advances A).
Proof.
  intros m1 m2 Hm n _ <- v _ <-. unfold advances. rewrite Hm. reflexivity.
Qed.

Lemma advances_ret {A} (v : A) : advances (ret v) 0 v.
Proof. unfold advances. rewrite add_offset_0, bind_ret_l. reflexivity. Qed.

Lemma advances_add n : advances (add_offset n) n tt.
Proof.
  unfold advances. rewrite <- (bind_ret_r (add_offset n)) at 1.
  apply bind_proper; [reflexivity|]. intros []. reflexivity.
Qed.

Lemma advances_bind {A B} (m : M Buffer A) (k : A -> M Buffer B) n1 n2 v w :
  advances m n1 v -> advances (k v) n2 w -> advances (bind m k) (n1 + n2) w.
Proof.
  unfold advances. intros H1 H2.
  rewrite H1, <- add_offset_add, !bind_assoc.
  apply bind_proper; [reflexivity|]. intros []. rewrite bind_ret_l, H2.
  reflexivity.
Qed.

Lemma advances_eq {A} (m : M Buffer A) n n' v :
  advances m n v -> n = n' -> advances m n' v.
Proof. intros H <-. exact H. Qed.

Definition sum_z (l : list Z) : Z := foldr Z.add 0 l.

Lemma advances_for_each {A} (l : list A) (f : A -> M Buffer unit) g :
  (forall x, x ∈ l -> advances (f x) (g x) tt) ->
  advances (for_each l f) (sum_z (g <$> l)) tt.
Proof.
  induction l as [|x l IH]; intros H; [apply advances_ret|].
  cbn. eapply advances_bind; [apply H; left|].
  apply IH. intros y Hy. apply H. right. exact Hy.
Qed.

Lemma len_concat {A B} (f : A -> list B) (l : list A) :
  len (concat (f <$> l)) = sum_z ((fun x => len (f x)) <$> l).
Proof.
  induction l as [|x l IH]; [reflexivity|]. cbn. rewrite len_app, IH.
  reflexivity.
Qed.

Create HintDb advances.
#[export] Hint Constants Opaque : advances.
#[export] Hint Resolve advances_ret advances_add : advances.

Ltac advances_step :=
  match goal with
  | |- advances (bind _ _) _ _ => eapply advances_bind
  | |- advances _ _ _ => solve [eauto with advances]
  end.

Ltac advances_tac := eapply advances_eq; [repeat advances_step|].
