(* ===== verification/Values.v ===== *)
(** * Bin values ([src/value.rs])

    [FloatValue] and [Value], their conversions from and to native types, the
    hash map of values, and [Serialize]: [serialize_tells] says which values a
    serialiser of another crate can tell apart.  Floats are IEEE bit patterns; a [HashMap] is the
    list of its entries in iteration order. *)

From stdpp Require Import base list strings decidable.
From Stdlib Require Import ZArith Lia.
From S2P Require Import Prelude ResultCodes Monad Wire.

#[local] Set Warnings "-register-all".

Module FloatValue.

(** [enum FloatValue]. *)
Inductive FloatValue : Type :=
| F32 (bits : Z)
| F64 (bits : Z).

Definition is_nan32 (bits : Z) : bool :=
  (Z.land bits 0x7f800000 =? 0x7f800000)
  && negb (Z.land bits 0x007fffff =? 0).

Definition is_nan64 (bits : Z) : bool :=
  (Z.land bits 0x7ff0000000000000 =? 0x7ff0000000000000)
  && negb (Z.land bits 0x000fffffffffffff =? 0).

(** [f32::NAN] and [f64::NAN]. *)
Definition NAN32 : Z := 0x7fc00000.

Definition NAN64 : Z := 0x7ff8000000000000.

(** [From<f64> for FloatValue]. *)
Definition from_f64 (val : Z) : FloatValue :=
  F64 (if is_nan64 val then NAN64 else val).

(** [From<f32> for FloatValue]. *)
Definition from_f32 (val : Z) : FloatValue :=
  F32 (if is_nan32 val then NAN32 else val).

(** [From<&FloatValue> for f64]; [None] is the panic. *)
Definition to_f64 (v : FloatValue) : option Z :=
  match v with
  | F32 _ => None
  | F64 val => Some val
  end.

(** [From<&FloatValue> for f32]: a double is truncated to its low word. *)
Definition to_f32 (v : FloatValue) : Z :=
  match v with
  | F32 val => val
  | F64 val => as_u32 val
  end.

(** One representation per NaN: what the constructors maintain. *)
Definition canonical (v : FloatValue) : Prop :=
  match v with
  | F32 b => in_u 32 b /\ (is_nan32 b = true -> b = NAN32)
  | F64 b => in_u 64 b /\ (is_nan64 b = true -> b = NAN64)
  end.

#[global] Instance FloatValue_eq_dec : EqDecision FloatValue.
Proof. solve_decision. Defined.

Lemma from_f64_canonical b : in_u 64 b -> canonical (from_f64 b).
Proof.
  intros H. unfold from_f64, canonical. destruct (is_nan64 b) eqn:E.
  - split; [unfold in_u, NAN64; lia|reflexivity].
  - split; [exact H|]. rewrite E. discriminate.
Qed.

Lemma from_f32_canonical b : in_u 32 b -> canonical (from_f32 b).
Proof.
  intros H. unfold from_f32, canonical. destruct (is_nan32 b) eqn:E.
  - split; [unfold in_u, NAN32; lia|reflexivity].
  - split; [exact H|]. rewrite E. discriminate.
Qed.

Lemma from_f64_id b : canonical (F64 b) -> from_f64 b = F64 b.
Proof.
  intros [_ H]. unfold from_f64. destruct (is_nan64 b); [|reflexivity].
  rewrite H by reflexivity. reflexivity.
Qed.

Lemma from_f32_id b : canonical (F32 b) -> from_f32 b = F32 b.
Proof.
  intros [_ H]. unfold from_f32. destruct (is_nan32 b); [|reflexivity].
  rewrite H by reflexivity. reflexivity.
Qed.

End FloatValue.

Abbreviation FloatValue := FloatValue.FloatValue.

Module Value.

(** [enum Value]. *)
Inductive Value : Type :=
| Nil
| Bool (b : bool)
| Int (i : Z)
| UInt (u : Z)
| Float (f : FloatValue)
| String (s : bytes)
| Blob (b : bytes)
| List (l : list Value)
| HashMap (m : list (Value * Value))
| OrderedMap (m : list (Value * Value))
| GeoJSON (s : bytes)
| HLL (b : bytes).

(** A property of both components of a map entry. *)
Definition on_entry (P : Value -> Prop) (kv : Value * Value) : Prop :=
  P kv.1 /\ P kv.2.

(** Induction with hypotheses on the elements of lists and maps. *)
Section Induction.
Variable P : Value -> Prop.
Hypothesis HNil : P Nil.
Hypothesis HBool : forall b, P (Bool b).
Hypothesis HInt : forall i, P (Int i).
Hypothesis HUInt : forall u, P (UInt u).
Hypothesis HFloat : forall f, P (Float f).
Hypothesis HString : forall s, P (String s).
Hypothesis HBlob : forall b, P (Blob b).
Hypothesis HList : forall l, Forall P l -> P (List l).
Hypothesis HHashMap :
  forall m, Forall (on_entry P) m -> P (HashMap m).
Hypothesis HOrderedMap :
  forall m, Forall (on_entry P) m -> P (OrderedMap m).
Hypothesis HGeoJSON : forall s, P (GeoJSON s).
Hypothesis HHLL : forall b, P (HLL b).

Fixpoint value_ind' (v : Value) : P v :=
  let fix all l : Forall P l :=
    match l with
    | [] => Forall_nil_2 P
    | x :: l' => Forall_cons_2 P x l' (value_ind' x) (all l')
    end in
  let fix all2 m : Forall (on_entry P) m :=
    match m with
    | [] => Forall_nil_2 (on_entry P)
    | (k, x) :: m' =>
        Forall_cons_2 (on_entry P) (k, x) m'
          (conj (value_ind' k) (value_ind' x)) (all2 m')
    end in
  match v with
  | Nil => HNil
  | Bool b => HBool b
  | Int i => HInt i
  | UInt u => HUInt u
  | Float f => HFloat f
  | String s => HString s
  | Blob b => HBlob b
  | List l => HList l (all l)
  | HashMap m => HHashMap m (all2 m)
  | OrderedMap m => HOrderedMap m (all2 m)
  | GeoJSON s => HGeoJSON s
  | HLL b => HHLL b
  end.
End Induction.

Section Equality.
Context (eqb : Value -> Value -> bool).

Fixpoint list_eqb (l1 l2 : list Value) : bool :=
  match l1, l2 with
  | [], [] => true
  | x :: l1', y :: l2' => eqb x y && list_eqb l1' l2'
  | _, _ => false
  end.

Fixpoint pairs_eqb (m1 m2 : list (Value * Value)) : bool :=
  match m1, m2 with
  | [], [] => true
  | (k1, v1) :: m1', (k2, v2) :: m2' =>
      eqb k1 k2 && eqb v1 v2 && pairs_eqb m1' m2'
  | _, _ => false
  end.
End Equality.

(** Structural equality; on hashable values it is [PartialEq]. *)
Fixpoint value_eqb (v w : Value) : bool :=
  match v, w with
  | Nil, Nil => true
  | Bool a, Bool b => Bool.eqb a b
  | Int a, Int b => a =? b
  | UInt a, UInt b => a =? b
  | Float a, Float b => bool_decide (a = b)
  | String a, String b => bool_decide (a = b)
  | Blob a, Blob b => bool_decide (a = b)
  | List a, List b => list_eqb value_eqb a b
  | HashMap a, HashMap b => pairs_eqb value_eqb a b
  | OrderedMap a, OrderedMap b => pairs_eqb value_eqb a b
  | GeoJSON a, GeoJSON b => bool_decide (a = b)
  | HLL a, HLL b => bool_decide (a = b)
  | _, _ => false
  end.

Lemma list_eqb_spec eqb l1 :
  Forall (fun x => forall y, eqb x y = true <-> x = y) l1 ->
  forall l2, list_eqb eqb l1 l2 = true <-> l1 = l2.
Proof.
  induction 1 as [|x l1 Hx _ IH]; intros [|y l2]; cbn; try (split; congruence).
  rewrite andb_true_iff, Hx, IH. split; [intros [-> ->]; reflexivity|].
  intros [= -> ->]. auto.
Qed.

Lemma pairs_eqb_spec eqb m1 :
  Forall (on_entry (fun x => forall y, eqb x y = true <-> x = y)) m1 ->
  forall m2, pairs_eqb eqb m1 m2 = true <-> m1 = m2.
Proof.
  induction 1 as [|[k v] m1 [Hk Hv] _ IH]; intros [|[k' v'] m2]; cbn in *;
    try (split; congruence).
  rewrite !andb_true_iff, Hk, Hv, IH.
  split; [intros [[-> ->] ->]; reflexivity|]. intros [= -> -> ->]. auto.
Qed.

Lemma value_eqb_spec v w : value_eqb v w = true <-> v = w.
Proof.
  revert w. induction v using value_ind'; intros w; destruct w; cbn;
    try (split; congruence);
    rewrite ?bool_decide_eq_true, ?eqb_true_iff, ?Z.eqb_eq,
      ?(list_eqb_spec _ _ H), ?(pairs_eqb_spec _ _ H);
    split; congruence.
Qed.

#[global] Instance Value_eq_dec : EqDecision Value.
Proof.
  intros v w. destruct (value_eqb v w) eqn:E.
  - left. apply value_eqb_spec, E.
  - right. intros H. apply value_eqb_spec in H. congruence.
Defined.

(** [Hash for Value] panics on maps, also inside lists. *)
Fixpoint hashable (v : Value) : bool :=
  match v with
  | List l => forallb hashable l
  | HashMap _ | OrderedMap _ => false
  | _ => true
  end.

(** [HashMap::insert]: an equal key keeps its place and gets the new value. *)
Fixpoint entries_insert (k v : Value) (m : list (Value * Value))
    : list (Value * Value) :=
  match m with
  | [] => [(k, v)]
  | (k', v') :: m' =>
      if decide (k = k') then (k', v) :: m'
      else (k', v') :: entries_insert k v m'
  end.

Definition map_insert {S} (k v : Value) (m : list (Value * Value))
    : M S (list (Value * Value)) :=
  if hashable k then ret (entries_insert k v m) else panic.

(** [HashMap::get]. *)
Fixpoint entries_get (k : Value) (m : list (Value * Value)) : option Value :=
  match m with
  | [] => None
  | (k', v') :: m' => if decide (k = k') then Some v' else entries_get k m'
  end.

(** *** Conversions *)

Definition is_nil (v : Value) : bool :=
  match v with Nil => true | _ => false end.

(** [From<bool>], the [From] impls of the integer types up to 64 bits, of
    strings, vectors, maps and floats. *)
Definition from_bool (val : bool) : Value := Bool val.
Definition from_i8 (val : Z) : Value := Int val.
Definition from_u8 (val : Z) : Value := Int val.
Definition from_i16 (val : Z) : Value := Int val.
Definition from_u16 (val : Z) : Value := Int val.
Definition from_i32 (val : Z) : Value := Int val.
Definition from_u32 (val : Z) : Value := Int val.
Definition from_i64 (val : Z) : Value := Int val.
Definition from_u64 (val : Z) : Value := UInt val.
Definition from_isize (val : Z) : Value := Int (as_i64 val).
Definition from_usize (val : Z) : Value := UInt (as_u64 val).
Definition from_f32 (val : Z) : Value := Float (FloatValue.from_f32 val).
Definition from_f64 (val : Z) : Value := Float (FloatValue.from_f64 val).
Definition from_string (val : bytes) : Value := String val.
Definition from_vec_u8 (val : bytes) : Value := Blob val.
Definition from_vec (val : list Value) : Value := List val.
Definition from_hashmap (val : list (Value * Value)) : Value := HashMap val.

(** [From<Value> for i64]; [None] is the panic. *)
Definition to_i64 (v : Value) : option Z :=
  match v with
  | Int val => Some val
  | UInt val => Some (as_i64 val)
  | _ => None
  end.

(** [Value::particle_type]; [None] is the panic on unsupported types. *)
Definition particle_type (v : Value) : option ParticleType :=
  match v with
  | Nil => Some ParticleType.NULL
  | Int _ => Some ParticleType.INTEGER
  | UInt _ => None
  | Float _ => Some ParticleType.FLOAT
  | String _ => Some ParticleType.STRING
  | Blob _ => Some ParticleType.BLOB
  | Bool _ => Some ParticleType.BOOL
  | List _ => Some ParticleType.LIST
  | HashMap _ => Some ParticleType.MAP
  | OrderedMap _ => None
  | GeoJSON _ => Some ParticleType.GEOJSON
  | HLL _ => Some ParticleType.HLL
  end.

(** [TryFrom<Value>]: [inr] is the error naming the particle type, [None] the
    panic of [particle_type] while the error is formatted. *)
Definition conversion_error {A} (v : Value) : option (A + ParticleType) :=
  inr <$> particle_type v.

Definition try_into_string (v : Value) : option (bytes + ParticleType) :=
  match v with
  | String s | GeoJSON s => Some (inl s)
  | _ => conversion_error v
  end.

Definition try_into_bytes (v : Value) : option (bytes + ParticleType) :=
  match v with
  | Blob b | HLL b => Some (inl b)
  | _ => conversion_error v
  end.

Definition try_into_vec (v : Value) : option (list Value + ParticleType) :=
  match v with
  | List l => Some (inl l)
  | _ => conversion_error v
  end.

Definition try_into_hashmap (v : Value)
    : option (list (Value * Value) + ParticleType) :=
  match v with
  | HashMap m => Some (inl m)
  | _ => conversion_error v
  end.

Definition try_into_pairs (v : Value)
    : option (list (Value * Value) + ParticleType) :=
  match v with
  | OrderedMap m => Some (inl m)
  | _ => conversion_error v
  end.

(** [TryFrom<Value> for f64] and [for bool]; an [F32] panics in the conversion. *)
Definition try_into_f64 (v : Value) : option (Z + ParticleType) :=
  match v with
  | Float f => inl <$> FloatValue.to_f64 f
  | _ => conversion_error v
  end.

(** The error of this one does not name the type. *)
Definition try_into_bool (v : Value) : option bool :=
  match v with
  | Bool b => Some b
  | _ => None
  end.

(** The macros [as_list] and [as_map]; the values are converted already. *)
Definition as_list (l : list Value) : Value := List l.

Fixpoint insert_all {S} (m : list (Value * Value)) (kvs : list (Value * Value))
    : M S (list (Value * Value)) :=
  match kvs with
  | [] => ret m
  | (k, v) :: kvs' => let! m := map_insert k v m in insert_all m kvs'
  end.

Definition as_map {S} (kvs : list (Value * Value)) : M S Value :=
  let! m := insert_all [] kvs in ret (HashMap m).

End Value.

Abbreviation Value := Value.Value.

(** Rendering by [core::fmt]: the shortest decimal of a float, and [{:?}]. *)
Class ValueFmt := {
  fmt_float : FloatValue -> bytes;
  fmt_debug : Value -> bytes
}.

(** A concrete rendering, for evaluating the definitions that need one. *)
Definition valuefmt_model : ValueFmt :=
  {| fmt_float _ := str "0.0"; fmt_debug _ := str "?" |}.

Section Display.
Context `{VF : ValueFmt}.

(** [Value::as_string], also [Display] and [to_string]. *)
Definition as_string (v : Value) : bytes :=
  match v with
  | Value.Nil => str "<null>"
  | Value.Int val => str (dec_string val)
  | Value.UInt val => str (dec_string val)
  | Value.Bool val => str (if val then "true" else "false")
  | Value.Float val => fmt_float val
  | Value.String val | Value.GeoJSON val => val
  | Value.Blob _ | Value.HLL _ => fmt_debug v
  | Value.List _ => fmt_debug v
  | Value.HashMap _ => fmt_debug v
  | Value.OrderedMap _ => fmt_debug v
  end.

End Display.

(** ** Serialisation for other formats

    With the feature [serialization], values implement [Serialize] of the crate
    [serde].  The crate is a parameter: a [Serializer] has a call for every kind of
    data; [serialize_element] and [serialize_entry] call the [serialize] of what
    they are given. *)

Module Serialize.

Class Serializer (St : Type) := {
  serialize_none : M St unit;
  serialize_bool : bool -> M St unit;
  serialize_i64 : Z -> M St unit;
  serialize_u64 : Z -> M St unit;
  serialize_f32 : Z -> M St unit;
  serialize_f64 : Z -> M St unit;
  serialize_str : bytes -> M St unit;
  serialize_bytes : bytes -> M St unit;
  serialize_seq : option Z -> M St unit;
  serialize_element : M St unit -> M St unit;
  end_seq : M St unit;
  serialize_map : option Z -> M St unit;
  serialize_entry : M St unit -> M St unit -> M St unit;
  end_map : M St unit
}.

Section Serialize.
Context `{SE : Serializer St}.

(** [Serialize for Value]. *)
Fixpoint serialize (v : Value) : M St unit :=
  let fix elements l :=
    match l with
    | [] => ret tt
    | elem :: l' => serialize_element (serialize elem) ;;; elements l'
    end in
  let fix entries m :=
    match m with
    | [] => ret tt
    | (key, value) :: m' =>
        serialize_entry (serialize key) (serialize value) ;;; entries m'
    end in
  match v with
  | Value.Nil => serialize_none
  | Value.Bool b => serialize_bool b
  | Value.Int i => serialize_i64 i
  | Value.UInt u => serialize_u64 u
  | Value.Float (FloatValue.F32 u) => serialize_f32 u
  | Value.Float (FloatValue.F64 u) => serialize_f64 u
  | Value.String s | Value.GeoJSON s => serialize_str s
  | Value.Blob b => serialize_bytes b
  | Value.List l => serialize_seq (Some (len l)) ;;; elements l ;;; end_seq
  | Value.HashMap m | Value.OrderedMap m =>
      serialize_map (Some (len m)) ;;; entries m ;;; end_map
  | Value.HLL b => serialize_bytes b
  end.

Fixpoint serialize_elements (l : list Value) : M St unit :=
  match l with
  | [] => ret tt
  | elem :: l' => serialize_element (serialize elem) ;;; serialize_elements l'
  end.

Fixpoint serialize_entries (m : list (Value * Value)) : M St unit :=
  match m with
  | [] => ret tt
  | (key, value) :: m' =>
      serialize_entry (serialize key) (serialize value) ;;; serialize_entries m'
  end.

Lemma serialize_list l :
  serialize (Value.List l)
  = (serialize_seq (Some (len l)) ;;; serialize_elements l ;;; end_seq).
Proof. reflexivity. Qed.

Lemma serialize_hashmap m :
  serialize (Value.HashMap m)
  = (serialize_map (Some (len m)) ;;; serialize_entries m ;;; end_map).
Proof. reflexivity. Qed.

End Serialize.

(** *** What a serialiser is told *)

(** The calls, as tokens. *)
Inductive token : Type :=
| TNone
| TBool (b : bool)
| TI64 (i : Z)
| TU64 (u : Z)
| TF32 (bits : Z)
| TF64 (bits : Z)
| TStr (s : bytes)
| TBytes (b : bytes)
| TSeq (n : option Z)
| TMap (n : option Z)
| TEnd.

Definition emit_token (t : token) : M (list token) unit := fun s => Ret tt (s ++ [t]).

(** The serialiser that records its calls. *)
Definition recorder : Serializer (list token) := {|
  serialize_none := emit_token TNone;
  serialize_bool b := emit_token (TBool b);
  serialize_i64 i := emit_token (TI64 i);
  serialize_u64 u := emit_token (TU64 u);
  serialize_f32 x := emit_token (TF32 x);
  serialize_f64 x := emit_token (TF64 x);
  serialize_str s := emit_token (TStr s);
  serialize_bytes b := emit_token (TBytes b);
  serialize_seq n := emit_token (TSeq n);
  serialize_element m := m;
  end_seq := emit_token TEnd;
  serialize_map n := emit_token (TMap n);
  serialize_entry k v := k ;;; v;
  end_map := emit_token TEnd
|}.

(** The kind of data of a value: the geometry of a string, the sketch of bytes and
    the order of a map are not told. *)
Fixpoint erase (v : Value) : Value :=
  match v with
  | Value.List l => Value.List (erase <$> l)
  | Value.HashMap m | Value.OrderedMap m =>
      Value.HashMap ((fun kv => match kv with (k, x) => (erase k, erase x) end) <$> m)
  | Value.GeoJSON s => Value.String s
  | Value.HLL b => Value.Blob b
  | v => v
  end.

Fixpoint tokens (v : Value) : list token :=
  match v with
  | Value.Nil => [TNone]
  | Value.Bool b => [TBool b]
  | Value.Int i => [TI64 i]
  | Value.UInt u => [TU64 u]
  | Value.Float (FloatValue.F32 u) => [TF32 u]
  | Value.Float (FloatValue.F64 u) => [TF64 u]
  | Value.String s | Value.GeoJSON s => [TStr s]
  | Value.Blob b | Value.HLL b => [TBytes b]
  | Value.List l => TSeq (Some (len l)) :: concat (tokens <$> l) ++ [TEnd]
  | Value.HashMap m | Value.OrderedMap m =>
      TMap (Some (len m))
      :: concat ((fun kv => match kv with (k, x) => tokens k ++ tokens x end) <$> m) ++ [TEnd]
  end.

Definition erase_entry (kv : Value * Value) : Value * Value := (erase kv.1, erase kv.2).

Definition entry_tokens (kv : Value * Value) : list token := tokens kv.1 ++ tokens kv.2.

Lemma erase_entries (m : list (Value * Value)) :
  ((fun kv => match kv with (k, x) => (erase k, erase x) end) <$> m) = erase_entry <$> m.
Proof. apply list_fmap_ext. intros _ [k x] _. reflexivity. Qed.

Lemma entries_tokens (m : list (Value * Value)) :
  ((fun kv => match kv with (k, x) => tokens k ++ tokens x end) <$> m) = entry_tokens <$> m.
Proof. apply list_fmap_ext. intros _ [k x] _. reflexivity. Qed.

(** No serialiser can tell a value from what is left of it. *)
Lemma elements_erase `{SE : Serializer St} l :
  Forall (fun v => serialize v = serialize (erase v)) l ->
  serialize_elements l = serialize_elements (erase <$> l).
Proof.
  induction 1 as [|x l Hx _ IH]; [reflexivity|].
  cbn [serialize_elements fmap list_fmap]. rewrite Hx at 1. rewrite IH. reflexivity.
Qed.

Lemma entries_erase `{SE : Serializer St} m :
  Forall (Value.on_entry (fun v => serialize v = serialize (erase v))) m ->
  serialize_entries m = serialize_entries (erase_entry <$> m).
Proof.
  induction 1 as [|[k x] m [Hk Hx] _ IH]; [reflexivity|]. cbn [fst snd] in Hk, Hx.
  cbn [serialize_entries fmap list_fmap erase_entry fst snd].
  rewrite Hk at 1. rewrite Hx at 1. rewrite IH. reflexivity.
Qed.

Lemma serialize_erase `{SE : Serializer St} v : serialize v = serialize (erase v).
Proof.
  induction v as [|b|i|u|f|s|b|l IH|m IH|m IH|s|b] using Value.value_ind'; try reflexivity.
  - change (erase (Value.List l)) with (Value.List (erase <$> l)).
    rewrite !serialize_list, len_map, <- elements_erase by exact IH. reflexivity.
  - cbn [erase]. rewrite erase_entries.
    rewrite !serialize_hashmap, len_map, <- entries_erase by exact IH. reflexivity.
  - cbn [erase]. rewrite erase_entries. change (serialize (Value.OrderedMap m)) with (serialize (Value.HashMap m)).
    rewrite !serialize_hashmap, len_map, <- entries_erase by exact IH. reflexivity.
Qed.

(** What the recorder is told of a value. *)
Definition tells (v : Value) : Prop :=
  forall s, serialize (SE := recorder) v s = Ret tt (s ++ tokens v).

Lemma emit_seq {A} t (m : M (list token) A) s : (emit_token t ;;; m) s = m (s ++ [t]).
Proof. reflexivity. Qed.

Lemma tells_elements l s :
  Forall tells l ->
  serialize_elements (SE := recorder) l s = Ret tt (s ++ concat (tokens <$> l)).
Proof.
  intros H. revert s. induction H as [|x l Hx _ IH]; intros s.
  - cbn. rewrite app_nil_r. reflexivity.
  - cbn [serialize_elements serialize_element recorder fmap list_fmap concat].
    unfold bind. rewrite Hx, IH, (assoc_L (++)). reflexivity.
Qed.

Lemma tells_entries m s :
  Forall (Value.on_entry tells) m ->
  serialize_entries (SE := recorder) m s = Ret tt (s ++ concat (entry_tokens <$> m)).
Proof.
  intros H. revert s. induction H as [|[k x] m [Hk Hx] _ IH]; intros s.
  - cbn. rewrite app_nil_r. reflexivity.
  - cbn [fst snd] in Hk, Hx. cbn [serialize_entries serialize_entry recorder].
    unfold bind. rewrite Hk, Hx, IH.
    cbn [fmap list_fmap concat].
    change (entry_tokens (k, x)) with (tokens k ++ tokens x).
    rewrite !(assoc_L (++)). reflexivity.
Qed.

Lemma told v : tells v.
Proof.
  induction v as [|b|i|u|[]|s|b|l IH|m IH|m IH|s|b] using Value.value_ind'; intros r; try reflexivity.
  - rewrite serialize_list. cbn [serialize_seq end_seq recorder tokens].
    rewrite emit_seq. unfold bind. rewrite tells_elements by exact IH.
    unfold emit_token. rewrite <- !(assoc_L (++)). reflexivity.
  - rewrite serialize_hashmap. cbn [serialize_map end_map recorder tokens].
    rewrite entries_tokens, emit_seq. unfold bind. rewrite tells_entries by exact IH.
    unfold emit_token. rewrite <- !(assoc_L (++)). reflexivity.
  - change (serialize (SE := recorder) (Value.OrderedMap m))
      with (serialize (SE := recorder) (Value.HashMap m)).
    rewrite serialize_hashmap. cbn [serialize_map end_map recorder tokens].
    rewrite entries_tokens, emit_seq. unfold bind. rewrite tells_entries by exact IH.
    unfold emit_token. rewrite <- !(assoc_L (++)). reflexivity.
Qed.

(** The tokens of a value end where the value ends, and tell what is left of it. *)
Definition readable (v : Value) : Prop :=
  forall w r1 r2, tokens v ++ r1 = tokens w ++ r2 -> erase v = erase w /\ r1 = r2.

Lemma readable_elements l : Forall readable l ->
  forall l' r1 r2, len l = len l' ->
  concat (tokens <$> l) ++ r1 = concat (tokens <$> l') ++ r2 ->
  erase <$> l = erase <$> l' /\ r1 = r2.
Proof.
  induction 1 as [|x l Hx _ IH]; intros [|x' l'] r1 r2 Hl E; try (unfold len in Hl; cbn in Hl; lia).
  - split; [reflexivity|exact E].
  - cbn [fmap list_fmap concat] in E. rewrite <- !(assoc_L (++)) in E.
    apply Hx in E as [Ex E]. apply IH in E as [El Er]; [|unfold len in *; cbn in Hl; lia].
    split; [|exact Er]. cbn. rewrite Ex, El. reflexivity.
Qed.

Lemma readable_entries m : Forall (Value.on_entry readable) m ->
  forall m' r1 r2, len m = len m' ->
  concat (entry_tokens <$> m) ++ r1 = concat (entry_tokens <$> m') ++ r2 ->
  erase_entry <$> m = erase_entry <$> m' /\ r1 = r2.
Proof.
  induction 1 as [|[k x] m [Hk Hx] _ IH]; intros [|[k' x'] m'] r1 r2 Hl E;
    try (unfold len in Hl; cbn in Hl; lia).
  - split; [reflexivity|exact E].
  - cbn [fmap list_fmap concat] in E.
    change (entry_tokens (k, x)) with (tokens k ++ tokens x) in E.
    change (entry_tokens (k', x')) with (tokens k' ++ tokens x') in E. rewrite <- !(assoc_L (++)) in E.
    apply Hk in E as [Ek E]. apply Hx in E as [Ex E].
    apply IH in E as [Em Er]; [|unfold len in *; cbn in Hl; lia].
    split; [|exact Er].
    change ((erase k, erase x) :: (erase_entry <$> m) = (erase k', erase x') :: (erase_entry <$> m')).
    cbn [fst snd] in Ek, Ex. rewrite Ek, Ex, Em. reflexivity.
Qed.

Lemma value_readable v : readable v.
Proof.
  induction v as [|b|i|u|[]|s|b|l IH|m IH|m IH|s|b] using Value.value_ind'; intros w r1 r2 E;
    destruct w as [|b'|i'|u'|[]|s'|b'|l'|m'|m'|s'|b']; try discriminate E;
    try (injection E as -> ->; split; reflexivity);
    try (injection E as ->; split; reflexivity).
  { cbn [tokens app] in E. rewrite <- !(assoc_L (++)) in E. injection E as Hl E.
    apply (readable_elements l IH) in E as [El [= Er]]; [|exact Hl].
    split; [|exact Er]. change (Value.List (erase <$> l) = Value.List (erase <$> l')).
    rewrite El. reflexivity. }
  all: cbn [tokens app erase] in *; rewrite !entries_tokens, <- !(assoc_L (++)) in E;
    rewrite !erase_entries; injection E as Hl E;
    apply (readable_entries m IH) in E as [Em [= Er]]; [|exact Hl];
    rewrite Em; split; [reflexivity|exact Er].
Qed.

(** C40: [Serialize for Value] tells every serialiser the same of two values, and a
    serialiser that records its calls succeeds and can tell them apart, unless they
    differ only in what [erase] forgets: a string from a GeoJSON string, bytes from
    a HLL sketch, a map from an ordered one. *)
Theorem serialize_tells v w :
  (erase v = erase w -> forall St (SE : Serializer St), serialize v = serialize w) /\
  (exists ts, serialize (SE := recorder) v [] = Ret tt ts /\
     (serialize (SE := recorder) w [] = Ret tt ts <-> erase v = erase w)).
Proof.
  assert (forall St (SE : Serializer St), erase v = erase w -> serialize v = serialize w) as Hsame
    by (intros St SE E; rewrite (serialize_erase v), (serialize_erase w), E; reflexivity).
  split; [intros E St SE; apply Hsame, E|].
  exists (tokens v). split; [apply (told v [])|]. split.
  - rewrite (told w []). intros [= E]. apply (value_readable v w [] []).
    rewrite !app_nil_r. symmetry. exact E.
  - intros E. rewrite <- (Hsame _ recorder E). apply (told v []).
Qed.

Lemma serialize_tells_witness :
  let v := Value.List [Value.GeoJSON (str "{}"); Value.OrderedMap [(Value.Int 1, Value.Nil)]] in
  let w := Value.List [Value.String (str "{}"); Value.HashMap [(Value.Int 1, Value.Nil)]] in
  serialize (SE := recorder) v [] = serialize (SE := recorder) w [].
Proof.
  intros v w.
  exact (f_equal (fun f => f []) (proj1 (serialize_tells v w) eq_refl _ recorder)).
Defined.

End Serialize.
