(* ===== verification/Cdt.v ===== *)
(** * Collection operations: data ([src/operations/cdt.rs],
    [src/operations/cdt_context.rs])

    The arguments of a list, map, bit or HLL operation and the context path
    that locates a nested collection. *)

From stdpp Require Import base list.
From Stdlib Require Import ZArith Lia.
From S2P Require Import Prelude Values.

(** [enum CdtArgument]. *)
Inductive CdtArgument : Type :=
| ArgByte (b : Z)
| ArgInt (i : Z)
| ArgBool (b : bool)
| ArgValue (v : Value)
| ArgList (l : list Value)
| ArgMap (m : list (Value * Value)).

(** The three functions the [encoder] closures are made of. *)
Inductive OperationEncoder : Type :=
| use_pack_cdt_op
| use_pack_hll_op
| use_pack_cdt_bit_op.

(** [struct CdtOperation]. *)
Record CdtOperation : Type := mkCdtOperation {
  cdt_op : Z;
  cdt_encoder : OperationEncoder;
  cdt_args : list CdtArgument
}.

(** [struct CdtContext]. *)
Record CdtContext : Type := mkCdtContext {
  ctx_id : Z;
  ctx_flags : Z;
  ctx_value : Value
}.

Definition DEFAULT_CTX : list CdtContext := [].

Module CtxType.

(** [enum CtxType]. *)
Inductive CtxType : Type :=
| ListIndex
| ListRank
| ListValue
| MapIndex
| MapRank
| MapKey
| MapValue.

Definition to_u8 (t : CtxType) : Z :=
  match t with
  | ListIndex => 0x10
  | ListRank => 0x11
  | ListValue => 0x13
  | MapIndex => 0x20
  | MapRank => 0x21
  | MapKey => 0x22
  | MapValue => 0x23
  end.

End CtxType.

Module ListOrderType.

(** [enum ListOrderType] of [operations/lists.rs]. *)
Inductive ListOrderType : Type :=
| Unordered
| Ordered.

Definition to_u8 (t : ListOrderType) : Z :=
  match t with Unordered => 0 | Ordered => 1 end.

End ListOrderType.

Abbreviation ListOrderType := ListOrderType.ListOrderType.

Module MapOrder.

(** [enum MapOrder] of [operations/maps.rs]. *)
Inductive MapOrder : Type :=
| Unordered
| KeyOrdered
| KeyValueOrdered.

Definition to_u8 (t : MapOrder) : Z :=
  match t with Unordered => 0 | KeyOrdered => 1 | KeyValueOrdered => 3 end.

End MapOrder.

Abbreviation MapOrder := MapOrder.MapOrder.

(** [list_order_flag] of [operations/lists.rs]. *)
Definition list_order_flag (order : ListOrderType) (pad : bool) : Z :=
  match order with
  | ListOrderType.Ordered => 0xc0
  | _ => if pad then 0x80 else 0x40
  end.

(** [map_order_flag] of [operations/maps.rs]. *)
Definition map_order_flag (order : MapOrder) : Z :=
  match order with
  | MapOrder.KeyOrdered => 0x80
  | MapOrder.Unordered => 0x40
  | MapOrder.KeyValueOrdered => 0xc0
  end.

(** *** The context constructors *)

Definition ctx_list_index (index : Z) : CdtContext :=
  mkCdtContext (CtxType.to_u8 CtxType.ListIndex) 0 (Value.Int index).

Definition ctx_list_index_create (index : Z) (order : ListOrderType)
    (pad : bool) : CdtContext :=
  mkCdtContext (CtxType.to_u8 CtxType.ListIndex) (list_order_flag order pad)
    (Value.Int index).

Definition ctx_list_rank (rank : Z) : CdtContext :=
  mkCdtContext (CtxType.to_u8 CtxType.ListRank) 0 (Value.Int rank).

Definition ctx_list_value (key : Value) : CdtContext :=
  mkCdtContext (CtxType.to_u8 CtxType.ListValue) 0 key.

Definition ctx_map_index (key : Value) : CdtContext :=
  mkCdtContext (CtxType.to_u8 CtxType.MapIndex) 0 key.

Definition ctx_map_rank (rank : Z) : CdtContext :=
  mkCdtContext (CtxType.to_u8 CtxType.MapRank) 0 (Value.Int rank).

Definition ctx_map_key (key : Value) : CdtContext :=
  mkCdtContext (CtxType.to_u8 CtxType.MapKey) 0 key.

Definition ctx_map_key_create (key : Value) (order : MapOrder) : CdtContext :=
  mkCdtContext (CtxType.to_u8 CtxType.MapKey) (map_order_flag order) key.

Definition ctx_map_value (key : Value) : CdtContext :=
  mkCdtContext (CtxType.to_u8 CtxType.MapValue) 0 key.
