(* ===== verification/Encoder.v ===== *)
(** * The MessagePack encoder ([src/msgpack/encoder.rs])

    Every packing function takes an optional buffer: without one it only
    computes the size.  The state of the model is therefore an optional
    buffer, and one definition serves both passes, as in the code. *)

From stdpp Require Import base list strings.
From Stdlib Require Import ZArith Lia Setoid Morphisms.
From S2P Require Import Prelude ResultCodes Monad ByteOrder Slices Wire Buffer.
From S2P Require Import Values Cdt.

(** [buf: &mut Option<&mut Buffer>]. *)
Abbreviation P := (M (option Buffer)).

(** [if let Some(ref mut buf) = *buf { m }]. *)
Definition on_buf {A} (m : M Buffer A) : P unit :=
  fun ob =>
    match ob with
    | None => Ret tt None
    | Some b =>
        match m b with
        | Ret _ b' => Ret tt (Some b')
        | Throw e b' => Throw e (Some b')
        | Panic => Panic
        | NoFuel => NoFuel
        end
    end.

(** [f(&mut None)]: the size pass, from a caller that owns a buffer. *)
Definition with_none {S A} (m : P A) : M S A :=
  fun s =>
    match m None with
    | Ret a _ => Ret a s
    | Throw e _ => Throw e s
    | Panic => Panic
    | NoFuel => NoFuel
    end.

(** [f(&mut Some(buf))]: the writing pass. *)
Definition with_some {A} (m : P A) : M Buffer A :=
  fun b =>
    match m (Some b) with
    | Ret a (Some b') => Ret a b'
    | Throw e (Some b') => Throw e b'
    | NoFuel => NoFuel
    | _ => Panic
    end.

(** [for x in l { size += f(buf, x)?; }] *)
Fixpoint pack_each {A} (f : A -> P Z) (l : list A) : P Z :=
  match l with
  | [] => ret 0
  | x :: l' =>
      let! n := f x in
      let! size := pack_each f l' in
      ret (n + size)
  end.

Definition MSGPACK_MARKER_NIL : Z := 0xc0.

Definition MSGPACK_MARKER_BOOL_TRUE : Z := 0xc3.

Definition MSGPACK_MARKER_BOOL_FALSE : Z := 0xc2.

Definition MSGPACK_MARKER_I8 : Z := 0xcc.

Definition MSGPACK_MARKER_I16 : Z := 0xcd.

Definition MSGPACK_MARKER_I32 : Z := 0xce.

Definition MSGPACK_MARKER_I64 : Z := 0xd3.

Definition MSGPACK_MARKER_NI8 : Z := 0xd0.

Definition MSGPACK_MARKER_NI16 : Z := 0xd1.

Definition MSGPACK_MARKER_NI32 : Z := 0xd2.

Definition MSGPACK_MARKER_NI64 : Z := 0xd3.

Section Encoder.
Context `{BO : ByteOrder}.

Definition pack_raw_u16 (value : Z) : P Z :=
  on_buf (write_u16 value) ;;; ret 2.

Definition pack_half_byte (value : Z) : P Z :=
  on_buf (write_u8 value) ;;; ret 1.

Definition pack_byte (marker value : Z) : P Z :=
  on_buf (write_u8 marker ;;; write_u8 value) ;;; ret 2.

Definition pack_nil : P Z := on_buf (write_u8 MSGPACK_MARKER_NIL) ;;; ret 1.

Definition pack_bool (value : bool) : P Z :=
  on_buf (if value then write_u8 MSGPACK_MARKER_BOOL_TRUE
          else write_u8 MSGPACK_MARKER_BOOL_FALSE) ;;;
  ret 1.

Definition pack_i16 (marker value : Z) : P Z :=
  on_buf (write_u8 marker ;;; write_i16 value) ;;; ret 3.

Definition pack_i32 (marker value : Z) : P Z :=
  on_buf (write_u8 marker ;;; write_i32 value) ;;; ret 5.

Definition pack_i64 (marker value : Z) : P Z :=
  on_buf (write_u8 marker ;;; write_i64 value) ;;; ret 9.

Definition pack_map_begin (length : Z) : P Z :=
  if length <? 16 then pack_half_byte (Z.lor 0x80 (as_u8 length))
  else if (16 <=? length) && (length <? Z.shiftl 1 16)
  then pack_i16 0xde (as_i16 length)
  else pack_i32 0xdf (as_i32 length).

Definition pack_array_begin (length : Z) : P Z :=
  if length <? 16 then pack_half_byte (Z.lor 0x90 (as_u8 length))
  else if (16 <=? length) && (length <? Z.shiftl 1 16)
  then pack_i16 0xdc (as_i16 length)
  else pack_i32 0xdd (as_i32 length).

Definition pack_byte_array_begin (length : Z) : P Z :=
  if length <? 32 then pack_half_byte (Z.lor 0xa0 (as_u8 length))
  else if (32 <=? length) && (length <? Z.shiftl 1 16)
  then pack_i16 0xda (as_i16 length)
  else pack_i32 0xdb (as_i32 length).

Definition pack_blob (value : bytes) : P Z :=
  let size := len value + 1 in
  let! n := pack_byte_array_begin size in
  on_buf (write_u8 (ParticleType.to_u8 ParticleType.BLOB) ;;;
          write_bytes value) ;;;
  ret (size + n).

Definition pack_string (value : bytes) : P Z :=
  let size := len value + 1 in
  let! n := pack_byte_array_begin size in
  on_buf (write_u8 (ParticleType.to_u8 ParticleType.STRING) ;;;
          write_str value) ;;;
  ret (size + n).

Definition pack_raw_string (value : bytes) : P Z :=
  let size := len value in
  let! n := pack_byte_array_begin size in
  on_buf (write_str value) ;;;
  ret (size + n).

Definition pack_geo_json (value : bytes) : P Z :=
  let size := len value + 1 in
  let! n := pack_byte_array_begin size in
  on_buf (write_u8 (ParticleType.to_u8 ParticleType.GEOJSON) ;;;
          write_str value) ;;;
  ret (size + n).

(** The arms in source order; the one of [MSGPACK_MARKER_I8] is dead. *)
Definition pack_integer (val : Z) : P Z :=
  if (0 <=? val) && (val <? Z.shiftl 1 7) then pack_half_byte (as_u8 val)
  else if (Z.shiftl 1 7 <=? val) && (val <? 127) then
    pack_byte MSGPACK_MARKER_I8 (as_u8 val)
  else if (127 <=? val) && (val <? 32767) then
    pack_i16 MSGPACK_MARKER_I16 (as_i16 val)
  else if (32767 <=? val) && (val <? 2147483647) then
    pack_i32 MSGPACK_MARKER_I32 (as_i32 val)
  else if 2147483647 <=? val then pack_i64 MSGPACK_MARKER_I64 val
  else if (-32 <=? val) && (val <? 0) then
    pack_half_byte (Z.lor 0xe0 (as_u8 (as_u8 val + 32)))
  else if (-128 <=? val) && (val <? -32) then
    pack_byte MSGPACK_MARKER_NI8 (as_u8 val)
  else if (-32768 <=? val) && (val <? -128) then
    pack_i16 MSGPACK_MARKER_NI16 (as_i16 val)
  else if (-2147483648 <=? val) && (val <? -32768) then
    pack_i32 MSGPACK_MARKER_NI32 (as_i32 val)
  else if val <? -2147483648 then pack_i64 MSGPACK_MARKER_NI64 val
  else panic.

Definition pack_u64 (value : Z) : P Z :=
  if value <=? 9223372036854775807 then pack_integer (as_i64 value)
  else on_buf (write_u8 0xcf ;;; write_u64 value) ;;; ret 9.

Definition pack_f32 (value : Z) : P Z :=
  on_buf (write_u8 0xca ;;; write_f32 value) ;;; ret 5.

Definition pack_f64 (value : Z) : P Z :=
  on_buf (write_u8 0xcb ;;; write_f64 value) ;;; ret 9.

Definition pack_entry (f : Value -> P Z) (kv : Value * Value) : P Z :=
  let! n := f kv.1 in
  let! m := f kv.2 in
  ret (n + m).

Fixpoint pack_value (val : Value) : P Z :=
  match val with
  | Value.Nil => pack_nil
  | Value.Int val => pack_integer val
  | Value.UInt val => pack_u64 val
  | Value.Bool val => pack_bool val
  | Value.String val => pack_string val
  | Value.Float val =>
      match val with
      | FloatValue.F64 _ =>
          let! x := unwrap (FloatValue.to_f64 val) in pack_f64 x
      | FloatValue.F32 _ => pack_f32 (FloatValue.to_f32 val)
      end
  | Value.Blob val | Value.HLL val => pack_blob val
  | Value.List val =>
      let! n := pack_array_begin (len val) in
      let! size := pack_each pack_value val in
      ret (n + size)
  | Value.HashMap val =>
      let! n := pack_map_begin (len val) in
      let! size :=
        pack_each (fun kv =>
          match kv with
          | (k, v) =>
              let! n := pack_value k in
              let! m := pack_value v in
              ret (n + m)
          end) val in
      ret (n + size)
  | Value.OrderedMap _ => panic
  | Value.GeoJSON val => pack_geo_json val
  end.

Definition pack_array (values : list Value) : P Z :=
  let! n := pack_array_begin (len values) in
  let! size := pack_each pack_value values in
  ret (n + size).

Definition pack_map (map : list (Value * Value)) : P Z :=
  let! n := pack_map_begin (len map) in
  let! size := pack_each (pack_entry pack_value) map in
  ret (n + size).

Definition pack_empty_args_array : P Z := pack_array_begin 0.

(** *** Collection operations *)

(** The argument loop, the same in the three operation encoders. *)
Definition pack_cdt_arg (arg : CdtArgument) : P Z :=
  match arg with
  | ArgByte byte => pack_value (Value.from_u8 byte)
  | ArgInt int => pack_value (Value.from_i64 int)
  | ArgValue value => pack_value value
  | ArgList list => pack_array list
  | ArgMap map => pack_map map
  | ArgBool bool_val => pack_value (Value.from_bool bool_val)
  end.

(** One step of a context path. *)
Definition pack_ctx (c : CdtContext) : P Z :=
  let! n :=
    if ctx_id c =? 0 then pack_integer (ctx_id c)
    else pack_integer (Z.lor (ctx_id c) (ctx_flags c)) in
  let! m := pack_value (ctx_value c) in
  ret (n + m).

(** The prefix that carries a context path. *)
Definition pack_ctx_header (ctx : list CdtContext) : P Z :=
  let! a := pack_array_begin 3 in
  let! b := pack_integer 0xff in
  let! c := pack_array_begin (len ctx * 2) in
  let! d := pack_each pack_ctx ctx in
  ret (a + b + c + d).

Definition pack_cdt_op (op : CdtOperation) (ctx : list CdtContext) : P Z :=
  let! head :=
    match ctx with
    | [] =>
        let! n := pack_raw_u16 (cdt_op op) in
        let! m :=
          match cdt_args op with
          | [] => ret 0
          | _ => pack_array_begin (len (cdt_args op))
          end in
        ret (n + m)
    | _ =>
        let! n := pack_ctx_header ctx in
        let! m := pack_array_begin (len (cdt_args op) + 1) in
        let! k := pack_integer (cdt_op op) in
        ret (n + m + k)
    end in
  let! args := pack_each pack_cdt_arg (cdt_args op) in
  ret (head + args).

Definition pack_hll_op (op : CdtOperation) (_ctx : list CdtContext) : P Z :=
  let! n := pack_array_begin (len (cdt_args op) + 1) in
  let! m := pack_integer (cdt_op op) in
  let! args := pack_each pack_cdt_arg (cdt_args op) in
  ret (n + m + args).

Definition pack_cdt_bit_op (op : CdtOperation) (ctx : list CdtContext) : P Z :=
  let! head :=
    match ctx with
    | [] => ret 0
    | _ => pack_ctx_header ctx
    end in
  let! n := pack_array_begin (len (cdt_args op) + 1) in
  let! m := pack_integer (cdt_op op) in
  let! args := pack_each pack_cdt_arg (cdt_args op) in
  ret (head + n + m + args).

(** [(self.encoder)(buf, self, ctx)]. *)
Definition run_encoder (op : CdtOperation) (ctx : list CdtContext) : P Z :=
  match cdt_encoder op with
  | use_pack_cdt_op => pack_cdt_op op ctx
  | use_pack_hll_op => pack_hll_op op ctx
  | use_pack_cdt_bit_op => pack_cdt_bit_op op ctx
  end.

(** [CdtOperation::estimate_size] and [CdtOperation::write_to]. *)
Definition cdt_estimate_size {S} (op : CdtOperation) (ctx : list CdtContext)
    : M S Z :=
  with_none (run_encoder op ctx).

Definition cdt_write_to (op : CdtOperation) (ctx : list CdtContext)
    : M Buffer Z :=
  with_some (run_encoder op ctx).

End Encoder.
