(* ===== verification/EncoderFacts.v ===== *)
(** * What the encoder writes

    A reference encoding of values and operations as byte strings, and the
    refinement: each packing function returns the length of the reference
    encoding and, when it has a buffer, writes exactly those bytes.  The size
    pass and the writing pass therefore agree. *)

From stdpp Require Import base list strings.
From Stdlib Require Import ZArith Lia Setoid Morphisms.
From S2P Require Import Prelude ResultCodes Monad ByteOrder Slices Wire Buffer.
From S2P Require Import BufferFacts Values Cdt Encoder.

(** ** The packing relation

    [packs m (Some (bs, v))]: [m] emits [bs] (if there is a buffer) and
    returns [v]; [packs m None]: [m] panics, buffer or not. *)

Definition packs {A} (m : P A) (o : option (bytes * A)) : Prop :=
  match o with
  | Some (bs, v) => m ≈ (on_buf (emit bs) ;;; ret v)
  | None => m ≈ panic
  end.

#[export] Instance packs_proper {A} : Proper (meq ==> eq ==> iff) (@packs A).
Proof.
  intros m1 m2 Hm o _ <-. destruct o as [[bs v]|]; cbn;
    rewrite Hm; reflexivity.
Qed.

#[export] Instance on_buf_proper {A} : Proper (meq ==> meq) (@on_buf A).
Proof. intros m1 m2 Hm [b|]; cbn; [rewrite Hm|]; reflexivity. Qed.

Lemma on_buf_bind {A B} (m : M Buffer A) (k : A -> M Buffer B) (k' : M Buffer B) :
  (forall a, k a ≈ k') -> on_buf (bind m k) ≈ (on_buf m ;;; on_buf k').
Proof.
  intros Hk [b|]; [|reflexivity]. unfold bind, on_buf.
  destruct (m b) as [a b'|e b'| |]; try reflexivity. rewrite Hk. reflexivity.
Qed.

Lemma on_buf_emit_app bs1 bs2 :
  on_buf (emit (bs1 ++ bs2)) ≈ (on_buf (emit bs1) ;;; on_buf (emit bs2)).
Proof. rewrite emit_app. apply on_buf_bind. reflexivity. Qed.

Lemma on_buf_emits {A} (m : M Buffer A) bs v :
  emits m bs v -> on_buf m ≈ on_buf (emit bs).
Proof.
  unfold emits. intros H. rewrite H. intros [b|]; [|reflexivity].
  cbn. unfold bind. destruct (emit bs b) as [[] b'|e b'| |]; reflexivity.
Qed.

(** [emit] either succeeds or panics. *)
Lemma emit_panic {A} bs : (on_buf (emit bs) ;;; panic) ≈ (panic : P A).
Proof.
  intros [b|]; [|reflexivity]. revert b.
  induction bs as [|x bs IH]; intros b; [reflexivity|].
  specialize (IH (mkBuffer (<[Z.to_nat (data_offset b) := x]> (data_buffer b))
                    (data_offset b + 1) (reclaim_threshold b))).
  unfold bind, on_buf in *. cbn [emit for_each]. unfold bind, write_u8.
  destruct (index (data_buffer b) (data_offset b)); [exact IH|reflexivity].
Qed.

Lemma packs_ret {A} (v : A) : packs (ret v) (Some ([], v)).
Proof. intros [b|]; reflexivity. Qed.

Lemma packs_panic {A} : packs (panic : P A) None.
Proof. cbn. reflexivity. Qed.

Lemma packs_bind {A B} (m : P A) (k : A -> P B) bs1 bs2 v w :
  packs m (Some (bs1, v)) -> packs (k v) (Some (bs2, w)) ->
  packs (bind m k) (Some (bs1 ++ bs2, w)).
Proof.
  cbn. intros H1 H2. rewrite H1, on_buf_emit_app, !bind_assoc.
  apply bind_proper; [reflexivity|]. intros []. rewrite bind_ret_l.
  exact H2.
Qed.

Lemma packs_bind_l {A B} (m : P A) (k : A -> P B) :
  packs m None -> packs (bind m k) None.
Proof. cbn. intros H. rewrite H. apply bind_panic. Qed.

Lemma packs_bind_r {A B} (m : P A) (k : A -> P B) bs v :
  packs m (Some (bs, v)) -> packs (k v) None -> packs (bind m k) None.
Proof.
  cbn. intros H1 H2. rewrite H1, bind_assoc. rewrite <- (emit_panic bs).
  apply bind_proper; [reflexivity|]. intros []. rewrite bind_ret_l. exact H2.
Qed.

Lemma packs_on_buf {A B} (m : M Buffer A) bs v (w : B) :
  emits m bs v -> packs (on_buf m ;;; ret w) (Some (bs, w)).
Proof. intros H. cbn. rewrite (on_buf_emits _ _ _ H). reflexivity. Qed.

Lemma packs_eq {A} (m : P A) o o' : packs m o -> o = o' -> packs m o'.
Proof. intros H <-. exact H. Qed.

(** [sized o]: the bytes with their count, what a packing function returns. *)
Definition sized (o : option bytes) : option (bytes * Z) :=
  (fun bs => (bs, len bs)) <$> o.

Definition opt_app (o1 o2 : option bytes) : option bytes :=
  match o1, o2 with
  | Some a, Some b => Some (a ++ b)
  | _, _ => None
  end.

Infix "+++" := opt_app (at level 60, right associativity).

(** The same with a count that starts at [acc]. *)
Definition sized_from (acc : Z) (o : option bytes) : option (bytes * Z) :=
  (fun bs => (bs, acc + len bs)) <$> o.

Lemma sized_from_0 o : sized_from 0 o = sized o.
Proof. destruct o; reflexivity. Qed.

Lemma opt_app_nil_r o : o +++ Some [] = o.
Proof. destruct o; cbn; [rewrite app_nil_r|]; reflexivity. Qed.

Lemma opt_app_assoc o1 o2 o3 : (o1 +++ o2) +++ o3 = o1 +++ (o2 +++ o3).
Proof. destruct o1, o2, o3; cbn; rewrite <- ?app_assoc; reflexivity. Qed.

(** One step of [size += m?;], with the count so far in [acc]. *)
Lemma packs_step (m : P Z) (k : Z -> P Z) o1 o2 acc :
  packs m (sized o1) ->
  (forall n, packs (k n) (sized_from (acc + n) o2)) ->
  packs (bind m k) (sized_from acc (o1 +++ o2)).
Proof.
  intros H1 H2. destruct o1 as [bs1|]; [|apply packs_bind_l, H1].
  specialize (H2 (len bs1)). destruct o2 as [bs2|].
  - eapply packs_eq; [eapply packs_bind; [exact H1|exact H2]|].
    cbn. rewrite len_app, Z.add_assoc. reflexivity.
  - eapply packs_bind_r; [exact H1|exact H2].
Qed.

Lemma packs_done v acc : v = acc -> packs (ret v) (sized_from acc (Some [])).
Proof.
  intros ->. eapply packs_eq; [apply packs_ret|]. cbn.
  rewrite Z.add_0_r. reflexivity.
Qed.

Lemma packs_sum (m : P Z) o o' :
  packs m (sized_from 0 o) -> o = o' -> packs m (sized o').
Proof. rewrite sized_from_0. intros H <-. exact H. Qed.

(** Two packing steps whose sizes are added. *)
Lemma packs_add (m1 m2 : P Z) o1 o2 :
  packs m1 (sized o1) -> packs m2 (sized o2) ->
  packs (let! n := m1 in let! k := m2 in ret (n + k)) (sized (o1 +++ o2)).
Proof.
  intros H1 H2. eapply packs_sum.
  - eapply packs_step; [exact H1|]. intros n.
    eapply packs_step; [exact H2|]. intros k. apply packs_done. lia.
  - rewrite opt_app_nil_r. reflexivity.
Qed.

Fixpoint opt_concat (l : list (option bytes)) : option bytes :=
  match l with
  | [] => Some []
  | o :: l' => o +++ opt_concat l'
  end.

Lemma packs_each {A} (f : A -> P Z) (g : A -> option bytes) l :
  Forall (fun x => packs (f x) (sized (g x))) l ->
  packs (pack_each f l) (sized (opt_concat (g <$> l))).
Proof.
  induction 1 as [|x l Hx _ IH]; [apply packs_ret|].
  cbn [pack_each fmap list_fmap opt_concat]. apply packs_add; assumption.
Qed.

(** Both passes of a packing function, from its normal form. *)
Lemma packs_sizes {S} (m : P Z) bs s :
  packs m (sized (Some bs)) -> with_none m s = Ret (len bs) (s : S).
Proof. cbn. intros H. unfold with_none. rewrite H. reflexivity. Qed.

Lemma packs_with_none {S} (m : P Z) bs :
  packs m (sized (Some bs)) -> (with_none m : M S Z) ≈ ret (len bs).
Proof. intros H s. apply packs_sizes, H. Qed.

Lemma packs_with_none_panic {S} (m : P Z) :
  packs m None -> (with_none m : M S Z) ≈ panic.
Proof. cbn. intros H s. unfold with_none. rewrite H. reflexivity. Qed.

Lemma emit_total bs b :
  (exists b', emit bs b = Ret tt b') \/ emit bs b = Panic.
Proof.
  revert b. induction bs as [|x bs IH]; intros b; [left; eexists; reflexivity|].
  cbn [emit for_each]. unfold bind, write_u8.
  destruct (index (data_buffer b) (data_offset b)); [apply IH|auto].
Qed.

Lemma packs_with_some (m : P Z) bs :
  packs m (sized (Some bs)) -> emits (with_some m) bs (len bs).
Proof.
  cbn. intros H b. unfold with_some. rewrite H. unfold bind, on_buf.
  destruct (emit_total bs b) as [[b' ->] | ->]; reflexivity.
Qed.

Lemma packs_with_some_panic (m : P Z) : packs m None -> with_some m ≈ panic.
Proof. cbn. intros H b. unfold with_some. rewrite H. reflexivity. Qed.

Lemma with_none_proper {S A} (m m' : P A) :
  m ≈ m' -> (with_none m : M S A) ≈ with_none m'.
Proof. intros H s. unfold with_none. rewrite H. reflexivity. Qed.

(** ** The reference encoding *)

Section Reference.
Context `{BO : ByteOrder}.

(** Heads of arrays, maps and raw byte strings. *)
Definition enc_head (fix_limit fix_tag tag16 tag32 length : Z) : bytes :=
  if length <? fix_limit then [fix_tag + length]
  else if length <? 65536 then tag16 :: write_be 2 length
  else tag32 :: write_be 4 length.

Definition enc_array_head (length : Z) : bytes :=
  enc_head 16 0x90 0xdc 0xdd length.

Definition enc_map_head (length : Z) : bytes :=
  enc_head 16 0x80 0xde 0xdf length.

Definition enc_raw_head (length : Z) : bytes :=
  enc_head 32 0xa0 0xda 0xdb length.

(** A byte string tagged with its particle type. *)
Definition enc_raw (t : ParticleType) (bs : bytes) : bytes :=
  enc_raw_head (len bs + 1) ++ ParticleType.to_u8 t :: bs.

Definition enc_raw_string (bs : bytes) : bytes := enc_raw_head (len bs) ++ bs.

Definition enc_int (v : Z) : bytes :=
  if v <? -2147483648 then 0xd3 :: write_be 8 v
  else if v <? -32768 then 0xd2 :: write_be 4 v
  else if v <? -128 then 0xd1 :: write_be 2 v
  else if v <? -32 then [0xd0; v + 256]
  else if v <? 0 then [v + 256]
  else if v <? 128 then [v]
  else if v <? 32767 then 0xcd :: write_be 2 v
  else if v <? 2147483647 then 0xce :: write_be 4 v
  else 0xd3 :: write_be 8 v.

Definition enc_uint (v : Z) : bytes :=
  if v <? 9223372036854775808 then enc_int (as_i64 v) else 0xcf :: write_be 8 v.

Fixpoint enc_value (v : Value) : option bytes :=
  match v with
  | Value.Nil => Some [0xc0]
  | Value.Bool b => Some [if b then 0xc3 else 0xc2]
  | Value.Int i => Some (enc_int i)
  | Value.UInt u => Some (enc_uint u)
  | Value.Float (FloatValue.F32 x) => Some (0xca :: write_be 4 x)
  | Value.Float (FloatValue.F64 x) => Some (0xcb :: write_be 8 x)
  | Value.String s => Some (enc_raw ParticleType.STRING s)
  | Value.Blob b | Value.HLL b => Some (enc_raw ParticleType.BLOB b)
  | Value.GeoJSON s => Some (enc_raw ParticleType.GEOJSON s)
  | Value.List l =>
      Some (enc_array_head (len l)) +++ opt_concat (enc_value <$> l)
  | Value.HashMap m =>
      Some (enc_map_head (len m)) +++
      opt_concat ((fun kv => match kv with
                             | (k, v) => enc_value k +++ enc_value v
                             end) <$> m)
  | Value.OrderedMap _ => None
  end.

Definition enc_entry (kv : Value * Value) : option bytes :=
  match kv with (k, v) => enc_value k +++ enc_value v end.

Definition enc_list (l : list Value) : option bytes :=
  Some (enc_array_head (len l)) +++ opt_concat (enc_value <$> l).

Definition enc_map (m : list (Value * Value)) : option bytes :=
  Some (enc_map_head (len m)) +++ opt_concat (enc_entry <$> m).

Definition enc_arg (a : CdtArgument) : option bytes :=
  match a with
  | ArgByte b => Some (enc_int b)
  | ArgInt i => Some (enc_int i)
  | ArgBool b => Some [if b then 0xc3 else 0xc2]
  | ArgValue v => enc_value v
  | ArgList l => enc_list l
  | ArgMap m => enc_map m
  end.

Definition enc_ctx (c : CdtContext) : option bytes :=
  Some (enc_int (if ctx_id c =? 0 then ctx_id c
                 else Z.lor (ctx_id c) (ctx_flags c))) +++
  enc_value (ctx_value c).

(** [0xff] marks a context; the path is a flat list of ids and values. *)
Definition enc_ctx_header (ctx : list CdtContext) : option bytes :=
  Some (enc_array_head 3 ++ enc_int 0xff ++ enc_array_head (len ctx * 2)) +++
  opt_concat (enc_ctx <$> ctx).

Definition enc_args (args : list CdtArgument) : option bytes :=
  opt_concat (enc_arg <$> args).

(** Operation code and arguments as one array. *)
Definition enc_call (op : CdtOperation) : option bytes :=
  Some (enc_array_head (len (cdt_args op) + 1) ++ enc_int (cdt_op op)) +++
  enc_args (cdt_args op).

Definition enc_cdt_op (op : CdtOperation) (ctx : list CdtContext)
    : option bytes :=
  match ctx with
  | [] =>
      Some (write_be 2 (cdt_op op) ++
            match cdt_args op with
            | [] => []
            | _ => enc_array_head (len (cdt_args op))
            end) +++
      enc_args (cdt_args op)
  | _ => enc_ctx_header ctx +++ enc_call op
  end.

Definition enc_operation (op : CdtOperation) (ctx : list CdtContext)
    : option bytes :=
  match cdt_encoder op with
  | use_pack_cdt_op => enc_cdt_op op ctx
  | use_pack_hll_op => enc_call op
  | use_pack_cdt_bit_op =>
      match ctx with
      | [] => enc_call op
      | _ => enc_ctx_header ctx +++ enc_call op
      end
  end.

(** ** The encoder refines the reference *)

Lemma write_be_wrap_i n w v :
  (n <= w)%nat -> (0 < w)%nat ->
  write_be n (wrap_i (8 * Z.of_nat w) v) = write_be n v.
Proof.
  intros Hn Hw. rewrite <- (write_be_mod n w), <- (write_be_mod n w v) by lia.
  unfold wrap_i. rewrite Zminus_mod_idemp_l. f_equal. f_equal. lia.
Qed.

Lemma pack_half_byte_packs v : packs (pack_half_byte v) (sized (Some [v])).
Proof. eapply packs_on_buf. auto with emits. Qed.

Lemma pack_byte_packs m v : packs (pack_byte m v) (sized (Some [m; v])).
Proof. eapply packs_on_buf. emits_tac. reflexivity. Qed.

Lemma pack_i16_packs m v :
  packs (pack_i16 m v) (sized (Some (m :: write_be 2 v))).
Proof.
  cbn [sized fmap option_fmap option_map]. rewrite len_cons, len_write_be.
  eapply packs_on_buf. emits_tac. reflexivity.
Qed.

Lemma pack_i32_packs m v :
  packs (pack_i32 m v) (sized (Some (m :: write_be 4 v))).
Proof.
  cbn [sized fmap option_fmap option_map]. rewrite len_cons, len_write_be.
  eapply packs_on_buf. emits_tac. reflexivity.
Qed.

Lemma pack_i64_packs m v :
  packs (pack_i64 m v) (sized (Some (m :: write_be 8 v))).
Proof.
  cbn [sized fmap option_fmap option_map]. rewrite len_cons, len_write_be.
  eapply packs_on_buf. emits_tac. reflexivity.
Qed.

Lemma pack_f32_packs v :
  packs (pack_f32 v) (sized (Some (0xca :: write_be 4 v))).
Proof.
  cbn [sized fmap option_fmap option_map]. rewrite len_cons, len_write_be.
  eapply packs_on_buf. emits_tac. reflexivity.
Qed.

Lemma pack_f64_packs v :
  packs (pack_f64 v) (sized (Some (0xcb :: write_be 8 v))).
Proof.
  cbn [sized fmap option_fmap option_map]. rewrite len_cons, len_write_be.
  eapply packs_on_buf. emits_tac. reflexivity.
Qed.

Lemma pack_nil_packs : packs pack_nil (sized (Some [0xc0])).
Proof. eapply packs_on_buf. auto with emits. Qed.

Lemma pack_bool_packs b :
  packs (pack_bool b) (sized (Some [if b then 0xc3 else 0xc2])).
Proof. eapply packs_on_buf. destruct b; apply write_u8_emits. Qed.

Lemma pack_raw_u16_packs v :
  packs (pack_raw_u16 v) (sized (Some (write_be 2 v))).
Proof.
  cbn [sized fmap option_fmap option_map]. rewrite len_write_be.
  eapply packs_on_buf. auto with emits.
Qed.

(** The three length heads follow one pattern. *)
Lemma head_packs limit k tag t16 t32 n :
  0 <= n -> limit = 2 ^ k -> 0 < k -> limit <= 256 ->
  packs
    (if n <? limit then pack_half_byte (Z.lor (tag * 2 ^ k) (as_u8 n))
     else if (limit <=? n) && (n <? Z.shiftl 1 16) then pack_i16 t16 (as_i16 n)
     else pack_i32 t32 (as_i32 n))
    (sized (Some (enc_head limit (tag * 2 ^ k) t16 t32 n))).
Proof.
  intros Hn Hl Hk Hmax. unfold enc_head. change (Z.shiftl 1 16) with 65536.
  destruct (Z.ltb_spec n limit).
  - rewrite as_u8_id by (unfold is_byte; lia).
    rewrite lor_add by lia. apply pack_half_byte_packs.
  - replace (limit <=? n) with true by (symmetry; apply Z.leb_le; lia).
    cbn [andb]. destruct (n <? 65536).
    + rewrite <- (write_be_wrap_i 2 2 n) by lia. apply pack_i16_packs.
    + rewrite <- (write_be_wrap_i 4 4 n) by lia. apply pack_i32_packs.
Qed.

Lemma pack_array_begin_packs n :
  0 <= n -> packs (pack_array_begin n) (sized (Some (enc_array_head n))).
Proof. intros. apply (head_packs 16 4 9); lia. Qed.

Lemma pack_map_begin_packs n :
  0 <= n -> packs (pack_map_begin n) (sized (Some (enc_map_head n))).
Proof. intros. apply (head_packs 16 4 8); lia. Qed.

Lemma pack_byte_array_begin_packs n :
  0 <= n -> packs (pack_byte_array_begin n) (sized (Some (enc_raw_head n))).
Proof. intros. apply (head_packs 32 5 5); lia. Qed.

(** A head followed by bytes that the head announces. *)
Lemma raw_packs (m : M Buffer Z) n bs v :
  0 <= n -> len bs = n -> emits m bs v ->
  packs (let! k := pack_byte_array_begin n in on_buf m ;;; ret (n + k))
    (sized (Some (enc_raw_head n ++ bs))).
Proof.
  intros Hn Hb Hm. eapply packs_eq.
  - eapply packs_bind; [apply pack_byte_array_begin_packs, Hn|].
    eapply packs_on_buf, Hm.
  - cbn. rewrite len_app. do 2 f_equal. lia.
Qed.

Lemma pack_blob_packs bs :
  packs (pack_blob bs) (sized (Some (enc_raw ParticleType.BLOB bs))).
Proof.
  pose proof (len_nonneg bs).
  eapply (raw_packs _ (len bs + 1)); [lia|rewrite len_cons; lia|].
  emits_tac. reflexivity.
Qed.

Lemma pack_string_packs bs :
  packs (pack_string bs) (sized (Some (enc_raw ParticleType.STRING bs))).
Proof.
  pose proof (len_nonneg bs).
  eapply (raw_packs _ (len bs + 1)); [lia|rewrite len_cons; lia|].
  emits_tac. reflexivity.
Qed.

Lemma pack_geo_json_packs bs :
  packs (pack_geo_json bs) (sized (Some (enc_raw ParticleType.GEOJSON bs))).
Proof.
  pose proof (len_nonneg bs).
  eapply (raw_packs _ (len bs + 1)); [lia|rewrite len_cons; lia|].
  emits_tac. reflexivity.
Qed.

Lemma pack_raw_string_packs bs :
  packs (pack_raw_string bs) (sized (Some (enc_raw_string bs))).
Proof.
  eapply (raw_packs _ (len bs)); [apply len_nonneg|reflexivity|].
  auto with emits.
Qed.

(** Negative fixnums: the low byte of [-32 <= v < 0]. *)
Lemma neg_fixnum v :
  -32 <= v < 0 -> Z.lor 0xe0 (as_u8 (as_u8 v + 32)) = v + 256.
Proof.
  intros Hv. unfold as_u8, wrap_u. rewrite Zplus_mod_idemp_l.
  replace (v + 32) with (v + 32 + 0 * 2 ^ 8) by lia.
  rewrite Z.mod_add by lia. rewrite Z.mod_small by lia.
  change 0xe0 with (7 * 2 ^ 5). rewrite lor_add by lia. lia.
Qed.

Lemma as_u8_neg v : -256 <= v < 0 -> as_u8 v = v + 256.
Proof.
  intros Hv. unfold as_u8, wrap_u.
  rewrite <- (Z.mod_add v 1) by lia. apply Z.mod_small. lia.
Qed.

Lemma pack_integer_packs v :
  packs (pack_integer v) (sized (Some (enc_int v))).
Proof.
  unfold pack_integer, enc_int. change (Z.shiftl 1 7) with 128.
  assert (v < -2147483648 \/ -2147483648 <= v < -32768
          \/ -32768 <= v < -128 \/ -128 <= v < -32 \/ -32 <= v < 0
          \/ 0 <= v < 128 \/ 128 <= v < 32767 \/ 32767 <= v < 2147483647
          \/ 2147483647 <= v) as C by lia.
  destruct C as [C|[C|[C|[C|[C|[C|[C|[C|C]]]]]]]]; decide_tests.
  - apply pack_i64_packs.
  - rewrite <- (write_be_wrap_i 4 4 v) by lia. apply pack_i32_packs.
  - rewrite <- (write_be_wrap_i 2 2 v) by lia. apply pack_i16_packs.
  - rewrite <- as_u8_neg by lia. apply pack_byte_packs.
  - rewrite <- (neg_fixnum v) by lia. apply pack_half_byte_packs.
  - rewrite as_u8_id by (unfold is_byte; lia). apply pack_half_byte_packs.
  - rewrite <- (write_be_wrap_i 2 2 v) by lia. apply pack_i16_packs.
  - rewrite <- (write_be_wrap_i 4 4 v) by lia. apply pack_i32_packs.
  - apply pack_i64_packs.
Qed.

Lemma pack_u64_packs v : packs (pack_u64 v) (sized (Some (enc_uint v))).
Proof.
  unfold pack_u64, enc_uint.
  destruct (Z.leb_spec v 9223372036854775807); decide_tests.
  - apply pack_integer_packs.
  - cbn [sized fmap option_fmap option_map]. rewrite len_cons, len_write_be.
    eapply packs_on_buf. emits_tac. reflexivity.
Qed.

Lemma pack_value_packs v : packs (pack_value v) (sized (enc_value v)).
Proof.
  induction v using Value.value_ind'; cbn [pack_value enc_value].
  - apply pack_nil_packs.
  - apply pack_bool_packs.
  - apply pack_integer_packs.
  - apply pack_u64_packs.
  - destruct f; [apply pack_f32_packs|].
    cbn [FloatValue.to_f64 unwrap]. rewrite bind_ret_l. apply pack_f64_packs.
  - apply pack_string_packs.
  - apply pack_blob_packs.
  - apply packs_add; [apply pack_array_begin_packs, len_nonneg|].
    apply packs_each. assumption.
  - apply packs_add; [apply pack_map_begin_packs, len_nonneg|].
    apply packs_each. eapply Forall_impl; [eassumption|].
    intros [k v] [Hk Hv]. apply packs_add; assumption.
  - apply packs_panic.
  - apply pack_geo_json_packs.
  - apply pack_blob_packs.
Qed.

Lemma pack_array_packs l : packs (pack_array l) (sized (enc_list l)).
Proof.
  apply packs_add; [apply pack_array_begin_packs, len_nonneg|].
  apply packs_each, Forall_forall. intros v _. apply pack_value_packs.
Qed.

Lemma pack_map_packs m : packs (pack_map m) (sized (enc_map m)).
Proof.
  apply packs_add; [apply pack_map_begin_packs, len_nonneg|].
  apply packs_each, Forall_forall. intros [k v] _.
  apply packs_add; apply pack_value_packs.
Qed.

Lemma pack_empty_args_packs :
  packs pack_empty_args_array (sized (enc_list [])).
Proof. apply (pack_array_begin_packs 0). lia. Qed.

Lemma pack_arg_packs a : packs (pack_cdt_arg a) (sized (enc_arg a)).
Proof.
  destruct a; cbn [pack_cdt_arg enc_arg].
  - apply pack_integer_packs.
  - apply pack_integer_packs.
  - apply pack_bool_packs.
  - apply pack_value_packs.
  - apply pack_array_packs.
  - apply pack_map_packs.
Qed.

Lemma pack_args_packs args :
  packs (pack_each pack_cdt_arg args) (sized (enc_args args)).
Proof.
  apply packs_each, Forall_forall. intros a _. apply pack_arg_packs.
Qed.

Lemma pack_ctx_packs c : packs (pack_ctx c) (sized (enc_ctx c)).
Proof.
  unfold pack_ctx, enc_ctx. apply packs_add; [|apply pack_value_packs].
  destruct (ctx_id c =? 0); apply pack_integer_packs.
Qed.

(** Runs through a sequence of packing steps; a step without a lemma in
    [pack_one] is left to the caller. *)
Ltac pack_one :=
  first [ apply pack_integer_packs
        | apply pack_args_packs
        | apply pack_raw_string_packs
        | apply pack_value_packs
        | apply pack_array_begin_packs;
          match goal with
          | |- context [len ?l] => pose proof (len_nonneg l); lia
          | _ => lia
          end ].

Ltac packs_steps :=
  repeat first
    [ apply packs_done; lia
    | eapply packs_step; [first [pack_one | idtac]|intros ?] ].

Lemma pack_ctx_header_packs ctx :
  packs (pack_ctx_header ctx) (sized (enc_ctx_header ctx)).
Proof.
  unfold pack_ctx_header. eapply packs_sum.
  - packs_steps. eapply packs_each, Forall_forall.
    intros c _. apply pack_ctx_packs.
  - unfold enc_ctx_header.
    destruct (opt_concat _); cbn; rewrite ?app_nil_r, <- ?app_assoc;
      reflexivity.
Qed.

Lemma pack_hll_op_packs op ctx :
  packs (pack_hll_op op ctx) (sized (enc_call op)).
Proof.
  unfold pack_hll_op. eapply packs_sum; [packs_steps|].
  unfold enc_call. destruct (enc_args _); cbn;
    rewrite ?app_nil_r, <- ?app_assoc; reflexivity.
Qed.

Lemma enc_call_split op :
  enc_call op
  = Some (enc_array_head (len (cdt_args op) + 1)) +++
    Some (enc_int (cdt_op op)) +++ enc_args (cdt_args op).
Proof.
  unfold enc_call. destruct (enc_args _); cbn; rewrite <- ?app_assoc;
    reflexivity.
Qed.

Lemma pack_cdt_bit_op_packs op ctx :
  packs (pack_cdt_bit_op op ctx)
    (sized (match ctx with
            | [] => enc_call op
            | _ => enc_ctx_header ctx +++ enc_call op
            end)).
Proof.
  unfold pack_cdt_bit_op. rewrite enc_call_split.
  destruct ctx as [|c ctx]; eapply packs_sum.
  - eapply packs_step; [apply (packs_ret 0 : packs _ (sized (Some [])))|].
    intros ?. packs_steps.
  - rewrite opt_app_nil_r. destruct (enc_args _); reflexivity.
  - eapply packs_step; [apply pack_ctx_header_packs|]. intros ?. packs_steps.
  - rewrite opt_app_nil_r. reflexivity.
Qed.

Lemma pack_cdt_head_packs op :
  packs
    (let! n := pack_raw_u16 (cdt_op op) in
     let! m :=
       match cdt_args op with
       | [] => ret 0
       | _ => pack_array_begin (len (cdt_args op))
       end in
     ret (n + m))
    (sized (Some (write_be 2 (cdt_op op) ++
                  match cdt_args op with
                  | [] => []
                  | _ => enc_array_head (len (cdt_args op))
                  end))).
Proof.
  eapply packs_sum.
  - eapply packs_step; [apply pack_raw_u16_packs|]. intros n.
    eapply packs_step; [|intros k; apply packs_done; lia].
    instantiate (1 := Some (match cdt_args op with
                            | [] => []
                            | _ => enc_array_head (len (cdt_args op))
                            end)).
    destruct (cdt_args op); [apply packs_ret|].
    apply pack_array_begin_packs, len_nonneg.
  - cbn. rewrite app_nil_r. reflexivity.
Qed.

Lemma pack_cdt_op_packs op ctx :
  packs (pack_cdt_op op ctx) (sized (enc_cdt_op op ctx)).
Proof.
  unfold pack_cdt_op, enc_cdt_op. destruct ctx as [|c ctx].
  - apply packs_add; [apply pack_cdt_head_packs|apply pack_args_packs].
  - rewrite enc_call_split, <- !opt_app_assoc.
    apply packs_add; [|apply pack_args_packs].
    eapply packs_sum.
    + eapply packs_step; [apply pack_ctx_header_packs|]. intros ?. packs_steps.
    + rewrite opt_app_nil_r, opt_app_assoc. reflexivity.
Qed.

(** Every operation encoder refines the reference encoding. *)
Lemma run_encoder_packs op ctx :
  packs (run_encoder op ctx) (sized (enc_operation op ctx)).
Proof.
  unfold run_encoder, enc_operation. destruct (cdt_encoder op).
  - apply pack_cdt_op_packs.
  - apply pack_hll_op_packs.
  - apply pack_cdt_bit_op_packs.
Qed.

End Reference.
