(* ===== verification/Decoder.v ===== *)
(** * The MessagePack decoder ([src/msgpack/decoder.rs])

    [unpack_value] is recursive and its loops run as often as the input says,
    so the model carries fuel: one unit per nesting level and per element.
    The buffer bounds the work (every value has a first byte, and a read past
    the end panics), which [unpack_value_terminates] turns into a bound on the
    fuel.  Error results keep the state reached, because the code drops the
    result of the extension element of a list or map and goes on. *)

From stdpp Require Import base list strings.
From Stdlib Require Import ZArith Lia.
From S2P Require Import Prelude ResultCodes Monad ByteOrder Slices Text Wire.
From S2P Require Import Buffer Values.

Definition is_ext (byte : Z) : bool :=
  existsb (Z.eqb byte) [0xc7; 0xc8; 0xc9; 0xd4; 0xd5; 0xd6; 0xd7; 0xd8].

(** [for _ in 0..count], threading an accumulator. *)
Fixpoint iterate_m {S A} (fuel : nat) (count : Z) (f : A -> M S A) (acc : A)
    : M S A :=
  if count <=? 0 then ret acc
  else
    match fuel with
    | O => no_fuel
    | Datatypes.S fuel' =>
        let! acc' := f acc in iterate_m fuel' (count - 1) f acc'
    end.

(** [1 + n] on an unsigned integer of [w] bits. *)
Definition succ_u {S} (w n : Z) : M S Z :=
  if 1 + n <? 2 ^ w then ret (1 + n) else panic.

Section Decoder.
Context `{BO : ByteOrder}.

Definition unpack_blob (count : Z) : M Buffer Value :=
  let! vtype := read_u8 None in
  let! count := usize_sub count 1 in
  match ParticleType.from_u8 vtype with
  | Some ParticleType.STRING =>
      let! val := read_str count in ret (Value.String val)
  | Some ParticleType.BLOB =>
      let! val := read_blob count in ret (Value.Blob val)
  | Some ParticleType.GEOJSON =>
      let! val := read_str count in ret (Value.GeoJSON val)
  | Some _ =>
      throw (Msg
        "Error while unpacking BLOB. Type-header with code `{}` not recognized.")
  | None => panic
  end.

(** [count > 0 && is_ext(buf.peek())] *)
Definition starts_with_ext (count : Z) : M Buffer bool :=
  if 0 <? count then let! b := peek in ret (is_ext b) else ret false.

(** The bodies of the recursive functions, for a recursive call [uv] and loop
    fuel [n]. *)
Section Bodies.
Context (n : nat) (uv : M Buffer Value).

Definition unpack_list (count : Z) : M Buffer Value :=
  let! ext := starts_with_ext count in
  let! count :=
    if (ext : bool) then discard uv ;;; usize_sub count 1 else ret count in
  let! list := repeat_m n count uv in
  ret (Value.from_vec list).

Definition unpack_entry (map : list (Value * Value))
    : M Buffer (list (Value * Value)) :=
  let! key := uv in
  let! val := uv in
  Value.map_insert key val map.

Definition unpack_map (count : Z) : M Buffer Value :=
  let! ext := starts_with_ext count in
  let! count :=
    if (ext : bool)
    then discard uv ;;; discard uv ;;; usize_sub count 1
    else ret count in
  let! map := iterate_m n count unpack_entry [] in
  ret (Value.from_hashmap map).

(** [buf.skip_bytes(count as usize); Ok(Value::Nil)] *)
Definition skip_ext (count : Z) : M Buffer Value :=
  skip_bytes count ;;; ret Value.Nil.

(** The [match obj_type], arm by arm. *)
Definition unpack_typed (obj_type : Z) : M Buffer Value :=
  if between 0x00 0x7f obj_type then ret (Value.from_u8 obj_type)
  else if between 0x80 0x8f obj_type then unpack_map (Z.land obj_type 0x0f)
  else if between 0x90 0x9f obj_type then unpack_list (Z.land obj_type 0x0f)
  else if between 0xa0 0xbf obj_type then unpack_blob (Z.land obj_type 0x1f)
  else if obj_type =? 0xc0 then ret Value.Nil
  else if obj_type =? 0xc2 then ret (Value.from_bool false)
  else if obj_type =? 0xc3 then ret (Value.from_bool true)
  else if (obj_type =? 0xc4) || (obj_type =? 0xd9) then
    let! count := read_u8 None in unpack_blob count
  else if (obj_type =? 0xc5) || (obj_type =? 0xda) then
    let! count := read_u16 None in unpack_blob count
  else if (obj_type =? 0xc6) || (obj_type =? 0xdb) then
    let! count := read_u32 None in unpack_blob count
  else if obj_type =? 0xc7 then
    let! n := read_u8 None in let! count := succ_u 8 n in skip_ext count
  else if obj_type =? 0xc8 then
    let! n := read_u16 None in let! count := succ_u 16 n in skip_ext count
  else if obj_type =? 0xc9 then
    let! n := read_u32 None in let! count := succ_u 32 n in skip_ext count
  else if obj_type =? 0xca then
    let! x := read_f32 None in ret (Value.from_f32 x)
  else if obj_type =? 0xcb then
    let! x := read_f64 None in ret (Value.from_f64 x)
  else if obj_type =? 0xcc then
    let! x := read_u8 None in ret (Value.from_u8 x)
  else if obj_type =? 0xcd then
    let! x := read_u16 None in ret (Value.from_u16 x)
  else if obj_type =? 0xce then
    let! x := read_u32 None in ret (Value.from_u32 x)
  else if obj_type =? 0xcf then
    let! x := read_u64 None in ret (Value.from_u64 x)
  else if obj_type =? 0xd0 then
    let! x := read_i8 None in ret (Value.from_i8 x)
  else if obj_type =? 0xd1 then
    let! x := read_i16 None in ret (Value.from_i16 x)
  else if obj_type =? 0xd2 then
    let! x := read_i32 None in ret (Value.from_i32 x)
  else if obj_type =? 0xd3 then
    let! x := read_i64 None in ret (Value.from_i64 x)
  else if obj_type =? 0xd4 then skip_ext (1 + 1)
  else if obj_type =? 0xd5 then skip_ext (1 + 2)
  else if obj_type =? 0xd6 then skip_ext (1 + 4)
  else if obj_type =? 0xd7 then skip_ext (1 + 8)
  else if obj_type =? 0xd8 then skip_ext (1 + 16)
  else if obj_type =? 0xdc then
    let! count := read_u16 None in unpack_list count
  else if obj_type =? 0xdd then
    let! count := read_u32 None in unpack_list count
  else if obj_type =? 0xde then
    let! count := read_u16 None in unpack_map count
  else if obj_type =? 0xdf then
    let! count := read_u32 None in unpack_map count
  else if between 0xe0 0xff obj_type then
    ret (Value.from_i16 (obj_type - 0xe0 - 32))
  else throw (BadResponse "Error unpacking value of type '{:x}'").

End Bodies.

Fixpoint unpack_value (fuel : nat) : M Buffer Value :=
  match fuel with
  | O => no_fuel
  | S f =>
      let! obj_type := read_u8 None in
      unpack_typed f (unpack_value f) obj_type
  end.

Definition is_empty (d : bytes) : bool :=
  match d with [] => true | _ => false end.

(** The entry points for list and map particles. *)
Definition unpack_value_list (fuel : nat) : M Buffer Value :=
  let! buf := get in
  if is_empty (data_buffer buf) then ret (Value.List [])
  else
    let! ltype := read_u8 None in
    let! count :=
      if between 0x90 0x9f ltype then ret (Z.land ltype 0x0f)
      else if ltype =? 0xdc then read_u16 None
      else if ltype =? 0xdd then read_u32 None
      else panic in
    unpack_list fuel (unpack_value fuel) count.

Definition unpack_value_map (fuel : nat) : M Buffer Value :=
  let! buf := get in
  if is_empty (data_buffer buf) then ret (Value.from_hashmap [])
  else
    let! ltype := read_u8 None in
    let! count :=
      if between 0x80 0x8f ltype then ret (Z.land ltype 0x0f)
      else if ltype =? 0xde then read_u16 None
      else if ltype =? 0xdf then read_u32 None
      else panic in
    unpack_map fuel (unpack_value fuel) count.

(** [bytes_to_particle] of [src/value.rs]: the value of a response bin. *)
Definition bytes_to_particle (fuel : nat) (ptype len : Z) : M Buffer Value :=
  match ParticleType.from_u8 ptype with
  | None => panic
  | Some ParticleType.NULL => ret Value.Nil
  | Some ParticleType.INTEGER =>
      let! val := read_i64 None in ret (Value.Int val)
  | Some ParticleType.FLOAT =>
      let! val := read_f64 None in
      ret (Value.Float (FloatValue.from_f64 val))
  | Some ParticleType.STRING =>
      let! val := read_str len in ret (Value.String val)
  | Some ParticleType.GEOJSON =>
      skip 1 ;;;
      let! ncells := read_i16 None in
      let! header_size := usize_checked (as_u64 ncells * 8) in
      skip header_size ;;;
      let! n := usize_sub len header_size in
      let! n := usize_sub n 3 in
      let! val := read_str n in ret (Value.GeoJSON val)
  | Some ParticleType.BLOB =>
      let! val := read_blob len in ret (Value.Blob val)
  | Some ParticleType.BOOL =>
      let! val := read_bool len in ret (Value.Bool val)
  | Some ParticleType.LIST => unpack_value_list fuel
  | Some ParticleType.MAP => unpack_value_map fuel
  | Some ParticleType.DIGEST =>
      ret (Value.from_string (str "A DIGEST, NOT IMPLEMENTED YET!"))
  | Some ParticleType.LDT =>
      ret (Value.from_string (str "A LDT, NOT IMPLEMENTED YET!"))
  | Some ParticleType.HLL =>
      let! val := read_blob len in ret (Value.HLL val)
  end.

End Decoder.
