(* ===== verification/DecoderFacts.v ===== *)
(** * The decoder terminates

    Every value of the input has a first byte, so the bytes left in the buffer
    bound both the nesting depth and the iterations of the decoder's loops:
    that many units of fuel are enough on any input. *)

From stdpp Require Import base list strings.
From Stdlib Require Import ZArith Lia Setoid Morphisms.
From S2P Require Import Prelude ResultCodes Monad ByteOrder Slices Text Wire.
From S2P Require Import Buffer Values Decoder.

(** ** Progress *)

(** The bytes from the cursor to the end. *)
Definition room (b : Buffer) : Z := len (data_buffer b) - data_offset b.

(** With at most [r] bytes left, [m] does not run out of fuel; it leaves the
    data alone and, when it does not panic, has consumed [n] bytes. *)
Definition steps {A} (r n : Z) (m : M Buffer A) : Prop :=
  forall b,
    all_bytes (data_buffer b) -> room b <= r ->
    match m b with
    | Ret _ b' | Throw _ b' =>
        data_buffer b' = data_buffer b /\ room b' <= room b - n
    | Panic => True
    | NoFuel => False
    end.

(** Like [steps] with a result that satisfies [Q]. *)
Definition steps_to {A} (r n : Z) (m : M Buffer A) (Q : A -> Prop) : Prop :=
  steps r n m /\
  forall b a b', all_bytes (data_buffer b) -> m b = Ret a b' -> Q a.

Lemma steps_weaken {A} r r' n n' (m : M Buffer A) :
  steps r n m -> r' <= r -> n' <= n -> steps r' n' m.
Proof.
  intros H Hr Hn b Hb Hroom. specialize (H b Hb ltac:(lia)).
  destruct (m b); try exact H; destruct H; split; auto; lia.
Qed.

Lemma steps_bind {A B} r n (m : M Buffer A) (k : A -> M Buffer B) :
  steps r n m -> (forall a, steps (r - n) 0 (k a)) -> steps r n (bind m k).
Proof.
  intros Hm Hk b Hb Hr. unfold bind. specialize (Hm b Hb Hr).
  destruct (m b) as [a b1|e b1| |]; try exact Hm.
  destruct Hm as [Hd Hroom]. rewrite <- Hd in Hb.
  specialize (Hk a b1 Hb ltac:(lia)).
  destruct (k a b1); try exact Hk; destruct Hk; rewrite <- Hd;
    split; auto; lia.
Qed.

Lemma steps_bind_to {A B} r n (m : M Buffer A) Q (k : A -> M Buffer B) :
  steps_to r n m Q -> (forall a, Q a -> steps (r - n) 0 (k a)) ->
  steps r n (bind m k).
Proof.
  intros [Hm HQ] Hk b Hb Hr. unfold bind. specialize (Hm b Hb Hr).
  destruct (m b) as [a b1|e b1| |] eqn:E; try exact Hm.
  destruct Hm as [Hd Hroom]. specialize (HQ b a b1 Hb E).
  rewrite <- Hd in Hb. specialize (Hk a HQ b1 Hb ltac:(lia)).
  destruct (k a b1); try exact Hk; destruct Hk; rewrite <- Hd;
    split; auto; lia.
Qed.

Lemma steps_ret {A} r (a : A) : steps r 0 (ret a).
Proof. intros b _ _. cbn. split; [reflexivity|lia]. Qed.

Lemma steps_throw {A} r e : steps r 0 (throw e : M Buffer A).
Proof. intros b _ _. cbn. split; [reflexivity|lia]. Qed.

Lemma steps_panic {A} r n : steps r n (panic : M Buffer A).
Proof. intros b _ _. exact I. Qed.

Lemma steps_discard {A} r n (m : M Buffer A) :
  steps r n m -> steps r n (discard m).
Proof.
  intros H b Hb Hr. specialize (H b Hb Hr). unfold discard.
  destruct (m b); exact H.
Qed.

Lemma steps_usize_sub r x y : steps r 0 (usize_sub x y).
Proof. unfold usize_sub. destruct (y <=? x); [apply steps_ret|apply steps_panic]. Qed.

Lemma steps_usize_checked r x : steps r 0 (usize_checked x).
Proof.
  unfold usize_checked. destruct (x <? _); [apply steps_ret|apply steps_panic].
Qed.

Lemma steps_add_offset r n : 0 <= n -> steps r n (add_offset n).
Proof. intros Hn b _ _. cbn. unfold room. cbn. split; [reflexivity|lia]. Qed.

Lemma steps_skip r n : 0 <= n -> steps r 0 (skip_bytes n).
Proof.
  intros Hn b _ _. unfold skip_bytes, bind, usize_checked.
  destruct (_ <? _); cbn; [|exact I]. unfold room. cbn.
  split; [reflexivity|lia].
Qed.

Lemma steps_peek r : steps r 0 peek.
Proof.
  intros b _ _. unfold peek. destruct (index _ _); cbn; [|exact I].
  split; [reflexivity|lia].
Qed.

Lemma steps_read_slice r n : steps r 0 (read_slice n).
Proof.
  intros b _ _. unfold read_slice. destruct (slice _ _ _); cbn; [|exact I].
  split; [reflexivity|lia].
Qed.

Lemma slice_bytes d a b bs :
  all_bytes d -> slice d a b = Some bs -> all_bytes bs.
Proof.
  unfold slice. destruct (slice_ok _ _ _); [|discriminate].
  intros H [= <-]. apply Forall_take, Forall_drop, H.
Qed.

Section Progress.
Context `{BO : ByteOrder}.

Lemma steps_read_u8 r : steps r 1 (read_u8 None).
Proof.
  intros b _ _. unfold read_u8, bind. destruct (index _ _); cbn; [|exact I].
  unfold room. cbn. split; [reflexivity|lia].
Qed.

Lemma index_bytes d i x : all_bytes d -> index d i = Some x -> is_byte x.
Proof.
  unfold index. destruct (i <? 0); [discriminate|]. intros H Hx.
  eapply Forall_lookup_1; eassumption.
Qed.

Lemma steps_to_read_u8 r : steps_to r 1 (read_u8 None) is_byte.
Proof.
  split; [apply steps_read_u8|]. intros b a b' Hb. unfold read_u8, bind.
  destruct (index _ _) eqn:E; [|discriminate]. cbn. intros [= <- _].
  eapply index_bytes; eassumption.
Qed.

Lemma steps_read_at r n :
  0 <= n -> steps_to r n (read_at n None) all_bytes.
Proof.
  intros Hn. split.
  - intros b _ _. unfold read_at. destruct (slice _ _ _); cbn; [|exact I].
    unfold room. cbn. split; [reflexivity|lia].
  - intros b a b' Hb. unfold read_at. destruct (slice _ _ _) eqn:E; [|discriminate].
    intros [= <- _]. eapply slice_bytes; eassumption.
Qed.

(** The multi-byte reads return non-negative numbers. *)
Lemma steps_read_be {A} r n (f : Z -> A) :
  0 <= n -> steps r n (let! bs := read_at n None in ret (f (read_be bs))).
Proof.
  intros Hn. eapply steps_bind_to; [apply steps_read_at, Hn|].
  intros. apply steps_ret.
Qed.

Lemma steps_to_read_be r n :
  0 <= n ->
  steps_to r n (let! bs := read_at n None in ret (read_be bs)) (Z.le 0).
Proof.
  intros Hn. split; [apply (steps_read_be r n id Hn)|].
  intros b a b' Hb. unfold bind.
  destruct (read_at n None b) as [bs b1| | |] eqn:E; try discriminate.
  intros [= <- _]. apply (read_be_range bs).
  eapply (proj2 (steps_read_at r n Hn)); eassumption.
Qed.

Lemma steps_cast {A B} r n (m : M Buffer A) (f : A -> B) :
  steps r n m -> steps r n (let! x := m in ret (f x)).
Proof. intros H. eapply steps_bind; [exact H|]. intros. apply steps_ret. Qed.

Lemma steps_read_str r n : 0 <= n -> steps r 0 (read_str n).
Proof.
  intros Hn. eapply steps_bind; [apply steps_read_slice|]. intros s.
  destruct (utf8_valid s); [|apply steps_throw].
  eapply steps_weaken; [apply (steps_cast (r - 0) n)|..]; try lia.
  apply steps_add_offset, Hn.
Qed.

Lemma steps_read_blob r n : 0 <= n -> steps r 0 (read_blob n).
Proof.
  intros Hn. eapply steps_bind; [apply steps_read_slice|]. intros s.
  eapply steps_weaken; [apply (steps_cast (r - 0) n)|..]; try lia.
  apply steps_add_offset, Hn.
Qed.

End Progress.

(** A computation that needs a byte. *)
Definition needs_byte {A} (m : M Buffer A) : Prop :=
  forall b, room b <= 0 -> m b = Panic.

(** A loop of steps of at least one byte each ends within the bytes left. *)
Lemma steps_iterate {A} fuel : forall r count (f : A -> M Buffer A) acc,
  0 <= r < Z.of_nat fuel ->
  (forall a, steps r 1 (f a)) -> (forall a, needs_byte (f a)) ->
  steps r 0 (iterate_m fuel count f acc).
Proof.
  induction fuel as [|fuel IH]; intros r count f acc Hr Hf Hn; [lia|].
  cbn [iterate_m]. destruct (count <=? 0); [apply steps_ret|].
  destruct (Z.eq_dec r 0) as [->|].
  - intros b Hb Hroom. unfold bind. rewrite Hn by lia. exact I.
  - eapply steps_weaken; [apply (steps_bind r 1)|..]; [apply Hf| |lia..].
    intros a. apply IH; [lia| |exact Hn]. intros a'.
    eapply steps_weaken; [apply Hf|lia..].
Qed.

Lemma steps_repeat {A} fuel : forall r count (f : M Buffer A),
  0 <= r < Z.of_nat fuel -> steps r 1 f -> needs_byte f ->
  steps r 0 (repeat_m fuel count f).
Proof.
  induction fuel as [|fuel IH]; intros r count f Hr Hf Hn; [lia|].
  cbn [repeat_m]. destruct (count <=? 0); [apply steps_ret|].
  destruct (Z.eq_dec r 0) as [->|].
  - intros b Hb Hroom. unfold bind. rewrite Hn by lia. exact I.
  - eapply steps_weaken; [apply (steps_bind r 1)|..]; [apply Hf| |lia..].
    intros a. apply steps_cast, IH; [lia| |exact Hn].
    eapply steps_weaken; [apply Hf|lia..].
Qed.

(** Sequencing where the bytes consumed no longer matter. *)
Lemma steps_seq {A B} r (m : M Buffer A) (k : A -> M Buffer B) :
  steps r 0 m -> (forall a, steps r 0 (k a)) -> steps r 0 (bind m k).
Proof.
  intros Hm Hk. apply steps_bind; [exact Hm|]. rewrite Z.sub_0_r. exact Hk.
Qed.

Lemma steps_seq_to {A B} r n (m : M Buffer A) Q (k : A -> M Buffer B) :
  0 <= n -> steps_to r n m Q -> (forall a, Q a -> steps r 0 (k a)) ->
  steps r 0 (bind m k).
Proof.
  intros Hn [Hm HQ] Hk. eapply steps_bind_to.
  - split; [eapply steps_weaken; [exact Hm|lia..]|exact HQ].
  - rewrite Z.sub_0_r. exact Hk.
Qed.

Lemma steps_seq_sub {B} r x y (k : Z -> M Buffer B) :
  (0 <= x - y -> steps r 0 (k (x - y))) -> steps r 0 (bind (usize_sub x y) k).
Proof.
  intros Hk. unfold usize_sub. destruct (Z.leb_spec y x) as [H|].
  - apply Hk. lia.
  - apply steps_panic.
Qed.

Lemma steps_when {A} r (c : bool) (m m' : M Buffer A) :
  steps r 0 m -> steps r 0 m' -> steps r 0 (if c then m else m').
Proof. destruct c; auto. Qed.

Lemma steps_map_insert r k v m : steps r 0 (Value.map_insert k v m).
Proof.
  unfold Value.map_insert. destruct (Value.hashable k);
    [apply steps_ret|apply steps_panic].
Qed.

Lemma needs_byte_bind {A B} (m : M Buffer A) (k : A -> M Buffer B) :
  needs_byte m -> needs_byte (bind m k).
Proof. intros H b Hb. unfold bind. rewrite H by exact Hb. reflexivity. Qed.

Lemma steps_any {A} r n (m : M Buffer A) : steps r n m -> 0 <= n -> steps r 0 m.
Proof. intros H Hn. eapply steps_weaken; [exact H|lia..]. Qed.

Create HintDb steps.
#[export] Hint Constants Opaque : steps.
#[export] Hint Resolve steps_ret steps_throw steps_panic steps_usize_sub
  steps_usize_checked steps_peek steps_map_insert steps_seq steps_seq_sub
  steps_when : steps.

Section Termination.
Context `{BO : ByteOrder}.

Lemma steps_read_byte r : steps r 0 (read_u8 None).
Proof. eapply steps_any; [apply steps_read_u8|lia]. Qed.

Lemma steps_read_n {A} r n (f : Z -> A) :
  0 <= n -> steps r 0 (let! bs := read_at n None in ret (f (read_be bs))).
Proof.
  intros. apply (steps_any _ n); [apply steps_read_be; assumption|lia].
Qed.

Lemma needs_byte_read_u8 : needs_byte (read_u8 None).
Proof.
  intros b Hb. unfold read_u8, bind. rewrite index_out; [reflexivity|].
  unfold room in Hb. lia.
Qed.

Lemma steps_unpack_blob r count : steps r 0 (unpack_blob count).
Proof.
  apply steps_seq; [apply steps_read_byte|]. intros vtype.
  apply steps_seq_sub. intros Hn.
  destruct (ParticleType.from_u8 vtype) as [[]|]; auto with steps;
    apply steps_cast; (apply steps_read_str || apply steps_read_blob); exact Hn.
Qed.

Lemma steps_skip_succ r w n :
  0 <= n -> steps r 0 (let! count := succ_u w n in skip_ext count).
Proof.
  intros Hn. unfold succ_u. destruct (_ <? _); [|apply steps_panic].
  apply steps_cast, steps_skip. lia.
Qed.

Section Bodies.
Context (n : nat) (uv : M Buffer Value) (r : Z).
Hypothesis Hr : 0 <= r < Z.of_nat n.
Hypothesis Huv : steps r 1 uv.
Hypothesis Hbyte : needs_byte uv.

Lemma steps_uv : steps r 0 uv.
Proof. eapply steps_any; [exact Huv|lia]. Qed.

Lemma steps_starts_with_ext count : steps r 0 (starts_with_ext count).
Proof. unfold starts_with_ext. auto with steps. Qed.

Lemma steps_unpack_list count : steps r 0 (unpack_list n uv count).
Proof.
  pose proof steps_uv.
  apply steps_seq; [apply steps_starts_with_ext|]. intros ext.
  apply steps_seq.
  - apply steps_when; auto using steps_discard with steps.
  - intros c. apply steps_cast, steps_repeat; assumption.
Qed.

Lemma steps_unpack_map count : steps r 0 (unpack_map n uv count).
Proof.
  pose proof steps_uv.
  apply steps_seq; [apply steps_starts_with_ext|]. intros ext.
  apply steps_seq.
  - apply steps_when; auto 6 using steps_discard with steps.
  - intros c. apply steps_cast, steps_iterate; [assumption| |].
    + intros a. eapply steps_bind; [exact Huv|]. intros k.
      apply steps_seq; [eapply steps_weaken; [exact Huv|lia..]|].
      auto with steps.
    + intros a. apply needs_byte_bind, Hbyte.
Qed.

Lemma steps_unpack_typed t : steps r 0 (unpack_typed n uv t).
Proof.
  unfold unpack_typed.
  repeat match goal with
  | |- steps _ _ (if _ then _ else _) => apply steps_when
  end;
  try solve
    [ auto with steps
    | apply steps_unpack_map | apply steps_unpack_list
    | apply steps_unpack_blob
    | apply steps_cast, steps_skip; lia
    | apply steps_cast, steps_read_byte
    | apply steps_cast, (steps_read_n _ _ id); lia
    | apply steps_cast, steps_cast, steps_read_byte
    | apply steps_cast, steps_cast, (steps_read_n _ _ id); lia
    | apply steps_seq; [apply steps_read_byte|];
      auto using steps_unpack_blob
    | apply steps_seq; [apply (steps_read_n _ _ id); lia|];
      auto using steps_unpack_blob, steps_unpack_list, steps_unpack_map
    | eapply (steps_seq_to _ 1); [lia|apply steps_to_read_u8|];
      intros x Hx; apply steps_skip_succ, Hx
    | eapply steps_seq_to; [|apply steps_to_read_be|]; [..|
      intros x Hx; apply steps_skip_succ, Hx]; lia ].
Qed.

End Bodies.

Lemma needs_byte_unpack f : needs_byte (unpack_value (S f)).
Proof. apply needs_byte_bind, needs_byte_read_u8. Qed.

Lemma steps_unpack_value f : forall r,
  r < Z.of_nat f -> (0 < f)%nat -> steps r 1 (unpack_value f).
Proof.
  induction f as [|f IH]; intros r Hr Hf; [lia|].
  destruct (Z.leb_spec r 0) as [Hneg|Hpos].
  - intros b _ Hb. rewrite needs_byte_unpack by lia. exact I.
  - cbn [unpack_value]. eapply steps_bind; [apply steps_read_u8|].
    intros t. destruct f as [|f]; [lia|].
    apply steps_unpack_typed; [lia| |apply needs_byte_unpack].
    apply IH; lia.
Qed.

(** Fuel above the bytes left is enough, whatever the bytes are. *)
Lemma unpack_value_fuel f b :
  all_bytes (data_buffer b) -> room b < Z.of_nat f -> (0 < f)%nat ->
  match unpack_value f b with
  | Ret _ b' | Throw _ b' =>
      data_buffer b' = data_buffer b /\ room b' <= room b - 1
  | Panic => True
  | NoFuel => False
  end.
Proof. intros Hb Hr Hf. apply (steps_unpack_value f (room b)); auto; lia. Qed.

Lemma steps_unpack_values f r count m :
  0 <= r < Z.of_nat f ->
  In m [unpack_list f (unpack_value f) count;
        unpack_map f (unpack_value f) count] ->
  steps r 0 m.
Proof.
  intros Hr Hm. destruct f as [|f]; [lia|].
  assert (steps r 1 (unpack_value (S f))) by (apply steps_unpack_value; lia).
  pose proof (needs_byte_unpack f).
  destruct Hm as [<-|[<-|[]]];
    [apply steps_unpack_list|apply steps_unpack_map]; assumption.
Qed.

Lemma steps_count r (c1 c2 c3 : bool) x :
  steps r 0 (if c1 then ret x else if c2 then read_u16 None
             else if c3 then read_u32 None else panic).
Proof.
  repeat apply steps_when; auto with steps; apply (steps_read_n _ _ id); lia.
Qed.

Lemma steps_bytes_to_particle f r t n :
  0 <= r < Z.of_nat f -> 0 <= n ->
  steps r 0 (bytes_to_particle f t n).
Proof.
  intros Hr Hn. unfold bytes_to_particle.
  destruct (ParticleType.from_u8 t) as [[]|]; auto with steps;
    try solve
      [ apply steps_cast, steps_cast, (steps_read_n _ _ id); lia
      | apply steps_cast, (steps_read_n _ _ id); lia
      | apply steps_cast, steps_read_str, Hn
      | apply steps_cast, steps_read_blob, Hn ].
  - (* bool *) apply steps_cast. unfold read_bool. apply steps_when;
      [auto with steps|]. apply steps_seq; [apply steps_peek|].
    intros. apply (steps_any _ n); [apply steps_cast, steps_add_offset|]; exact Hn.
  - apply steps_seq; [intros b _ _; cbn; split; [reflexivity|lia]|].
    intros buf. apply steps_when; [auto with steps|].
    apply steps_seq; [apply steps_read_byte|]. intros l.
    apply steps_seq; [apply steps_count|]. intros c.
    eapply steps_unpack_values; [exact Hr|]. cbn; auto.
  - apply steps_seq; [intros b _ _; cbn; split; [reflexivity|lia]|].
    intros buf. apply steps_when; [auto with steps|].
    apply steps_seq; [apply steps_read_byte|]. intros l.
    apply steps_seq; [apply steps_count|]. intros c.
    eapply steps_unpack_values; [exact Hr|]. cbn; auto.
  - apply steps_seq; [apply steps_skip; lia|]. intros _.
    apply steps_seq; [apply steps_cast, (steps_read_n _ _ id); lia|].
    intros c. unfold usize_checked. destruct (_ <? _); [|apply steps_panic].
    apply (steps_seq_to _ 0 (ret _) (Z.le 0)); [lia| |].
    + split; [apply steps_ret|]. intros ? ? ? _ [= <- _].
      pose proof (wrap_u_range 64 c). unfold as_u64, in_u in *. lia.
    + intros h Hh. apply steps_seq; [apply steps_skip, Hh|]. intros _.
      apply steps_seq; [apply steps_usize_sub|]. intros k.
      apply steps_seq_sub. intros Hk. apply steps_cast, steps_read_str, Hk.
Qed.

(** C10: decoding the value of a response bin always ends: with more fuel than
    bytes left in the buffer, [bytes_to_particle] returns, fails or panics but
    never runs out, whatever the bytes, the particle type and the announced
    length are; and it neither modifies the data nor moves the cursor back. *)
Theorem bytes_to_particle_terminates (f : nat) (t n : Z) (b : Buffer) :
  all_bytes (data_buffer b) -> 0 <= n ->
  0 <= data_offset b <= len (data_buffer b) ->
  len (data_buffer b) - data_offset b < Z.of_nat f ->
  match bytes_to_particle f t n b with
  | Ret _ b' | Throw _ b' =>
      data_buffer b' = data_buffer b /\ data_offset b <= data_offset b'
  | Panic => True
  | NoFuel => False
  end.
Proof.
  intros Hb Hn Ho Hf.
  assert (0 <= room b < Z.of_nat f) as Hr by (unfold room; lia).
  pose proof (steps_bytes_to_particle f _ t n Hr Hn b Hb (Z.le_refl _)) as H.
  destruct (bytes_to_particle f t n b); try exact H;
    destruct H as [Hd Hroom]; split; try exact Hd; unfold room in Hroom;
    rewrite Hd in Hroom; lia.
Qed.

End Termination.

(** A list that announces four elements and holds one, decoded with the fuel
    its bytes ask for. *)
Lemma bytes_to_particle_terminates_witness :
  match bytes_to_particle 3 20 2 (mkBuffer [148; 5] 0 0) with
  | Ret _ b' | Throw _ b' => data_buffer b' = [148; 5] /\ 0 <= data_offset b'
  | Panic => True
  | NoFuel => False
  end.
Proof.
  apply (bytes_to_particle_terminates 3 20 2 (mkBuffer [148; 5] 0 0)).
  - repeat constructor; lia.
  - lia.
  - vm_compute. split; discriminate.
  - vm_compute. reflexivity.
Defined.
