(* ===== verification/RoundTrip.v ===== *)
(** * The decoder inverts the encoder

    Unpacking the reference encoding of a value gives the value back, up to
    what the format does not keep ([norm]). *)

From stdpp Require Import base list strings.
From Stdlib Require Import ZArith Lia Setoid Morphisms.
From S2P Require Import Prelude ResultCodes Monad ByteOrder Slices Text Wire.
From S2P Require Import Buffer BufferFacts Values Cdt Encoder EncoderFacts.
From S2P Require Import Decoder.

(** Insertion of all entries, in order. *)
Definition insert_all (m : list (Value * Value)) (l : list (Value * Value))
    : list (Value * Value) :=
  foldl (fun m kv => Value.entries_insert kv.1 kv.2 m) m l.

(** What the format keeps of a value: small unsigned integers become signed,
    HLL values become blobs, NaNs are canonical, maps are rebuilt. *)
Fixpoint norm (v : Value) : Value :=
  match v with
  | Value.UInt u => if u <? 2 ^ 63 then Value.Int u else v
  | Value.Float (FloatValue.F32 x) => Value.from_f32 x
  | Value.Float (FloatValue.F64 x) => Value.from_f64 x
  | Value.HLL b => Value.Blob b
  | Value.List l => Value.List (norm <$> l)
  | Value.HashMap m =>
      Value.HashMap
        (insert_all []
           ((fun kv => match kv with (k, x) => (norm k, norm x) end) <$> m))
  | _ => v
  end.

(** The values that the format can carry: machine integers, valid strings,
    lengths of at most 32 bits, hashable map keys. *)
Fixpoint encodable (v : Value) : bool :=
  match v with
  | Value.Nil | Value.Bool _ => true
  | Value.Int i => between (- 2 ^ 63) (2 ^ 63 - 1) i
  | Value.UInt u => between 0 (2 ^ 64 - 1) u
  | Value.Float (FloatValue.F32 x) => between 0 (2 ^ 32 - 1) x
  | Value.Float (FloatValue.F64 x) => between 0 (2 ^ 64 - 1) x
  | Value.String s | Value.GeoJSON s => utf8_valid s && (len s + 1 <? 2 ^ 32)
  | Value.Blob b | Value.HLL b => len b + 1 <? 2 ^ 32
  | Value.List l => forallb encodable l && (len l <? 2 ^ 32)
  | Value.HashMap m =>
      forallb (fun kv => match kv with
                         | (k, x) => encodable k && encodable x
                                     && Value.hashable k
                         end) m
      && (len m <? 2 ^ 32)
  | Value.OrderedMap _ => false
  end.

Lemma norm_hashable v : Value.hashable v = true -> Value.hashable (norm v) = true.
Proof.
  induction v using Value.value_ind'; intros Hv; try exact Hv;
    try discriminate; cbn in *.
  - destruct (u <? _); reflexivity.
  - destruct f; reflexivity.
  - induction H as [|x l Hx _ IH]; [reflexivity|]. cbn in *.
    apply andb_true_iff in Hv as [Hv1 Hv2]. rewrite Hx, IH by assumption.
    reflexivity.
Qed.

Lemma opt_concat_Some {A} (g : A -> option bytes) l bs :
  opt_concat (g <$> l) = Some bs ->
  exists bss, Forall2 (fun x b => g x = Some b) l bss /\ bs = concat bss.
Proof.
  revert bs. induction l as [|x l IH]; intros bs; cbn.
  - intros [= <-]. exists []. split; [constructor|reflexivity].
  - destruct (g x) as [b|] eqn:E; [|discriminate].
    destruct (opt_concat _) as [b'|]; [|discriminate]. cbn. intros [= <-].
    destruct (IH b' eq_refl) as (bss & Hf & ->).
    exists (b :: bss). split; [constructor; assumption|reflexivity].
Qed.

Lemma opt_app_Some o1 o2 bs :
  o1 +++ o2 = Some bs ->
  exists b1 b2, o1 = Some b1 /\ o2 = Some b2 /\ bs = b1 ++ b2.
Proof.
  destruct o1 as [b1|], o2 as [b2|]; cbn; try discriminate.
  intros [= <-]. eauto.
Qed.

Lemma reads_cast {A B} (m : M Buffer A) (f : A -> B) bs x :
  reads m bs x -> reads (let! x := m in ret (f x)) bs (f x).
Proof.
  intros H. rewrite <- (app_nil_r bs).
  eapply reads_bind; [exact H|apply reads_ret].
Qed.

(** A step that only looks at the buffer. *)
Lemma reads_look {A B} (m : M Buffer A) (k : A -> M Buffer B) bs a w :
  (forall pre post rt, m (at_cursor pre (bs ++ post) rt)
                       = Ret a (at_cursor pre (bs ++ post) rt)) ->
  reads (k a) bs w -> reads (bind m k) bs w.
Proof.
  intros Hm Hk pre post rt. unfold bind. rewrite Hm. apply Hk.
Qed.

Lemma reads_pure {A B} (a : A) (k : A -> M Buffer B) bs w :
  reads (k a) bs w -> reads (bind (ret a) k) bs w.
Proof. intros H. rewrite bind_ret_l. exact H. Qed.

Lemma reads_repeat {A B} (f : M Buffer B) (g : A -> B) fuel l bss :
  Forall2 (fun x bs => reads f bs (g x)) l bss ->
  (length l <= fuel)%nat ->
  reads (repeat_m fuel (len l) f) (concat bss) (g <$> l).
Proof.
  intros H. revert fuel. induction H as [|x bs l bss Hx _ IH]; intros fuel Hf.
  - destruct fuel; apply reads_ret.
  - destruct fuel as [|fuel]; [cbn in Hf; lia|]. cbn [repeat_m].
    pose proof (len_nonneg l). rewrite len_cons.
    replace (1 + len l <=? 0) with false by (symmetry; apply Z.leb_gt; lia).
    cbn [concat]. eapply reads_bind; [exact Hx|].
    replace (1 + len l - 1) with (len l) by lia.
    apply reads_cast with (f := fun xs => g x :: xs). apply IH.
    cbn in Hf. lia.
Qed.

Lemma reads_iterate {A B} (f : B -> M Buffer B) (g : B -> A -> B) fuel l bss :
  Forall2 (fun x bs => forall acc, reads (f acc) bs (g acc x)) l bss ->
  (length l <= fuel)%nat ->
  forall acc, reads (iterate_m fuel (len l) f acc) (concat bss) (foldl g acc l).
Proof.
  intros H. revert fuel.
  induction H as [|x bs l bss Hx _ IH]; intros fuel Hf acc.
  - destruct fuel; apply reads_ret.
  - destruct fuel as [|fuel]; [cbn in Hf; lia|]. cbn [iterate_m].
    pose proof (len_nonneg l). rewrite len_cons.
    replace (1 + len l <=? 0) with false by (symmetry; apply Z.leb_gt; lia).
    cbn [concat foldl]. eapply reads_bind; [apply Hx|].
    replace (1 + len l - 1) with (len l) by lia. apply IH. cbn in Hf. lia.
Qed.

Section RoundTrip.
Context `{BO : ByteOrder}.

Lemma unpack_reads f t bs v :
  reads (unpack_typed f (unpack_value f) t) bs v ->
  reads (unpack_value (S f)) (t :: bs) v.
Proof.
  intros H. eapply (reads_bind _ _ [t]); [apply read_u8_reads|exact H].
Qed.

(** A head followed by what it announces, for a dispatch on the first byte. *)
Lemma head_reads {A} (disp body : Z -> M Buffer A) limit tag t16 t32 n bs v :
  0 <= n < 2 ^ 32 ->
  reads (body n) bs v ->
  (n < limit -> disp (tag + n) ≈ body n) ->
  disp t16 ≈ bind (read_u16 None) body ->
  disp t32 ≈ bind (read_u32 None) body ->
  reads (bind (read_u8 None) disp) (enc_head limit tag t16 t32 n ++ bs) v.
Proof.
  intros Hn Hb H8 H16 H32. unfold enc_head.
  destruct (Z.ltb_spec n limit).
  - apply (reads_bind _ _ [_] _ (tag + n)); [apply read_u8_reads|].
    rewrite H8 by assumption. exact Hb.
  - destruct (Z.ltb_spec n 65536); cbn [app].
    + apply (reads_bind _ _ [_] _ t16); [apply read_u8_reads|]. rewrite H16.
      eapply reads_bind; [|exact Hb].
      apply read_u16_reads. unfold in_u. lia.
    + apply (reads_bind _ _ [_] _ t32); [apply read_u8_reads|]. rewrite H32.
      eapply reads_bind; [|exact Hb].
      apply read_u32_reads. unfold in_u. lia.
Qed.

Lemma land_tag a n k :
  0 <= k -> 0 <= n < 2 ^ k -> Z.land (a * 2 ^ k + n) (Z.ones k) = n.
Proof.
  intros Hk Hn. rewrite land_mask by lia.
  rewrite Z.add_comm, Z.mod_add by lia. apply Z.mod_small, Hn.
Qed.

Lemma unpack_typed_map f uv n :
  0 <= n < 16 -> unpack_typed f uv (0x80 + n) = unpack_map f uv n.
Proof.
  intros Hn. unfold unpack_typed, between. decide_tests.
  change (Z.land (0x80 + n) 0x0f) with (Z.land (8 * 2 ^ 4 + n) (Z.ones 4)).
  rewrite land_tag by lia. reflexivity.
Qed.

Lemma unpack_typed_list f uv n :
  0 <= n < 16 -> unpack_typed f uv (0x90 + n) = unpack_list f uv n.
Proof.
  intros Hn. unfold unpack_typed, between. decide_tests.
  change (Z.land (0x90 + n) 0x0f) with (Z.land (9 * 2 ^ 4 + n) (Z.ones 4)).
  rewrite land_tag by lia. reflexivity.
Qed.

Lemma unpack_typed_raw f uv n :
  0 <= n < 32 -> unpack_typed f uv (0xa0 + n) = unpack_blob n.
Proof.
  intros Hn. unfold unpack_typed, between. decide_tests.
  change (Z.land (0xa0 + n) 0x1f) with (Z.land (5 * 2 ^ 5 + n) (Z.ones 5)).
  rewrite land_tag by lia. reflexivity.
Qed.

Lemma enc_raw_reads f t bs v :
  len bs + 1 < 2 ^ 32 ->
  (reads (unpack_blob (len bs + 1)) (ParticleType.to_u8 t :: bs) v) ->
  reads (unpack_value (S f)) (enc_raw t bs) v.
Proof.
  intros Hn Hb. pose proof (len_nonneg bs).
  apply (head_reads _ unpack_blob); [lia|exact Hb| |reflexivity..].
  intros. rewrite unpack_typed_raw by lia. reflexivity.
Qed.

Lemma usize_sub_reads {B} n (k : Z -> M Buffer B) bs w :
  0 <= n -> reads (k n) bs w -> reads (bind (usize_sub (n + 1) 1) k) bs w.
Proof.
  intros Hn H. unfold usize_sub.
  replace (1 <=? n + 1) with true by (symmetry; apply Z.leb_le; lia).
  replace (n + 1 - 1) with n by lia. apply reads_pure, H.
Qed.

(** The three byte strings of the format. *)
Lemma enc_string_reads f s :
  utf8_valid s = true -> len s + 1 < 2 ^ 32 ->
  reads (unpack_value (S f)) (enc_raw ParticleType.STRING s) (Value.String s).
Proof.
  intros Hu Hl. apply enc_raw_reads; [exact Hl|].
  eapply (reads_bind _ _ [_]); [apply read_u8_reads|].
  apply usize_sub_reads; [apply len_nonneg|].
  apply reads_cast, read_str_reads; auto.
Qed.

Lemma enc_geo_reads f s :
  utf8_valid s = true -> len s + 1 < 2 ^ 32 ->
  reads (unpack_value (S f)) (enc_raw ParticleType.GEOJSON s) (Value.GeoJSON s).
Proof.
  intros Hu Hl. apply enc_raw_reads; [exact Hl|].
  eapply (reads_bind _ _ [_]); [apply read_u8_reads|].
  apply usize_sub_reads; [apply len_nonneg|].
  apply reads_cast, read_str_reads; auto.
Qed.

Lemma enc_blob_reads f s :
  len s + 1 < 2 ^ 32 ->
  reads (unpack_value (S f)) (enc_raw ParticleType.BLOB s) (Value.Blob s).
Proof.
  intros Hl. apply enc_raw_reads; [exact Hl|].
  eapply (reads_bind _ _ [_]); [apply read_u8_reads|].
  apply usize_sub_reads; [apply len_nonneg|].
  apply reads_cast, read_blob_reads; auto.
Qed.

Lemma enc_int_reads f i :
  in_i 64 i -> reads (unpack_value (S f)) (enc_int i) (Value.Int i).
Proof.
  intros Hi. unfold in_i in Hi. cbn in Hi. unfold enc_int.
  repeat match goal with
  | |- context [i <? ?b] => destruct (Z.ltb_spec i b)
  end; try lia; apply unpack_reads.
  - apply (reads_cast (read_i64 None) Value.from_i64), read_i64_reads. exact Hi.
  - apply (reads_cast (read_i32 None) Value.from_i32), read_i32_reads. unfold in_i. lia.
  - apply (reads_cast (read_i16 None) Value.from_i16), read_i16_reads. unfold in_i. lia.
  - replace i with (as_i8 (i + 256)) at 2.
    + apply (reads_cast (read_i8 None) Value.from_i8), read_i8_reads.
    + unfold as_i8, wrap_i. change (2 ^ (8 - 1)) with 128.
      change (2 ^ 8) with 256. replace (i + 256 + 128) with (i + 128 + 1 * 256) by lia.
      rewrite Z.mod_add, Z.mod_small; lia.
  - unfold unpack_typed, between. decide_tests.
    replace (Value.Int i) with (Value.from_i16 (i + 256 - 0xe0 - 32))
      by (unfold Value.from_i16; f_equal; lia).
    apply reads_ret.
  - unfold unpack_typed, between. decide_tests. apply reads_ret.
  - apply (reads_cast (read_u16 None) Value.from_u16), read_u16_reads. unfold in_u. lia.
  - apply (reads_cast (read_u32 None) Value.from_u32), read_u32_reads. unfold in_u. lia.
  - apply (reads_cast (read_i64 None) Value.from_i64), read_i64_reads. exact Hi.
Qed.

Lemma enc_uint_reads f u :
  in_u 64 u ->
  reads (unpack_value (S f)) (enc_uint u)
    (if u <? 2 ^ 63 then Value.Int u else Value.UInt u).
Proof.
  intros Hu. unfold in_u in Hu. cbn in Hu. unfold enc_uint.
  change (2 ^ 63) with 9223372036854775808. destruct (Z.ltb_spec u 9223372036854775808).
  - unfold as_i64. rewrite wrap_i_id; [|lia|unfold in_i; lia].
    apply enc_int_reads. unfold in_i. lia.
  - apply unpack_reads.
    apply (reads_cast (read_u64 None) Value.from_u64), read_u64_reads.
    unfold in_u. lia.
Qed.

Lemma enc_float_reads f x :
  encodable (Value.Float x) = true ->
  forall bs, enc_value (Value.Float x) = Some bs ->
  reads (unpack_value (S f)) bs (norm (Value.Float x)).
Proof.
  destruct x as [x|x]; cbn; intros Hx%between_spec bs [= <-];
    apply unpack_reads.
  - apply (reads_cast (read_f32 None) Value.from_f32), read_f32_reads.
    unfold in_u. lia.
  - apply (reads_cast (read_f64 None) Value.from_f64), read_f64_reads.
    unfold in_u. lia.
Qed.

(** No encoding starts with an extension marker. *)
Definition starts_plain (bs : bytes) : Prop :=
  exists b bs', bs = b :: bs' /\ is_ext b = false.

Lemma starts_plain_app bs1 bs2 : starts_plain bs1 -> starts_plain (bs1 ++ bs2).
Proof. intros (b & bs' & -> & H). exists b, (bs' ++ bs2). auto. Qed.

Lemma is_ext_low b : b < 0xc7 -> is_ext b = false.
Proof. intros H. unfold is_ext. cbn [existsb]. decide_tests. reflexivity. Qed.

Lemma enc_head_plain limit tag t16 t32 n :
  tag + limit <= 0xc0 -> is_ext t16 = false -> is_ext t32 = false ->
  starts_plain (enc_head limit tag t16 t32 n).
Proof.
  intros Ht H16 H32. unfold enc_head.
  destruct (Z.ltb_spec n limit); [|destruct (n <? 65536)];
    eexists _, _; (split; [reflexivity|]); auto.
  apply is_ext_low. lia.
Qed.

Lemma enc_int_plain i : starts_plain (enc_int i).
Proof.
  unfold enc_int.
  repeat match goal with
  | |- context [i <? ?b] => destruct (Z.ltb_spec i b)
  end; eexists _, _; (split; [reflexivity|]); try reflexivity.
  - unfold is_ext. cbn [existsb]. decide_tests. reflexivity.
  - apply is_ext_low. lia.
Qed.

Lemma enc_value_plain v bs : enc_value v = Some bs -> starts_plain bs.
Proof.
  destruct v; cbn [enc_value]; try (intros [= <-]).
  - eexists _, _. split; reflexivity.
  - eexists _, _. split; [reflexivity|]. destruct b; reflexivity.
  - apply enc_int_plain.
  - unfold enc_uint. destruct (_ <? _); [apply enc_int_plain|].
    eexists _, _. split; reflexivity.
  - destruct f; intros [= <-]; eexists _, _; split; reflexivity.
  - apply starts_plain_app, enc_head_plain; (lia || reflexivity).
  - apply starts_plain_app, enc_head_plain; (lia || reflexivity).
  - intros (b1 & b2 & [= <-] & _ & ->)%opt_app_Some.
    apply starts_plain_app, enc_head_plain; (lia || reflexivity).
  - intros (b1 & b2 & [= <-] & _ & ->)%opt_app_Some.
    apply starts_plain_app, enc_head_plain; (lia || reflexivity).
  - apply starts_plain_app, enc_head_plain; (lia || reflexivity).
  - apply starts_plain_app, enc_head_plain; (lia || reflexivity).
Qed.

Lemma starts_with_ext_plain {B} n bs (k : bool -> M Buffer B) w :
  (n = 0 \/ starts_plain bs) -> reads (k false) bs w ->
  reads (bind (starts_with_ext n) k) bs w.
Proof.
  intros Hp Hk. eapply reads_look; [|exact Hk]. intros pre post rt.
  unfold starts_with_ext. destruct (Z.ltb_spec 0 n) as [Hn|]; [|reflexivity].
  destruct Hp as [->|(b & bs' & -> & Hb)]; [lia|].
  unfold bind. cbn [app]. rewrite peek_at, <- Hb. reflexivity.
Qed.

(** The induction hypothesis on the elements, as the loops need it. *)
Definition unpacks (v : Value) : Prop :=
  encodable v = true ->
  forall bs f, enc_value v = Some bs -> (length bs < f)%nat ->
  reads (unpack_value f) bs (norm v).

Lemma concat_bound {A} (bs : list A) bss :
  bs ∈ bss -> (length bs <= length (concat bss))%nat.
Proof.
  induction 1; cbn; rewrite length_app; lia.
Qed.

Lemma elements_reads l bss f :
  Forall unpacks l -> forallb encodable l = true ->
  Forall2 (fun v b => enc_value v = Some b) l bss ->
  (length (concat bss) < f)%nat ->
  Forall2 (fun v b => reads (unpack_value f) b (norm v)) l bss
  /\ (length l <= length (concat bss))%nat.
Proof.
  intros Hp He H. revert Hp He. induction H as [|v b l bss Hv _ IH];
    intros Hp He Hf; [auto|].
  inversion Hp; subst. cbn in He. apply andb_true_iff in He as [He1 He2].
  cbn [concat] in *. rewrite length_app in *.
  destruct IH as [IH1 IH2]; auto; [lia|].
  destruct (enc_value_plain _ _ Hv) as (x & b' & -> & _).
  cbn [length] in *. split; [|lia].
  constructor; [|exact IH1]. apply H1; auto. cbn. lia.
Qed.

(** [norm] and [encodable] on an entry. *)
Definition norm_entry (kv : Value * Value) : Value * Value :=
  match kv with (k, x) => (norm k, norm x) end.

Definition encodable_entry (kv : Value * Value) : bool :=
  match kv with
  | (k, x) => encodable k && encodable x && Value.hashable k
  end.

Definition insert_entry (m : list (Value * Value)) (kv : Value * Value)
    : list (Value * Value) :=
  Value.entries_insert (norm_entry kv).1 (norm_entry kv).2 m.

Lemma insert_all_norm m l :
  foldl insert_entry m l = insert_all m (norm_entry <$> l).
Proof.
  revert m. induction l as [|kv l IH]; intros m; [reflexivity|].
  cbn. rewrite IH. reflexivity.
Qed.

Lemma entry_reads f k x b1 b2 acc :
  Value.hashable k = true ->
  reads (unpack_value f) b1 (norm k) -> reads (unpack_value f) b2 (norm x) ->
  reads (unpack_entry (unpack_value f) acc) (b1 ++ b2)
    (insert_entry acc (k, x)).
Proof.
  intros Hk H1 H2. eapply reads_bind; [exact H1|].
  rewrite <- (app_nil_r b2). eapply reads_bind; [exact H2|].
  unfold Value.map_insert. rewrite norm_hashable by exact Hk.
  apply reads_ret.
Qed.

Lemma enc_entry_plain kv b :
  enc_entry kv = Some b -> exists b1 b2,
    enc_value kv.1 = Some b1 /\ enc_value kv.2 = Some b2 /\ b = b1 ++ b2
    /\ starts_plain b1.
Proof.
  destruct kv as [k x]. intros (b1 & b2 & H1 & H2 & ->)%opt_app_Some.
  exists b1, b2. eauto using enc_value_plain.
Qed.

Lemma entries_reads l bss f :
  Forall (Value.on_entry unpacks) l -> forallb encodable_entry l = true ->
  Forall2 (fun kv b => enc_entry kv = Some b) l bss ->
  (length (concat bss) < f)%nat ->
  Forall2 (fun kv b => forall acc,
             reads (unpack_entry (unpack_value f) acc) b (insert_entry acc kv))
    l bss
  /\ (length l <= length (concat bss))%nat.
Proof.
  intros Hp He H. revert Hp He. induction H as [|[k x] b l bss Hv _ IH];
    intros Hp He Hf; [auto|].
  inversion Hp as [|? ? [Hk Hx] Hl]; subst. cbn in He.
  apply andb_true_iff in He as [He1 He2].
  rewrite !andb_true_iff in He1. destruct He1 as [[Ek Ex] Hh].
  apply enc_entry_plain in Hv as (b1 & b2 & H1 & H2 & -> & Hpl).
  cbn [concat] in *. rewrite !length_app in *.
  destruct IH as [IH1 IH2]; auto; [lia|].
  destruct Hpl as (y & b1' & -> & _). cbn [length] in *. split; [|lia].
  constructor; [|exact IH1]. intros acc. apply entry_reads; [exact Hh| |].
  - apply Hk; auto. cbn. lia.
  - apply Hx; auto. lia.
Qed.

Lemma list_reads f l b2 :
  Forall unpacks l -> forallb encodable l = true ->
  opt_concat (enc_value <$> l) = Some b2 -> (length b2 < f)%nat ->
  reads (unpack_list f (unpack_value f) (len l)) b2 (Value.List (norm <$> l)).
Proof.
  intros Hp He (bss & Hb & ->)%opt_concat_Some Hf.
  destruct (elements_reads l bss f) as [Hr Hl]; auto.
  apply starts_with_ext_plain.
  - inversion Hb as [|v b ? ? Hv]; subst; [left; reflexivity|right].
    cbn [concat]. apply starts_plain_app. eapply enc_value_plain, Hv.
  - apply reads_pure. apply (reads_cast _ Value.from_vec).
    apply reads_repeat; [exact Hr|lia].
Qed.

Lemma map_reads f m b2 :
  Forall (Value.on_entry unpacks) m -> forallb encodable_entry m = true ->
  opt_concat (enc_entry <$> m) = Some b2 -> (length b2 < f)%nat ->
  reads (unpack_map f (unpack_value f) (len m)) b2
    (Value.HashMap (insert_all [] (norm_entry <$> m))).
Proof.
  intros Hp He (bss & Hb & ->)%opt_concat_Some Hf.
  destruct (entries_reads m bss f) as [Hr Hl]; auto.
  apply starts_with_ext_plain.
  - inversion Hb as [|kv b ? ? Hv]; subst; [left; reflexivity|right].
    cbn [concat]. apply starts_plain_app.
    apply enc_entry_plain in Hv as (b1 & ? & _ & _ & -> & Hpl).
    apply starts_plain_app, Hpl.
  - apply reads_pure. rewrite <- insert_all_norm.
    apply (reads_cast _ Value.from_hashmap).
    apply reads_iterate; [exact Hr|lia].
Qed.

Lemma enc_head_nonempty limit tag t16 t32 n :
  (0 < length (enc_head limit tag t16 t32 n))%nat.
Proof.
  unfold enc_head. destruct (_ <? _); [|destruct (_ <? _)]; cbn; lia.
Qed.

Lemma value_unpacks v : unpacks v.
Proof.
  induction v using Value.value_ind'; intros He bs fuel Hb Hf;
    (destruct fuel as [|n]; [lia|]).
  - injection Hb as <-. apply unpack_reads, reads_ret.
  - injection Hb as <-. apply unpack_reads. destruct b; apply reads_ret.
  - injection Hb as <-. apply enc_int_reads.
    apply between_spec in He. unfold in_i. lia.
  - injection Hb as <-. apply enc_uint_reads.
    apply between_spec in He. unfold in_u. lia.
  - apply enc_float_reads; assumption.
  - injection Hb as <-. apply andb_true_iff in He as [Hu Hl].
    apply enc_string_reads; [exact Hu|]. apply Z.ltb_lt, Hl.
  - injection Hb as <-. apply enc_blob_reads. apply Z.ltb_lt, He.
  - cbn [encodable enc_value] in He, Hb. apply andb_true_iff in He as [He Hl%Z.ltb_lt].
    apply opt_app_Some in Hb as (b1 & b2 & [= <-] & Hb2 & ->).
    pose proof (enc_head_nonempty 16 0x90 0xdc 0xdd (len l)).
    pose proof (len_nonneg l). rewrite length_app in Hf. cbn [norm].
    apply (head_reads _ (unpack_list n (unpack_value n))); [lia| | |reflexivity..];
      [|intros; rewrite unpack_typed_list by lia; reflexivity].
    apply list_reads; auto. unfold enc_array_head in Hf. lia.
  - cbn [encodable enc_value] in He, Hb. apply andb_true_iff in He as [He Hl%Z.ltb_lt].
    apply opt_app_Some in Hb as (b1 & b2 & [= <-] & Hb2 & ->).
    pose proof (enc_head_nonempty 16 0x80 0xde 0xdf (len m)).
    pose proof (len_nonneg m). rewrite length_app in Hf.
    change (norm _) with (Value.HashMap (insert_all [] (norm_entry <$> m))).
    apply (head_reads _ (unpack_map n (unpack_value n))); [lia| | |reflexivity..];
      [|intros; rewrite unpack_typed_map by lia; reflexivity].
    apply map_reads; auto. unfold enc_map_head in Hf. lia.
  - discriminate.
  - injection Hb as <-. apply andb_true_iff in He as [Hu Hl].
    apply enc_geo_reads; [exact Hu|]. apply Z.ltb_lt, Hl.
  - injection Hb as <-. apply enc_blob_reads. apply Z.ltb_lt, He.
Qed.

(** The entry points of list and map particles. *)
Lemma unpack_value_list_nonempty f :
  forall b, data_buffer b <> [] ->
  unpack_value_list f b =
  bind (read_u8 None)
    (fun ltype =>
       let! count :=
         if between 0x90 0x9f ltype then ret (Z.land ltype 0x0f)
         else if ltype =? 0xdc then read_u16 None
         else if ltype =? 0xdd then read_u32 None
         else panic in
       unpack_list f (unpack_value f) count) b.
Proof.
  intros b Hb. unfold unpack_value_list, bind at 1, get.
  destruct (data_buffer b); [congruence|reflexivity].
Qed.

Lemma unpack_value_map_nonempty f :
  forall b, data_buffer b <> [] ->
  unpack_value_map f b =
  bind (read_u8 None)
    (fun ltype =>
       let! count :=
         if between 0x80 0x8f ltype then ret (Z.land ltype 0x0f)
         else if ltype =? 0xde then read_u16 None
         else if ltype =? 0xdf then read_u32 None
         else panic in
       unpack_map f (unpack_value f) count) b.
Proof.
  intros b Hb. unfold unpack_value_map, bind at 1, get.
  destruct (data_buffer b); [congruence|reflexivity].
Qed.

(** Agreement on non-empty buffers is enough for non-empty input. *)
Lemma reads_nonempty {A} (m m' : M Buffer A) bs v :
  bs <> [] -> (forall b, data_buffer b <> [] -> m b = m' b) ->
  reads m' bs v -> reads m bs v.
Proof.
  intros Hne Heq H pre post rt. rewrite Heq; [apply H|].
  destruct bs; [congruence|]. cbn. destruct pre; discriminate.
Qed.

Lemma list_particle_reads f l bs :
  encodable (Value.List l) = true -> enc_value (Value.List l) = Some bs ->
  (length bs < f)%nat ->
  reads (unpack_value_list f) bs (norm (Value.List l)).
Proof.
  cbn [encodable enc_value norm]. intros [He Hl%Z.ltb_lt]%andb_true_iff.
  intros (b1 & b2 & [= <-] & Hb2 & ->)%opt_app_Some Hf.
  pose proof (enc_head_nonempty 16 0x90 0xdc 0xdd (len l)) as Hne.
  pose proof (len_nonneg l). rewrite length_app in Hf.
  unfold enc_array_head in *.
  eapply reads_nonempty; [|apply unpack_value_list_nonempty|].
  { intros E. apply (f_equal length) in E. rewrite length_app in E.
    cbn [length] in E. lia. }
  apply (head_reads _ (unpack_list f (unpack_value f))); [lia| | |reflexivity..].
  - apply list_reads; auto; [|lia]. apply Forall_forall.
    intros v _. apply value_unpacks.
  - intros Hn. unfold between. decide_tests.
    change (Z.land (0x90 + len l) 0x0f) with (Z.land (9 * 2 ^ 4 + len l) (Z.ones 4)).
    rewrite land_tag by lia. reflexivity.
Qed.

Lemma map_particle_reads f m bs :
  encodable (Value.HashMap m) = true -> enc_value (Value.HashMap m) = Some bs ->
  (length bs < f)%nat ->
  reads (unpack_value_map f) bs (norm (Value.HashMap m)).
Proof.
  cbn [encodable enc_value]. intros [He Hl%Z.ltb_lt]%andb_true_iff.
  intros (b1 & b2 & [= <-] & Hb2 & ->)%opt_app_Some Hf.
  pose proof (enc_head_nonempty 16 0x80 0xde 0xdf (len m)) as Hne.
  pose proof (len_nonneg m). rewrite length_app in Hf.
  unfold enc_map_head in *.
  eapply reads_nonempty; [|apply unpack_value_map_nonempty|].
  { intros E. apply (f_equal length) in E. rewrite length_app in E.
    cbn [length] in E. lia. }
  change (norm _) with (Value.HashMap (insert_all [] (norm_entry <$> m))).
  apply (head_reads _ (unpack_map f (unpack_value f))); [lia| | |reflexivity..].
  - apply map_reads; auto; [|lia]. apply Forall_forall.
    intros kv _. split; apply value_unpacks.
  - intros Hn. unfold between. decide_tests.
    change (Z.land (0x80 + len m) 0x0f) with (Z.land (8 * 2 ^ 4 + len m) (Z.ones 4)).
    rewrite land_tag by lia. reflexivity.
Qed.

(** Encodable values have an encoding. *)
Lemma encodable_enc v : encodable v = true -> exists bs, enc_value v = Some bs.
Proof.
  induction v using Value.value_ind'; cbn [encodable enc_value]; intros He;
    try (eexists; reflexivity).
  - destruct f; eexists; reflexivity.
  - apply andb_true_iff in He as [He _].
    enough (exists bs, opt_concat (enc_value <$> l) = Some bs) as [bs ->]
      by (eexists; reflexivity).
    induction H as [|v l Hv _ IH]; [eexists; reflexivity|]. cbn in *.
    apply andb_true_iff in He as [H1 H2].
    destruct (Hv H1) as [b1 ->], (IH H2) as [b2 ->]. eexists; reflexivity.
  - apply andb_true_iff in He as [He _].
    enough (exists bs, opt_concat (enc_entry <$> m) = Some bs) as [bs E]
      by (change (fmap _ m) with (enc_entry <$> m); rewrite E;
          eexists; reflexivity).
    induction H as [|[k x] m [Hk Hx] _ IH]; [eexists; reflexivity|]. cbn in *.
    apply andb_true_iff in He as [H1 H2].
    rewrite !andb_true_iff in H1. destruct H1 as [[H1 H1'] _].
    destruct (Hk H1) as [b1 ->], (Hx H1') as [b2 ->], (IH H2) as [b3 ->].
    eexists; reflexivity.
  - discriminate.
Qed.

(** ** Values that the format keeps exactly *)

(** What a map really is: its keys are pairwise different. *)
Definition distinct_keys (m : list (Value * Value)) : bool :=
  bool_decide (NoDup m.*1).

Fixpoint canonical (v : Value) : bool :=
  match v with
  | Value.UInt u => 2 ^ 63 <=? u
  | Value.Float (FloatValue.F32 x) =>
      negb (FloatValue.is_nan32 x) || (x =? FloatValue.NAN32)
  | Value.Float (FloatValue.F64 x) =>
      negb (FloatValue.is_nan64 x) || (x =? FloatValue.NAN64)
  | Value.HLL _ => false
  | Value.List l => forallb canonical l
  | Value.HashMap m =>
      forallb (fun kv => match kv with (k, x) => canonical k && canonical x end) m
      && distinct_keys m
  | _ => true
  end.

Lemma entries_insert_fresh k v m :
  k ∉ m.*1 -> Value.entries_insert k v m = m ++ [(k, v)].
Proof.
  induction m as [|[k' v'] m IH]; intros Hk; [reflexivity|]. cbn in *.
  apply not_elem_of_cons in Hk as [Hne Hk].
  rewrite decide_False by exact Hne. rewrite IH by exact Hk. reflexivity.
Qed.

Lemma insert_all_distinct l : forall m,
  NoDup (m ++ l).*1 -> insert_all m l = m ++ l.
Proof.
  induction l as [|[k v] l IH]; intros m Hd; cbn.
  - rewrite app_nil_r. reflexivity.
  - rewrite entries_insert_fresh.
    + rewrite IH; rewrite <- (assoc_L (++)); [reflexivity|exact Hd].
    + rewrite fmap_app, fmap_cons in Hd.
      apply NoDup_app in Hd as (_ & Hd & _). intros Hin.
      apply (Hd k Hin). left.
Qed.

Lemma norm_canonical v : canonical v = true -> norm v = v.
Proof.
  induction v using Value.value_ind'; cbn [canonical norm]; intros Hc;
    try reflexivity; try discriminate.
  - apply Z.leb_le in Hc. decide_tests. reflexivity.
  - destruct f as [x|x]; unfold Value.from_f32, Value.from_f64,
      FloatValue.from_f32, FloatValue.from_f64.
    + destruct (FloatValue.is_nan32 x); [|reflexivity].
      apply Z.eqb_eq in Hc. congruence.
    + destruct (FloatValue.is_nan64 x); [|reflexivity].
      apply Z.eqb_eq in Hc. congruence.
  - f_equal. induction H as [|v l Hv _ IH]; [reflexivity|]. cbn in *.
    apply andb_true_iff in Hc as [Hc1 Hc2]. rewrite Hv, IH by assumption.
    reflexivity.
  - apply andb_true_iff in Hc as [Hc Hd%bool_decide_eq_true].
    replace (fmap _ m) with m; [rewrite insert_all_distinct by exact Hd; reflexivity|].
    clear Hd. induction H as [|[k x] m [Hk Hx] _ IH]; [reflexivity|]. cbn in *.
    rewrite !andb_true_iff in Hc. destruct Hc as [[Hc1 Hc2] Hc].
    rewrite Hk, Hx, <- IH by assumption. reflexivity.
Qed.

(** C9: MessagePack round trip.  For a value the format keeps ([canonical]:
    no small unsigned integer, no HLL value, canonical NaNs, distinct map
    keys) that fits it ([encodable]), the size pass of [pack_value] counts
    some bytes, the writing pass writes exactly that many into the room given
    and [unpack_value] on them, whatever follows, returns the value itself
    and stops right after it. *)
Theorem unpack_pack_value (v : Value) :
  encodable v = true -> canonical v = true ->
  exists bs,
    (forall b : Buffer, with_none (pack_value v) b = Ret (len bs) b) /\
    forall pre area post rt f,
      len area = len bs -> (length bs < f)%nat ->
      with_some (pack_value v) (mkBuffer (pre ++ area ++ post) (len pre) rt)
      = Ret (len bs) (mkBuffer (pre ++ bs ++ post) (len pre + len bs) rt) /\
      unpack_value f (mkBuffer (pre ++ bs ++ post) (len pre) rt)
      = Ret v (mkBuffer (pre ++ bs ++ post) (len pre + len bs) rt).
Proof.
  intros He Hc. destruct (encodable_enc v He) as [bs Hb].
  pose proof (pack_value_packs v) as Hp. rewrite Hb in Hp.
  exists bs. split; [intros b; apply packs_sizes, Hp|].
  intros pre area post rt f Ha Hf. split.
  - rewrite (packs_with_some _ _ Hp _). unfold bind.
    rewrite emit_frame by exact Ha. reflexivity.
  - rewrite offset_after. rewrite <- (norm_canonical v Hc).
    apply value_unpacks; assumption.
Qed.

End RoundTrip.

(** A list of an integer, a string and a map, with three bytes after it. *)
Lemma unpack_pack_value_witness :
  let v := Value.List [Value.Int (-70000); Value.String (str "abc");
             Value.HashMap [(Value.Int 1, Value.Bool true)]] in
  exists bs, forall rt,
    with_some (pack_value v) (mkBuffer (replicate (length bs) 0 ++ [1; 2; 3]) 0 rt)
    = Ret (len bs) (mkBuffer (bs ++ [1; 2; 3]) (len bs) rt) /\
    unpack_value (S (length bs)) (mkBuffer (bs ++ [1; 2; 3]) 0 rt)
    = Ret v (mkBuffer (bs ++ [1; 2; 3]) (len bs) rt).
Proof.
  intros v. destruct (unpack_pack_value v eq_refl eq_refl) as (bs & _ & H).
  exists bs. intros rt.
  exact (H [] (replicate (length bs) 0) [1; 2; 3] rt (S (length bs))
           ltac:(unfold len; rewrite length_replicate; reflexivity)
           ltac:(apply Nat.lt_succ_diag_r)).
Defined.
