(* ===== verification/Particle.v ===== *)
(** * Bin values on the wire

    [Value::estimate_size], [Value::write_to] and [Value::write_key_bytes] of
    [src/value.rs].  A value in a bin is a particle: its type travels in the
    operation header, its bytes are [particle_bytes].  The estimate is the
    number of bytes written, and [bytes_to_particle] reads them back. *)

From stdpp Require Import base list strings.
From Stdlib Require Import ZArith Lia Setoid Morphisms.
From S2P Require Import Prelude ResultCodes Monad ByteOrder Slices Text Wire.
From S2P Require Import Buffer BufferFacts Values Cdt Encoder EncoderFacts.
From S2P Require Import Decoder RoundTrip.

Section Particle.
Context `{BO : ByteOrder}.

Definition estimate_size {S} (v : Value) : M S Z :=
  match v with
  | Value.Nil => ret 0
  | Value.Int _ | Value.Float _ => ret 8
  | Value.UInt _ => panic
  | Value.String s => ret (len s)
  | Value.Blob b => ret (len b)
  | Value.Bool _ => ret 1
  | Value.List _ | Value.HashMap _ => with_none (pack_value v)
  | Value.OrderedMap _ => panic
  | Value.GeoJSON s => ret (1 + 2 + len s)
  | Value.HLL h => ret (len h)
  end.

Definition write_to (v : Value) : M Buffer Z :=
  match v with
  | Value.Nil => ret 0
  | Value.Int val => write_i64 val
  | Value.UInt _ => panic
  | Value.Bool val => write_bool val
  | Value.Float val => let! x := unwrap (FloatValue.to_f64 val) in write_f64 x
  | Value.String val => write_str val
  | Value.Blob val | Value.HLL val => write_bytes val
  | Value.List _ | Value.HashMap _ => with_some (pack_value v)
  | Value.OrderedMap _ => panic
  | Value.GeoJSON val => write_geo val
  end.

(** The bytes fed to the digest; [None] is the panic. *)
Definition write_key_bytes (v : Value) : option bytes :=
  match v with
  | Value.Int val => Some (write_be 8 val)
  | Value.String val => Some val
  | Value.Blob val => Some val
  | _ => None
  end.

(** Flags and the number of cells, none of which the client sends. *)
Definition geo_header : bytes := [0; 0; 0].

(** The reference: type and bytes of a bin value, [None] where the client
    refuses the value. *)
Definition particle_bytes (v : Value) : option bytes :=
  match v with
  | Value.Nil => Some []
  | Value.Bool b => Some [if b then 1 else 0]
  | Value.Int i => Some (write_be 8 i)
  | Value.Float (FloatValue.F64 x) => Some (write_be 8 x)
  | Value.Float (FloatValue.F32 _) => None
  | Value.String s => Some s
  | Value.Blob b | Value.HLL b => Some b
  | Value.GeoJSON s => Some (geo_header ++ s)
  | Value.List _ | Value.HashMap _ => enc_value v
  | Value.UInt _ | Value.OrderedMap _ => None
  end.

Lemma write_to_emits v bs :
  particle_bytes v = Some bs -> emits (write_to v) bs (len bs).
Proof.
  destruct v; cbn [particle_bytes write_to]; try discriminate.
  - intros [= <-]. apply emits_ret.
  - intros [= <-]. apply write_bool_emits.
  - intros [= <-]. rewrite len_write_be. apply write_i64_emits.
  - destruct f; [discriminate|]. intros [= <-]. rewrite len_write_be.
    cbn [FloatValue.to_f64 unwrap]. rewrite bind_ret_l. apply write_f64_emits.
  - intros [= <-]. apply write_str_emits.
  - intros [= <-]. apply write_bytes_emits.
  - intros Hb. apply packs_with_some. rewrite <- Hb. apply pack_value_packs.
  - intros Hb. apply packs_with_some. rewrite <- Hb. apply pack_value_packs.
  - intros <-%(inj Some). rewrite len_app. apply write_geo_emits.
  - intros [= <-]. apply write_bytes_emits.
Qed.

Lemma estimate_size_bytes {S} v bs :
  particle_bytes v = Some bs -> (estimate_size v : M S Z) ≈ ret (len bs).
Proof.
  destruct v; cbn [particle_bytes estimate_size]; try discriminate;
    try (intros <-%(inj Some); autorewrite with sizes; reflexivity).
  - destruct f; [discriminate|]. intros [= <-]. rewrite len_write_be.
    reflexivity.
  - intros Hb. apply packs_with_none. rewrite <- Hb. apply pack_value_packs.
  - intros Hb. apply packs_with_none. rewrite <- Hb. apply pack_value_packs.
Qed.

(** What a bin value is read back as: only the elements of collections go
    through the format. *)
Definition norm_bin (v : Value) : Value :=
  match v with
  | Value.HLL b => Value.HLL b
  | v => norm v
  end.

(** A bin value the protocol supports: the client panics on the others. *)
Definition supported_bin (v : Value) : bool :=
  match v with
  | Value.UInt _ | Value.OrderedMap _ | Value.Float (FloatValue.F32 _) => false
  | _ => true
  end.

Lemma supported_bytes v :
  encodable v = true -> supported_bin v = true ->
  exists bs, particle_bytes v = Some bs.
Proof.
  intros He Hs. destruct v; try discriminate; try (eexists; reflexivity).
  - destruct f; [discriminate|eexists; reflexivity].
  - apply encodable_enc, He.
  - apply encodable_enc, He.
Qed.

Lemma skip_at pre bs post rt n :
  len bs = n -> len (pre ++ bs ++ post) < 2 ^ 64 ->
  skip n (at_cursor pre (bs ++ post) rt) = Ret tt (at_cursor (pre ++ bs) post rt).
Proof.
  intros <- Hl. unfold skip, skip_bytes, usize_checked, bind.
  rewrite !len_app in Hl. pose proof (len_nonneg post).
  change (data_offset (at_cursor pre (bs ++ post) rt)) with (len pre).
  rewrite (proj2 (Z.ltb_lt _ _)) by lia. unfold ret. f_equal.
  apply (offset_after pre bs post).
Qed.

Lemma geo_particle f s pre post rt :
  utf8_valid s = true -> len (pre ++ (geo_header ++ s) ++ post) < 2 ^ 64 ->
  bytes_to_particle f (ParticleType.to_u8 ParticleType.GEOJSON)
    (len (geo_header ++ s)) (at_cursor pre ((geo_header ++ s) ++ post) rt)
  = Ret (Value.GeoJSON s) (at_cursor (pre ++ geo_header ++ s) post rt).
Proof.
  intros Hu Hl. pose proof (len_nonneg s). pose proof (len_nonneg pre).
  pose proof (len_nonneg post).
  assert (len (((pre ++ [0]) ++ [0; 0]) ++ [] ++ s ++ post) < 2 ^ 64) as Hl'
    by (unfold geo_header in Hl; size_lia).
  change (ParticleType.to_u8 _) with 23. unfold bytes_to_particle.
  cbn [ParticleType.from_u8]. rewrite <- (assoc_L (++)) in Hl |- *.
  rewrite len_app.
  rewrite (bind_Ret _ _ _ _ _ (skip_at pre [0] ([0; 0] ++ s ++ post) rt 1
             eq_refl Hl)).
  assert (reads (read_i16 None) [0; 0] 0) as Hr.
  { eapply reads_eq; [apply (read_i16_reads 0)| |reflexivity].
    - unfold in_i. lia.
    - rewrite !write_be_S, write_be_0. reflexivity. }
  rewrite (bind_Ret _ _ _ _ _ (Hr _ (s ++ post) _)).
  rewrite (bind_Ret _ _ _ _ _ (eq_refl : usize_checked (as_u64 0 * 8) _ = Ret 0 _)).
  rewrite (bind_Ret _ _ _ _ _ (skip_at ((pre ++ [0]) ++ [0; 0]) [] (s ++ post)
             rt 0 eq_refl Hl')).
  unfold usize_sub. change (len geo_header) with 3. decide_tests.
  rewrite !bind_ret_l. decide_tests. rewrite !bind_ret_l.
  rewrite app_nil_r, <- !(assoc_L (++)).
  assert (len s = 3 + len s - 0 - 3) as Hn by lia.
  rewrite (bind_Ret _ _ _ _ _ (read_str_reads s _ Hn Hu _ post rt)).
  unfold ret. rewrite <- !(assoc_L (++)). reflexivity.
Qed.

(** Reading a particle back, without the bound that only GeoJSON needs. *)
Lemma particle_reads f v t bs :
  encodable v = true -> particle_bytes v = Some bs ->
  Value.particle_type v = Some t -> t <> ParticleType.GEOJSON ->
  (length bs < f)%nat ->
  reads (bytes_to_particle f (ParticleType.to_u8 t) (len bs)) bs (norm_bin v).
Proof.
  intros He Hb Ht Hg Hf.
  destruct v; try discriminate; injection Ht as <-; try congruence;
    unfold bytes_to_particle; rewrite ParticleType.particle_from_to.
  - injection Hb as <-. apply reads_ret.
  - injection Hb as <-. destruct b;
      (eapply reads_eq; [apply (reads_cast (read_bool 1) Value.Bool), read_bool_reads|
         reflexivity|reflexivity]).
  - injection Hb as <-. apply (reads_cast (read_i64 None) Value.Int), read_i64_reads.
    apply between_spec in He. unfold in_i. lia.
  - destruct f0 as [|x]; [discriminate|]. injection Hb as <-.
    apply (reads_cast (read_f64 None) (fun x => Value.Float (FloatValue.from_f64 x))),
      read_f64_reads.
    apply between_spec in He. unfold in_u. lia.
  - injection Hb as <-. apply andb_true_iff in He as [Hu _].
    apply (reads_cast _ Value.String), read_str_reads; auto.
  - injection Hb as <-. apply (reads_cast _ Value.Blob), read_blob_reads; auto.
  - apply list_particle_reads; auto.
  - apply map_particle_reads; auto.
  - injection Hb as <-. apply (reads_cast _ Value.HLL), read_blob_reads; auto.
Qed.

(** C8: a supported bin value survives the wire.  The size estimate succeeds
    with some count of bytes; writing the value into that much room overwrites
    exactly the room, returns the count and leaves the bytes around it alone;
    and decoding those bytes with the value's particle type and that length
    gives the value back (up to [norm_bin]) with the cursor after them. *)
Theorem particle_round_trip (v : Value) (t : ParticleType) :
  encodable v = true -> supported_bin v = true ->
  Value.particle_type v = Some t ->
  exists bs,
    (forall b : Buffer, estimate_size v b = Ret (len bs) b) /\
    forall pre area post rt f,
      len area = len bs -> len (pre ++ area ++ post) < 2 ^ 64 ->
      (length bs < f)%nat ->
      write_to v (mkBuffer (pre ++ area ++ post) (len pre) rt)
      = Ret (len bs) (mkBuffer (pre ++ bs ++ post) (len pre + len bs) rt) /\
      bytes_to_particle f (ParticleType.to_u8 t) (len bs)
        (mkBuffer (pre ++ bs ++ post) (len pre) rt)
      = Ret (norm_bin v) (mkBuffer (pre ++ bs ++ post) (len pre + len bs) rt).
Proof.
  intros He Hs Ht. destruct (supported_bytes v He Hs) as [bs Hb].
  exists bs. split; [intros b; apply (estimate_size_bytes v bs Hb)|].
  intros pre area post rt f Ha Hl Hf. split.
  - pose proof (write_to_emits v bs Hb (mkBuffer (pre ++ area ++ post) (len pre) rt))
      as ->.
    unfold bind. rewrite emit_frame by exact Ha. reflexivity.
  - rewrite offset_after. destruct (decide (t = ParticleType.GEOJSON)) as [->|Hg].
    + destruct v; try discriminate. apply (inj Some) in Hb as <-.
      apply andb_true_iff in He as [Hu _]. apply (geo_particle f s); [exact Hu|].
      rewrite !len_app in *. lia.
    + apply particle_reads; assumption.
Qed.

End Particle.

(** A GeoJSON bin of three characters, written into the middle of a buffer. *)
Lemma particle_round_trip_witness :
  let v := Value.GeoJSON (str "{1}") in
  exists bs,
    (forall b : Buffer, estimate_size v b = Ret (len bs) b) /\
    write_to v (mkBuffer ([9; 9] ++ replicate (length bs) 0 ++ [8]) 2 0)
    = Ret (len bs) (mkBuffer ([9; 9] ++ bs ++ [8]) (2 + len bs) 0) /\
    bytes_to_particle (S (length bs)) 23 (len bs)
      (mkBuffer ([9; 9] ++ bs ++ [8]) 2 0)
    = Ret (norm_bin v) (mkBuffer ([9; 9] ++ bs ++ [8]) (2 + len bs) 0).
Proof.
  intros v.
  destruct (particle_round_trip v ParticleType.GEOJSON eq_refl eq_refl eq_refl)
    as (bs & Hsize & H).
  exists bs. split; [exact Hsize|].
  assert (len bs = 6) as Hl.
  { specialize (Hsize (mkBuffer [] 0 0)). vm_compute in Hsize.
    injection Hsize as Hl. symmetry. exact Hl. }
  apply (H [9; 9] (replicate (length bs) 0) [8] 0 (S (length bs))).
  - unfold len. rewrite length_replicate. reflexivity.
  - rewrite !len_app. unfold len in *. rewrite length_replicate, Hl. reflexivity.
  - apply Nat.lt_succ_diag_r.
Defined.
