(* ===== verification/Expressions.v ===== *)
(** * Filter expressions ([src/expressions/mod.rs])

    The expression tree and its packing.  A node is a Rust struct of optional
    parts; which parts a node must have depends on its operator, and an absent
    part that is needed is a panic ([Option::unwrap]).  The functions that
    build the nodes are in [ExpressionBuilders].

    A reference encoding of expressions follows, with the proof that [pack]
    refines it: the size pass returns its length and the writing pass writes its
    bytes. *)

From stdpp Require Import base list strings.
From Stdlib Require Import ZArith Lia Setoid Morphisms.
From S2P Require Import Prelude ResultCodes Monad ByteOrder Buffer BufferFacts Values Cdt.
From S2P Require Import Encoder EncoderFacts.

#[local] Set Warnings "-register-all".

Module ExpType.

(** [enum ExpType]. *)
Inductive ExpType : Type :=
| NIL
| BOOL
| INT
| STRING
| LIST
| MAP
| BLOB
| FLOAT
| GEO
| HLL.

(** [t as i64]. *)
Definition to_i64 (t : ExpType) : Z :=
  match t with
  | NIL => 0
  | BOOL => 1
  | INT => 2
  | STRING => 3
  | LIST => 4
  | MAP => 5
  | BLOB => 6
  | FLOAT => 7
  | GEO => 8
  | HLL => 9
  end.

#[global] Instance ExpType_eq_dec : EqDecision ExpType.
Proof. solve_decision. Defined.

End ExpType.

Abbreviation ExpType := ExpType.ExpType.

Module ExpOp.

(** [enum ExpOp]. *)
Inductive ExpOp : Type :=
| Unknown
| EQ
| NE
| GT
| GE
| LT
| LE
| Regex
| Geo
| And
| Or
| Not
| Xor
| Add
| Sub
| Mul
| Div
| Pow
| Log
| Mod
| Abs
| Floor
| Ceil
| ToInt
| ToFloat
| IntAnd
| IntOr
| IntXor
| IntNot
| IntLshift
| IntRshift
| IntARshift
| IntCount
| IntLscan
| IntRscan
| Min
| Max
| DigestModulo
| DeviceSize
| LastUpdate
| SinceUpdate
| VoidTime
| TTL
| SetName
| KeyExists
| IsTombstone
| Key
| Bin
| BinType
| Cond
| Var
| Let
| Quoted
| Call.

(** [t as i64]. *)
Definition to_i64 (t : ExpOp) : Z :=
  match t with
  | Unknown => 0
  | EQ => 1
  | NE => 2
  | GT => 3
  | GE => 4
  | LT => 5
  | LE => 6
  | Regex => 7
  | Geo => 8
  | And => 16
  | Or => 17
  | Not => 18
  | Xor => 19
  | Add => 20
  | Sub => 21
  | Mul => 22
  | Div => 23
  | Pow => 24
  | Log => 25
  | Mod => 26
  | Abs => 27
  | Floor => 28
  | Ceil => 29
  | ToInt => 30
  | ToFloat => 31
  | IntAnd => 32
  | IntOr => 33
  | IntXor => 34
  | IntNot => 35
  | IntLshift => 36
  | IntRshift => 37
  | IntARshift => 38
  | IntCount => 39
  | IntLscan => 40
  | IntRscan => 41
  | Min => 50
  | Max => 51
  | DigestModulo => 64
  | DeviceSize => 65
  | LastUpdate => 66
  | SinceUpdate => 67
  | VoidTime => 68
  | TTL => 69
  | SetName => 70
  | KeyExists => 71
  | IsTombstone => 72
  | Key => 80
  | Bin => 81
  | BinType => 82
  | Cond => 123
  | Var => 124
  | Let => 125
  | Quoted => 126
  | Call => 127
  end.

#[global] Instance ExpOp_eq_dec : EqDecision ExpOp.
Proof. solve_decision. Defined.

End ExpOp.

Abbreviation ExpOp := ExpOp.ExpOp.

Definition MODIFY : Z := 0x40.

(** [struct FilterExpression] and [enum ExpressionArgument]. *)
Inductive FilterExpression : Type :=
| mkFilterExpression
    (cmd : option ExpOp) (val : option Value) (bin : option FilterExpression)
    (flags : option Z) (module : option ExpType)
    (exps : option (list FilterExpression))
    (arguments : option (list ExpressionArgument))
with ExpressionArgument : Type :=
| ArgumentValue (v : Value)
| ArgumentExpression (e : FilterExpression)
| ArgumentContext (ctx : list CdtContext).

(** [FilterExpression::new]. *)
Definition FilterExpression_new cmd val bin flags module exps
    : FilterExpression :=
  mkFilterExpression cmd val bin flags module exps None.

(** How many values the [Call] arguments announce: contexts do not count. *)
Definition argument_count (arg : ExpressionArgument) : Z :=
  match arg with
  | ArgumentValue _ | ArgumentExpression _ => 1
  | ArgumentContext _ => 0
  end.

Section Pack.
Context `{BO : ByteOrder} `{VF : ValueFmt}.

(** One step of a context, without flags here. *)
Definition pack_call_ctx (c : CdtContext) : P Z :=
  let! n := pack_integer (ctx_id c) in
  let! m := pack_value (ctx_value c) in
  ret (n + m).

(** The first loop over the arguments writes the contexts. *)
Definition pack_arg_context (arg : ExpressionArgument) : P Z :=
  match arg with
  | ArgumentContext ((_ :: _) as ctx) =>
      let! a := pack_array_begin 3 in
      let! b := pack_integer 0xff in
      let! c := pack_array_begin (len ctx * 2) in
      let! d := pack_each pack_call_ctx ctx in
      ret (a + b + c + d)
  | _ => ret 0
  end.

(** [pack_raw_string(buf, &self.val.clone().unwrap().to_string())] *)
Definition pack_val_string (val : option Value) : P Z :=
  let! v := unwrap val in pack_raw_string (as_string v).

(** [FilterExpression::pack_value]. *)
Definition pack_val (val : option Value) : P Z :=
  let! v := unwrap val in pack_value v.

Definition pack_flags (flags : option Z) : P Z :=
  let! f := unwrap flags in pack_integer f.

Definition pack_module (module : option ExpType) : P Z :=
  let! t := unwrap module in pack_integer (ExpType.to_i64 t).

Definition pack_cmd (cmd : ExpOp) : P Z := pack_integer (ExpOp.to_i64 cmd).

(** The arm of the operators with at most a value. *)
Definition pack_plain_command (cmd : ExpOp) (val : option Value) : P Z :=
  match val with
  | Some value =>
      let! a := pack_array_begin 2 in
      let! b := pack_cmd cmd in
      let! c := pack_value value in
      ret (a + b + c)
  | None =>
      let! a := pack_array_begin 1 in
      let! b := pack_cmd cmd in
      ret (a + b)
  end.

(** The array head of [pack_expression]: a [Let] announces a name and a value
    per definition. *)
Definition pack_expression_head (cmd : ExpOp) (n : Z) : P Z :=
  match cmd with
  | ExpOp.Let => let! k := usize_sub n 1 in pack_array_begin (k * 2 + 2)
  | _ => pack_array_begin (n + 1)
  end.

(** The second loop writes the values and the expressions, [pack] being the
    recursive call. *)
Definition pack_argument (pack : FilterExpression -> P Z)
    (arg : ExpressionArgument) : P Z :=
  match arg with
  | ArgumentValue val => pack_value val
  | ArgumentExpression cmd => pack cmd
  | ArgumentContext _ => ret 0
  end.

Definition pack_arguments (pack : FilterExpression -> P Z)
    (val : option Value) (arguments : option (list ExpressionArgument)) : P Z :=
  match arguments with
  | Some args =>
      let! n := pack_each pack_arg_context args in
      let! m :=
        pack_array_begin (foldr Z.add 0 (argument_count <$> args)) in
      let! k := pack_each (pack_argument pack) args in
      ret (n + m + k)
  | None => pack_val val
  end.

(** [pack], with [pack_expression] and [pack_command] in their places. *)
Fixpoint pack (e : FilterExpression) : P Z :=
  match e with
  | mkFilterExpression cmd val bin flags module exps arguments =>
      match exps with
      | Some exps =>
          (* pack_expression *)
          match val with
          | Some val =>
              let! n := pack_raw_string (as_string val) in
              let! m := match exps with e0 :: _ => pack e0 | [] => panic end in
              ret (n + m)
          | None =>
              let! op := unwrap cmd in
              let! a := pack_expression_head op (len exps) in
              let! b := pack_cmd op in
              let! c := pack_each pack exps in
              ret (a + b + c)
          end
      | None =>
          match cmd with
          | Some op =>
              (* pack_command *)
              match op with
              | ExpOp.Regex =>
                  let! a := pack_array_begin 4 in
                  let! b := pack_cmd op in
                  let! c := pack_flags flags in
                  let! d := pack_val_string val in
                  let! e := match bin with Some b => pack b | None => panic end in
                  ret (a + b + c + d + e)
              | ExpOp.Call =>
                  let! a := pack_array_begin 5 in
                  let! b := pack_cmd op in
                  let! c := pack_module module in
                  let! d := pack_flags flags in
                  let! e := pack_arguments pack val arguments in
                  let! f := match bin with Some b => pack b | None => panic end in
                  ret (a + b + c + d + e + f)
              | ExpOp.Bin =>
                  let! a := pack_array_begin 3 in
                  let! b := pack_cmd op in
                  let! c := pack_module module in
                  let! d := pack_val_string val in
                  ret (a + b + c + d)
              | ExpOp.BinType | ExpOp.Var =>
                  let! a := pack_array_begin 2 in
                  let! b := pack_cmd op in
                  let! c := pack_val_string val in
                  ret (a + b + c)
              | _ => pack_plain_command op val
              end
          | None => pack_val val
          end
      end
  end.

End Pack.

(** ** Induction over expression trees *)

Definition on_argument (P : FilterExpression -> Prop) (a : ExpressionArgument)
    : Prop :=
  match a with ArgumentExpression e => P e | _ => True end.

Definition on_option {A} (P : A -> Prop) (o : option A) : Prop :=
  match o with Some a => P a | None => True end.

Section Induction.
Variable P : FilterExpression -> Prop.
Hypothesis H : forall cmd val bin flags module exps arguments,
  on_option P bin -> on_option (Forall P) exps ->
  on_option (Forall (on_argument P)) arguments ->
  P (mkFilterExpression cmd val bin flags module exps arguments).

Fixpoint expression_ind' (e : FilterExpression) : P e :=
  let fix all l : Forall P l :=
    match l with
    | [] => Forall_nil_2 P
    | x :: l' => Forall_cons_2 P x l' (expression_ind' x) (all l')
    end in
  let arg a : on_argument P a :=
    match a with
    | ArgumentExpression e => expression_ind' e
    | ArgumentValue _ | ArgumentContext _ => I
    end in
  let fix args l : Forall (on_argument P) l :=
    match l with
    | [] => Forall_nil_2 (on_argument P)
    | x :: l' => Forall_cons_2 (on_argument P) x l' (arg x) (args l')
    end in
  match e with
  | mkFilterExpression cmd val bin flags module exps arguments =>
      H cmd val bin flags module exps arguments
        (match bin with Some b => expression_ind' b | None => I end)
        (match exps with Some l => all l | None => I end)
        (match arguments with Some l => args l | None => I end)
  end.
End Induction.

(** ** The reference encoding *)

Section Reference.
Context `{BO : ByteOrder} `{VF : ValueFmt}.

Definition enc_cmd (op : ExpOp) : option bytes :=
  Some (enc_int (ExpOp.to_i64 op)).

(** A string without a particle type; [None] when the node has no value. *)
Definition enc_val_string (val : option Value) : option bytes :=
  (fun v => enc_raw_string (as_string v)) <$> val.

Definition enc_val (val : option Value) : option bytes := val ≫= enc_value.

Definition enc_flags (flags : option Z) : option bytes := enc_int <$> flags.

Definition enc_module (module : option ExpType) : option bytes :=
  (fun t => enc_int (ExpType.to_i64 t)) <$> module.

Definition enc_call_ctx (c : CdtContext) : option bytes :=
  Some (enc_int (ctx_id c)) +++ enc_value (ctx_value c).

Definition enc_arg_context (arg : ExpressionArgument) : option bytes :=
  match arg with
  | ArgumentContext ((_ :: _) as ctx) =>
      Some (enc_array_head 3) +++ Some (enc_int 0xff) +++
      Some (enc_array_head (len ctx * 2)) +++ opt_concat (enc_call_ctx <$> ctx)
  | _ => Some []
  end.

Definition enc_expression_head (op : ExpOp) (n : Z) : option bytes :=
  match op with
  | ExpOp.Let =>
      if 1 <=? n then Some (enc_array_head ((n - 1) * 2 + 2)) else None
  | _ => Some (enc_array_head (n + 1))
  end.

Definition enc_plain_command (op : ExpOp) (val : option Value) : option bytes :=
  match val with
  | Some v => Some (enc_array_head 2) +++ enc_cmd op +++ enc_value v
  | None => Some (enc_array_head 1) +++ enc_cmd op
  end.

Definition enc_argument (enc : FilterExpression -> option bytes)
    (arg : ExpressionArgument) : option bytes :=
  match arg with
  | ArgumentValue v => enc_value v
  | ArgumentExpression e => enc e
  | ArgumentContext _ => Some []
  end.

Definition enc_arguments (enc : FilterExpression -> option bytes)
    (val : option Value) (arguments : option (list ExpressionArgument))
    : option bytes :=
  match arguments with
  | Some args =>
      opt_concat (enc_arg_context <$> args) +++
      Some (enc_array_head (foldr Z.add 0 (argument_count <$> args))) +++
      opt_concat (enc_argument enc <$> args)
  | None => enc_val val
  end.

Fixpoint enc_exp (e : FilterExpression) : option bytes :=
  match e with
  | mkFilterExpression cmd val bin flags module exps arguments =>
      let enc_bin :=
        match bin with Some b => enc_exp b | None => None end in
      match exps, val, cmd with
      | Some exps, Some val, _ =>
          Some (enc_raw_string (as_string val)) +++
          match exps with e0 :: _ => enc_exp e0 | [] => None end
      | Some exps, None, Some op =>
          enc_expression_head op (len exps) +++ enc_cmd op +++
          opt_concat (enc_exp <$> exps)
      | Some _, None, None => None
      | None, _, Some ExpOp.Regex =>
          Some (enc_array_head 4) +++ enc_cmd ExpOp.Regex +++
          enc_flags flags +++ enc_val_string val +++ enc_bin
      | None, _, Some ExpOp.Call =>
          Some (enc_array_head 5) +++ enc_cmd ExpOp.Call +++
          enc_module module +++ enc_flags flags +++
          enc_arguments enc_exp val arguments +++ enc_bin
      | None, _, Some ExpOp.Bin =>
          Some (enc_array_head 3) +++ enc_cmd ExpOp.Bin +++
          enc_module module +++ enc_val_string val
      | None, _, Some ((ExpOp.BinType | ExpOp.Var) as op) =>
          Some (enc_array_head 2) +++ enc_cmd op +++ enc_val_string val
      | None, _, Some op => enc_plain_command op val
      | None, _, None => enc_val val
      end
  end.

(** ** Refinement *)

Lemma packs_unwrap {A} (o : option A) (k : A -> P Z) g :
  (forall a, packs (k a) (sized (g a))) ->
  packs (bind (unwrap o) k) (sized (o ≫= g)).
Proof.
  intros H. destruct o as [a|].
  - eapply (packs_eq _ (sized (g a))); [|reflexivity].
    cbn [unwrap]. rewrite bind_ret_l. apply H.
  - apply bind_panic.
Qed.

Lemma pack_val_string_packs val :
  packs (pack_val_string val) (sized (enc_val_string val)).
Proof.
  eapply packs_eq; [apply packs_unwrap; intros a; apply pack_raw_string_packs|].
  destruct val; reflexivity.
Qed.

Lemma pack_val_packs val : packs (pack_val val) (sized (enc_val val)).
Proof. apply packs_unwrap. intros v. apply pack_value_packs. Qed.

Lemma pack_flags_packs flags : packs (pack_flags flags) (sized (enc_flags flags)).
Proof.
  eapply packs_eq; [apply packs_unwrap; intros a; apply pack_integer_packs|].
  destruct flags; reflexivity.
Qed.

Lemma pack_module_packs m : packs (pack_module m) (sized (enc_module m)).
Proof.
  eapply packs_eq; [apply packs_unwrap; intros a; apply pack_integer_packs|].
  destruct m; reflexivity.
Qed.

Lemma pack_cmd_packs op : packs (pack_cmd op) (sized (enc_cmd op)).
Proof. apply pack_integer_packs. Qed.

End Reference.

(** The steps of an expression, each with its reference. *)
Ltac exp_step :=
  first
    [ apply pack_cmd_packs | apply pack_flags_packs | apply pack_module_packs
    | apply pack_val_packs | apply pack_val_string_packs
    | apply pack_raw_string_packs | apply pack_value_packs
    | apply pack_integer_packs
    | apply pack_array_begin_packs; lia
    | eassumption ].

Ltac exp_steps :=
  repeat first
    [ apply packs_done; lia
    | eapply packs_step; [exp_step|intros ?] ].

Section Refinement.
Context `{BO : ByteOrder} `{VF : ValueFmt}.

Lemma pack_arg_context_packs arg :
  packs (pack_arg_context arg) (sized (enc_arg_context arg)).
Proof.
  destruct arg as [v|e|[|c ctx]]; try apply packs_ret.
  pose proof (len_nonneg (c :: ctx)).
  unfold pack_arg_context, enc_arg_context.
  assert (packs (pack_each pack_call_ctx (c :: ctx))
            (sized (opt_concat (enc_call_ctx <$> c :: ctx)))) as Hctx.
  { apply packs_each, Forall_forall. intros x _.
    apply packs_add; [apply pack_integer_packs|apply pack_value_packs]. }
  eapply packs_sum; [exp_steps|]. rewrite opt_app_nil_r. reflexivity.
Qed.

Lemma pack_expression_head_packs op n :
  0 <= n ->
  packs (pack_expression_head op n) (sized (enc_expression_head op n)).
Proof.
  intros Hn. destruct op; try (apply pack_array_begin_packs; lia).
  cbn. unfold usize_sub. destruct (Z.leb_spec 1 n).
  - rewrite bind_ret_l. apply pack_array_begin_packs. lia.
  - apply bind_panic.
Qed.

Lemma pack_plain_command_packs op val :
  packs (pack_plain_command op val) (sized (enc_plain_command op val)).
Proof.
  destruct val; (eapply packs_sum; [exp_steps|]; rewrite opt_app_nil_r;
    reflexivity).
Qed.

Lemma argument_count_nonneg args : 0 <= foldr Z.add 0 (argument_count <$> args).
Proof. induction args as [|[] args IH]; cbn; lia. Qed.

Lemma pack_arguments_packs val args :
  on_option (Forall (on_argument (fun e => packs (pack e) (sized (enc_exp e)))))
    args ->
  packs (pack_arguments pack val args) (sized (enc_arguments enc_exp val args)).
Proof.
  intros Hargs. destruct args as [args|]; [|apply pack_val_packs].
  pose proof (argument_count_nonneg args).
  assert (packs (pack_each pack_arg_context args)
            (sized (opt_concat (enc_arg_context <$> args)))) as H1
    by (apply packs_each, Forall_forall; intros a _; apply pack_arg_context_packs).
  assert (packs (pack_each (pack_argument pack) args)
            (sized (opt_concat (enc_argument enc_exp <$> args)))) as H2.
  { apply packs_each. eapply Forall_impl; [exact Hargs|].
    intros [v|e|ctx] He; [apply pack_value_packs|exact He|apply packs_ret]. }
  eapply packs_sum; [exp_steps|]. rewrite opt_app_nil_r. reflexivity.
Qed.

(** Every expression packs to its reference encoding. *)
Lemma pack_packs e : packs (pack e) (sized (enc_exp e)).
Proof.
  induction e as [cmd val bin flags module exps args Hbin Hexps Hargs]
    using expression_ind'.
  assert (packs (match bin with Some b => pack b | None => panic end)
            (sized (match bin with Some b => enc_exp b | None => None end)))
    as Hb by (destruct bin; [exact Hbin|apply packs_panic]).
  destruct exps as [exps|]; cbn [pack enc_exp].
  - destruct val as [val|]; [|destruct cmd as [op|]].
    + apply packs_add; [apply pack_raw_string_packs|].
      destruct exps; [apply packs_panic|]. inversion Hexps; assumption.
    + cbn [unwrap]. rewrite bind_ret_l.
      pose proof (pack_expression_head_packs op (len exps) (len_nonneg _)).
      pose proof (packs_each _ _ _ Hexps).
      eapply packs_sum; [exp_steps|]. rewrite opt_app_nil_r. reflexivity.
    + apply bind_panic.
  - destruct cmd as [op|]; [|apply pack_val_packs].
    destruct op; try apply pack_plain_command_packs.
    1-4: eapply packs_sum; [exp_steps|]; rewrite opt_app_nil_r; reflexivity.
    pose proof (pack_arguments_packs val args Hargs).
    eapply packs_sum; [exp_steps|]; rewrite opt_app_nil_r; reflexivity.
Qed.

End Refinement.
