(* ===== verification/MsgPack.v ===== *)
(** * The grammar of MessagePack

    The client never states what it means for packed bytes to be well formed:
    array and map heads announce counts, and whoever packs the elements must
    agree with them.  [items k bs]: [bs] is exactly [k] MessagePack objects, one
    after the other, every announced count being met.  Being such a sequence is
    a prefix-free property ([items_prefix]), so a reader of [k] objects stops
    where the writer did.  Values are one object each ([value_item]). *)

From stdpp Require Import base list strings decidable.
From Stdlib Require Import ZArith Lia.
From S2P Require Import Prelude ResultCodes Monad ByteOrder Slices Wire Buffer.
From S2P Require Import BufferFacts Values Cdt Encoder EncoderFacts Decoder.
From S2P Require Import RoundTrip.

Section Grammar.
Context `{BO : ByteOrder}.

(** A count of [n] bytes after the type byte. *)
Definition count_at (n : nat) (r : bytes) : option Z :=
  if (n <=? length r)%nat then Some (read_be (take n r)) else None.

(** What the first object of some bytes starts with: the length of its head,
    with the payload of a string or a number, and how many objects follow as
    its elements. *)
Definition shape (bs : bytes) : option (Z * Z) :=
  match bs with
  | [] => None
  | t :: r =>
      if t <? 0x80 then Some (1, 0)
      else if t <? 0x90 then Some (1, 2 * (t - 0x80))
      else if t <? 0xa0 then Some (1, t - 0x90)
      else if t <? 0xc0 then Some (1 + (t - 0xa0), 0)
      else if 0xe0 <=? t then Some (1, 0)
      else match t with
           | 0xc0 | 0xc2 | 0xc3 => Some (1, 0)
           | 0xc4 | 0xd9 => (fun n => (2 + n, 0)) <$> count_at 1 r
           | 0xc5 | 0xda => (fun n => (3 + n, 0)) <$> count_at 2 r
           | 0xc6 | 0xdb => (fun n => (5 + n, 0)) <$> count_at 4 r
           | 0xca => Some (5, 0)
           | 0xcb => Some (9, 0)
           | 0xcc | 0xd0 => Some (2, 0)
           | 0xcd | 0xd1 => Some (3, 0)
           | 0xce | 0xd2 => Some (5, 0)
           | 0xcf | 0xd3 => Some (9, 0)
           | 0xdc => (fun n => (3, n)) <$> count_at 2 r
           | 0xdd => (fun n => (5, n)) <$> count_at 4 r
           | 0xde => (fun n => (3, 2 * n)) <$> count_at 2 r
           | 0xdf => (fun n => (5, 2 * n)) <$> count_at 4 r
           | _ => None
           end
  end.

(** [k] objects. *)
Inductive items : Z -> bytes -> Prop :=
| items_done : items 0 []
| items_head (k m : Z) (hd rest : bytes) :
    shape (hd ++ rest) = Some (len hd, m) -> 0 <= m -> 0 <= k ->
    items (m + k) rest -> items (1 + k) (hd ++ rest).

Lemma items_nonneg k bs : items k bs -> 0 <= k.
Proof. induction 1; lia. Qed.

(** *** Heads *)

Lemma count_at_app n r x v : count_at n r = Some v -> count_at n (r ++ x) = Some v.
Proof.
  unfold count_at. destruct (Nat.leb_spec n (length r)); [|discriminate].
  intros <-. rewrite length_app, take_app_le by lia.
  destruct (Nat.leb_spec n (length r + length x)); [reflexivity|lia].
Qed.

Lemma shape_app bs x s : shape bs = Some s -> shape (bs ++ x) = Some s.
Proof.
  destruct bs as [|t r]; [discriminate|]. cbn [app shape].
  assert (forall n f, f <$> count_at n r = Some s ->
                      f <$> count_at n (r ++ x) = Some s) as Hc.
  { intros n f (v & Hv & ->)%fmap_Some.
    rewrite (count_at_app _ _ _ _ Hv). reflexivity. }
  repeat first [exact id | apply Hc | discriminate | case_match].
Qed.

(** Objects side by side. *)
Lemma items_app k1 k2 bs1 bs2 :
  items k1 bs1 -> items k2 bs2 -> items (k1 + k2) (bs1 ++ bs2).
Proof.
  intros H1 H2. pose proof (items_nonneg _ _ H2).
  induction H1 as [|k m hd rest Hs Hm Hk _ IH]; [exact H2|].
  rewrite <- (assoc_L (++)), <- Z.add_assoc. apply (items_head _ m); [|lia..|].
  - rewrite (assoc_L (++)). apply shape_app, Hs.
  - rewrite Z.add_assoc. exact IH.
Qed.

Lemma items_eq k k' bs : items k bs -> k = k' -> items k' bs.
Proof. intros H <-. exact H. Qed.

(** A head with its elements. *)
Lemma item_of m hd bs :
  shape hd = Some (len hd, m) -> items m bs -> items 1 (hd ++ bs).
Proof.
  intros Hs Hi. apply (items_head 0 m); [apply shape_app, Hs| |lia|].
  - apply (items_nonneg _ _ Hi).
  - rewrite Z.add_0_r. exact Hi.
Qed.

Lemma item_atom bs : shape bs = Some (len bs, 0) -> items 1 bs.
Proof. intros H. rewrite <- (app_nil_r bs). eapply item_of; [exact H|constructor]. Qed.

Lemma items_prefix k bs1 : items k bs1 ->
  forall bs2 r1 r2, items k bs2 -> bs1 ++ r1 = bs2 ++ r2 -> bs1 = bs2.
Proof.
  induction 1 as [|k m hd rest Hs Hm Hk _ IH]; intros bs2 r1 r2 H2 E.
  - inversion H2; subst; [reflexivity|lia].
  - inversion H2 as [|k' m' hd' rest' Hs' Hm' Hk' Hi']; subst; [lia|].
    assert (k' = k) as -> by lia.
    apply (shape_app _ r1) in Hs. apply (shape_app _ r2) in Hs'.
    rewrite E, Hs' in Hs. injection Hs as Hl ->.
    rewrite <- !(assoc_L (++)) in E.
    apply app_inj_1 in E as [-> E]; [|unfold len in Hl; lia].
    f_equal. eapply IH; eassumption.
Qed.

(** ** Reference encodings *)

Lemma count_at_be n v x :
  0 <= v < 2 ^ (8 * Z.of_nat n) -> count_at n (write_be n v ++ x) = Some v.
Proof.
  intros Hv. unfold count_at. rewrite length_app, length_write_be.
  destruct (Nat.leb_spec n (n + length x)); [|lia].
  rewrite take_app_length', read_write_be by (exact Hv || symmetry; apply length_write_be).
  reflexivity.
Qed.

Lemma shape_array_head n :
  0 <= n < 2 ^ 32 -> shape (enc_array_head n) = Some (len (enc_array_head n), n).
Proof.
  intros Hn. unfold enc_array_head, enc_head.
  destruct (Z.ltb_spec n 16); [|destruct (Z.ltb_spec n 65536)].
  - unfold shape. decide_tests. change (len [_]) with 1. do 2 f_equal; lia.
  - rewrite len_cons, len_write_be, <- (app_nil_r (write_be 2 n)).
    cbn -[write_be count_at]. rewrite count_at_be by lia. reflexivity.
  - rewrite len_cons, len_write_be, <- (app_nil_r (write_be 4 n)).
    cbn -[write_be count_at]. rewrite count_at_be by lia. reflexivity.
Qed.

Lemma shape_map_head n :
  0 <= n < 2 ^ 32 -> shape (enc_map_head n) = Some (len (enc_map_head n), 2 * n).
Proof.
  intros Hn. unfold enc_map_head, enc_head.
  destruct (Z.ltb_spec n 16); [|destruct (Z.ltb_spec n 65536)].
  - unfold shape. decide_tests. change (len [_]) with 1. do 2 f_equal; lia.
  - rewrite len_cons, len_write_be, <- (app_nil_r (write_be 2 n)).
    cbn -[write_be count_at Z.mul]. rewrite count_at_be by lia. reflexivity.
  - rewrite len_cons, len_write_be, <- (app_nil_r (write_be 4 n)).
    cbn -[write_be count_at Z.mul]. rewrite count_at_be by lia. reflexivity.
Qed.

Lemma raw_item n bs :
  n = len bs -> n < 2 ^ 32 -> items 1 (enc_raw_head n ++ bs).
Proof.
  intros -> Hn. pose proof (len_nonneg bs). apply item_atom. rewrite len_app.
  unfold enc_raw_head, enc_head.
  destruct (Z.ltb_spec (len bs) 32); [|destruct (Z.ltb_spec (len bs) 65536)].
  - cbn [app]. unfold shape. decide_tests. change (len [_]) with 1.
    do 2 f_equal; lia.
  - rewrite len_cons, len_write_be. cbn [app].
    cbn -[write_be count_at Z.add]. rewrite count_at_be by lia. cbn.
    do 2 f_equal; lia.
  - rewrite len_cons, len_write_be. cbn [app].
    cbn -[write_be count_at Z.add]. rewrite count_at_be by lia. cbn.
    do 2 f_equal; lia.
Qed.

Lemma int_item v : items 1 (enc_int v).
Proof.
  apply item_atom. unfold enc_int.
  repeat match goal with
         | |- context [if v <? ?n then _ else _] => destruct (Z.ltb_spec v n)
         end;
    rewrite ?len_cons, ?len_write_be; try reflexivity;
    unfold shape; decide_tests; reflexivity.
Qed.

(** *** Sequences *)

(** [small b]: within the range of the four-byte counts. *)
Definition small (bs : bytes) : Prop := len bs < 2 ^ 32.

Lemma small_app b1 b2 : small (b1 ++ b2) -> small b1 /\ small b2.
Proof.
  unfold small. rewrite len_app. pose proof (len_nonneg b1).
  pose proof (len_nonneg b2). lia.
Qed.

(** [packed k o]: when [o] is defined and small, it holds [k] objects. *)
Definition packed (k : Z) (o : option bytes) : Prop :=
  forall bs, o = Some bs -> small bs -> items k bs.

Lemma packed_app k1 k2 o1 o2 :
  packed k1 o1 -> packed k2 o2 -> packed (k1 + k2) (o1 +++ o2).
Proof.
  intros H1 H2 bs (b1 & b2 & E1 & E2 & ->)%opt_app_Some [Hs1 Hs2]%small_app.
  apply items_app; [apply H1|apply H2]; assumption.
Qed.

Lemma packed_nil : packed 0 (Some []).
Proof. intros bs [= <-] _. constructor. Qed.

Lemma packed_some k bs : items k bs -> packed k (Some bs).
Proof. intros H ? [= <-] _. exact H. Qed.

Lemma packed_eq k k' o : packed k o -> k = k' -> packed k' o.
Proof. intros H <-. exact H. Qed.

Lemma packed_concat {A} (g : A -> option bytes) (c : A -> Z) l :
  Forall (fun x => packed (c x) (g x)) l ->
  packed (sum_z (c <$> l)) (opt_concat (g <$> l)).
Proof.
  induction 1 as [|x l Hx _ IH]; [apply packed_nil|].
  exact (packed_app _ _ _ _ Hx IH).
Qed.

Lemma sum_const {A} n (l : list A) : sum_z ((fun _ => n) <$> l) = len l * n.
Proof.
  induction l as [|x l IH]; [reflexivity|]. rewrite len_cons.
  unfold sum_z in *. cbn [fmap list_fmap foldr] in *. lia.
Qed.

(** Every element takes a byte, so a small sequence has a small count. *)
Lemma concat_count {A} (g : A -> option bytes) l : forall bs,
  Forall (fun x => forall b, g x = Some b -> 0 < len b) l ->
  opt_concat (g <$> l) = Some bs -> len l <= len bs.
Proof.
  induction l as [|x l IH]; intros bs Hp Hb; [apply len_nonneg|].
  apply Forall_cons_1 in Hp as [Hx Hp].
  apply opt_app_Some in Hb as (b1 & b2 & H1 & H2 & ->).
  specialize (Hx _ H1). specialize (IH _ Hp H2). rewrite len_cons, len_app. lia.
Qed.

Lemma value_pos v bs : enc_value v = Some bs -> 0 < len bs.
Proof.
  intros (b & bs' & -> & _)%enc_value_plain. pose proof (len_nonneg bs').
  rewrite len_cons. lia.
Qed.

(** *** Values *)

Lemma array_packed {A} (g : A -> option bytes) l :
  Forall (fun x => packed 1 (g x)) l ->
  Forall (fun x => forall b, g x = Some b -> 0 < len b) l ->
  packed 1 (Some (enc_array_head (len l)) +++ opt_concat (g <$> l)).
Proof.
  intros Hi Hp bs (b1 & b2 & <-%(inj Some) & H2 & ->)%opt_app_Some Hs.
  apply small_app in Hs as [_ Hs].
  pose proof (concat_count _ _ _ Hp H2). pose proof (len_nonneg l).
  unfold small in Hs. apply (item_of (len l)).
  - apply shape_array_head. lia.
  - eapply items_eq; [apply (packed_concat _ _ _ Hi); assumption|].
    rewrite sum_const. lia.
Qed.

Lemma entry_packed kv :
  Value.on_entry (fun v => packed 1 (enc_value v)) kv -> packed 2 (enc_entry kv).
Proof. destruct kv as [k v]. intros [Hk Hv]. exact (packed_app 1 1 _ _ Hk Hv). Qed.

Lemma entry_pos kv b : enc_entry kv = Some b -> 0 < len b.
Proof.
  destruct kv as [k v]. cbn [enc_entry].
  intros (b1 & b2 & H1%value_pos & _ & ->)%opt_app_Some.
  rewrite len_app. pose proof (len_nonneg b2). lia.
Qed.

Lemma map_packed m :
  Forall (Value.on_entry (fun v => packed 1 (enc_value v))) m -> packed 1 (enc_map m).
Proof.
  intros Hi bs Hb Hs. unfold enc_map in Hb.
  apply opt_app_Some in Hb as (b1 & b2 & <-%(inj Some) & H2 & ->).
  apply small_app in Hs as [_ Hs].
  assert (len m <= len b2) as Hc.
  { apply (concat_count enc_entry m b2); [|exact H2].
    apply Forall_forall. intros x _. apply entry_pos. }
  pose proof (len_nonneg m). unfold small in Hs. apply (item_of (2 * len m)).
  - apply shape_map_head. lia.
  - eapply items_eq; [|rewrite Z.mul_comm; apply (sum_const 2 m)].
    apply (packed_concat enc_entry (fun _ => 2)); [|exact H2|exact Hs].
    eapply Forall_impl; [apply entry_packed|exact Hi].
Qed.

Lemma raw_packed t bs : packed 1 (Some (enc_raw t bs)).
Proof.
  intros ? [= <-] Hs. unfold enc_raw in *. apply small_app in Hs as [_ Hs].
  unfold small in Hs. rewrite len_cons in Hs.
  apply raw_item; [rewrite len_cons|]; lia.
Qed.

Lemma value_packed v : packed 1 (enc_value v).
Proof.
  induction v using Value.value_ind'; cbn [enc_value];
    try (apply packed_some, item_atom; reflexivity); try apply raw_packed.
  - apply packed_some. destruct b; apply item_atom; reflexivity.
  - apply packed_some, int_item.
  - apply packed_some. unfold enc_uint. case_match; [apply int_item|].
    apply item_atom. rewrite len_cons, len_write_be. reflexivity.
  - destruct f; apply packed_some, item_atom; rewrite len_cons, len_write_be;
      reflexivity.
  - apply array_packed; [exact H|]. apply Forall_forall. intros x _ b. apply value_pos.
  - apply map_packed, H.
  - discriminate.
Qed.

End Grammar.
