(* ===== verification/WellFormed.v ===== *)
(** * Packed operations and expressions are well formed

    Collection operations and filter expressions are not packed as values: the
    code writes array heads by hand and counts what follows.  Here the counts
    are shown to agree with the contents, in the grammar of [MsgPack]: a
    collection operation is one object, after two bytes of operation code when
    it has no context; an expression whose own counts agree ([counted]) is one
    object, or two for a variable definition. *)

From stdpp Require Import base list strings decidable.
From Stdlib Require Import ZArith Lia.
From S2P Require Import Prelude ResultCodes Monad ByteOrder Slices Wire Buffer.
From S2P Require Import BufferFacts Values Cdt Encoder EncoderFacts Decoder.
From S2P Require Import RoundTrip MsgPack Expressions.

(** ** What is well formed *)

(** How many objects an expression is. *)
Definition exp_items (e : FilterExpression) : Z :=
  match e with
  | mkFilterExpression _ (Some _) _ _ _ (Some _) _ => 2
  | _ => 1
  end.

Definition context_steps (arg : ExpressionArgument) : Z :=
  match arg with ArgumentContext (_ :: _) => 1 | _ => 0 end.

(** The announced counts agree with what is packed: every operand is one object
    but the definitions of a [Let], the bin of a call is one object, and at most
    one context is selected. *)
Fixpoint counted (e : FilterExpression) : bool :=
  match e with
  | mkFilterExpression cmd val bin flags module exps arguments =>
      let one e := counted e && (exp_items e =? 1) in
      let bin_one := match bin with Some b => one b | None => true end in
      match exps with
      | Some l =>
          match val with
          | Some _ => match l with e0 :: _ => one e0 | [] => true end
          | None =>
              forallb counted l &&
              (sum_z (exp_items <$> l) =?
               match cmd with Some ExpOp.Let => 2 * len l - 1 | _ => len l end)
          end
      | None =>
          bin_one &&
          match arguments with
          | Some args =>
              forallb (fun a => match a with
                                | ArgumentExpression e => one e
                                | _ => true
                                end) args &&
              (sum_z (context_steps <$> args) <=? 1)
          | None => true
          end
      end
  end.

Section WellFormed.
Context `{BO : ByteOrder} `{VF : ValueFmt}.

(** An operation code outside the array, or one object. *)
Definition well_formed_operation (op : CdtOperation) (ctx : list CdtContext)
    (bs : bytes) : Prop :=
  match cdt_encoder op, ctx with
  | use_pack_cdt_op, [] =>
      exists rest, bs = write_be 2 (cdt_op op) ++ rest /\
        items (match cdt_args op with [] => 0 | _ => 1 end) rest
  | _, _ => items 1 bs
  end.

(** ** Collection operations *)

Lemma arg_packed a : packed 1 (enc_arg a).
Proof.
  destruct a; cbn [enc_arg]; try (apply packed_some, int_item).
  - apply packed_some, item_atom. destruct b; reflexivity.
  - apply value_packed.
  - apply array_packed; apply Forall_forall; intros x _.
    + apply value_packed.
    + intros b. apply value_pos.
  - apply map_packed, Forall_forall. intros [k x] _.
    split; apply value_packed.
Qed.

Lemma args_packed args : packed (len args) (enc_args args).
Proof.
  eapply packed_eq; [apply (packed_concat enc_arg (fun _ => 1))|].
  - apply Forall_forall. intros a _. apply arg_packed.
  - rewrite sum_const. lia.
Qed.

Lemma int_pos v : 0 < len (enc_int v).
Proof. apply (value_pos (Value.Int v)). reflexivity. Qed.

Lemma arg_pos a b : enc_arg a = Some b -> 0 < len b.
Proof.
  destruct a as [x|x|x|v|l|m]; cbn [enc_arg].
  - intros [= <-]. apply int_pos.
  - intros [= <-]. apply int_pos.
  - intros [= <-]. reflexivity.
  - apply value_pos.
  - apply (value_pos (Value.List l)).
  - apply (value_pos (Value.HashMap m)).
Qed.

(** An array head for [n] items that are there. *)
Lemma head_packed n o :
  packed n o -> (forall bs, o = Some bs -> small bs -> 0 <= n < 2 ^ 32) ->
  packed 1 (Some (enc_array_head n) +++ o).
Proof.
  intros Hi Hn bs (b1 & b2 & <-%(inj Some) & H2 & ->)%opt_app_Some Hs.
  apply small_app in Hs as [_ Hs].
  apply (item_of n); [apply shape_array_head, (Hn b2)|apply Hi]; assumption.
Qed.

Lemma opt_app_split a b o : Some (a ++ b) +++ o = Some a +++ Some b +++ o.
Proof. destruct o; cbn; rewrite <- ?(assoc_L (++)); reflexivity. Qed.

Lemma opt_app_nil_l o : Some [] +++ o = o.
Proof. destruct o; reflexivity. Qed.

Lemma args_count args bs : enc_args args = Some bs -> 0 <= len args <= len bs.
Proof.
  intros H. split; [apply len_nonneg|]. apply (concat_count enc_arg); [|exact H].
  apply Forall_forall. intros a _ b. apply arg_pos.
Qed.

Lemma call_packed op : packed 1 (enc_call op).
Proof.
  unfold enc_call. rewrite opt_app_split. apply head_packed.
  - rewrite Z.add_comm.
    apply (packed_app 1); [apply packed_some, int_item|apply args_packed].
  - intros bs (b1 & b2 & <-%(inj Some) & H2 & ->)%opt_app_Some.
    unfold small. rewrite len_app. apply args_count in H2.
    pose proof (int_pos (cdt_op op)). lia.
Qed.

(** The path of a context, for either way of packing a step. *)
Lemma steps_packed (g : CdtContext -> option bytes) ctx :
  (forall c, exists i, g c = Some (enc_int i) +++ enc_value (ctx_value c)) ->
  packed 1 (Some (enc_array_head (len ctx * 2)) +++ opt_concat (g <$> ctx)).
Proof.
  intros Hg. apply head_packed.
  - eapply packed_eq; [apply (packed_concat g (fun _ => 2))|apply sum_const].
    apply Forall_forall. intros c _. destruct (Hg c) as [i ->].
    apply (packed_app 1 1); [apply packed_some, int_item|apply value_packed].
  - intros bs Hb. enough (len ctx * 2 <= len bs)
      by (unfold small; pose proof (len_nonneg ctx); lia). revert bs Hb.
    induction ctx as [|c ctx IH]; intros bs.
    + intros <-%(inj Some). reflexivity.
    + intros (b1 & b2 & H1 & H2 & ->)%opt_app_Some. specialize (IH _ H2).
      destruct (Hg c) as [i E]. rewrite E in H1.
      apply opt_app_Some in H1 as (i1 & v1 & <-%(inj Some) & Hv & ->).
      apply value_pos in Hv. pose proof (int_pos i).
      rewrite !len_app, len_cons. lia.
Qed.

(** A marked context in front of an object. *)
Lemma context_packed (g : CdtContext -> option bytes) ctx o :
  (forall c, exists i, g c = Some (enc_int i) +++ enc_value (ctx_value c)) ->
  packed 1 o ->
  packed 1 (Some (enc_array_head 3) +++ Some (enc_int 0xff) +++
            (Some (enc_array_head (len ctx * 2)) +++ opt_concat (g <$> ctx)) +++ o).
Proof.
  intros Hg Ho. apply head_packed; [|lia].
  apply (packed_app 1 2); [apply packed_some, int_item|].
  apply (packed_app 1 1); [apply steps_packed, Hg|exact Ho].
Qed.

Lemma operation_packed op ctx bs :
  enc_operation op ctx = Some bs -> small bs -> well_formed_operation op ctx bs.
Proof.
  assert (packed 1 (enc_ctx_header ctx +++ enc_call op)) as Hctx.
  { intros b Hb. apply (context_packed enc_ctx ctx (enc_call op));
      [eexists; reflexivity|apply call_packed|]. rewrite <- Hb.
    unfold enc_ctx_header. rewrite !opt_app_split, !opt_app_assoc. reflexivity. }
  unfold enc_operation, well_formed_operation.
  destruct (cdt_encoder op); [destruct ctx as [|c ctx]| |destruct ctx];
    try apply Hctx; try apply call_packed.
  cbn [enc_cdt_op]. rewrite opt_app_split.
  intros (b1 & rest & <-%(inj Some) & Hr & ->)%opt_app_Some [_ Hs]%small_app.
  exists rest. split; [reflexivity|].
  destruct (cdt_args op) as [|a args] eqn:E.
  - injection Hr as <-. constructor.
  - revert rest Hr Hs. apply head_packed; [apply args_packed|].
    unfold small. intros bs' Hb'. apply args_count in Hb'. lia.
Qed.

(** C34: a collection operation that the counting pass sizes is packed, by the
    writing pass, into exactly that many bytes, and these are well formed: the
    counts of its array heads are the numbers of objects that follow. *)
Theorem collection_operation_well_formed (op : CdtOperation)
    (ctx : list CdtContext) (n : Z) (b0 : Buffer) :
  cdt_estimate_size op ctx b0 = Ret n b0 -> n < 2 ^ 32 ->
  exists bs,
    len bs = n /\ well_formed_operation op ctx bs /\
    forall pre area post rt,
      len area = n ->
      cdt_write_to op ctx (mkBuffer (pre ++ area ++ post) (len pre) rt)
      = Ret n (mkBuffer (pre ++ bs ++ post) (len pre + n) rt).
Proof.
  pose proof (run_encoder_packs op ctx) as Hp. unfold cdt_estimate_size, cdt_write_to.
  destruct (enc_operation op ctx) as [bs|] eqn:Hb.
  - rewrite (packs_sizes _ bs) by exact Hp. intros [= <-] Hn.
    exists bs. split; [reflexivity|]. split; [apply operation_packed; assumption|].
    intros pre area post rt Ha. rewrite (packs_with_some _ _ Hp _). unfold bind.
    rewrite emit_frame by exact Ha. reflexivity.
  - rewrite (packs_with_none_panic _ Hp). discriminate.
Qed.

(** ** Expressions *)

Lemma enc_head_pos limit tag t16 t32 n :
  0 < len (enc_head limit tag t16 t32 n).
Proof. pose proof (enc_head_nonempty limit tag t16 t32 n). unfold len. lia. Qed.

Lemma opt_app_pos o1 o2 bs :
  (forall b, o1 = Some b -> 0 < len b) -> o1 +++ o2 = Some bs -> 0 < len bs.
Proof.
  intros H (b1 & b2 & H1 & _ & ->)%opt_app_Some. specialize (H b1 H1).
  pose proof (len_nonneg b2). rewrite len_app. lia.
Qed.

Lemma enc_exp_pos e bs : enc_exp e = Some bs -> 0 < len bs.
Proof.
  destruct e as [cmd val bin flags module exps args]. cbn [enc_exp].
  assert (forall n b, Some (enc_array_head n) = Some b -> 0 < len b) as Hh
    by (intros n b [= <-]; apply enc_head_pos).
  destruct exps as [exps|].
  - destruct val as [v|]; [|destruct cmd as [op|]; [|discriminate]].
    + apply opt_app_pos. intros b [= <-]. unfold enc_raw_string.
      rewrite len_app. pose proof (len_nonneg (as_string v)).
      pose proof (enc_head_pos 32 0xa0 0xda 0xdb (len (as_string v))).
      unfold enc_raw_head. lia.
    + apply opt_app_pos. intros b. unfold enc_expression_head.
      destruct op; try apply Hh. destruct (1 <=? _); [apply Hh|discriminate].
  - destruct cmd as [op|].
    + destruct op; try (apply opt_app_pos, Hh);
        unfold enc_plain_command; destruct val; apply opt_app_pos, Hh.
    + unfold enc_val. destruct val as [v|]; [|discriminate].
      apply value_pos.
Qed.

Lemma exp_count e bs : enc_exp e = Some bs -> exp_items e <= len bs.
Proof.
  intros H. pose proof (enc_exp_pos _ _ H) as Hp. revert H.
  destruct e as [cmd [v|] bin flags module [[|e0 l]|] args]; cbn [exp_items enc_exp];
    try lia; intros (b1 & b2 & H1 & H2 & ->)%opt_app_Some; [discriminate|].
  apply enc_exp_pos in H2. injection H1 as <-.
  pose proof (enc_head_pos 32 0xa0 0xda 0xdb (len (as_string v))).
  unfold enc_raw_string, enc_raw_head. rewrite !len_app.
  pose proof (len_nonneg (as_string v)). lia.
Qed.

Lemma exps_count l : forall bs,
  opt_concat (enc_exp <$> l) = Some bs -> 0 <= sum_z (exp_items <$> l) <= len bs.
Proof.
  induction l as [|e l IH]; intros bs.
  - intros <-%(inj Some). split; reflexivity.
  - intros (b1 & b2 & H1%exp_count & H2 & ->)%opt_app_Some. specialize (IH _ H2).
    rewrite len_app. unfold sum_z in *. cbn [fmap list_fmap foldr] in *.
    assert (1 <= exp_items e) by (destruct e as [? [] ? ? ? [] ?]; cbn; lia). lia.
Qed.

Lemma raw_string_packed s : packed 1 (Some (enc_raw_string s)).
Proof.
  intros ? <-%(inj Some) [_ Hs]%small_app. apply raw_item; [reflexivity|exact Hs].
Qed.

Lemma cmd_packed op : packed 1 (enc_cmd op).
Proof. apply packed_some, int_item. Qed.

Lemma val_packed val : packed 1 (enc_val val).
Proof. destruct val as [v|]; [apply value_packed|discriminate]. Qed.

Lemma val_string_packed val : packed 1 (enc_val_string val).
Proof. destruct val as [v|]; [apply raw_string_packed|discriminate]. Qed.

Lemma flags_packed flags : packed 1 (enc_flags flags).
Proof. destruct flags; [apply packed_some, int_item|discriminate]. Qed.

Lemma module_packed m : packed 1 (enc_module m).
Proof. destruct m; [apply packed_some, int_item|discriminate]. Qed.

Lemma steps_nonneg args : 0 <= sum_z (context_steps <$> args).
Proof.
  induction args as [|a args IH]; [reflexivity|]. unfold sum_z in *.
  cbn [fmap list_fmap foldr]. destruct a as [v|e|[|c ctx]]; cbn; lia.
Qed.

Lemma no_contexts args :
  sum_z (context_steps <$> args) = 0 ->
  opt_concat (enc_arg_context <$> args) = Some [].
Proof.
  induction args as [|a args IH]; [reflexivity|].
  pose proof (steps_nonneg args). unfold sum_z in *.
  cbn [fmap list_fmap foldr opt_concat].
  destruct a as [v|e|[|c ctx]]; cbn [context_steps enc_arg_context]; intros Hz;
    try lia; rewrite IH by lia; reflexivity.
Qed.

(** At most one context is packed before the arguments. *)
Lemma arg_contexts args :
  sum_z (context_steps <$> args) <= 1 ->
  opt_concat (enc_arg_context <$> args) = Some [] \/
  exists ctx, opt_concat (enc_arg_context <$> args) =
    Some (enc_array_head 3) +++ Some (enc_int 0xff) +++
    Some (enc_array_head (len ctx * 2)) +++ opt_concat (enc_call_ctx <$> ctx).
Proof.
  induction args as [|a args IH]; [left; reflexivity|].
  pose proof (steps_nonneg args). pose proof (no_contexts args) as Hnone.
  unfold sum_z in *. cbn [fmap list_fmap foldr opt_concat].
  destruct a as [v|e|[|c ctx]]; cbn [context_steps enc_arg_context]; intros Hs.
  1-3: destruct IH as [->|[ctx' ->]]; [lia|left; reflexivity|right; exists ctx'];
    apply opt_app_nil_l.
  right. exists (c :: ctx). rewrite Hnone by lia. apply opt_app_nil_r.
Qed.

Definition one_object (e : FilterExpression) : bool :=
  counted e && (exp_items e =? 1).

Lemma argument_packed e :
  (counted e = true -> packed (exp_items e) (enc_exp e)) ->
  one_object e = true -> packed 1 (enc_exp e).
Proof.
  intros He [Hc Hi%Z.eqb_eq]%andb_true_iff. rewrite <- Hi. apply He, Hc.
Qed.

Lemma arguments_packed val args :
  on_option (Forall (on_argument
    (fun e => counted e = true -> packed (exp_items e) (enc_exp e)))) args ->
  match args with
  | Some args =>
      forallb (fun a => match a with
                        | ArgumentExpression e => one_object e
                        | _ => true
                        end) args &&
      (sum_z (context_steps <$> args) <=? 1)
  | None => true
  end = true ->
  packed 1 (enc_arguments enc_exp val args).
Proof.
  destruct args as [args|]; [|intros; apply val_packed].
  cbn [on_option enc_arguments].
  intros Hp [Ha Hc%Z.leb_le]%andb_true_iff.
  assert (packed 1 (Some (enc_array_head (foldr Z.add 0 (argument_count <$> args)))
                    +++ opt_concat (enc_argument enc_exp <$> args))) as Hargs.
  { clear Hc. apply head_packed.
    - apply (packed_concat (enc_argument enc_exp) argument_count).
      induction Hp as [|a args Hx Hp IH]; [constructor|].
      cbn [forallb] in Ha. apply andb_true_iff in Ha as [Ha1 Ha2].
      constructor; [|apply IH, Ha2].
      destruct a as [v|e|ctx]; cbn [argument_count enc_argument].
      + apply value_packed.
      + apply argument_packed; assumption.
      + apply packed_nil.
    - clear. intros bs Hb. unfold small.
      enough (foldr Z.add 0 (argument_count <$> args) <= len bs)
        by (pose proof (argument_count_nonneg args); lia).
      revert bs Hb. induction args as [|a args IH]; intros bs.
      + intros <-%(inj Some). reflexivity.
      + intros (b1 & b2 & H1 & H2 & ->)%opt_app_Some. specialize (IH _ H2).
        rewrite len_app. cbn [fmap list_fmap foldr] in *.
        pose proof (len_nonneg b1).
        destruct a as [v|e|ctx]; cbn [argument_count enc_argument] in *;
          [apply value_pos in H1|apply enc_exp_pos in H1|]; lia. }
  destruct (arg_contexts args Hc) as [->|[ctx ->]].
  - rewrite opt_app_nil_l. exact Hargs.
  - rewrite !opt_app_assoc.
    rewrite <- (opt_app_assoc (Some (enc_array_head (len ctx * 2)))).
    apply (context_packed enc_call_ctx); [eexists; reflexivity|exact Hargs].
Qed.

Ltac packed_part :=
  first [ apply cmd_packed | apply flags_packed | apply module_packed
        | apply val_string_packed | eassumption ].

Ltac packed_parts :=
  first [ packed_part | eapply packed_app; [packed_part|packed_parts] ].

Lemma expression_packed e :
  counted e = true -> packed (exp_items e) (enc_exp e).
Proof.
  induction e as [cmd val bin flags module exps args Hbin Hexps Hargs]
    using expression_ind'.
  destruct exps as [exps|].
  - clear Hbin Hargs. cbn [on_option] in Hexps. destruct val as [v|].
    + cbn [counted exp_items enc_exp]. destruct exps as [|e0 exps]; [discriminate|].
      intros Hc. apply Forall_cons_1 in Hexps as [He _].
      apply (packed_app 1 1); [apply raw_string_packed|].
      apply argument_packed; assumption.
    + cbn [counted exp_items enc_exp]. intros [Hc Hn%Z.eqb_eq]%andb_true_iff.
      destruct cmd as [op|]; [|discriminate].
      assert (packed (1 + sum_z (exp_items <$> exps))
                (enc_cmd op +++ opt_concat (enc_exp <$> exps))) as Hp.
      { apply packed_app; [apply cmd_packed|]. apply packed_concat.
        clear Hn. induction Hexps as [|e exps He _ IH]; [constructor|].
        cbn [forallb] in Hc. apply andb_true_iff in Hc as [Hc1 Hc2].
        constructor; [apply He, Hc1|apply IH, Hc2]. }
      assert (enc_expression_head op (len exps) = None \/
              enc_expression_head op (len exps)
              = Some (enc_array_head (1 + sum_z (exp_items <$> exps))))
        as [-> | ->]; [|discriminate|].
      { rewrite Hn. unfold enc_expression_head.
        destruct op; try (right; do 2 f_equal; lia).
        case_match; [right; do 2 f_equal; lia|left; reflexivity]. }
      apply head_packed; [exact Hp|].
      intros bs (b1 & b2 & <-%(inj Some) & H2%exps_count & ->)%opt_app_Some.
      unfold small. rewrite len_app. pose proof (int_pos (ExpOp.to_i64 op)). lia.
  - clear Hexps. cbn [counted exp_items enc_exp].
    intros [Hb Ha]%andb_true_iff.
    assert (packed 1 (match bin with Some b => enc_exp b | None => None end)) as Hbp.
    { destruct bin as [b|]; [|discriminate]. apply argument_packed; assumption. }
    pose proof (arguments_packed val args Hargs Ha) as Hap.
    assert (forall op, packed 1 (enc_plain_command op val)) as Hplain.
    { intros op. unfold enc_plain_command. destruct val as [v|].
      - apply (head_packed 2); [|lia].
        apply (packed_app 1 1); [apply cmd_packed|apply value_packed].
      - apply (head_packed 1); [|lia]. apply cmd_packed. }
    destruct cmd as [op|]; [|destruct val; apply val_packed].
    destruct op; destruct val; try apply Hplain;
      (apply head_packed; [eapply packed_eq; [packed_parts|reflexivity]|lia]).
Qed.

(** C35: a filter expression whose own counts agree is packed, by the writing
    pass, into exactly the bytes that the counting pass sized, and these are
    well formed: one object, or two for a variable definition. *)
Theorem expression_well_formed (e : FilterExpression) (n : Z) (b0 : Buffer) :
  counted e = true -> with_none (pack e) b0 = Ret n b0 -> n < 2 ^ 32 ->
  exists bs,
    len bs = n /\ items (exp_items e) bs /\
    forall pre area post rt,
      len area = n ->
      with_some (pack e) (mkBuffer (pre ++ area ++ post) (len pre) rt)
      = Ret n (mkBuffer (pre ++ bs ++ post) (len pre + n) rt).
Proof.
  intros Hc. pose proof (pack_packs e) as Hp.
  destruct (enc_exp e) as [bs|] eqn:Hb.
  - rewrite (packs_sizes _ bs) by exact Hp. intros [= <-] Hn.
    exists bs. split; [reflexivity|].
    split; [apply expression_packed; assumption|].
    intros pre area post rt Ha. rewrite (packs_with_some _ _ Hp _). unfold bind.
    rewrite emit_frame by exact Ha. reflexivity.
  - rewrite (packs_with_none_panic _ Hp). discriminate.
Qed.

(** ** Sound expressions *)

(** One object that can be packed. *)
Definition sound (e : FilterExpression) : Prop :=
  one_object e = true /\ is_Some (enc_exp e).

Definition sound_arg (a : ExpressionArgument) : Prop :=
  match a with
  | ArgumentValue v => is_Some (enc_value v)
  | ArgumentExpression e => sound e
  | ArgumentContext ctx => Forall (fun c => is_Some (enc_value (ctx_value c))) ctx
  end.

Lemma opt_app_is_Some o1 o2 :
  is_Some o1 -> is_Some o2 -> is_Some (o1 +++ o2).
Proof. intros [b1 ->] [b2 ->]. eexists. reflexivity. Qed.

Lemma opt_concat_is_Some {A} (g : A -> option bytes) l :
  Forall (fun x => is_Some (g x)) l -> is_Some (opt_concat (g <$> l)).
Proof.
  induction 1 as [|x l Hx _ IH]; [eexists; reflexivity|].
  apply opt_app_is_Some; assumption.
Qed.

Lemma is_Some_some {A} (a : A) : is_Some (Some a).
Proof. eexists. reflexivity. Qed.

Lemma sound_counted l : Forall sound l -> forallb counted l = true.
Proof.
  induction 1 as [|e l [He _] _ IH]; [reflexivity|]. cbn [forallb].
  apply andb_true_iff in He as [-> _]. exact IH.
Qed.

Lemma sound_items l : Forall sound l -> sum_z (exp_items <$> l) = len l.
Proof.
  induction 1 as [|e l [He _] _ IH]; [reflexivity|].
  apply andb_true_iff in He as [_ He%Z.eqb_eq].
  rewrite len_cons, <- IH, <- He. reflexivity.
Qed.

Lemma sound_encoded l : Forall sound l -> is_Some (opt_concat (enc_exp <$> l)).
Proof.
  intros H. apply opt_concat_is_Some. eapply Forall_impl; [|exact H].
  intros e [_ He]. exact He.
Qed.

(** An operator on any number of operands. *)
Lemma sound_operator op l :
  op <> ExpOp.Let -> Forall sound l ->
  sound (mkFilterExpression (Some op) None None None None (Some l) None).
Proof.
  intros Hop Hl. split.
  - unfold one_object. cbn [counted exp_items].
    rewrite (sound_counted l Hl), (sound_items l Hl).
    destruct op; try congruence; rewrite Z.eqb_refl; reflexivity.
  - cbn [enc_exp]. apply opt_app_is_Some;
      [|apply opt_app_is_Some; [apply is_Some_some|apply sound_encoded, Hl]].
    destruct op; try congruence; apply is_Some_some.
Qed.

(** Variable definitions and the expression in their scope. *)
Lemma sound_let defs e :
  Forall (fun d : bytes * FilterExpression => sound d.2) defs -> sound e ->
  sound (mkFilterExpression (Some ExpOp.Let) None None None None
    (Some (((fun d => mkFilterExpression None (Some (Value.String d.1)) None None
                        None (Some [d.2]) None) <$> defs) ++ [e])) None).
Proof.
  intros Hd [He Hs]. apply andb_true_iff in He as [Hc Hi%Z.eqb_eq]. split.
  - unfold one_object. cbn [counted exp_items]. rewrite Z.eqb_refl, andb_true_r.
    apply andb_true_iff. rewrite fmap_app, len_app, len_map. split.
    + rewrite forallb_app. cbn [forallb]. rewrite Hc, andb_true_r.
      induction Hd as [|d defs [Hd1 _] _ IH]; [reflexivity|].
      cbn [fmap list_fmap forallb counted]. rewrite IH, andb_true_r. exact Hd1.
    + apply Z.eqb_eq. unfold sum_z. cbn [fmap list_fmap]. rewrite Hi.
      clear. change (len [e]) with 1.
      induction defs as [|d defs IH]; [reflexivity|].
      rewrite len_cons. cbn [fmap list_fmap foldr app exp_items] in *. lia.
  - cbn [enc_exp]. unfold enc_expression_head. rewrite len_app.
    change (len [e]) with 1. pose proof (len_nonneg
      ((fun d => mkFilterExpression None (Some (Value.String d.1)) None None
                   None (Some [d.2]) None) <$> defs)).
    decide_tests. apply opt_app_is_Some; [apply is_Some_some|].
    apply opt_app_is_Some; [apply is_Some_some|].
    apply opt_concat_is_Some, Forall_app. split; [|repeat constructor; exact Hs].
    apply Forall_fmap. eapply Forall_impl; [|exact Hd].
    intros d [_ Hds]. apply opt_app_is_Some; [apply is_Some_some|exact Hds].
Qed.

(** A call of a collection operation. *)
Lemma sound_call ty flags bin args :
  sound bin -> Forall sound_arg args ->
  sum_z (context_steps <$> args) <= 1 ->
  sound (mkFilterExpression (Some ExpOp.Call) None (Some bin) (Some flags)
           (Some ty) None (Some args)).
Proof.
  intros [Hb Hbs] Ha Hc%Z.leb_le. split.
  - unfold one_object. cbn [counted exp_items]. rewrite Z.eqb_refl, andb_true_r.
    rewrite Hc, andb_true_r. apply andb_true_iff. split; [exact Hb|].
    induction Ha as [|a args Ha1 _ IH]; [reflexivity|].
    assert ((sum_z (context_steps <$> args) <=? 1) = true) as Hc'.
    { apply Z.leb_le in Hc. apply Z.leb_le. unfold sum_z in *.
      cbn [fmap list_fmap foldr] in Hc. destruct a as [| |[|]]; cbn in Hc; lia. }
    cbn [forallb]. rewrite (IH Hc'), andb_true_r.
    destruct a; [reflexivity|apply Ha1|reflexivity].
  - cbn [enc_exp]. do 4 (apply opt_app_is_Some; [apply is_Some_some|]).
    apply opt_app_is_Some; [|exact Hbs]. cbn [enc_arguments].
    apply opt_app_is_Some; [|apply opt_app_is_Some; [apply is_Some_some|]];
      apply opt_concat_is_Some; (eapply Forall_impl; [|exact Ha]);
      intros [v|e|[|c ctx]] Hx; try exact Hx; try apply is_Some_some.
    + cbn [enc_arg_context]. do 3 (apply opt_app_is_Some; [apply is_Some_some|]).
      apply opt_concat_is_Some. eapply Forall_impl; [|exact Hx].
      intros d Hd. apply opt_app_is_Some; [apply is_Some_some|exact Hd].
    + apply Hx.
Qed.

End WellFormed.

(** ** Instances *)

Section Witnesses.

#[local] Existing Instance valuefmt_model.

(** Appending 7 to the list that is the second element of a list. *)
Definition sample_append : CdtOperation :=
  mkCdtOperation 1 use_pack_cdt_op [ArgInt 7; ArgByte 0; ArgByte 0].

Lemma collection_operation_well_formed_witness :
  exists bs, len bs = 12 /\ items 1 bs /\
    cdt_write_to sample_append [ctx_list_index 1]
      (mkBuffer (replicate 12 0 ++ [5]) 0 0)
    = Ret 12 (mkBuffer (bs ++ [5]) 12 0).
Proof.
  destruct (collection_operation_well_formed sample_append [ctx_list_index 1] 12
              (mkBuffer [] 0 0)) as (bs & Hl & Hi & Hw).
  - vm_compute. reflexivity.
  - lia.
  - exists bs. split; [exact Hl|]. split; [exact Hi|].
    exact (Hw [] (replicate 12 0) [5] 0 eq_refl).
Defined.

(** [let x = 1 in x], with a definition of two objects inside. *)
Definition sample_let : FilterExpression :=
  mkFilterExpression (Some ExpOp.Let) None None None None
    (Some [mkFilterExpression None (Some (Value.String (str "x"))) None None None
             (Some [mkFilterExpression None (Some (Value.Int 1)) None None None
                      None None]) None;
           mkFilterExpression (Some ExpOp.Var) (Some (Value.String (str "x")))
             None None None None None]) None.

Lemma expression_well_formed_witness :
  exists bs, len bs = 9 /\ items 1 bs.
Proof.
  destruct (expression_well_formed sample_let 9 (mkBuffer [] 0 0) eq_refl)
    as (bs & Hl & Hi & _).
  - vm_compute. reflexivity.
  - lia.
  - exists bs. split; [exact Hl|exact Hi].
Defined.

End Witnesses.
