(* ===== verification/Operations.v ===== *)
(** * Operations ([src/operations/mod.rs], [scalar.rs], [exp.rs])

    An operation names a bin and carries its data: nothing, a value, a
    collection operation or an expression.  [estimate_size] and [write_to] are
    the two passes of its serialisation; [enc_op] is what both refine. *)

From stdpp Require Import base list strings.
From Stdlib Require Import ZArith Lia Setoid Morphisms.
From S2P Require Import Prelude ResultCodes Monad ByteOrder Wire Buffer.
From S2P Require Import BufferFacts Values Cdt Encoder EncoderFacts Decoder.
From S2P Require Import RoundTrip Particle Expressions.

#[local] Set Warnings "-register-all".

Module ExpWriteFlags.

(** [enum ExpWriteFlags]. *)
Inductive ExpWriteFlags : Type :=
| Default
| CreateOnly
| UpdateOnly
| AllowDelete
| PolicyNoFail
| EvalNoFail.

(** [t as i64]. *)
Definition to_i64 (t : ExpWriteFlags) : Z :=
  match t with
  | Default => 0
  | CreateOnly => 1
  | UpdateOnly => 2
  | AllowDelete => 4
  | PolicyNoFail => 8
  | EvalNoFail => 16
  end.

#[global] Instance ExpWriteFlags_eq_dec : EqDecision ExpWriteFlags.
Proof. solve_decision. Defined.

End ExpWriteFlags.

Abbreviation ExpWriteFlags := ExpWriteFlags.ExpWriteFlags.

Module ExpReadFlags.

(** [enum ExpReadFlags]. *)
Inductive ExpReadFlags : Type :=
| Default
| EvalNoFail.

(** [t as i64]. *)
Definition to_i64 (t : ExpReadFlags) : Z :=
  match t with
  | Default => 0
  | EvalNoFail => 16
  end.

#[global] Instance ExpReadFlags_eq_dec : EqDecision ExpReadFlags.
Proof. solve_decision. Defined.

End ExpReadFlags.

Abbreviation ExpReadFlags := ExpReadFlags.ExpReadFlags.

(** [struct Bin] of [src/bin.rs]. *)
Record Bin : Type := mkBin { bin_name : bytes; bin_value : Value }.

(** [enum OperationBin]. *)
Inductive OperationBin : Type :=
| BinNone
| BinAll
| BinName (name : bytes).

(** The two functions an [ExpressionEncoder] can be. *)
Inductive ExpressionEncoder : Type :=
| use_pack_write_exp
| use_pack_read_exp.

(** [struct ExpOperation]. *)
Record ExpOperation : Type := mkExpOperation {
  exp_encoder : ExpressionEncoder;
  exp_policy : Z;
  exp_exp : FilterExpression
}.

(** [enum OperationData]. *)
Inductive OperationData : Type :=
| DataNone
| DataValue (v : Value)
| CdtListOp (op : CdtOperation)
| CdtMapOp (op : CdtOperation)
| CdtBitOp (op : CdtOperation)
| HLLOp (op : CdtOperation)
| EXPOp (op : ExpOperation).

(** [struct Operation]. *)
Record Operation : Type := mkOperation {
  op : OperationType;
  ctx : list CdtContext;
  op_bin : OperationBin;
  data : OperationData
}.

(** [Operation::set_context]. *)
Definition set_context (c : list CdtContext) (o : Operation) : Operation :=
  mkOperation (op o) c (op_bin o) (data o).

(** *** Scalar operations *)

Module Scalar.

Definition get : Operation :=
  mkOperation OperationType.Read DEFAULT_CTX BinAll DataNone.

Definition get_header : Operation :=
  mkOperation OperationType.Read DEFAULT_CTX BinNone DataNone.

Definition get_bin (bin_name : bytes) : Operation :=
  mkOperation OperationType.Read DEFAULT_CTX (BinName bin_name) DataNone.

Definition put (bin : Bin) : Operation :=
  mkOperation OperationType.Write DEFAULT_CTX (BinName (bin_name bin))
    (DataValue (bin_value bin)).

Definition append (bin : Bin) : Operation :=
  mkOperation OperationType.Append DEFAULT_CTX (BinName (bin_name bin))
    (DataValue (bin_value bin)).

Definition prepend (bin : Bin) : Operation :=
  mkOperation OperationType.Prepend DEFAULT_CTX (BinName (bin_name bin))
    (DataValue (bin_value bin)).

Definition add (bin : Bin) : Operation :=
  mkOperation OperationType.Incr DEFAULT_CTX (BinName (bin_name bin))
    (DataValue (bin_value bin)).

Definition touch : Operation :=
  mkOperation OperationType.Touch DEFAULT_CTX BinNone DataNone.

Definition delete : Operation :=
  mkOperation OperationType.Delete DEFAULT_CTX BinNone DataNone.

End Scalar.

(** *** Expression operations *)

Definition write_exp (bin : bytes) (exp : FilterExpression)
    (flags : ExpWriteFlags) : Operation :=
  mkOperation OperationType.ExpWrite [] (BinName bin)
    (EXPOp (mkExpOperation use_pack_write_exp (ExpWriteFlags.to_i64 flags) exp)).

Definition read_exp (name : bytes) (exp : FilterExpression)
    (flags : ExpReadFlags) : Operation :=
  mkOperation OperationType.ExpRead [] (BinName name)
    (EXPOp (mkExpOperation use_pack_read_exp (ExpReadFlags.to_i64 flags) exp)).

Section Serialisation.
Context `{BO : ByteOrder} `{VF : ValueFmt}.

Definition pack_write_exp (exp_op : ExpOperation) : P Z :=
  let! a := pack_array_begin 2 in
  let! b := pack (exp_exp exp_op) in
  let! c := pack_integer (exp_policy exp_op) in
  ret (a + b + c).

Definition pack_read_exp (exp_op : ExpOperation) : P Z :=
  let! a := pack_array_begin 2 in
  let! b := pack (exp_exp exp_op) in
  let! c := pack_integer (exp_policy exp_op) in
  ret (a + b + c).

(** [(self.encoder)(buf, self)]. *)
Definition run_exp_encoder (exp_op : ExpOperation) : P Z :=
  match exp_encoder exp_op with
  | use_pack_write_exp => pack_write_exp exp_op
  | use_pack_read_exp => pack_read_exp exp_op
  end.

(** [Operation::estimate_size]. *)
Definition op_estimate_size {S} (o : Operation) : M S Z :=
  let n :=
    match op_bin o with
    | BinName bin => len bin
    | BinNone | BinAll => 0
    end in
  let! m :=
    match data o with
    | DataNone => ret 0
    | DataValue value => estimate_size value
    | EXPOp exp_op => with_none (run_exp_encoder exp_op)
    | CdtListOp cdt_op | CdtMapOp cdt_op | CdtBitOp cdt_op | HLLOp cdt_op =>
        cdt_estimate_size cdt_op (ctx o)
    end in
  ret (n + m).

(** [Operation::write_op_header_to]. *)
Definition write_op_header_to (o : Operation) (particle_type : Z)
    : M Buffer Z :=
  let! a := write_u8 particle_type in
  let! b := write_u8 0 in
  let! c :=
    match op_bin o with
    | BinName bin =>
        let! n := write_u8 (as_u8 (len bin)) in
        let! m := write_str bin in
        ret (n + m)
    | BinNone | BinAll => write_u8 0
    end in
  ret (a + b + c).

(** [op_size as u32 + 4] in [u32]. *)
Definition u32_checked {S} (v : Z) : M S Z :=
  if v <? 2 ^ 32 then ret v else panic.

(** The [match self.data] of [Operation::write_to]. *)
Definition op_write_data (o : Operation) : M Buffer Z :=
  match data o with
  | DataNone => write_op_header_to o (ParticleType.to_u8 ParticleType.NULL)
  | DataValue value =>
      let! t := unwrap (Value.particle_type value) in
      let! n := write_op_header_to o (ParticleType.to_u8 t) in
      let! m := write_to value in
      ret (n + m)
  | CdtListOp cdt_op | CdtMapOp cdt_op | CdtBitOp cdt_op | HLLOp cdt_op =>
      let! n := write_op_header_to o (ParticleType.to_u8 ParticleType.BLOB) in
      let! m := cdt_write_to cdt_op (ctx o) in
      ret (n + m)
  | EXPOp exp =>
      let! n := write_op_header_to o (ParticleType.to_u8 ParticleType.BLOB) in
      let! m := with_some (run_exp_encoder exp) in
      ret (n + m)
  end.

(** [Operation::write_to]. *)
Definition op_write_to (o : Operation) : M Buffer Z :=
  let! op_size := op_estimate_size o in
  let! size := u32_checked (as_u32 op_size + 4) in
  let! a := write_u32 size in
  let! b := write_u8 (OperationType.to_u8 (op o)) in
  let! c := op_write_data o in
  ret (a + b + c).

(** ** The reference encoding *)

Definition enc_exp_op (e : ExpOperation) : option bytes :=
  Some (enc_array_head 2) +++ enc_exp (exp_exp e) +++
  Some (enc_int (exp_policy e)).

(** The particle type and the bytes of the data. *)
Definition enc_data (o : Operation) : option (ParticleType * bytes) :=
  match data o with
  | DataNone => Some (ParticleType.NULL, [])
  | DataValue v =>
      match Value.particle_type v, particle_bytes v with
      | Some t, Some bs => Some (t, bs)
      | _, _ => None
      end
  | EXPOp e => (fun bs => (ParticleType.BLOB, bs)) <$> enc_exp_op e
  | CdtListOp c | CdtMapOp c | CdtBitOp c | HLLOp c =>
      (fun bs => (ParticleType.BLOB, bs)) <$> enc_operation c (ctx o)
  end.

Definition op_bin_name (o : Operation) : bytes :=
  match op_bin o with BinName name => name | BinNone | BinAll => [] end.

(** Size, operation, particle type, version, name length, name, data. *)
Definition op_bytes (t : OperationType) (p : ParticleType) (name bs : bytes)
    : bytes :=
  write_be 4 (len name + len bs + 4) ++
  [OperationType.to_u8 t; ParticleType.to_u8 p; 0; as_u8 (len name)] ++
  name ++ bs.

Definition enc_op (o : Operation) : option bytes :=
  (fun '(p, bs) => op_bytes (op o) p (op_bin_name o) bs) <$> enc_data o.

Lemma len_op_bytes t p name bs :
  len (op_bytes t p name bs) = OPERATION_HEADER_SIZE + (len name + len bs).
Proof. unfold op_bytes, OPERATION_HEADER_SIZE. size_lia. Qed.

Lemma run_exp_encoder_packs e :
  packs (run_exp_encoder e) (sized (enc_exp_op e)).
Proof.
  unfold run_exp_encoder, pack_write_exp, pack_read_exp, enc_exp_op.
  pose proof (pack_packs (exp_exp e)).
  destruct (exp_encoder e);
    (eapply packs_sum; [exp_steps|rewrite opt_app_nil_r; reflexivity]).
Qed.

Lemma op_estimate_bytes {S} o p bs :
  enc_data o = Some (p, bs) ->
  (op_estimate_size o : M S Z) ≈ ret (len (op_bin_name o) + len bs).
Proof.
  unfold enc_data, op_estimate_size, op_bin_name. intros H.
  assert (forall m : M S Z, m ≈ ret (len bs) ->
            (let! k := m in
             ret (match op_bin o with BinName b => len b | _ => 0 end + k))
            ≈ ret (len match op_bin o with BinName n => n | _ => [] end + len bs))
    as Hk.
  { intros m Hm. rewrite Hm, bind_ret_l. destruct (op_bin o); reflexivity. }
  destruct (data o); cbn [fmap option_fmap option_map] in H; apply Hk.
  - injection H as _ <-. reflexivity.
  - destruct (Value.particle_type v); [|discriminate].
    destruct (particle_bytes v) eqn:Hb; [|discriminate].
    injection H as _ <-. apply estimate_size_bytes, Hb.
  - destruct (enc_operation _ _) eqn:Hb; [|discriminate]. injection H as _ <-.
    apply packs_with_none. rewrite <- Hb. apply run_encoder_packs.
  - destruct (enc_operation _ _) eqn:Hb; [|discriminate]. injection H as _ <-.
    apply packs_with_none. rewrite <- Hb. apply run_encoder_packs.
  - destruct (enc_operation _ _) eqn:Hb; [|discriminate]. injection H as _ <-.
    apply packs_with_none. rewrite <- Hb. apply run_encoder_packs.
  - destruct (enc_operation _ _) eqn:Hb; [|discriminate]. injection H as _ <-.
    apply packs_with_none. rewrite <- Hb. apply run_encoder_packs.
  - destruct (enc_exp_op _) eqn:Hb; [|discriminate]. injection H as _ <-.
    apply packs_with_none. rewrite <- Hb. apply run_exp_encoder_packs.
Qed.

Lemma write_op_header_emits o t :
  emits (write_op_header_to o t)
    ([t; 0; as_u8 (len (op_bin_name o))] ++ op_bin_name o)
    (3 + len (op_bin_name o)).
Proof.
  unfold write_op_header_to, op_bin_name. destruct (op_bin o).
  - emits_tac. reflexivity.
  - emits_tac. reflexivity.
  - eapply emits_eq'; [emits_tac; reflexivity| |]; cbn; [|lia].
    rewrite !app_nil_r. reflexivity.
Qed.

(** What follows the size and the operation code. *)
Definition payload (o : Operation) (p : ParticleType) (bs : bytes) : bytes :=
  [ParticleType.to_u8 p; 0; as_u8 (len (op_bin_name o))] ++ op_bin_name o ++ bs.

Lemma payload_emits o p bs (m : M Buffer Z) :
  emits m bs (len bs) ->
  emits (let! n := write_op_header_to o (ParticleType.to_u8 p) in
         let! j := m in ret (n + j))
    (payload o p bs) (3 + len (op_bin_name o) + len bs).
Proof.
  intros Hm. eapply emits_eq'.
  - eapply emits_bind; [apply write_op_header_emits|].
    eapply emits_bind; [exact Hm|apply emits_ret].
  - rewrite app_nil_r, <- (assoc_L (++)). reflexivity.
  - lia.
Qed.

Lemma op_write_data_emits o p bs :
  enc_data o = Some (p, bs) ->
  emits (op_write_data o) (payload o p bs) (3 + len (op_bin_name o) + len bs).
Proof.
  unfold enc_data, op_write_data. intros Hb.
  assert (forall c, (fun b => (ParticleType.BLOB, b)) <$> enc_operation c (ctx o)
                    = Some (p, bs) ->
            emits (let! n := write_op_header_to o
                               (ParticleType.to_u8 ParticleType.BLOB) in
                   let! m := cdt_write_to c (ctx o) in ret (n + m))
              (payload o p bs) (3 + len (op_bin_name o) + len bs)) as Hcdt.
  { intros c Hc. destruct (enc_operation c (ctx o)) eqn:He; [|discriminate].
    injection Hc as <- <-. apply payload_emits, packs_with_some.
    rewrite <- He. apply run_encoder_packs. }
  destruct (data o) as [|v|c|c|c|c|e]; try exact (Hcdt c Hb).
  - injection Hb as <- <-. eapply emits_eq'; [apply write_op_header_emits|..].
    + unfold payload. rewrite app_nil_r. reflexivity.
    + rewrite len_nil. lia.
  - destruct (Value.particle_type v) as [t|]; [|discriminate].
    destruct (particle_bytes v) as [b|] eqn:Hv; [|discriminate].
    injection Hb as <- <-. cbn [unwrap]. rewrite bind_ret_l.
    apply payload_emits, write_to_emits, Hv.
  - destruct (enc_exp_op e) eqn:He; [|discriminate].
    injection Hb as <- <-. apply payload_emits, packs_with_some.
    rewrite <- He. apply run_exp_encoder_packs.
Qed.

(** An operation with an encoding writes it, and returns its length. *)
Lemma op_write_emits o p bs :
  enc_data o = Some (p, bs) ->
  len (op_bin_name o) + len bs + 4 < 2 ^ 32 ->
  emits (op_write_to o) (op_bytes (op o) p (op_bin_name o) bs)
    (OPERATION_HEADER_SIZE + (len (op_bin_name o) + len bs)).
Proof.
  intros Hb Hsize. pose proof (len_nonneg (op_bin_name o)).
  pose proof (len_nonneg bs).
  unfold op_write_to. rewrite (op_estimate_bytes _ _ _ Hb), bind_ret_l.
  unfold u32_checked, as_u32. rewrite wrap_u_id by (unfold in_u; lia).
  decide_tests. rewrite bind_ret_l. eapply emits_eq'.
  - eapply emits_bind; [apply write_u32_emits|].
    eapply emits_bind; [apply write_u8_emits|].
    eapply emits_bind; [apply op_write_data_emits, Hb|apply emits_ret].
  - unfold payload. rewrite app_nil_r. reflexivity.
  - unfold OPERATION_HEADER_SIZE. lia.
Qed.

(** C11: the two passes of an operation agree.  Whatever the data is (nothing,
    a value, a collection operation with its context, an expression), when it
    has a reference encoding the estimate is the length of bin name and data,
    [write_to] overwrites exactly the operation header and that many bytes at
    the cursor with the reference bytes and returns their number, and the
    bytes around them are untouched. *)
Theorem operation_write_matches_estimate (o : Operation) (bs : bytes) :
  enc_op o = Some bs -> len bs < 2 ^ 32 ->
  exists n,
    (forall b : Buffer, op_estimate_size o b = Ret n b) /\
    len bs = OPERATION_HEADER_SIZE + n /\
    forall pre area post rt,
      len area = OPERATION_HEADER_SIZE + n ->
      op_write_to o (mkBuffer (pre ++ area ++ post) (len pre) rt)
      = Ret (OPERATION_HEADER_SIZE + n)
          (mkBuffer (pre ++ bs ++ post) (len pre + len bs) rt).
Proof.
  unfold enc_op. intros Hb Hsize.
  destruct (enc_data o) as [[p d]|] eqn:Hd; [|discriminate].
  apply (inj Some) in Hb as <-. rewrite len_op_bytes in *.
  exists (len (op_bin_name o) + len d).
  split; [intros b; apply (op_estimate_bytes o p d Hd)|].
  split; [reflexivity|]. intros pre area post rt Ha.
  unfold OPERATION_HEADER_SIZE in *.
  rewrite (op_write_emits o p d Hd ltac:(lia) _). unfold bind.
  rewrite emit_frame by (rewrite len_op_bytes; exact Ha). unfold ret.
  rewrite len_op_bytes. reflexivity.
Qed.

End Serialisation.

Section Witness.

#[local] Existing Instance valuefmt_model.

(** Appending to the string bin [name]. *)
Lemma operation_write_matches_estimate_witness :
  let o := Scalar.append (mkBin (str "name") (Value.String (str "x"))) in
  exists n,
    op_estimate_size o (mkBuffer [] 0 0)
    = Ret n (mkBuffer [] 0 0) /\
    op_write_to o
      (mkBuffer ([5] ++ replicate 13 0 ++ [6]) 1 0)
    = Ret (OPERATION_HEADER_SIZE + n)
        (mkBuffer ([5] ++ [0; 0; 0; 9; 9; 3; 0; 4] ++ str "namex" ++ [6]) 14 0).
Proof.
  intros o.
  destruct (operation_write_matches_estimate (BO := byteorder_model) o
              ([0; 0; 0; 9; 9; 3; 0; 4] ++ str "namex") eq_refl eq_refl)
    as (n & He & Hl & Hw).
  exists n. split; [apply He|].
  apply (Hw [5] (replicate 13 0) [6] 0). rewrite <- Hl. reflexivity.
Defined.

End Witness.
