(* ===== verification/ListOperations.v ===== *)
(** * List operations ([src/operations/lists.rs])

    The constructors of list operations.  Each builds a [CdtOperation] from an
    operation code and arguments, packed by [pack_cdt_op], and wraps it as a
    read or a write on a bin.  The two that assert their argument return an
    option, [None] being the failed assertion. *)

From stdpp Require Import base list strings.
From Stdlib Require Import ZArith Lia.
From S2P Require Import Prelude ResultCodes Monad Wire Values Cdt Operations.

#[local] Set Warnings "-register-all".

Module CdtListOpType.

(** [enum CdtListOpType]. *)
Inductive CdtListOpType : Type :=
| SetType
| Append
| AppendItems
| Insert
| InsertItems
| Pop
| PopRange
| Remove
| RemoveRange
| Set_
| Trim
| Clear
| Increment
| Sort
| Size
| Get
| GetRange
| GetByIndex
| GetByRank
| GetByValue
| GetByValueList
| GetByIndexRange
| GetByValueInterval
| GetByRankRange
| GetByValueRelRankRange
| RemoveByIndex
| RemoveByRank
| RemoveByValue
| RemoveByValueList
| RemoveByIndexRange
| RemoveByValueInterval
| RemoveByRankRange
| RemoveByValueRelRankRange.

(** [t as u8]. *)
Definition to_u8 (t : CdtListOpType) : Z :=
  match t with
  | SetType => 0
  | Append => 1
  | AppendItems => 2
  | Insert => 3
  | InsertItems => 4
  | Pop => 5
  | PopRange => 6
  | Remove => 7
  | RemoveRange => 8
  | Set_ => 9
  | Trim => 10
  | Clear => 11
  | Increment => 12
  | Sort => 13
  | Size => 16
  | Get => 17
  | GetRange => 18
  | GetByIndex => 19
  | GetByRank => 21
  | GetByValue => 22
  | GetByValueList => 23
  | GetByIndexRange => 24
  | GetByValueInterval => 25
  | GetByRankRange => 26
  | GetByValueRelRankRange => 27
  | RemoveByIndex => 32
  | RemoveByRank => 34
  | RemoveByValue => 35
  | RemoveByValueList => 36
  | RemoveByIndexRange => 37
  | RemoveByValueInterval => 38
  | RemoveByRankRange => 39
  | RemoveByValueRelRankRange => 40
  end.

#[global] Instance CdtListOpType_eq_dec : EqDecision CdtListOpType.
Proof. solve_decision. Defined.

End CdtListOpType.

Abbreviation CdtListOpType := CdtListOpType.CdtListOpType.

Module ListReturnType.

(** [enum ListReturnType]. *)
Inductive ListReturnType : Type :=
| None
| Index
| ReverseIndex
| Rank
| ReverseRank
| Count
| Values
| Inverted.

(** [t as u8]. *)
Definition to_u8 (t : ListReturnType) : Z :=
  match t with
  | None => 0
  | Index => 1
  | ReverseIndex => 2
  | Rank => 3
  | ReverseRank => 4
  | Count => 5
  | Values => 7
  | Inverted => as_u8 0x10000
  end.

#[global] Instance ListReturnType_eq_dec : EqDecision ListReturnType.
Proof. solve_decision. Defined.

End ListReturnType.

Abbreviation ListReturnType := ListReturnType.ListReturnType.

Module ListSortFlags.

(** [enum ListSortFlags]. *)
Inductive ListSortFlags : Type :=
| Default
| Descending
| DropDuplicates.

(** [t as u8]. *)
Definition to_u8 (t : ListSortFlags) : Z :=
  match t with
  | Default => 0
  | Descending => 1
  | DropDuplicates => 2
  end.

#[global] Instance ListSortFlags_eq_dec : EqDecision ListSortFlags.
Proof. solve_decision. Defined.

End ListSortFlags.

Abbreviation ListSortFlags := ListSortFlags.ListSortFlags.

Module ListWriteFlags.

(** [enum ListWriteFlags]. *)
Inductive ListWriteFlags : Type :=
| Default
| AddUnique
| InsertBounded
| NoFail
| Partial.

(** [t as u8]. *)
Definition to_u8 (t : ListWriteFlags) : Z :=
  match t with
  | Default => 0
  | AddUnique => 1
  | InsertBounded => 2
  | NoFail => 4
  | Partial => 8
  end.

#[global] Instance ListWriteFlags_eq_dec : EqDecision ListWriteFlags.
Proof. solve_decision. Defined.

End ListWriteFlags.

Abbreviation ListWriteFlags := ListWriteFlags.ListWriteFlags.

(** [struct ListPolicy]. *)
Record ListPolicy : Type := mkListPolicy {
  attributes : ListOrderType;
  flags : ListWriteFlags
}.

(** [ListPolicy::default]. *)
Definition ListPolicy_default : ListPolicy :=
  mkListPolicy ListOrderType.Unordered ListWriteFlags.Default.

Definition is_empty_list {A} (l : list A) : bool :=
  match l with [] => true | _ => false end.

(** The struct that every constructor returns. *)
Definition list_operation (t : OperationType) (ctx : list CdtContext)
    (bin : bytes) (code : CdtListOpType) (args : list CdtArgument)
    : Operation :=
  mkOperation t ctx (BinName bin)
    (CdtListOp (mkCdtOperation (CdtListOpType.to_u8 code) use_pack_cdt_op args)).

Module Lists.

Definition create (bin : bytes) (list_order : ListOrderType) (pad : bool)
    : Operation :=
  list_operation OperationType.CdtWrite DEFAULT_CTX bin
    CdtListOpType.SetType
    [ArgByte (list_order_flag list_order pad);
     ArgByte (ListOrderType.to_u8 list_order)].

Definition set_order (bin : bytes) (list_order : ListOrderType)
    (ctx : list CdtContext) : Operation :=
  list_operation OperationType.CdtWrite ctx bin
    CdtListOpType.SetType
    [ArgByte (ListOrderType.to_u8 list_order)].

Definition append (policy : ListPolicy) (bin : bytes) (value : Value)
    : Operation :=
  list_operation OperationType.CdtWrite DEFAULT_CTX bin
    CdtListOpType.Append
    [ArgValue value; ArgByte (ListOrderType.to_u8 (attributes policy));
     ArgByte (ListWriteFlags.to_u8 (flags policy))].

Definition append_items (policy : ListPolicy) (bin : bytes)
    (values : list Value) : option Operation :=
  if is_empty_list values then None
  else Some (list_operation OperationType.CdtWrite DEFAULT_CTX bin
    CdtListOpType.AppendItems
    [ArgList values; ArgByte (ListOrderType.to_u8 (attributes policy));
     ArgByte (ListWriteFlags.to_u8 (flags policy))]).

Definition insert (policy : ListPolicy) (bin : bytes) (index : Z)
    (value : Value) : Operation :=
  list_operation OperationType.CdtWrite DEFAULT_CTX bin
    CdtListOpType.Insert
    [ArgInt index; ArgValue value;
     ArgByte (ListWriteFlags.to_u8 (flags policy))].

Definition insert_items (policy : ListPolicy) (bin : bytes) (index : Z)
    (values : list Value) : option Operation :=
  if is_empty_list values then None
  else Some (list_operation OperationType.CdtWrite DEFAULT_CTX bin
    CdtListOpType.InsertItems
    [ArgInt index; ArgList values;
     ArgByte (ListWriteFlags.to_u8 (flags policy))]).

Definition pop (bin : bytes) (index : Z) : Operation :=
  list_operation OperationType.CdtWrite DEFAULT_CTX bin
    CdtListOpType.Pop
    [ArgInt index].

Definition pop_range (bin : bytes) (index : Z) (count : Z) : Operation :=
  list_operation OperationType.CdtWrite DEFAULT_CTX bin
    CdtListOpType.PopRange
    [ArgInt index; ArgInt count].

Definition pop_range_from (bin : bytes) (index : Z) : Operation :=
  list_operation OperationType.CdtWrite DEFAULT_CTX bin
    CdtListOpType.PopRange
    [ArgInt index].

Definition remove (bin : bytes) (index : Z) : Operation :=
  list_operation OperationType.CdtWrite DEFAULT_CTX bin
    CdtListOpType.Remove
    [ArgInt index].

Definition remove_range (bin : bytes) (index : Z) (count : Z) : Operation :=
  list_operation OperationType.CdtWrite DEFAULT_CTX bin
    CdtListOpType.RemoveRange
    [ArgInt index; ArgInt count].

Definition remove_range_from (bin : bytes) (index : Z) : Operation :=
  list_operation OperationType.CdtWrite DEFAULT_CTX bin
    CdtListOpType.RemoveRange
    [ArgInt index].

Definition remove_by_value (bin : bytes) (value : Value)
    (return_type : ListReturnType) : Operation :=
  list_operation OperationType.CdtWrite DEFAULT_CTX bin
    CdtListOpType.RemoveByValue
    [ArgByte (ListReturnType.to_u8 return_type); ArgValue value].

Definition remove_by_value_list (bin : bytes) (values : list Value)
    (return_type : ListReturnType) : Operation :=
  list_operation OperationType.CdtWrite DEFAULT_CTX bin
    CdtListOpType.RemoveByValueList
    [ArgByte (ListReturnType.to_u8 return_type); ArgList values].

Definition remove_by_value_range (bin : bytes)
    (return_type : ListReturnType) (begin : Value) (end_ : Value)
    : Operation :=
  list_operation OperationType.CdtWrite DEFAULT_CTX bin
    CdtListOpType.RemoveByValueInterval
    [ArgByte (ListReturnType.to_u8 return_type); ArgValue begin; ArgValue end_].

Definition remove_by_value_relative_rank_range (bin : bytes)
    (return_type : ListReturnType) (value : Value) (rank : Z) : Operation :=
  list_operation OperationType.CdtWrite DEFAULT_CTX bin
    CdtListOpType.RemoveByValueRelRankRange
    [ArgByte (ListReturnType.to_u8 return_type); ArgValue value; ArgInt rank].

Definition remove_by_value_relative_rank_range_count (bin : bytes)
    (return_type : ListReturnType) (value : Value) (rank : Z) (count : Z)
    : Operation :=
  list_operation OperationType.CdtWrite DEFAULT_CTX bin
    CdtListOpType.RemoveByValueRelRankRange
    [ArgByte (ListReturnType.to_u8 return_type); ArgValue value; ArgInt rank;
     ArgInt count].

Definition remove_by_index (bin : bytes) (index : Z)
    (return_type : ListReturnType) : Operation :=
  list_operation OperationType.CdtWrite DEFAULT_CTX bin
    CdtListOpType.RemoveByIndex
    [ArgByte (ListReturnType.to_u8 return_type); ArgInt index].

Definition remove_by_index_range (bin : bytes) (index : Z)
    (return_type : ListReturnType) : Operation :=
  list_operation OperationType.CdtWrite DEFAULT_CTX bin
    CdtListOpType.RemoveByIndexRange
    [ArgByte (ListReturnType.to_u8 return_type); ArgInt index].

Definition remove_by_index_range_count (bin : bytes) (index : Z)
    (count : Z) (return_type : ListReturnType) : Operation :=
  list_operation OperationType.CdtWrite DEFAULT_CTX bin
    CdtListOpType.RemoveByIndexRange
    [ArgByte (ListReturnType.to_u8 return_type); ArgInt index; ArgInt count].

Definition remove_by_rank (bin : bytes) (rank : Z)
    (return_type : ListReturnType) : Operation :=
  list_operation OperationType.CdtWrite DEFAULT_CTX bin
    CdtListOpType.RemoveByRank
    [ArgByte (ListReturnType.to_u8 return_type); ArgInt rank].

Definition remove_by_rank_range (bin : bytes) (rank : Z)
    (return_type : ListReturnType) : Operation :=
  list_operation OperationType.CdtWrite DEFAULT_CTX bin
    CdtListOpType.RemoveByRankRange
    [ArgByte (ListReturnType.to_u8 return_type); ArgInt rank].

Definition remove_by_rank_range_count (bin : bytes) (rank : Z) (count : Z)
    (return_type : ListReturnType) : Operation :=
  list_operation OperationType.CdtWrite DEFAULT_CTX bin
    CdtListOpType.RemoveByRankRange
    [ArgByte (ListReturnType.to_u8 return_type); ArgInt rank; ArgInt count].

Definition set (bin : bytes) (index : Z) (value : Value) : option Operation :=
  if Value.is_nil value then None
  else Some (list_operation OperationType.CdtWrite DEFAULT_CTX bin
    CdtListOpType.Set_
    [ArgInt index; ArgValue value]).

Definition trim (bin : bytes) (index : Z) (count : Z) : Operation :=
  list_operation OperationType.CdtWrite DEFAULT_CTX bin
    CdtListOpType.Trim
    [ArgInt index; ArgInt count].

Definition clear (bin : bytes) : Operation :=
  list_operation OperationType.CdtWrite DEFAULT_CTX bin
    CdtListOpType.Clear
    [].

Definition increment (policy : ListPolicy) (bin : bytes) (index : Z)
    (value : Z) : Operation :=
  list_operation OperationType.CdtWrite DEFAULT_CTX bin
    CdtListOpType.Increment
    [ArgInt index; ArgInt value; ArgByte (ListWriteFlags.to_u8 (flags policy))].

Definition size (bin : bytes) : Operation :=
  list_operation OperationType.CdtRead DEFAULT_CTX bin
    CdtListOpType.Size
    [].

Definition get (bin : bytes) (index : Z) : Operation :=
  list_operation OperationType.CdtRead DEFAULT_CTX bin
    CdtListOpType.Get
    [ArgInt index].

Definition get_range (bin : bytes) (index : Z) (count : Z) : Operation :=
  list_operation OperationType.CdtRead DEFAULT_CTX bin
    CdtListOpType.GetRange
    [ArgInt index; ArgInt count].

Definition get_range_from (bin : bytes) (index : Z) : Operation :=
  list_operation OperationType.CdtRead DEFAULT_CTX bin
    CdtListOpType.GetRange
    [ArgInt index].

Definition get_by_value (bin : bytes) (value : Value)
    (return_type : ListReturnType) : Operation :=
  list_operation OperationType.CdtRead DEFAULT_CTX bin
    CdtListOpType.GetByValue
    [ArgByte (ListReturnType.to_u8 return_type); ArgValue value].

Definition get_by_value_list (bin : bytes) (values : list Value)
    (return_type : ListReturnType) : Operation :=
  list_operation OperationType.CdtRead DEFAULT_CTX bin
    CdtListOpType.GetByValueList
    [ArgByte (ListReturnType.to_u8 return_type); ArgList values].

Definition get_by_value_range (bin : bytes) (begin : Value) (end_ : Value)
    (return_type : ListReturnType) : Operation :=
  list_operation OperationType.CdtRead DEFAULT_CTX bin
    CdtListOpType.GetByValueInterval
    [ArgByte (ListReturnType.to_u8 return_type); ArgValue begin; ArgValue end_].

Definition get_by_index (bin : bytes) (index : Z)
    (return_type : ListReturnType) : Operation :=
  list_operation OperationType.CdtRead DEFAULT_CTX bin
    CdtListOpType.GetByIndex
    [ArgByte (ListReturnType.to_u8 return_type); ArgInt index].

Definition get_by_index_range (bin : bytes) (index : Z)
    (return_type : ListReturnType) : Operation :=
  list_operation OperationType.CdtRead DEFAULT_CTX bin
    CdtListOpType.GetByIndexRange
    [ArgByte (ListReturnType.to_u8 return_type); ArgInt index].

Definition get_by_index_range_count (bin : bytes) (index : Z) (count : Z)
    (return_type : ListReturnType) : Operation :=
  list_operation OperationType.CdtRead DEFAULT_CTX bin
    CdtListOpType.GetByIndexRange
    [ArgByte (ListReturnType.to_u8 return_type); ArgInt index; ArgInt count].

Definition get_by_rank (bin : bytes) (rank : Z)
    (return_type : ListReturnType) : Operation :=
  list_operation OperationType.CdtRead DEFAULT_CTX bin
    CdtListOpType.GetByRank
    [ArgByte (ListReturnType.to_u8 return_type); ArgInt rank].

Definition get_by_rank_range (bin : bytes) (rank : Z)
    (return_type : ListReturnType) : Operation :=
  list_operation OperationType.CdtRead DEFAULT_CTX bin
    CdtListOpType.GetByRankRange
    [ArgByte (ListReturnType.to_u8 return_type); ArgInt rank].

Definition get_by_rank_range_count (bin : bytes) (rank : Z) (count : Z)
    (return_type : ListReturnType) : Operation :=
  list_operation OperationType.CdtRead DEFAULT_CTX bin
    CdtListOpType.GetByRankRange
    [ArgByte (ListReturnType.to_u8 return_type); ArgInt rank; ArgInt count].

Definition get_by_value_relative_rank_range (bin : bytes) (value : Value)
    (rank : Z) (return_type : ListReturnType) : Operation :=
  list_operation OperationType.CdtRead DEFAULT_CTX bin
    CdtListOpType.GetByValueRelRankRange
    [ArgByte (ListReturnType.to_u8 return_type); ArgValue value; ArgInt rank].

Definition get_by_value_relative_rank_range_count (bin : bytes)
    (value : Value) (rank : Z) (count : Z) (return_type : ListReturnType)
    : Operation :=
  list_operation OperationType.CdtRead DEFAULT_CTX bin
    CdtListOpType.GetByValueRelRankRange
    [ArgByte (ListReturnType.to_u8 return_type); ArgValue value; ArgInt rank;
     ArgInt count].

Definition sort (bin : bytes) (sort_flags : ListSortFlags) : Operation :=
  list_operation OperationType.CdtWrite DEFAULT_CTX bin
    CdtListOpType.Sort
    [ArgByte (ListSortFlags.to_u8 sort_flags)].

End Lists.
