(* ===== verification/MapOperations.v ===== *)
(** * Map operations ([src/operations/maps.rs])

    The constructors of map operations.  The policy selects the operation code
    of a write ([map_write_op]) and whether its arguments carry the map order
    ([map_order_arg]); nil end points and values are left out. *)

From stdpp Require Import base list strings.
From Stdlib Require Import ZArith Lia.
From S2P Require Import Prelude ResultCodes Monad Wire Values Cdt Operations.

#[local] Set Warnings "-register-all".

Module CdtMapOpType.

(** [enum CdtMapOpType]. *)
Inductive CdtMapOpType : Type :=
| SetType
| Add
| AddItems
| Put
| PutItems
| Replace
| ReplaceItems
| Increment
| Decrement
| Clear
| RemoveByKey
| RemoveByIndex
| RemoveByRank
| RemoveKeyList
| RemoveByValue
| RemoveValueList
| RemoveByKeyInterval
| RemoveByIndexRange
| RemoveByValueInterval
| RemoveByRankRange
| RemoveByKeyRelIndexRange
| RemoveByValueRelRankRange
| Size
| GetByKey
| GetByIndex
| GetByRank
| GetByValue
| GetByKeyInterval
| GetByIndexRange
| GetByValueInterval
| GetByRankRange
| GetByKeyList
| GetByValueList
| GetByKeyRelIndexRange
| GetByValueRelRankRange.

(** [t as u8]. *)
Definition to_u8 (t : CdtMapOpType) : Z :=
  match t with
  | SetType => 64
  | Add => 65
  | AddItems => 66
  | Put => 67
  | PutItems => 68
  | Replace => 69
  | ReplaceItems => 70
  | Increment => 73
  | Decrement => 74
  | Clear => 75
  | RemoveByKey => 76
  | RemoveByIndex => 77
  | RemoveByRank => 79
  | RemoveKeyList => 81
  | RemoveByValue => 82
  | RemoveValueList => 83
  | RemoveByKeyInterval => 84
  | RemoveByIndexRange => 85
  | RemoveByValueInterval => 86
  | RemoveByRankRange => 87
  | RemoveByKeyRelIndexRange => 88
  | RemoveByValueRelRankRange => 89
  | Size => 96
  | GetByKey => 97
  | GetByIndex => 98
  | GetByRank => 100
  | GetByValue => 102
  | GetByKeyInterval => 103
  | GetByIndexRange => 104
  | GetByValueInterval => 105
  | GetByRankRange => 106
  | GetByKeyList => 107
  | GetByValueList => 108
  | GetByKeyRelIndexRange => 109
  | GetByValueRelRankRange => 110
  end.

#[global] Instance CdtMapOpType_eq_dec : EqDecision CdtMapOpType.
Proof. solve_decision. Defined.

End CdtMapOpType.

Abbreviation CdtMapOpType := CdtMapOpType.CdtMapOpType.

Module MapReturnType.

(** [enum MapReturnType]. *)
Inductive MapReturnType : Type :=
| None
| Index
| ReverseIndex
| Rank
| ReverseRank
| Count
| Key
| Value
| KeyValue
| Inverted.

(** [t as u8]. *)
Definition to_u8 (t : MapReturnType) : Z :=
  match t with
  | None => 0
  | Index => 1
  | ReverseIndex => 2
  | Rank => 3
  | ReverseRank => 4
  | Count => 5
  | Key => 6
  | Value => 7
  | KeyValue => 8
  | Inverted => as_u8 0x10000
  end.

#[global] Instance MapReturnType_eq_dec : EqDecision MapReturnType.
Proof. solve_decision. Defined.

End MapReturnType.

Abbreviation MapReturnType := MapReturnType.MapReturnType.

Module MapWriteMode.

(** [enum MapWriteMode]. *)
Inductive MapWriteMode : Type :=
| Update
| UpdateOnly
| CreateOnly.

(** [t as u8]. *)
Definition to_u8 (t : MapWriteMode) : Z :=
  match t with
  | Update => 0
  | UpdateOnly => 1
  | CreateOnly => 2
  end.

#[global] Instance MapWriteMode_eq_dec : EqDecision MapWriteMode.
Proof. solve_decision. Defined.

End MapWriteMode.

Abbreviation MapWriteMode := MapWriteMode.MapWriteMode.

(** [struct MapPolicy]. *)
Record MapPolicy : Type := mkMapPolicy {
  order : MapOrder;
  write_mode : MapWriteMode
}.

(** [MapPolicy::default]. *)
Definition MapPolicy_default : MapPolicy :=
  mkMapPolicy MapOrder.Unordered MapWriteMode.Update.

Definition map_write_op (policy : MapPolicy) (multi : bool) : CdtMapOpType :=
  match write_mode policy with
  | MapWriteMode.Update =>
      if multi then CdtMapOpType.PutItems else CdtMapOpType.Put
  | MapWriteMode.UpdateOnly =>
      if multi then CdtMapOpType.ReplaceItems else CdtMapOpType.Replace
  | MapWriteMode.CreateOnly =>
      if multi then CdtMapOpType.AddItems else CdtMapOpType.Add
  end.

Definition map_order_arg (policy : MapPolicy) : option CdtArgument :=
  match write_mode policy with
  | MapWriteMode.UpdateOnly => None
  | _ => Some (ArgByte (MapOrder.to_u8 (order policy)))
  end.

(** [if let Some(arg) = o { args.push(arg) }] *)
Definition option_list {A} (o : option A) : list A :=
  match o with Some a => [a] | None => [] end.

(** The struct that every constructor returns. *)
Definition map_operation (t : OperationType) (ctx : list CdtContext)
    (bin : bytes) (code : CdtMapOpType) (args : list CdtArgument)
    : Operation :=
  mkOperation t ctx (BinName bin)
    (CdtMapOp (mkCdtOperation (CdtMapOpType.to_u8 code) use_pack_cdt_op args)).

Module Maps.

Definition set_order (bin : bytes) (map_order : MapOrder) : Operation :=
  map_operation OperationType.CdtWrite DEFAULT_CTX bin
    CdtMapOpType.SetType
    [ArgByte (MapOrder.to_u8 map_order)].

Definition put (policy : MapPolicy) (bin : bytes) (key : Value)
    (val : Value) : Operation :=
  map_operation OperationType.CdtWrite DEFAULT_CTX bin
    (map_write_op policy false)
    ([ArgValue key] ++
     (if Value.is_nil val then [] else [ArgValue val]) ++
     option_list (map_order_arg policy)).

Definition put_items (policy : MapPolicy) (bin : bytes)
    (items : list (Value * Value)) : Operation :=
  map_operation OperationType.CdtWrite DEFAULT_CTX bin
    (map_write_op policy true)
    ([ArgMap items] ++
     option_list (map_order_arg policy)).

Definition increment_value (policy : MapPolicy) (bin : bytes)
    (key : Value) (incr : Value) : Operation :=
  map_operation OperationType.CdtWrite DEFAULT_CTX bin
    CdtMapOpType.Increment
    ([ArgValue key] ++
     (if Value.is_nil incr then [] else [ArgValue incr]) ++
     option_list (map_order_arg policy)).

Definition decrement_value (policy : MapPolicy) (bin : bytes)
    (key : Value) (decr : Value) : Operation :=
  map_operation OperationType.CdtWrite DEFAULT_CTX bin
    CdtMapOpType.Decrement
    ([ArgValue key] ++
     (if Value.is_nil decr then [] else [ArgValue decr]) ++
     option_list (map_order_arg policy)).

Definition clear (bin : bytes) : Operation :=
  map_operation OperationType.CdtWrite DEFAULT_CTX bin
    CdtMapOpType.Clear
    [].

Definition remove_by_key (bin : bytes) (key : Value)
    (return_type : MapReturnType) : Operation :=
  map_operation OperationType.CdtWrite DEFAULT_CTX bin
    CdtMapOpType.RemoveByKey
    [ArgByte (MapReturnType.to_u8 return_type); ArgValue key].

Definition remove_by_key_list (bin : bytes) (keys : list Value)
    (return_type : MapReturnType) : Operation :=
  map_operation OperationType.CdtWrite DEFAULT_CTX bin
    CdtMapOpType.RemoveKeyList
    [ArgByte (MapReturnType.to_u8 return_type); ArgList keys].

Definition remove_by_key_range (bin : bytes) (begin : Value)
    (end_ : Value) (return_type : MapReturnType) : Operation :=
  map_operation OperationType.CdtWrite DEFAULT_CTX bin
    CdtMapOpType.RemoveByKeyInterval
    ([ArgByte (MapReturnType.to_u8 return_type); ArgValue begin] ++
     (if Value.is_nil end_ then [] else [ArgValue end_])).

Definition remove_by_value (bin : bytes) (value : Value)
    (return_type : MapReturnType) : Operation :=
  map_operation OperationType.CdtWrite DEFAULT_CTX bin
    CdtMapOpType.RemoveByValue
    [ArgByte (MapReturnType.to_u8 return_type); ArgValue value].

Definition remove_by_value_list (bin : bytes) (values : list Value)
    (return_type : MapReturnType) : Operation :=
  map_operation OperationType.CdtWrite DEFAULT_CTX bin
    CdtMapOpType.RemoveValueList
    [ArgByte (MapReturnType.to_u8 return_type); ArgList values].

Definition remove_by_value_range (bin : bytes) (begin : Value)
    (end_ : Value) (return_type : MapReturnType) : Operation :=
  map_operation OperationType.CdtWrite DEFAULT_CTX bin
    CdtMapOpType.RemoveByValueInterval
    ([ArgByte (MapReturnType.to_u8 return_type); ArgValue begin] ++
     (if Value.is_nil end_ then [] else [ArgValue end_])).

Definition remove_by_index (bin : bytes) (index : Z)
    (return_type : MapReturnType) : Operation :=
  map_operation OperationType.CdtWrite DEFAULT_CTX bin
    CdtMapOpType.RemoveByIndex
    [ArgByte (MapReturnType.to_u8 return_type); ArgInt index].

Definition remove_by_index_range (bin : bytes) (index : Z) (count : Z)
    (return_type : MapReturnType) : Operation :=
  map_operation OperationType.CdtWrite DEFAULT_CTX bin
    CdtMapOpType.RemoveByIndexRange
    [ArgByte (MapReturnType.to_u8 return_type); ArgInt index; ArgInt count].

Definition remove_by_index_range_from (bin : bytes) (index : Z)
    (return_type : MapReturnType) : Operation :=
  map_operation OperationType.CdtWrite DEFAULT_CTX bin
    CdtMapOpType.RemoveByIndexRange
    [ArgByte (MapReturnType.to_u8 return_type); ArgInt index].

Definition remove_by_rank (bin : bytes) (rank : Z)
    (return_type : MapReturnType) : Operation :=
  map_operation OperationType.CdtWrite DEFAULT_CTX bin
    CdtMapOpType.RemoveByRank
    [ArgByte (MapReturnType.to_u8 return_type); ArgInt rank].

Definition remove_by_rank_range (bin : bytes) (rank : Z) (count : Z)
    (return_type : MapReturnType) : Operation :=
  map_operation OperationType.CdtWrite DEFAULT_CTX bin
    CdtMapOpType.RemoveByRankRange
    [ArgByte (MapReturnType.to_u8 return_type); ArgInt rank; ArgInt count].

Definition remove_by_rank_range_from (bin : bytes) (rank : Z)
    (return_type : MapReturnType) : Operation :=
  map_operation OperationType.CdtWrite DEFAULT_CTX bin
    CdtMapOpType.RemoveByRankRange
    [ArgByte (MapReturnType.to_u8 return_type); ArgInt rank].

Definition size (bin : bytes) : Operation :=
  map_operation OperationType.CdtRead DEFAULT_CTX bin
    CdtMapOpType.Size
    [].

Definition get_by_key (bin : bytes) (key : Value)
    (return_type : MapReturnType) : Operation :=
  map_operation OperationType.CdtRead DEFAULT_CTX bin
    CdtMapOpType.GetByKey
    [ArgByte (MapReturnType.to_u8 return_type); ArgValue key].

Definition get_by_key_range (bin : bytes) (begin : Value) (end_ : Value)
    (return_type : MapReturnType) : Operation :=
  map_operation OperationType.CdtRead DEFAULT_CTX bin
    CdtMapOpType.GetByKeyInterval
    ([ArgByte (MapReturnType.to_u8 return_type); ArgValue begin] ++
     (if Value.is_nil end_ then [] else [ArgValue end_])).

Definition get_by_value (bin : bytes) (value : Value)
    (return_type : MapReturnType) : Operation :=
  map_operation OperationType.CdtRead DEFAULT_CTX bin
    CdtMapOpType.GetByValue
    [ArgByte (MapReturnType.to_u8 return_type); ArgValue value].

Definition get_by_value_range (bin : bytes) (begin : Value) (end_ : Value)
    (return_type : MapReturnType) : Operation :=
  map_operation OperationType.CdtRead DEFAULT_CTX bin
    CdtMapOpType.GetByValueInterval
    ([ArgByte (MapReturnType.to_u8 return_type); ArgValue begin] ++
     (if Value.is_nil end_ then [] else [ArgValue end_])).

Definition get_by_index (bin : bytes) (index : Z)
    (return_type : MapReturnType) : Operation :=
  map_operation OperationType.CdtRead DEFAULT_CTX bin
    CdtMapOpType.GetByIndex
    [ArgByte (MapReturnType.to_u8 return_type); ArgInt index].

Definition get_by_index_range (bin : bytes) (index : Z) (count : Z)
    (return_type : MapReturnType) : Operation :=
  map_operation OperationType.CdtRead DEFAULT_CTX bin
    CdtMapOpType.GetByIndexRange
    [ArgByte (MapReturnType.to_u8 return_type); ArgInt index; ArgInt count].

Definition get_by_index_range_from (bin : bytes) (index : Z)
    (return_type : MapReturnType) : Operation :=
  map_operation OperationType.CdtRead DEFAULT_CTX bin
    CdtMapOpType.GetByIndexRange
    [ArgByte (MapReturnType.to_u8 return_type); ArgInt index].

Definition get_by_rank (bin : bytes) (rank : Z)
    (return_type : MapReturnType) : Operation :=
  map_operation OperationType.CdtRead DEFAULT_CTX bin
    CdtMapOpType.GetByRank
    [ArgByte (MapReturnType.to_u8 return_type); ArgInt rank].

Definition get_by_rank_range (bin : bytes) (rank : Z) (count : Z)
    (return_type : MapReturnType) : Operation :=
  map_operation OperationType.CdtRead DEFAULT_CTX bin
    CdtMapOpType.GetByRankRange
    [ArgByte (MapReturnType.to_u8 return_type); ArgInt rank; ArgInt count].

Definition get_by_rank_range_from (bin : bytes) (rank : Z)
    (return_type : MapReturnType) : Operation :=
  map_operation OperationType.CdtRead DEFAULT_CTX bin
    CdtMapOpType.GetByRankRange
    [ArgByte (MapReturnType.to_u8 return_type); ArgInt rank].

Definition remove_by_key_relative_index_range (bin : bytes) (key : Value)
    (index : Z) (return_type : MapReturnType) : Operation :=
  map_operation OperationType.CdtWrite DEFAULT_CTX bin
    CdtMapOpType.RemoveByKeyRelIndexRange
    [ArgByte (MapReturnType.to_u8 return_type); ArgValue key; ArgInt index].

Definition remove_by_key_relative_index_range_count (bin : bytes)
    (key : Value) (index : Z) (count : Z) (return_type : MapReturnType)
    : Operation :=
  map_operation OperationType.CdtWrite DEFAULT_CTX bin
    CdtMapOpType.RemoveByKeyRelIndexRange
    [ArgByte (MapReturnType.to_u8 return_type); ArgValue key; ArgInt index;
     ArgInt count].

Definition remove_by_value_relative_rank_range (bin : bytes)
    (value : Value) (rank : Z) (return_type : MapReturnType) : Operation :=
  map_operation OperationType.CdtWrite DEFAULT_CTX bin
    CdtMapOpType.RemoveByValueRelRankRange
    [ArgByte (MapReturnType.to_u8 return_type); ArgValue value; ArgInt rank].

Definition remove_by_value_relative_rank_range_count (bin : bytes)
    (value : Value) (rank : Z) (count : Z) (return_type : MapReturnType)
    : Operation :=
  map_operation OperationType.CdtWrite DEFAULT_CTX bin
    CdtMapOpType.RemoveByValueRelRankRange
    [ArgByte (MapReturnType.to_u8 return_type); ArgValue value; ArgInt rank;
     ArgInt count].

Definition get_by_key_list (bin : bytes) (keys : list Value)
    (return_type : MapReturnType) : Operation :=
  map_operation OperationType.CdtRead DEFAULT_CTX bin
    CdtMapOpType.GetByKeyList
    [ArgByte (MapReturnType.to_u8 return_type); ArgList keys].

Definition get_by_value_list (bin : bytes) (values : list Value)
    (return_type : MapReturnType) : Operation :=
  map_operation OperationType.CdtRead DEFAULT_CTX bin
    CdtMapOpType.GetByValueList
    [ArgByte (MapReturnType.to_u8 return_type); ArgList values].

Definition get_by_key_relative_index_range (bin : bytes) (key : Value)
    (index : Z) (return_type : MapReturnType) : Operation :=
  map_operation OperationType.CdtRead DEFAULT_CTX bin
    CdtMapOpType.GetByKeyRelIndexRange
    [ArgByte (MapReturnType.to_u8 return_type); ArgValue key; ArgInt index].

Definition get_by_key_relative_index_range_count (bin : bytes)
    (key : Value) (index : Z) (count : Z) (return_type : MapReturnType)
    : Operation :=
  map_operation OperationType.CdtRead DEFAULT_CTX bin
    CdtMapOpType.GetByKeyRelIndexRange
    [ArgByte (MapReturnType.to_u8 return_type); ArgValue key; ArgInt index;
     ArgInt count].

Definition get_by_value_relative_rank_range (bin : bytes) (value : Value)
    (rank : Z) (return_type : MapReturnType) : Operation :=
  map_operation OperationType.CdtRead DEFAULT_CTX bin
    CdtMapOpType.GetByValueRelRankRange
    [ArgByte (MapReturnType.to_u8 return_type); ArgValue value; ArgInt rank].

Definition get_by_value_relative_rank_range_count (bin : bytes)
    (value : Value) (rank : Z) (count : Z) (return_type : MapReturnType)
    : Operation :=
  map_operation OperationType.CdtRead DEFAULT_CTX bin
    CdtMapOpType.GetByValueRelRankRange
    [ArgByte (MapReturnType.to_u8 return_type); ArgValue value; ArgInt rank;
     ArgInt count].

End Maps.
