(* ===== verification/BitOperations.v ===== *)
(** * Bit operations ([src/operations/bitwise.rs])

    The constructors of operations on blobs, packed by [pack_cdt_bit_op]. *)

From stdpp Require Import base list strings.
From Stdlib Require Import ZArith Lia.
From S2P Require Import Prelude ResultCodes Monad Wire Values Cdt Operations.

#[local] Set Warnings "-register-all".

Module CdtBitwiseOpType.

(** [enum CdtBitwiseOpType]. *)
Inductive CdtBitwiseOpType : Type :=
| Resize
| Insert
| Remove
| Set_
| Or
| Xor
| And
| Not
| LShift
| RShift
| Add
| Subtract
| SetInt
| Get
| Count
| LScan
| RScan
| GetInt.

(** [t as u8]. *)
Definition to_u8 (t : CdtBitwiseOpType) : Z :=
  match t with
  | Resize => 0
  | Insert => 1
  | Remove => 2
  | Set_ => 3
  | Or => 4
  | Xor => 5
  | And => 6
  | Not => 7
  | LShift => 8
  | RShift => 9
  | Add => 10
  | Subtract => 11
  | SetInt => 12
  | Get => 50
  | Count => 51
  | LScan => 52
  | RScan => 53
  | GetInt => 54
  end.

#[global] Instance CdtBitwiseOpType_eq_dec : EqDecision CdtBitwiseOpType.
Proof. solve_decision. Defined.

End CdtBitwiseOpType.

Abbreviation CdtBitwiseOpType := CdtBitwiseOpType.CdtBitwiseOpType.

Module BitwiseResizeFlags.

(** [enum BitwiseResizeFlags]. *)
Inductive BitwiseResizeFlags : Type :=
| Default
| FromFront
| GrowOnly
| ShrinkOnly.

(** [t as u8]. *)
Definition to_u8 (t : BitwiseResizeFlags) : Z :=
  match t with
  | Default => 0
  | FromFront => 1
  | GrowOnly => 2
  | ShrinkOnly => 4
  end.

#[global] Instance BitwiseResizeFlags_eq_dec : EqDecision BitwiseResizeFlags.
Proof. solve_decision. Defined.

End BitwiseResizeFlags.

Abbreviation BitwiseResizeFlags := BitwiseResizeFlags.BitwiseResizeFlags.

Module BitwiseWriteFlags.

(** [enum BitwiseWriteFlags]. *)
Inductive BitwiseWriteFlags : Type :=
| Default
| CreateOnly
| UpdateOnly
| NoFail
| Partial.

(** [t as u8]. *)
Definition to_u8 (t : BitwiseWriteFlags) : Z :=
  match t with
  | Default => 0
  | CreateOnly => 1
  | UpdateOnly => 2
  | NoFail => 4
  | Partial => 8
  end.

#[global] Instance BitwiseWriteFlags_eq_dec : EqDecision BitwiseWriteFlags.
Proof. solve_decision. Defined.

End BitwiseWriteFlags.

Abbreviation BitwiseWriteFlags := BitwiseWriteFlags.BitwiseWriteFlags.

Module BitwiseOverflowActions.

(** [enum BitwiseOverflowActions]. *)
Inductive BitwiseOverflowActions : Type :=
| Fail
| Saturate
| Wrap.

(** [t as u8]. *)
Definition to_u8 (t : BitwiseOverflowActions) : Z :=
  match t with
  | Fail => 0
  | Saturate => 2
  | Wrap => 4
  end.

#[global] Instance BitwiseOverflowActions_eq_dec : EqDecision BitwiseOverflowActions.
Proof. solve_decision. Defined.

End BitwiseOverflowActions.

Abbreviation BitwiseOverflowActions := BitwiseOverflowActions.BitwiseOverflowActions.

(** [struct BitPolicy]. *)
Record BitPolicy : Type := mkBitPolicy { bit_flags : Z }.

(** [BitPolicy::default]. *)
Definition BitPolicy_default : BitPolicy :=
  mkBitPolicy (BitwiseWriteFlags.to_u8 BitwiseWriteFlags.Default).

(** The struct that every constructor returns. *)
Definition bit_operation (t : OperationType) (ctx : list CdtContext)
    (bin : bytes) (code : CdtBitwiseOpType) (args : list CdtArgument)
    : Operation :=
  mkOperation t ctx (BinName bin)
    (CdtBitOp (mkCdtOperation (CdtBitwiseOpType.to_u8 code)
                 use_pack_cdt_bit_op args)).

Module Bitwise.

Definition resize (bin : bytes) (byte_size : Z)
    (resize_flags : option BitwiseResizeFlags) (policy : BitPolicy)
    : Operation :=
  bit_operation OperationType.BitWrite DEFAULT_CTX bin
    CdtBitwiseOpType.Resize
    ([ArgInt byte_size; ArgByte (bit_flags policy)] ++
     (match resize_flags with Some resize_flags => [ArgByte (BitwiseResizeFlags.to_u8 resize_flags)] | None => [] end)).

Definition insert (bin : bytes) (byte_offset : Z) (value : Value)
    (policy : BitPolicy) : Operation :=
  bit_operation OperationType.BitWrite DEFAULT_CTX bin
    CdtBitwiseOpType.Insert
    [ArgInt byte_offset; ArgValue value; ArgByte (bit_flags policy)].

Definition remove (bin : bytes) (byte_offset : Z) (byte_size : Z)
    (policy : BitPolicy) : Operation :=
  bit_operation OperationType.BitWrite DEFAULT_CTX bin
    CdtBitwiseOpType.Remove
    [ArgInt byte_offset; ArgInt byte_size; ArgByte (bit_flags policy)].

Definition set (bin : bytes) (bit_offset : Z) (bit_size : Z)
    (value : Value) (policy : BitPolicy) : Operation :=
  bit_operation OperationType.BitWrite DEFAULT_CTX bin
    CdtBitwiseOpType.Set_
    [ArgInt bit_offset; ArgInt bit_size; ArgValue value;
     ArgByte (bit_flags policy)].

Definition or (bin : bytes) (bit_offset : Z) (bit_size : Z)
    (value : Value) (policy : BitPolicy) : Operation :=
  bit_operation OperationType.BitWrite DEFAULT_CTX bin
    CdtBitwiseOpType.Or
    [ArgInt bit_offset; ArgInt bit_size; ArgValue value;
     ArgByte (bit_flags policy)].

Definition xor (bin : bytes) (bit_offset : Z) (bit_size : Z)
    (value : Value) (policy : BitPolicy) : Operation :=
  bit_operation OperationType.BitWrite DEFAULT_CTX bin
    CdtBitwiseOpType.Xor
    [ArgInt bit_offset; ArgInt bit_size; ArgValue value;
     ArgByte (bit_flags policy)].

Definition and (bin : bytes) (bit_offset : Z) (bit_size : Z)
    (value : Value) (policy : BitPolicy) : Operation :=
  bit_operation OperationType.BitWrite DEFAULT_CTX bin
    CdtBitwiseOpType.And
    [ArgInt bit_offset; ArgInt bit_size; ArgValue value;
     ArgByte (bit_flags policy)].

Definition not (bin : bytes) (bit_offset : Z) (bit_size : Z)
    (policy : BitPolicy) : Operation :=
  bit_operation OperationType.BitWrite DEFAULT_CTX bin
    CdtBitwiseOpType.Not
    [ArgInt bit_offset; ArgInt bit_size; ArgByte (bit_flags policy)].

Definition lshift (bin : bytes) (bit_offset : Z) (bit_size : Z)
    (shift : Z) (policy : BitPolicy) : Operation :=
  bit_operation OperationType.BitWrite DEFAULT_CTX bin
    CdtBitwiseOpType.LShift
    [ArgInt bit_offset; ArgInt bit_size; ArgInt shift;
     ArgByte (bit_flags policy)].

Definition rshift (bin : bytes) (bit_offset : Z) (bit_size : Z)
    (shift : Z) (policy : BitPolicy) : Operation :=
  bit_operation OperationType.BitWrite DEFAULT_CTX bin
    CdtBitwiseOpType.RShift
    [ArgInt bit_offset; ArgInt bit_size; ArgInt shift;
     ArgByte (bit_flags policy)].

Definition add (bin : bytes) (bit_offset : Z) (bit_size : Z) (value : Z)
    (signed : bool) (action : BitwiseOverflowActions) (policy : BitPolicy)
    : Operation :=
  let action_flags :=
    if signed then Z.lor (BitwiseOverflowActions.to_u8 action) 1
    else BitwiseOverflowActions.to_u8 action in
  bit_operation OperationType.BitWrite DEFAULT_CTX bin
    CdtBitwiseOpType.Add
    [ArgInt bit_offset; ArgInt bit_size; ArgInt value;
     ArgByte (bit_flags policy); ArgByte action_flags].

Definition subtract (bin : bytes) (bit_offset : Z) (bit_size : Z)
    (value : Z) (signed : bool) (action : BitwiseOverflowActions)
    (policy : BitPolicy) : Operation :=
  let action_flags :=
    if signed then Z.lor (BitwiseOverflowActions.to_u8 action) 1
    else BitwiseOverflowActions.to_u8 action in
  bit_operation OperationType.BitWrite DEFAULT_CTX bin
    CdtBitwiseOpType.Subtract
    [ArgInt bit_offset; ArgInt bit_size; ArgInt value;
     ArgByte (bit_flags policy); ArgByte action_flags].

Definition set_int (bin : bytes) (bit_offset : Z) (bit_size : Z)
    (value : Z) (policy : BitPolicy) : Operation :=
  bit_operation OperationType.BitWrite DEFAULT_CTX bin
    CdtBitwiseOpType.SetInt
    [ArgInt bit_offset; ArgInt bit_size; ArgInt value;
     ArgByte (bit_flags policy)].

Definition get (bin : bytes) (bit_offset : Z) (bit_size : Z) : Operation :=
  bit_operation OperationType.BitRead DEFAULT_CTX bin
    CdtBitwiseOpType.Get
    [ArgInt bit_offset; ArgInt bit_size].

Definition count (bin : bytes) (bit_offset : Z) (bit_size : Z) : Operation :=
  bit_operation OperationType.BitRead DEFAULT_CTX bin
    CdtBitwiseOpType.Count
    [ArgInt bit_offset; ArgInt bit_size].

Definition lscan (bin : bytes) (bit_offset : Z) (bit_size : Z)
    (value : bool) : Operation :=
  bit_operation OperationType.BitRead DEFAULT_CTX bin
    CdtBitwiseOpType.LScan
    [ArgInt bit_offset; ArgInt bit_size; ArgBool value].

Definition rscan (bin : bytes) (bit_offset : Z) (bit_size : Z)
    (value : bool) : Operation :=
  bit_operation OperationType.BitRead DEFAULT_CTX bin
    CdtBitwiseOpType.RScan
    [ArgInt bit_offset; ArgInt bit_size; ArgBool value].

Definition get_int (bin : bytes) (bit_offset : Z) (bit_size : Z)
    (signed : bool) : Operation :=
  bit_operation OperationType.BitRead DEFAULT_CTX bin
    CdtBitwiseOpType.GetInt
    ([ArgInt bit_offset; ArgInt bit_size] ++
     (if signed then [ArgByte 1] else [])).

End Bitwise.
