(* ===== verification/HllOperations.v ===== *)
(** * HyperLogLog operations ([src/operations/hll.rs])

    The constructors of HLL operations, packed by [pack_hll_op]. *)

From stdpp Require Import base list strings.
From Stdlib Require Import ZArith Lia.
From S2P Require Import Prelude ResultCodes Monad Wire Values Cdt Operations.

#[local] Set Warnings "-register-all".

Module HLLWriteFlags.

(** [enum HLLWriteFlags]. *)
Inductive HLLWriteFlags : Type :=
| Default
| CreateOnly
| UpdateOnly
| NoFail
| AllowFold.

(** [t as u8]. *)
Definition to_u8 (t : HLLWriteFlags) : Z :=
  match t with
  | Default => 0
  | CreateOnly => 1
  | UpdateOnly => 2
  | NoFail => 4
  | AllowFold => 8
  end.

#[global] Instance HLLWriteFlags_eq_dec : EqDecision HLLWriteFlags.
Proof. solve_decision. Defined.

End HLLWriteFlags.

Abbreviation HLLWriteFlags := HLLWriteFlags.HLLWriteFlags.

Module HLLOpType.

(** [enum HLLOpType]. *)
Inductive HLLOpType : Type :=
| Init
| Add
| SetUnion
| SetCount
| Fold
| Count
| Union
| UnionCount
| IntersectCount
| Similarity
| Describe.

(** [t as u8]. *)
Definition to_u8 (t : HLLOpType) : Z :=
  match t with
  | Init => 0
  | Add => 1
  | SetUnion => 2
  | SetCount => 3
  | Fold => 4
  | Count => 50
  | Union => 51
  | UnionCount => 52
  | IntersectCount => 53
  | Similarity => 54
  | Describe => 55
  end.

#[global] Instance HLLOpType_eq_dec : EqDecision HLLOpType.
Proof. solve_decision. Defined.

End HLLOpType.

Abbreviation HLLOpType := HLLOpType.HLLOpType.

(** [struct HLLPolicy]. *)
Record HLLPolicy : Type := mkHLLPolicy { hll_flags : HLLWriteFlags }.

(** [HLLPolicy::default]. *)
Definition HLLPolicy_default : HLLPolicy := mkHLLPolicy HLLWriteFlags.Default.

(** The struct that every constructor returns. *)
Definition hll_operation (t : OperationType) (ctx : list CdtContext)
    (bin : bytes) (code : HLLOpType) (args : list CdtArgument) : Operation :=
  mkOperation t ctx (BinName bin)
    (HLLOp (mkCdtOperation (HLLOpType.to_u8 code) use_pack_hll_op args)).

Module Hll.

Definition init_with_min_hash (policy : HLLPolicy) (bin : bytes)
    (index_bit_count : Z) (min_hash_bit_count : Z) : Operation :=
  hll_operation OperationType.HllWrite DEFAULT_CTX bin
    HLLOpType.Init
    [ArgInt index_bit_count; ArgInt min_hash_bit_count;
     ArgByte (HLLWriteFlags.to_u8 (hll_flags policy))].

Definition init (policy : HLLPolicy) (bin : bytes) (index_bit_count : Z)
    : Operation :=
  init_with_min_hash policy bin index_bit_count (-1).

Definition add_with_index_and_min_hash (policy : HLLPolicy) (bin : bytes)
    (list : list Value) (index_bit_count : Z) (min_hash_bit_count : Z)
    : Operation :=
  hll_operation OperationType.HllWrite DEFAULT_CTX bin
    HLLOpType.Add
    [ArgList list; ArgInt index_bit_count; ArgInt min_hash_bit_count;
     ArgByte (HLLWriteFlags.to_u8 (hll_flags policy))].

Definition add (policy : HLLPolicy) (bin : bytes) (list : list Value)
    : Operation :=
  add_with_index_and_min_hash policy bin list (-1) (-1).

Definition add_with_index (policy : HLLPolicy) (bin : bytes)
    (list : list Value) (index_bit_count : Z) : Operation :=
  add_with_index_and_min_hash policy bin list index_bit_count (-1).

Definition set_union (policy : HLLPolicy) (bin : bytes)
    (list : list Value) : Operation :=
  hll_operation OperationType.HllWrite DEFAULT_CTX bin
    HLLOpType.SetUnion
    [ArgList list; ArgByte (HLLWriteFlags.to_u8 (hll_flags policy))].

Definition refresh_count (bin : bytes) : Operation :=
  hll_operation OperationType.HllWrite DEFAULT_CTX bin
    HLLOpType.SetCount
    [].

Definition fold (bin : bytes) (index_bit_count : Z) : Operation :=
  hll_operation OperationType.HllWrite DEFAULT_CTX bin
    HLLOpType.Fold
    [ArgInt index_bit_count].

Definition get_count (bin : bytes) : Operation :=
  hll_operation OperationType.HllRead DEFAULT_CTX bin
    HLLOpType.Count
    [].

Definition get_union (bin : bytes) (list : list Value) : Operation :=
  hll_operation OperationType.HllRead DEFAULT_CTX bin
    HLLOpType.Union
    [ArgList list].

Definition get_union_count (bin : bytes) (list : list Value) : Operation :=
  hll_operation OperationType.HllRead DEFAULT_CTX bin
    HLLOpType.UnionCount
    [ArgList list].

Definition get_intersect_count (bin : bytes) (list : list Value) : Operation :=
  hll_operation OperationType.HllRead DEFAULT_CTX bin
    HLLOpType.IntersectCount
    [ArgList list].

Definition get_similarity (bin : bytes) (list : list Value) : Operation :=
  hll_operation OperationType.HllRead DEFAULT_CTX bin
    HLLOpType.Similarity
    [ArgList list].

Definition describe (bin : bytes) : Operation :=
  hll_operation OperationType.HllRead DEFAULT_CTX bin
    HLLOpType.Describe
    [].

End Hll.
