(* ===== verification/ExpressionBuilders.v ===== *)
(** * Building filter expressions ([src/expressions/mod.rs])

    The functions that build expression trees: metadata, bins, values, logic,
    comparison, arithmetic, control. *)

From stdpp Require Import base list strings.
From Stdlib Require Import ZArith Lia.
From S2P Require Import Prelude ResultCodes Monad Wire Values Cdt Expressions.

Module Exp.

Definition key (exp_type : ExpType) : FilterExpression :=
  FilterExpression_new (Some ExpOp.Key)
    (Some (Value.from_i64 (ExpType.to_i64 exp_type))) None None None None.

Definition key_exists : FilterExpression :=
  FilterExpression_new (Some ExpOp.KeyExists) None None None None None.

Definition int_bin (name : bytes) : FilterExpression :=
  FilterExpression_new (Some ExpOp.Bin) (Some (Value.from_string name)) None
    None (Some ExpType.INT) None.

Definition string_bin (name : bytes) : FilterExpression :=
  FilterExpression_new (Some ExpOp.Bin) (Some (Value.from_string name)) None
    None (Some ExpType.STRING) None.

Definition blob_bin (name : bytes) : FilterExpression :=
  FilterExpression_new (Some ExpOp.Bin) (Some (Value.from_string name)) None
    None (Some ExpType.BLOB) None.

Definition float_bin (name : bytes) : FilterExpression :=
  FilterExpression_new (Some ExpOp.Bin) (Some (Value.from_string name)) None
    None (Some ExpType.FLOAT) None.

Definition geo_bin (name : bytes) : FilterExpression :=
  FilterExpression_new (Some ExpOp.Bin) (Some (Value.from_string name)) None
    None (Some ExpType.GEO) None.

Definition list_bin (name : bytes) : FilterExpression :=
  FilterExpression_new (Some ExpOp.Bin) (Some (Value.from_string name)) None
    None (Some ExpType.LIST) None.

Definition map_bin (name : bytes) : FilterExpression :=
  FilterExpression_new (Some ExpOp.Bin) (Some (Value.from_string name)) None
    None (Some ExpType.MAP) None.

Definition hll_bin (name : bytes) : FilterExpression :=
  FilterExpression_new (Some ExpOp.Bin) (Some (Value.from_string name)) None
    None (Some ExpType.HLL) None.

Definition ne (left right : FilterExpression) : FilterExpression :=
  mkFilterExpression (Some ExpOp.NE) None None None None (Some [left; right])
    None.

Definition bin_type (name : bytes) : FilterExpression :=
  FilterExpression_new (Some ExpOp.BinType) (Some (Value.from_string name)) None
    None None None.

Definition int_val (val : Z) : FilterExpression :=
  FilterExpression_new None (Some (Value.from_i64 val)) None None None None.

Definition bin_exists (name : bytes) : FilterExpression :=
  ne (bin_type name)
    (int_val (ParticleType.to_u8 ParticleType.NULL)).

Definition set_name : FilterExpression :=
  FilterExpression_new (Some ExpOp.SetName) None None None None None.

Definition device_size : FilterExpression :=
  FilterExpression_new (Some ExpOp.DeviceSize) None None None None None.

Definition last_update : FilterExpression :=
  FilterExpression_new (Some ExpOp.LastUpdate) None None None None None.

Definition since_update : FilterExpression :=
  FilterExpression_new (Some ExpOp.SinceUpdate) None None None None None.

Definition void_time : FilterExpression :=
  FilterExpression_new (Some ExpOp.VoidTime) None None None None None.

Definition ttl : FilterExpression :=
  FilterExpression_new (Some ExpOp.TTL) None None None None None.

Definition is_tombstone : FilterExpression :=
  FilterExpression_new (Some ExpOp.IsTombstone) None None None None None.

Definition digest_modulo (modulo : Z) : FilterExpression :=
  FilterExpression_new (Some ExpOp.DigestModulo) (Some (Value.from_i64 modulo))
    None None None None.

Definition regex_compare (regex : bytes) (flags : Z) (bin : FilterExpression)
    : FilterExpression :=
  FilterExpression_new (Some ExpOp.Regex) (Some (Value.from_string regex))
    (Some bin) (Some flags) None None.

Definition geo_compare (left right : FilterExpression) : FilterExpression :=
  FilterExpression_new (Some ExpOp.Geo) None None None None
    (Some [left; right]).

Definition bool_val (val : bool) : FilterExpression :=
  FilterExpression_new None (Some (Value.from_bool val)) None None None None.

Definition string_val (val : bytes) : FilterExpression :=
  FilterExpression_new None (Some (Value.from_string val)) None None None None.

Definition float_val (val : Z) : FilterExpression :=
  FilterExpression_new None (Some (Value.from_f64 val)) None None None None.

Definition blob_val (val : bytes) : FilterExpression :=
  FilterExpression_new None (Some (Value.from_vec_u8 val)) None None None None.

Definition list_val (val : list Value) : FilterExpression :=
  FilterExpression_new (Some ExpOp.Quoted) (Some (Value.from_vec val)) None None
    None None.

Definition map_val (val : list (Value * Value)) : FilterExpression :=
  FilterExpression_new None (Some (Value.from_hashmap val)) None None None None.

Definition geo_val (val : bytes) : FilterExpression :=
  FilterExpression_new None (Some (Value.from_string val)) None None None None.

Definition nil : FilterExpression :=
  FilterExpression_new None (Some Value.Nil) None None None None.

Definition not (exp : FilterExpression) : FilterExpression :=
  mkFilterExpression (Some ExpOp.Not) None None None None (Some [exp]) None.

Definition and (exps : list FilterExpression) : FilterExpression :=
  mkFilterExpression (Some ExpOp.And) None None None None (Some exps) None.

Definition or (exps : list FilterExpression) : FilterExpression :=
  mkFilterExpression (Some ExpOp.Or) None None None None (Some exps) None.

Definition eq (left right : FilterExpression) : FilterExpression :=
  mkFilterExpression (Some ExpOp.EQ) None None None None (Some [left; right])
    None.

Definition gt (left right : FilterExpression) : FilterExpression :=
  mkFilterExpression (Some ExpOp.GT) None None None None (Some [left; right])
    None.

Definition ge (left right : FilterExpression) : FilterExpression :=
  mkFilterExpression (Some ExpOp.GE) None None None None (Some [left; right])
    None.

Definition lt (left right : FilterExpression) : FilterExpression :=
  mkFilterExpression (Some ExpOp.LT) None None None None (Some [left; right])
    None.

Definition le (left right : FilterExpression) : FilterExpression :=
  mkFilterExpression (Some ExpOp.LE) None None None None (Some [left; right])
    None.

Definition num_add (exps : list FilterExpression) : FilterExpression :=
  mkFilterExpression (Some ExpOp.Add) None None None None (Some exps) None.

Definition num_sub (exps : list FilterExpression) : FilterExpression :=
  mkFilterExpression (Some ExpOp.Sub) None None None None (Some exps) None.

Definition num_mul (exps : list FilterExpression) : FilterExpression :=
  mkFilterExpression (Some ExpOp.Mul) None None None None (Some exps) None.

Definition num_div (exps : list FilterExpression) : FilterExpression :=
  mkFilterExpression (Some ExpOp.Div) None None None None (Some exps) None.

Definition num_pow (base exponent : FilterExpression) : FilterExpression :=
  mkFilterExpression (Some ExpOp.Pow) None None None None
    (Some [base; exponent]) None.

Definition num_log (num base : FilterExpression) : FilterExpression :=
  mkFilterExpression (Some ExpOp.Log) None None None None (Some [num; base])
    None.

Definition num_mod (numerator denominator : FilterExpression)
    : FilterExpression :=
  mkFilterExpression (Some ExpOp.Mod) None None None None
    (Some [numerator; denominator]) None.

Definition num_abs (value : FilterExpression) : FilterExpression :=
  mkFilterExpression (Some ExpOp.Abs) None None None None (Some [value]) None.

Definition num_floor (num : FilterExpression) : FilterExpression :=
  mkFilterExpression (Some ExpOp.Floor) None None None None (Some [num]) None.

Definition num_ceil (num : FilterExpression) : FilterExpression :=
  mkFilterExpression (Some ExpOp.Ceil) None None None None (Some [num]) None.

Definition to_int (num : FilterExpression) : FilterExpression :=
  mkFilterExpression (Some ExpOp.ToInt) None None None None (Some [num]) None.

Definition to_float (num : FilterExpression) : FilterExpression :=
  mkFilterExpression (Some ExpOp.ToFloat) None None None None (Some [num]) None.

Definition int_and (exps : list FilterExpression) : FilterExpression :=
  mkFilterExpression (Some ExpOp.IntAnd) None None None None (Some exps) None.

Definition int_xor (exps : list FilterExpression) : FilterExpression :=
  mkFilterExpression (Some ExpOp.IntXor) None None None None (Some exps) None.

Definition int_not (exp : FilterExpression) : FilterExpression :=
  mkFilterExpression (Some ExpOp.IntNot) None None None None (Some [exp]) None.

Definition int_lshift (value shift : FilterExpression) : FilterExpression :=
  mkFilterExpression (Some ExpOp.IntLshift) None None None None
    (Some [value; shift]) None.

Definition int_rshift (value shift : FilterExpression) : FilterExpression :=
  mkFilterExpression (Some ExpOp.IntRshift) None None None None
    (Some [value; shift]) None.

Definition int_arshift (value shift : FilterExpression) : FilterExpression :=
  mkFilterExpression (Some ExpOp.IntARshift) None None None None
    (Some [value; shift]) None.

Definition int_count (exp : FilterExpression) : FilterExpression :=
  mkFilterExpression (Some ExpOp.IntCount) None None None None (Some [exp])
    None.

Definition int_lscan (value search : FilterExpression) : FilterExpression :=
  mkFilterExpression (Some ExpOp.IntLscan) None None None None
    (Some [value; search]) None.

Definition int_rscan (value search : FilterExpression) : FilterExpression :=
  mkFilterExpression (Some ExpOp.IntRscan) None None None None
    (Some [value; search]) None.

Definition min (exps : list FilterExpression) : FilterExpression :=
  mkFilterExpression (Some ExpOp.Min) None None None None (Some exps) None.

Definition max (exps : list FilterExpression) : FilterExpression :=
  mkFilterExpression (Some ExpOp.Max) None None None None (Some exps) None.

Definition cond (exps : list FilterExpression) : FilterExpression :=
  mkFilterExpression (Some ExpOp.Cond) None None None None (Some exps) None.

Definition exp_let (exps : list FilterExpression) : FilterExpression :=
  mkFilterExpression (Some ExpOp.Let) None None None None (Some exps) None.

Definition def (name : bytes) (value : FilterExpression) : FilterExpression :=
  mkFilterExpression None (Some (Value.from_string name)) None None None
    (Some [value]) None.

Definition var (name : bytes) : FilterExpression :=
  mkFilterExpression (Some ExpOp.Var) (Some (Value.from_string name)) None None
    None None None.

Definition unknown : FilterExpression :=
  mkFilterExpression (Some ExpOp.Unknown) None None None None None None.

End Exp.
