(* ===== verification/ListExpressions.v ===== *)
(** * List expressions ([src/expressions/lists.rs])

    Calls of list operations inside expressions. *)

From stdpp Require Import base list strings.
From Stdlib Require Import ZArith Lia.
From S2P Require Import Prelude ResultCodes Monad Wire Values Cdt Expressions.
From S2P Require Import Operations ExpressionBuilders.
From S2P Require Import ListOperations.

Import Exp(int_val, nil).

Module ListExp.

Definition MODULE : Z := 0.

(** A modifying call has the type of the collection that the context selects
    first. *)
Definition add_write (bin : FilterExpression) (ctx : list CdtContext)
    (arguments : list ExpressionArgument) : FilterExpression :=
  let return_type :=
    match ctx with
    | [] => ExpType.LIST
    | c :: _ =>
        if Z.land (ctx_id c) (CtxType.to_u8 CtxType.ListIndex) =? 0
        then ExpType.MAP else ExpType.LIST
    end in
  mkFilterExpression (Some ExpOp.Call) None (Some bin)
    (Some (Z.lor MODULE MODIFY)) (Some return_type) None (Some arguments).

Definition append (policy : ListPolicy) (value bin : FilterExpression)
    (ctx : list CdtContext) : FilterExpression :=
  let args :=
    [ArgumentValue (Value.from_i64 (CdtListOpType.to_u8 CdtListOpType.Append));
     ArgumentExpression value;
     ArgumentValue (Value.from_u8 (ListOrderType.to_u8 (attributes policy)));
     ArgumentValue (Value.from_u8 (ListWriteFlags.to_u8 (flags policy)));
     ArgumentContext ctx] in
  add_write bin ctx args.

Definition append_items (policy : ListPolicy) (list_ bin : FilterExpression)
    (ctx : list CdtContext) : FilterExpression :=
  let args :=
    [ArgumentValue (Value.from_i64 (CdtListOpType.to_u8 CdtListOpType.AppendItems));
     ArgumentExpression list_;
     ArgumentValue (Value.from_u8 (ListOrderType.to_u8 (attributes policy)));
     ArgumentValue (Value.from_u8 (ListWriteFlags.to_u8 (flags policy)));
     ArgumentContext ctx] in
  add_write bin ctx args.

Definition insert (policy : ListPolicy) (index value bin : FilterExpression)
    (ctx : list CdtContext) : FilterExpression :=
  let args :=
    [ArgumentValue (Value.from_i64 (CdtListOpType.to_u8 CdtListOpType.Insert));
     ArgumentExpression index; ArgumentExpression value;
     ArgumentValue (Value.from_u8 (ListWriteFlags.to_u8 (flags policy)));
     ArgumentContext ctx] in
  add_write bin ctx args.

Definition insert_items (policy : ListPolicy)
    (index list_ bin : FilterExpression) (ctx : list CdtContext)
    : FilterExpression :=
  let args :=
    [ArgumentValue (Value.from_i64 (CdtListOpType.to_u8 CdtListOpType.InsertItems));
     ArgumentExpression index; ArgumentExpression list_;
     ArgumentValue (Value.from_u8 (ListWriteFlags.to_u8 (flags policy)));
     ArgumentContext ctx] in
  add_write bin ctx args.

Definition increment (policy : ListPolicy) (index value bin : FilterExpression)
    (ctx : list CdtContext) : FilterExpression :=
  let args :=
    [ArgumentValue (Value.from_i64 (CdtListOpType.to_u8 CdtListOpType.Increment));
     ArgumentExpression index; ArgumentExpression value;
     ArgumentValue (Value.from_u8 (ListOrderType.to_u8 (attributes policy)));
     ArgumentValue (Value.from_u8 (ListWriteFlags.to_u8 (flags policy)));
     ArgumentContext ctx] in
  add_write bin ctx args.

Definition set (policy : ListPolicy) (index value bin : FilterExpression)
    (ctx : list CdtContext) : FilterExpression :=
  let args :=
    [ArgumentValue (Value.from_i64 (CdtListOpType.to_u8 CdtListOpType.Set_));
     ArgumentExpression index; ArgumentExpression value;
     ArgumentValue (Value.from_u8 (ListWriteFlags.to_u8 (flags policy)));
     ArgumentContext ctx] in
  add_write bin ctx args.

Definition clear (bin : FilterExpression) (ctx : list CdtContext)
    : FilterExpression :=
  let args :=
    [ArgumentValue (Value.from_i64 (CdtListOpType.to_u8 CdtListOpType.Clear));
     ArgumentContext ctx] in
  add_write bin ctx args.

Definition sort (sort_flags : ListSortFlags) (bin : FilterExpression)
    (ctx : list CdtContext) : FilterExpression :=
  let args :=
    [ArgumentValue (Value.from_i64 (CdtListOpType.to_u8 CdtListOpType.Sort));
     ArgumentValue (Value.from_u8 (ListSortFlags.to_u8 sort_flags));
     ArgumentContext ctx] in
  add_write bin ctx args.

Definition remove_by_value (value bin : FilterExpression)
    (ctx : list CdtContext) : FilterExpression :=
  let args :=
    [ArgumentValue (Value.from_i64 (CdtListOpType.to_u8 CdtListOpType.RemoveByValue));
     ArgumentValue (Value.from_u8 (ListReturnType.to_u8 ListReturnType.None));
     ArgumentExpression value; ArgumentContext ctx] in
  add_write bin ctx args.

Definition remove_by_value_list (values bin : FilterExpression)
    (ctx : list CdtContext) : FilterExpression :=
  let args :=
    [ArgumentValue (Value.from_i64 (CdtListOpType.to_u8 CdtListOpType.RemoveByValueList));
     ArgumentValue (Value.from_u8 (ListReturnType.to_u8 ListReturnType.None));
     ArgumentExpression values; ArgumentContext ctx] in
  add_write bin ctx args.

Definition remove_by_value_range
    (value_begin value_end : option FilterExpression) (bin : FilterExpression)
    (ctx : list CdtContext) : FilterExpression :=
  let args :=
    [ArgumentContext ctx;
     ArgumentValue (Value.from_i64 (CdtListOpType.to_u8 CdtListOpType.RemoveByValueInterval));
     ArgumentValue (Value.from_u8 (ListReturnType.to_u8 ListReturnType.None))] ++
    match value_begin with
    | Some val_beg => [ArgumentExpression val_beg]
    | None => [ArgumentExpression nil]
    end ++
    match value_end with
    | Some val_end => [ArgumentExpression val_end]
    | None => []
    end in
  add_write bin ctx args.

Definition remove_by_value_relative_rank_range
    (value rank bin : FilterExpression) (ctx : list CdtContext)
    : FilterExpression :=
  let args :=
    [ArgumentValue (Value.from_i64 (CdtListOpType.to_u8 CdtListOpType.RemoveByValueRelRankRange));
     ArgumentValue (Value.from_u8 (ListReturnType.to_u8 ListReturnType.None));
     ArgumentExpression value; ArgumentExpression rank; ArgumentContext ctx] in
  add_write bin ctx args.

Definition remove_by_value_relative_rank_range_count
    (value rank count bin : FilterExpression) (ctx : list CdtContext)
    : FilterExpression :=
  let args :=
    [ArgumentValue (Value.from_i64 (CdtListOpType.to_u8 CdtListOpType.RemoveByValueRelRankRange));
     ArgumentValue (Value.from_u8 (ListReturnType.to_u8 ListReturnType.None));
     ArgumentExpression value; ArgumentExpression rank;
     ArgumentExpression count; ArgumentContext ctx] in
  add_write bin ctx args.

Definition remove_by_index (index bin : FilterExpression)
    (ctx : list CdtContext) : FilterExpression :=
  let args :=
    [ArgumentValue (Value.from_i64 (CdtListOpType.to_u8 CdtListOpType.RemoveByIndex));
     ArgumentValue (Value.from_u8 (ListReturnType.to_u8 ListReturnType.None));
     ArgumentExpression index; ArgumentContext ctx] in
  add_write bin ctx args.

Definition remove_by_index_range (index bin : FilterExpression)
    (ctx : list CdtContext) : FilterExpression :=
  let args :=
    [ArgumentValue (Value.from_i64 (CdtListOpType.to_u8 CdtListOpType.RemoveByIndexRange));
     ArgumentValue (Value.from_u8 (ListReturnType.to_u8 ListReturnType.None));
     ArgumentExpression index; ArgumentContext ctx] in
  add_write bin ctx args.

Definition remove_by_index_range_count (index count bin : FilterExpression)
    (ctx : list CdtContext) : FilterExpression :=
  let args :=
    [ArgumentValue (Value.from_i64 (CdtListOpType.to_u8 CdtListOpType.RemoveByIndexRange));
     ArgumentValue (Value.from_u8 (ListReturnType.to_u8 ListReturnType.None));
     ArgumentExpression index; ArgumentExpression count; ArgumentContext ctx] in
  add_write bin ctx args.

Definition remove_by_rank (rank bin : FilterExpression) (ctx : list CdtContext)
    : FilterExpression :=
  let args :=
    [ArgumentValue (Value.from_i64 (CdtListOpType.to_u8 CdtListOpType.RemoveByRank));
     ArgumentValue (Value.from_u8 (ListReturnType.to_u8 ListReturnType.None));
     ArgumentExpression rank; ArgumentContext ctx] in
  add_write bin ctx args.

Definition remove_by_rank_range (rank bin : FilterExpression)
    (ctx : list CdtContext) : FilterExpression :=
  let args :=
    [ArgumentValue (Value.from_i64 (CdtListOpType.to_u8 CdtListOpType.RemoveByRankRange));
     ArgumentValue (Value.from_u8 (ListReturnType.to_u8 ListReturnType.None));
     ArgumentExpression rank; ArgumentContext ctx] in
  add_write bin ctx args.

Definition remove_by_rank_range_count (rank count bin : FilterExpression)
    (ctx : list CdtContext) : FilterExpression :=
  let args :=
    [ArgumentValue (Value.from_i64 (CdtListOpType.to_u8 CdtListOpType.RemoveByRankRange));
     ArgumentValue (Value.from_u8 (ListReturnType.to_u8 ListReturnType.None));
     ArgumentExpression rank; ArgumentExpression count; ArgumentContext ctx] in
  add_write bin ctx args.

Definition add_read (bin : FilterExpression) (return_type : ExpType)
    (arguments : list ExpressionArgument) : FilterExpression :=
  mkFilterExpression (Some ExpOp.Call) None (Some bin) (Some MODULE)
    (Some return_type) None (Some arguments).

Definition size (bin : FilterExpression) (ctx : list CdtContext)
    : FilterExpression :=
  let args :=
    [ArgumentValue (Value.from_i64 (CdtListOpType.to_u8 CdtListOpType.Size));
     ArgumentContext ctx] in
  add_read bin ExpType.INT args.

Definition get_value_type (return_type : ListReturnType) : ExpType :=
  if Z.land (ListReturnType.to_u8 return_type)
       (Z.lxor 255 (ListReturnType.to_u8 ListReturnType.Inverted))
     =? ListReturnType.to_u8 ListReturnType.Values
  then ExpType.LIST else ExpType.INT.

Definition get_by_value (return_type : ListReturnType)
    (value bin : FilterExpression) (ctx : list CdtContext) : FilterExpression :=
  let args :=
    [ArgumentValue (Value.from_i64 (CdtListOpType.to_u8 CdtListOpType.GetByValue));
     ArgumentValue (Value.from_u8 (ListReturnType.to_u8 return_type));
     ArgumentExpression value; ArgumentContext ctx] in
  add_read bin (get_value_type return_type) args.

Definition get_by_value_range (return_type : ListReturnType)
    (value_begin value_end : option FilterExpression) (bin : FilterExpression)
    (ctx : list CdtContext) : FilterExpression :=
  let args :=
    [ArgumentContext ctx;
     ArgumentValue (Value.from_i64 (CdtListOpType.to_u8 CdtListOpType.GetByValueInterval));
     ArgumentValue (Value.from_u8 (ListReturnType.to_u8 return_type))] ++
    match value_begin with
    | Some val_beg => [ArgumentExpression val_beg]
    | None => [ArgumentExpression nil]
    end ++
    match value_end with
    | Some val_end => [ArgumentExpression val_end]
    | None => []
    end in
  add_read bin (get_value_type return_type) args.

Definition get_by_value_list (return_type : ListReturnType)
    (values bin : FilterExpression) (ctx : list CdtContext) : FilterExpression :=
  let args :=
    [ArgumentValue (Value.from_i64 (CdtListOpType.to_u8 CdtListOpType.GetByValueList));
     ArgumentValue (Value.from_u8 (ListReturnType.to_u8 return_type));
     ArgumentExpression values; ArgumentContext ctx] in
  add_read bin (get_value_type return_type) args.

Definition get_by_value_relative_rank_range (return_type : ListReturnType)
    (value rank bin : FilterExpression) (ctx : list CdtContext)
    : FilterExpression :=
  let args :=
    [ArgumentValue (Value.from_i64 (CdtListOpType.to_u8 CdtListOpType.GetByValueRelRankRange));
     ArgumentValue (Value.from_u8 (ListReturnType.to_u8 return_type));
     ArgumentExpression value; ArgumentExpression rank; ArgumentContext ctx] in
  add_read bin (get_value_type return_type) args.

Definition get_by_value_relative_rank_range_count (return_type : ListReturnType)
    (value rank count bin : FilterExpression) (ctx : list CdtContext)
    : FilterExpression :=
  let args :=
    [ArgumentValue (Value.from_i64 (CdtListOpType.to_u8 CdtListOpType.GetByValueRelRankRange));
     ArgumentValue (Value.from_u8 (ListReturnType.to_u8 return_type));
     ArgumentExpression value; ArgumentExpression rank;
     ArgumentExpression count; ArgumentContext ctx] in
  add_read bin (get_value_type return_type) args.

Definition get_by_index (return_type : ListReturnType) (value_type : ExpType)
    (index bin : FilterExpression) (ctx : list CdtContext) : FilterExpression :=
  let args :=
    [ArgumentValue (Value.from_i64 (CdtListOpType.to_u8 CdtListOpType.GetByIndex));
     ArgumentValue (Value.from_u8 (ListReturnType.to_u8 return_type));
     ArgumentExpression index; ArgumentContext ctx] in
  add_read bin value_type args.

Definition get_by_index_range (return_type : ListReturnType)
    (index bin : FilterExpression) (ctx : list CdtContext) : FilterExpression :=
  let args :=
    [ArgumentValue (Value.from_i64 (CdtListOpType.to_u8 CdtListOpType.GetByIndexRange));
     ArgumentValue (Value.from_u8 (ListReturnType.to_u8 return_type));
     ArgumentExpression index; ArgumentContext ctx] in
  add_read bin (get_value_type return_type) args.

Definition get_by_index_range_count (return_type : ListReturnType)
    (index count bin : FilterExpression) (ctx : list CdtContext)
    : FilterExpression :=
  let args :=
    [ArgumentValue (Value.from_i64 (CdtListOpType.to_u8 CdtListOpType.GetByIndexRange));
     ArgumentValue (Value.from_u8 (ListReturnType.to_u8 return_type));
     ArgumentExpression index; ArgumentExpression count; ArgumentContext ctx] in
  add_read bin (get_value_type return_type) args.

Definition get_by_rank (return_type : ListReturnType) (value_type : ExpType)
    (rank bin : FilterExpression) (ctx : list CdtContext) : FilterExpression :=
  let args :=
    [ArgumentValue (Value.from_i64 (CdtListOpType.to_u8 CdtListOpType.GetByRank));
     ArgumentValue (Value.from_u8 (ListReturnType.to_u8 return_type));
     ArgumentExpression rank; ArgumentContext ctx] in
  add_read bin value_type args.

Definition get_by_rank_range (return_type : ListReturnType)
    (rank bin : FilterExpression) (ctx : list CdtContext) : FilterExpression :=
  let args :=
    [ArgumentValue (Value.from_i64 (CdtListOpType.to_u8 CdtListOpType.GetByRankRange));
     ArgumentValue (Value.from_u8 (ListReturnType.to_u8 return_type));
     ArgumentExpression rank; ArgumentContext ctx] in
  add_read bin (get_value_type return_type) args.

Definition get_by_rank_range_count (return_type : ListReturnType)
    (rank count bin : FilterExpression) (ctx : list CdtContext)
    : FilterExpression :=
  let args :=
    [ArgumentValue (Value.from_i64 (CdtListOpType.to_u8 CdtListOpType.GetByRankRange));
     ArgumentValue (Value.from_u8 (ListReturnType.to_u8 return_type));
     ArgumentExpression rank; ArgumentExpression count; ArgumentContext ctx] in
  add_read bin (get_value_type return_type) args.

End ListExp.
