(* ===== verification/MapExpressions.v ===== *)
(** * Map expressions ([src/expressions/maps.rs])

    Calls of map operations inside expressions. *)

From stdpp Require Import base list strings.
From Stdlib Require Import ZArith Lia.
From S2P Require Import Prelude ResultCodes Monad Wire Values Cdt Expressions.
From S2P Require Import Operations ExpressionBuilders.
From S2P Require Import ListOperations.
From S2P Require Import MapOperations.

Import Exp(int_val, nil).

Module MapExp.

Definition MODULE : Z := 0.

(** A modifying call has the type of the collection that the context selects
    first. *)
Definition add_write (bin : FilterExpression) (ctx : list CdtContext)
    (arguments : list ExpressionArgument) : FilterExpression :=
  let return_type :=
    match ctx with
    | [] => ExpType.MAP
    | c :: _ =>
        if Z.land (ctx_id c) (CtxType.to_u8 CtxType.ListIndex) =? 0
        then ExpType.MAP else ExpType.LIST
    end in
  mkFilterExpression (Some ExpOp.Call) None (Some bin)
    (Some (Z.lor MODULE MODIFY)) (Some return_type) None (Some arguments).

Definition put (policy : MapPolicy) (key value bin : FilterExpression)
    (ctx : list CdtContext) : FilterExpression :=
  let op := map_write_op policy false in
  let args :=
    if CdtMapOpType.to_u8 op =? CdtMapOpType.to_u8 CdtMapOpType.Replace
    then [ArgumentContext ctx;
          ArgumentValue (Value.from_u8 (CdtMapOpType.to_u8 op));
          ArgumentExpression key; ArgumentExpression value]
    else [ArgumentContext ctx;
          ArgumentValue (Value.from_u8 (CdtMapOpType.to_u8 op));
          ArgumentExpression key; ArgumentExpression value;
          ArgumentValue (Value.from_u8 (MapOrder.to_u8 (order policy)))] in
  add_write bin ctx args.

Definition put_items (policy : MapPolicy) (map bin : FilterExpression)
    (ctx : list CdtContext) : FilterExpression :=
  let op := map_write_op policy true in
  let args :=
    if CdtMapOpType.to_u8 op =? CdtMapOpType.to_u8 CdtMapOpType.Replace
    then [ArgumentContext ctx;
          ArgumentValue (Value.from_u8 (CdtMapOpType.to_u8 op));
          ArgumentExpression map]
    else [ArgumentContext ctx;
          ArgumentValue (Value.from_u8 (CdtMapOpType.to_u8 op));
          ArgumentExpression map;
          ArgumentValue (Value.from_u8 (MapOrder.to_u8 (order policy)))] in
  add_write bin ctx args.

Definition increment (policy : MapPolicy) (key incr bin : FilterExpression)
    (ctx : list CdtContext) : FilterExpression :=
  let args :=
    [ArgumentValue (Value.from_u8 (CdtMapOpType.to_u8 CdtMapOpType.Increment));
     ArgumentExpression key; ArgumentExpression incr; ArgumentContext ctx;
     ArgumentValue (Value.from_u8 (MapOrder.to_u8 (order policy)))] in
  add_write bin ctx args.

Definition clear (bin : FilterExpression) (ctx : list CdtContext)
    : FilterExpression :=
  let args :=
    [ArgumentValue (Value.from_u8 (CdtMapOpType.to_u8 CdtMapOpType.Clear));
     ArgumentContext ctx] in
  add_write bin ctx args.

Definition remove_by_key (key bin : FilterExpression) (ctx : list CdtContext)
    : FilterExpression :=
  let args :=
    [ArgumentValue (Value.from_u8 (CdtMapOpType.to_u8 CdtMapOpType.RemoveByKey));
     ArgumentValue (Value.from_u8 (MapReturnType.to_u8 MapReturnType.None));
     ArgumentExpression key; ArgumentContext ctx] in
  add_write bin ctx args.

Definition remove_by_key_list (keys bin : FilterExpression)
    (ctx : list CdtContext) : FilterExpression :=
  let args :=
    [ArgumentValue (Value.from_u8 (CdtMapOpType.to_u8 CdtMapOpType.RemoveKeyList));
     ArgumentValue (Value.from_u8 (MapReturnType.to_u8 MapReturnType.None));
     ArgumentExpression keys; ArgumentContext ctx] in
  add_write bin ctx args.

Definition remove_by_key_range (key_begin key_end : option FilterExpression)
    (bin : FilterExpression) (ctx : list CdtContext) : FilterExpression :=
  let args :=
    [ArgumentContext ctx;
     ArgumentValue (Value.from_u8 (CdtMapOpType.to_u8 CdtMapOpType.RemoveByKeyInterval));
     ArgumentValue (Value.from_u8 (MapReturnType.to_u8 MapReturnType.None))] ++
    match key_begin with
    | Some val_beg => [ArgumentExpression val_beg]
    | None => [ArgumentExpression nil]
    end ++
    match key_end with
    | Some val_end => [ArgumentExpression val_end]
    | None => []
    end in
  add_write bin ctx args.

Definition remove_by_key_relative_index_range (key index bin : FilterExpression)
    (ctx : list CdtContext) : FilterExpression :=
  let args :=
    [ArgumentValue (Value.from_u8 (CdtMapOpType.to_u8 CdtMapOpType.RemoveByKeyRelIndexRange));
     ArgumentValue (Value.from_u8 (MapReturnType.to_u8 MapReturnType.None));
     ArgumentExpression key; ArgumentExpression index; ArgumentContext ctx] in
  add_write bin ctx args.

Definition remove_by_key_relative_index_range_count
    (key index count bin : FilterExpression) (ctx : list CdtContext)
    : FilterExpression :=
  let args :=
    [ArgumentValue (Value.from_u8 (CdtMapOpType.to_u8 CdtMapOpType.RemoveByKeyRelIndexRange));
     ArgumentValue (Value.from_u8 (MapReturnType.to_u8 MapReturnType.None));
     ArgumentExpression key; ArgumentExpression index; ArgumentExpression count;
     ArgumentContext ctx] in
  add_write bin ctx args.

Definition remove_by_value (value bin : FilterExpression)
    (ctx : list CdtContext) : FilterExpression :=
  let args :=
    [ArgumentValue (Value.from_u8 (CdtMapOpType.to_u8 CdtMapOpType.RemoveByValue));
     ArgumentValue (Value.from_u8 (MapReturnType.to_u8 MapReturnType.None));
     ArgumentExpression value; ArgumentContext ctx] in
  add_write bin ctx args.

Definition remove_by_value_list (values bin : FilterExpression)
    (ctx : list CdtContext) : FilterExpression :=
  let args :=
    [ArgumentValue (Value.from_u8 (CdtMapOpType.to_u8 CdtMapOpType.RemoveValueList));
     ArgumentValue (Value.from_u8 (MapReturnType.to_u8 MapReturnType.None));
     ArgumentExpression values; ArgumentContext ctx] in
  add_write bin ctx args.

Definition remove_by_value_range
    (value_begin value_end : option FilterExpression) (bin : FilterExpression)
    (ctx : list CdtContext) : FilterExpression :=
  let args :=
    [ArgumentContext ctx;
     ArgumentValue (Value.from_u8 (CdtMapOpType.to_u8 CdtMapOpType.RemoveByValueInterval));
     ArgumentValue (Value.from_u8 (MapReturnType.to_u8 MapReturnType.None))] ++
    match value_begin with
    | Some val_beg => [ArgumentExpression val_beg]
    | None => [ArgumentExpression nil]
    end ++
    match value_end with
    | Some val_end => [ArgumentExpression val_end]
    | None => []
    end in
  add_write bin ctx args.

Definition remove_by_value_relative_rank_range
    (value rank bin : FilterExpression) (ctx : list CdtContext)
    : FilterExpression :=
  let args :=
    [ArgumentValue (Value.from_u8 (CdtMapOpType.to_u8 CdtMapOpType.RemoveByValueRelRankRange));
     ArgumentValue (Value.from_u8 (MapReturnType.to_u8 MapReturnType.None));
     ArgumentExpression value; ArgumentExpression rank; ArgumentContext ctx] in
  add_write bin ctx args.

Definition remove_by_value_relative_rank_range_count
    (value rank count bin : FilterExpression) (ctx : list CdtContext)
    : FilterExpression :=
  let args :=
    [ArgumentValue (Value.from_u8 (CdtMapOpType.to_u8 CdtMapOpType.RemoveByValueRelRankRange));
     ArgumentValue (Value.from_u8 (MapReturnType.to_u8 MapReturnType.None));
     ArgumentExpression value; ArgumentExpression rank;
     ArgumentExpression count; ArgumentContext ctx] in
  add_write bin ctx args.

Definition remove_by_index (index bin : FilterExpression)
    (ctx : list CdtContext) : FilterExpression :=
  let args :=
    [ArgumentValue (Value.from_u8 (CdtMapOpType.to_u8 CdtMapOpType.RemoveByIndex));
     ArgumentValue (Value.from_u8 (MapReturnType.to_u8 MapReturnType.None));
     ArgumentExpression index; ArgumentContext ctx] in
  add_write bin ctx args.

Definition remove_by_index_range (index bin : FilterExpression)
    (ctx : list CdtContext) : FilterExpression :=
  let args :=
    [ArgumentValue (Value.from_u8 (CdtMapOpType.to_u8 CdtMapOpType.RemoveByIndexRange));
     ArgumentValue (Value.from_u8 (MapReturnType.to_u8 MapReturnType.None));
     ArgumentExpression index; ArgumentContext ctx] in
  add_write bin ctx args.

Definition remove_by_index_range_count (index count bin : FilterExpression)
    (ctx : list CdtContext) : FilterExpression :=
  let args :=
    [ArgumentValue (Value.from_u8 (CdtMapOpType.to_u8 CdtMapOpType.RemoveByIndexRange));
     ArgumentValue (Value.from_u8 (MapReturnType.to_u8 MapReturnType.None));
     ArgumentExpression index; ArgumentExpression count; ArgumentContext ctx] in
  add_write bin ctx args.

Definition remove_by_rank (rank bin : FilterExpression) (ctx : list CdtContext)
    : FilterExpression :=
  let args :=
    [ArgumentValue (Value.from_u8 (CdtMapOpType.to_u8 CdtMapOpType.RemoveByRank));
     ArgumentValue (Value.from_u8 (MapReturnType.to_u8 MapReturnType.None));
     ArgumentExpression rank; ArgumentContext ctx] in
  add_write bin ctx args.

Definition remove_by_rank_range (rank bin : FilterExpression)
    (ctx : list CdtContext) : FilterExpression :=
  let args :=
    [ArgumentValue (Value.from_u8 (CdtMapOpType.to_u8 CdtMapOpType.RemoveByRankRange));
     ArgumentValue (Value.from_u8 (MapReturnType.to_u8 MapReturnType.None));
     ArgumentExpression rank; ArgumentContext ctx] in
  add_write bin ctx args.

Definition remove_by_rank_range_count (rank count bin : FilterExpression)
    (ctx : list CdtContext) : FilterExpression :=
  let args :=
    [ArgumentValue (Value.from_u8 (CdtMapOpType.to_u8 CdtMapOpType.RemoveByRankRange));
     ArgumentValue (Value.from_u8 (MapReturnType.to_u8 MapReturnType.None));
     ArgumentExpression rank; ArgumentExpression count; ArgumentContext ctx] in
  add_write bin ctx args.

Definition add_read (bin : FilterExpression) (return_type : ExpType)
    (arguments : list ExpressionArgument) : FilterExpression :=
  mkFilterExpression (Some ExpOp.Call) None (Some bin) (Some MODULE)
    (Some return_type) None (Some arguments).

Definition size (bin : FilterExpression) (ctx : list CdtContext)
    : FilterExpression :=
  let args :=
    [ArgumentValue (Value.from_u8 (CdtMapOpType.to_u8 CdtMapOpType.Size));
     ArgumentContext ctx] in
  add_read bin ExpType.INT args.

Definition get_by_key (return_type : MapReturnType) (value_type : ExpType)
    (key bin : FilterExpression) (ctx : list CdtContext) : FilterExpression :=
  let args :=
    [ArgumentValue (Value.from_u8 (CdtMapOpType.to_u8 CdtMapOpType.GetByKey));
     ArgumentValue (Value.from_u8 (MapReturnType.to_u8 return_type));
     ArgumentExpression key; ArgumentContext ctx] in
  add_read bin value_type args.

Definition get_value_type (return_type : MapReturnType) : ExpType :=
  let t :=
    Z.land (MapReturnType.to_u8 return_type)
      (Z.lxor 255 (MapReturnType.to_u8 MapReturnType.Inverted)) in
  if (t =? MapReturnType.to_u8 MapReturnType.Key)
     || (t =? MapReturnType.to_u8 MapReturnType.Value)
  then ExpType.LIST
  else if t =? MapReturnType.to_u8 MapReturnType.KeyValue then ExpType.MAP
  else ExpType.INT.

Definition get_by_key_range (return_type : MapReturnType)
    (key_begin key_end : option FilterExpression) (bin : FilterExpression)
    (ctx : list CdtContext) : FilterExpression :=
  let args :=
    [ArgumentContext ctx;
     ArgumentValue (Value.from_u8 (CdtMapOpType.to_u8 CdtMapOpType.GetByKeyInterval));
     ArgumentValue (Value.from_u8 (MapReturnType.to_u8 return_type))] ++
    match key_begin with
    | Some val_beg => [ArgumentExpression val_beg]
    | None => [ArgumentExpression nil]
    end ++
    match key_end with
    | Some val_end => [ArgumentExpression val_end]
    | None => []
    end in
  add_read bin (get_value_type return_type) args.

Definition get_by_key_list (return_type : MapReturnType)
    (keys bin : FilterExpression) (ctx : list CdtContext) : FilterExpression :=
  let args :=
    [ArgumentValue (Value.from_u8 (CdtMapOpType.to_u8 CdtMapOpType.GetByKeyList));
     ArgumentValue (Value.from_u8 (MapReturnType.to_u8 return_type));
     ArgumentExpression keys; ArgumentContext ctx] in
  add_read bin (get_value_type return_type) args.

Definition get_by_key_relative_index_range (return_type : MapReturnType)
    (key index bin : FilterExpression) (ctx : list CdtContext) : FilterExpression :=
  let args :=
    [ArgumentValue (Value.from_u8 (CdtMapOpType.to_u8 CdtMapOpType.GetByKeyRelIndexRange));
     ArgumentValue (Value.from_u8 (MapReturnType.to_u8 return_type));
     ArgumentExpression key; ArgumentExpression index; ArgumentContext ctx] in
  add_read bin (get_value_type return_type) args.

Definition get_by_key_relative_index_range_count (return_type : MapReturnType)
    (key index count bin : FilterExpression) (ctx : list CdtContext)
    : FilterExpression :=
  let args :=
    [ArgumentValue (Value.from_u8 (CdtMapOpType.to_u8 CdtMapOpType.GetByKeyRelIndexRange));
     ArgumentValue (Value.from_u8 (MapReturnType.to_u8 return_type));
     ArgumentExpression key; ArgumentExpression index; ArgumentExpression count;
     ArgumentContext ctx] in
  add_read bin (get_value_type return_type) args.

Definition get_by_value (return_type : MapReturnType)
    (value bin : FilterExpression) (ctx : list CdtContext) : FilterExpression :=
  let args :=
    [ArgumentValue (Value.from_u8 (CdtMapOpType.to_u8 CdtMapOpType.GetByValue));
     ArgumentValue (Value.from_u8 (MapReturnType.to_u8 return_type));
     ArgumentExpression value; ArgumentContext ctx] in
  add_read bin (get_value_type return_type) args.

Definition get_by_value_range (return_type : MapReturnType)
    (value_begin value_end : option FilterExpression) (bin : FilterExpression)
    (ctx : list CdtContext) : FilterExpression :=
  let args :=
    [ArgumentContext ctx;
     ArgumentValue (Value.from_u8 (CdtMapOpType.to_u8 CdtMapOpType.GetByValueInterval));
     ArgumentValue (Value.from_u8 (MapReturnType.to_u8 return_type))] ++
    match value_begin with
    | Some val_beg => [ArgumentExpression val_beg]
    | None => [ArgumentExpression nil]
    end ++
    match value_end with
    | Some val_end => [ArgumentExpression val_end]
    | None => []
    end in
  add_read bin (get_value_type return_type) args.

Definition get_by_value_list (return_type : MapReturnType)
    (values bin : FilterExpression) (ctx : list CdtContext) : FilterExpression :=
  let args :=
    [ArgumentValue (Value.from_u8 (CdtMapOpType.to_u8 CdtMapOpType.GetByValueList));
     ArgumentValue (Value.from_u8 (MapReturnType.to_u8 return_type));
     ArgumentExpression values; ArgumentContext ctx] in
  add_read bin (get_value_type return_type) args.

Definition get_by_value_relative_rank_range (return_type : MapReturnType)
    (value rank bin : FilterExpression) (ctx : list CdtContext)
    : FilterExpression :=
  let args :=
    [ArgumentValue (Value.from_u8 (CdtMapOpType.to_u8 CdtMapOpType.GetByValueRelRankRange));
     ArgumentValue (Value.from_u8 (MapReturnType.to_u8 return_type));
     ArgumentExpression value; ArgumentExpression rank; ArgumentContext ctx] in
  add_read bin (get_value_type return_type) args.

Definition get_by_value_relative_rank_range_count (return_type : MapReturnType)
    (value rank count bin : FilterExpression) (ctx : list CdtContext)
    : FilterExpression :=
  let args :=
    [ArgumentValue (Value.from_u8 (CdtMapOpType.to_u8 CdtMapOpType.GetByValueRelRankRange));
     ArgumentValue (Value.from_u8 (MapReturnType.to_u8 return_type));
     ArgumentExpression value; ArgumentExpression rank;
     ArgumentExpression count; ArgumentContext ctx] in
  add_read bin (get_value_type return_type) args.

Definition get_by_index (return_type : MapReturnType) (value_type : ExpType)
    (index bin : FilterExpression) (ctx : list CdtContext) : FilterExpression :=
  let args :=
    [ArgumentValue (Value.from_u8 (CdtMapOpType.to_u8 CdtMapOpType.GetByIndex));
     ArgumentValue (Value.from_u8 (MapReturnType.to_u8 return_type));
     ArgumentExpression index; ArgumentContext ctx] in
  add_read bin value_type args.

Definition get_by_index_range (return_type : MapReturnType)
    (index bin : FilterExpression) (ctx : list CdtContext) : FilterExpression :=
  let args :=
    [ArgumentValue (Value.from_u8 (CdtMapOpType.to_u8 CdtMapOpType.GetByIndexRange));
     ArgumentValue (Value.from_u8 (MapReturnType.to_u8 return_type));
     ArgumentExpression index; ArgumentContext ctx] in
  add_read bin (get_value_type return_type) args.

Definition get_by_index_range_count (return_type : MapReturnType)
    (index count bin : FilterExpression) (ctx : list CdtContext)
    : FilterExpression :=
  let args :=
    [ArgumentValue (Value.from_u8 (CdtMapOpType.to_u8 CdtMapOpType.GetByIndexRange));
     ArgumentValue (Value.from_u8 (MapReturnType.to_u8 return_type));
     ArgumentExpression index; ArgumentExpression count; ArgumentContext ctx] in
  add_read bin (get_value_type return_type) args.

Definition get_by_rank (return_type : MapReturnType) (value_type : ExpType)
    (rank bin : FilterExpression) (ctx : list CdtContext) : FilterExpression :=
  let args :=
    [ArgumentValue (Value.from_u8 (CdtMapOpType.to_u8 CdtMapOpType.GetByRank));
     ArgumentValue (Value.from_u8 (MapReturnType.to_u8 return_type));
     ArgumentExpression rank; ArgumentContext ctx] in
  add_read bin value_type args.

Definition get_by_rank_range (return_type : MapReturnType)
    (rank bin : FilterExpression) (ctx : list CdtContext) : FilterExpression :=
  let args :=
    [ArgumentValue (Value.from_u8 (CdtMapOpType.to_u8 CdtMapOpType.GetByRankRange));
     ArgumentValue (Value.from_u8 (MapReturnType.to_u8 return_type));
     ArgumentExpression rank; ArgumentContext ctx] in
  add_read bin (get_value_type return_type) args.

Definition get_by_rank_range_count (return_type : MapReturnType)
    (rank count bin : FilterExpression) (ctx : list CdtContext)
    : FilterExpression :=
  let args :=
    [ArgumentValue (Value.from_u8 (CdtMapOpType.to_u8 CdtMapOpType.GetByRankRange));
     ArgumentValue (Value.from_u8 (MapReturnType.to_u8 return_type));
     ArgumentExpression rank; ArgumentExpression count; ArgumentContext ctx] in
  add_read bin (get_value_type return_type) args.

End MapExp.
