(* ===== verification/BitExpressions.v ===== *)
(** * Bitwise expressions ([src/expressions/bitwise.rs])

    Calls of bitwise operations inside expressions. *)

From stdpp Require Import base list strings.
From Stdlib Require Import ZArith Lia.
From S2P Require Import Prelude ResultCodes Monad Wire Values Cdt Expressions.
From S2P Require Import Operations ExpressionBuilders.
From S2P Require Import BitOperations.

Module BitExpOp.

(** [enum BitExpOp]. *)
Inductive BitExpOp : Type :=
| Resize
| Insert
| Remove
| Set_
| Or
| Xor
| And
| Not
| LShift
| RShift
| Add
| Subtract
| SetInt
| Get
| Count
| LScan
| RScan
| GetInt.

(** [t as i64]. *)
Definition to_i64 (t : BitExpOp) : Z :=
  match t with
  | Resize => 0
  | Insert => 1
  | Remove => 2
  | Set_ => 3
  | Or => 4
  | Xor => 5
  | And => 6
  | Not => 7
  | LShift => 8
  | RShift => 9
  | Add => 10
  | Subtract => 11
  | SetInt => 12
  | Get => 50
  | Count => 51
  | LScan => 52
  | RScan => 53
  | GetInt => 54
  end.

#[global] Instance BitExpOp_eq_dec : EqDecision BitExpOp.
Proof. solve_decision. Defined.

End BitExpOp.

Abbreviation BitExpOp := BitExpOp.BitExpOp.

Import Exp(int_val, nil).

Module BitExp.

Definition MODULE : Z := 1.

Definition INT_FLAGS_SIGNED : Z := 1.

Definition add_write (bin : FilterExpression)
    (arguments : list ExpressionArgument) : FilterExpression :=
  mkFilterExpression (Some ExpOp.Call) None (Some bin)
    (Some (Z.lor MODULE MODIFY)) (Some ExpType.BLOB) None (Some arguments).

Definition resize (policy : BitPolicy) (byte_size : FilterExpression)
    (resize_flags : BitwiseResizeFlags) (bin : FilterExpression)
    : FilterExpression :=
  let args :=
    [ArgumentValue (Value.from_i64 (BitExpOp.to_i64 BitExpOp.Resize));
     ArgumentExpression byte_size;
     ArgumentValue (Value.from_u8 (bit_flags policy));
     ArgumentValue (Value.from_u8 (BitwiseResizeFlags.to_u8 resize_flags))] in
  add_write bin args.

Definition insert (policy : BitPolicy)
    (byte_offset value bin : FilterExpression) : FilterExpression :=
  let args :=
    [ArgumentValue (Value.from_i64 (BitExpOp.to_i64 BitExpOp.Insert));
     ArgumentExpression byte_offset; ArgumentExpression value;
     ArgumentValue (Value.from_u8 (bit_flags policy))] in
  add_write bin args.

Definition remove (policy : BitPolicy)
    (byte_offset byte_size bin : FilterExpression) : FilterExpression :=
  let args :=
    [ArgumentValue (Value.from_i64 (BitExpOp.to_i64 BitExpOp.Remove));
     ArgumentExpression byte_offset; ArgumentExpression byte_size;
     ArgumentValue (Value.from_u8 (bit_flags policy))] in
  add_write bin args.

Definition set (policy : BitPolicy)
    (bit_offset bit_size value bin : FilterExpression) : FilterExpression :=
  let args :=
    [ArgumentValue (Value.from_i64 (BitExpOp.to_i64 BitExpOp.Set_));
     ArgumentExpression bit_offset; ArgumentExpression bit_size;
     ArgumentExpression value; ArgumentValue (Value.from_u8 (bit_flags policy))] in
  add_write bin args.

Definition or (policy : BitPolicy)
    (bit_offset bit_size value bin : FilterExpression) : FilterExpression :=
  let args :=
    [ArgumentValue (Value.from_i64 (BitExpOp.to_i64 BitExpOp.Or));
     ArgumentExpression bit_offset; ArgumentExpression bit_size;
     ArgumentExpression value; ArgumentValue (Value.from_u8 (bit_flags policy))] in
  add_write bin args.

Definition xor (policy : BitPolicy)
    (bit_offset bit_size value bin : FilterExpression) : FilterExpression :=
  let args :=
    [ArgumentValue (Value.from_i64 (BitExpOp.to_i64 BitExpOp.Xor));
     ArgumentExpression bit_offset; ArgumentExpression bit_size;
     ArgumentExpression value; ArgumentValue (Value.from_u8 (bit_flags policy))] in
  add_write bin args.

Definition and (policy : BitPolicy)
    (bit_offset bit_size value bin : FilterExpression) : FilterExpression :=
  let args :=
    [ArgumentValue (Value.from_i64 (BitExpOp.to_i64 BitExpOp.And));
     ArgumentExpression bit_offset; ArgumentExpression bit_size;
     ArgumentExpression value; ArgumentValue (Value.from_u8 (bit_flags policy))] in
  add_write bin args.

Definition not (policy : BitPolicy) (bit_offset bit_size bin : FilterExpression)
    : FilterExpression :=
  let args :=
    [ArgumentValue (Value.from_i64 (BitExpOp.to_i64 BitExpOp.Not));
     ArgumentExpression bit_offset; ArgumentExpression bit_size;
     ArgumentValue (Value.from_u8 (bit_flags policy))] in
  add_write bin args.

Definition lshift (policy : BitPolicy)
    (bit_offset bit_size shift bin : FilterExpression) : FilterExpression :=
  let args :=
    [ArgumentValue (Value.from_i64 (BitExpOp.to_i64 BitExpOp.LShift));
     ArgumentExpression bit_offset; ArgumentExpression bit_size;
     ArgumentExpression shift; ArgumentValue (Value.from_u8 (bit_flags policy))] in
  add_write bin args.

Definition rshift (policy : BitPolicy)
    (bit_offset bit_size shift bin : FilterExpression) : FilterExpression :=
  let args :=
    [ArgumentValue (Value.from_i64 (BitExpOp.to_i64 BitExpOp.RShift));
     ArgumentExpression bit_offset; ArgumentExpression bit_size;
     ArgumentExpression shift; ArgumentValue (Value.from_u8 (bit_flags policy))] in
  add_write bin args.

Definition add (policy : BitPolicy)
    (bit_offset bit_size value : FilterExpression) (signed : bool)
    (action : BitwiseOverflowActions) (bin : FilterExpression)
    : FilterExpression :=
  let flags :=
    if signed
    then Z.lor (BitwiseOverflowActions.to_u8 action) (as_u8 INT_FLAGS_SIGNED)
    else BitwiseOverflowActions.to_u8 action in
  let args :=
    [ArgumentValue (Value.from_i64 (BitExpOp.to_i64 BitExpOp.Add));
     ArgumentExpression bit_offset; ArgumentExpression bit_size;
     ArgumentExpression value; ArgumentValue (Value.from_u8 (bit_flags policy));
     ArgumentValue (Value.from_u8 flags)] in
  add_write bin args.

Definition subtract (policy : BitPolicy)
    (bit_offset bit_size value : FilterExpression) (signed : bool)
    (action : BitwiseOverflowActions) (bin : FilterExpression)
    : FilterExpression :=
  let flags :=
    if signed
    then Z.lor (BitwiseOverflowActions.to_u8 action) (as_u8 INT_FLAGS_SIGNED)
    else BitwiseOverflowActions.to_u8 action in
  let args :=
    [ArgumentValue (Value.from_i64 (BitExpOp.to_i64 BitExpOp.Subtract));
     ArgumentExpression bit_offset; ArgumentExpression bit_size;
     ArgumentExpression value; ArgumentValue (Value.from_u8 (bit_flags policy));
     ArgumentValue (Value.from_u8 flags)] in
  add_write bin args.

Definition set_int (policy : BitPolicy)
    (bit_offset bit_size value bin : FilterExpression) : FilterExpression :=
  let args :=
    [ArgumentValue (Value.from_i64 (BitExpOp.to_i64 BitExpOp.SetInt));
     ArgumentExpression bit_offset; ArgumentExpression bit_size;
     ArgumentExpression value; ArgumentValue (Value.from_u8 (bit_flags policy))] in
  add_write bin args.

Definition add_read (bin : FilterExpression) (return_type : ExpType)
    (arguments : list ExpressionArgument) : FilterExpression :=
  mkFilterExpression (Some ExpOp.Call) None (Some bin) (Some MODULE)
    (Some return_type) None (Some arguments).

Definition get (bit_offset bit_size bin : FilterExpression)
    : FilterExpression :=
  let args :=
    [ArgumentValue (Value.from_i64 (BitExpOp.to_i64 BitExpOp.Get));
     ArgumentExpression bit_offset; ArgumentExpression bit_size] in
  add_read bin ExpType.BLOB args.

Definition count (bit_offset bit_size bin : FilterExpression)
    : FilterExpression :=
  let args :=
    [ArgumentValue (Value.from_i64 (BitExpOp.to_i64 BitExpOp.Count));
     ArgumentExpression bit_offset; ArgumentExpression bit_size] in
  add_read bin ExpType.INT args.

Definition lscan (bit_offset bit_size value bin : FilterExpression)
    : FilterExpression :=
  let args :=
    [ArgumentValue (Value.from_i64 (BitExpOp.to_i64 BitExpOp.LScan));
     ArgumentExpression bit_offset; ArgumentExpression bit_size;
     ArgumentExpression value] in
  add_read bin ExpType.INT args.

Definition rscan (bit_offset bit_size value bin : FilterExpression)
    : FilterExpression :=
  let args :=
    [ArgumentValue (Value.from_i64 (BitExpOp.to_i64 BitExpOp.RScan));
     ArgumentExpression bit_offset; ArgumentExpression bit_size;
     ArgumentExpression value] in
  add_read bin ExpType.INT args.

Definition get_int (bit_offset bit_size : FilterExpression) (signed : bool)
    (bin : FilterExpression) : FilterExpression :=
  let args :=
    [ArgumentValue (Value.from_i64 (BitExpOp.to_i64 BitExpOp.GetInt));
     ArgumentExpression bit_offset; ArgumentExpression bit_size] ++
    (if signed then [ArgumentValue (Value.from_i64 INT_FLAGS_SIGNED)] else []) in
  add_read bin ExpType.INT args.

End BitExp.
