(* ===== verification/HllExpressions.v ===== *)
(** * HyperLogLog expressions ([src/expressions/hll.rs])

    Calls of HLL operations inside expressions. *)

From stdpp Require Import base list strings.
From Stdlib Require Import ZArith Lia.
From S2P Require Import Prelude ResultCodes Monad Wire Values Cdt Expressions.
From S2P Require Import Operations ExpressionBuilders.
From S2P Require Import HllOperations.

Module HllExpOp.

(** [enum HllExpOp]. *)
Inductive HllExpOp : Type :=
| Init
| Add
| Count
| Union
| UnionCount
| IntersectCount
| Similarity
| Describe
| MayContain.

(** [t as i64]. *)
Definition to_i64 (t : HllExpOp) : Z :=
  match t with
  | Init => 0
  | Add => 1
  | Count => 50
  | Union => 51
  | UnionCount => 52
  | IntersectCount => 53
  | Similarity => 54
  | Describe => 55
  | MayContain => 56
  end.

#[global] Instance HllExpOp_eq_dec : EqDecision HllExpOp.
Proof. solve_decision. Defined.

End HllExpOp.

Abbreviation HllExpOp := HllExpOp.HllExpOp.

Import Exp(int_val, nil).

Module HllExp.

Definition MODULE : Z := 2.

Definition add_write (bin : FilterExpression)
    (arguments : list ExpressionArgument) : FilterExpression :=
  mkFilterExpression (Some ExpOp.Call) None (Some bin)
    (Some (Z.lor MODULE MODIFY)) (Some ExpType.HLL) None (Some arguments).

Definition init_with_min_hash (policy : HLLPolicy)
    (index_bit_count min_hash_count bin : FilterExpression) : FilterExpression :=
  add_write bin
    [ArgumentValue (Value.from_i64 (HllExpOp.to_i64 HllExpOp.Init));
     ArgumentExpression index_bit_count; ArgumentExpression min_hash_count;
     ArgumentValue (Value.from_i64 (HLLWriteFlags.to_u8 (hll_flags policy)))].

Definition init (policy : HLLPolicy) (index_bit_count bin : FilterExpression)
    : FilterExpression :=
  init_with_min_hash policy index_bit_count (int_val (-1)) bin.

Definition add_with_index_and_min_hash (policy : HLLPolicy)
    (list_ index_bit_count min_hash_count bin : FilterExpression)
    : FilterExpression :=
  add_write bin
    [ArgumentValue (Value.from_i64 (HllExpOp.to_i64 HllExpOp.Add));
     ArgumentExpression list_; ArgumentExpression index_bit_count;
     ArgumentExpression min_hash_count;
     ArgumentValue (Value.from_i64 (HLLWriteFlags.to_u8 (hll_flags policy)))].

Definition add (policy : HLLPolicy) (list_ bin : FilterExpression)
    : FilterExpression :=
  add_with_index_and_min_hash policy list_ (int_val (-1)) (int_val (-1)) bin.

Definition add_with_index (policy : HLLPolicy)
    (list_ index_bit_count bin : FilterExpression) : FilterExpression :=
  add_with_index_and_min_hash policy list_ index_bit_count (int_val (-1)) bin.

Definition add_read (bin : FilterExpression) (return_type : ExpType)
    (arguments : list ExpressionArgument) : FilterExpression :=
  mkFilterExpression (Some ExpOp.Call) None (Some bin) (Some MODULE)
    (Some return_type) None (Some arguments).

Definition get_count (bin : FilterExpression) : FilterExpression :=
  add_read bin ExpType.INT
    [ArgumentValue (Value.from_i64 (HllExpOp.to_i64 HllExpOp.Count))].

Definition get_union (list_ bin : FilterExpression) : FilterExpression :=
  add_read bin ExpType.HLL
    [ArgumentValue (Value.from_i64 (HllExpOp.to_i64 HllExpOp.Union));
     ArgumentExpression list_].

Definition get_union_count (list_ bin : FilterExpression) : FilterExpression :=
  add_read bin ExpType.INT
    [ArgumentValue (Value.from_i64 (HllExpOp.to_i64 HllExpOp.UnionCount));
     ArgumentExpression list_].

Definition get_intersect_count (list_ bin : FilterExpression)
    : FilterExpression :=
  add_read bin ExpType.INT
    [ArgumentValue (Value.from_i64 (HllExpOp.to_i64 HllExpOp.IntersectCount));
     ArgumentExpression list_].

Definition get_similarity (list_ bin : FilterExpression) : FilterExpression :=
  add_read bin ExpType.FLOAT
    [ArgumentValue (Value.from_i64 (HllExpOp.to_i64 HllExpOp.Similarity));
     ArgumentExpression list_].

Definition describe (bin : FilterExpression) : FilterExpression :=
  add_read bin ExpType.LIST
    [ArgumentValue (Value.from_i64 (HllExpOp.to_i64 HllExpOp.Describe))].

Definition may_contain (list_ bin : FilterExpression) : FilterExpression :=
  add_read bin ExpType.INT
    [ArgumentValue (Value.from_i64 (HllExpOp.to_i64 HllExpOp.MayContain));
     ArgumentExpression list_].

End HllExp.
