(* ===== verification/BuilderFacts.v ===== *)
(** * Built expressions are sound

    Every function of [expressions/*.rs] that builds an expression, applied to
    sound operands, gives a sound expression: packing it neither panics nor
    announces counts that do not match ([WellFormed]).  What the calls of collection
    operations are packed to is in [OperationFacts]. *)

From stdpp Require Import base list strings decidable.
From Stdlib Require Import ZArith Lia.
From S2P Require Import Prelude ResultCodes Monad ByteOrder Wire Buffer Values.
From S2P Require Import Cdt Encoder EncoderFacts MsgPack Expressions.
From S2P Require Import WellFormed Operations ListOperations.
From S2P Require Import MapOperations BitOperations HllOperations.
From S2P Require Import ExpressionBuilders ListExpressions MapExpressions.
From S2P Require Import BitExpressions HllExpressions.

(** ** All builders *)

(** The functions of [expressions/mod.rs] but [exp_let] and [def]. *)
Definition basic_expressions (value_type : ExpType) (s : bytes) (i : Z)
    (signed : bool) (values : list Value) (entries : list (Value * Value))
    (x1 x2 : FilterExpression) (l : list FilterExpression)
    : list FilterExpression :=
   [Exp.key value_type; Exp.key_exists; Exp.int_bin s; Exp.string_bin s;
    Exp.blob_bin s; Exp.float_bin s; Exp.geo_bin s; Exp.list_bin s;
    Exp.map_bin s; Exp.hll_bin s; Exp.ne x1 x2; Exp.bin_type s; Exp.int_val i;
    Exp.bin_exists s; Exp.set_name; Exp.device_size; Exp.last_update;
    Exp.since_update; Exp.void_time; Exp.ttl; Exp.is_tombstone;
    Exp.digest_modulo i; Exp.regex_compare s i x1; Exp.geo_compare x1 x2;
    Exp.bool_val signed; Exp.string_val s; Exp.float_val i; Exp.blob_val s;
    Exp.list_val values; Exp.map_val entries; Exp.geo_val s; Exp.nil;
    Exp.not x1; Exp.and l; Exp.or l; Exp.eq x1 x2; Exp.gt x1 x2; Exp.ge x1 x2;
    Exp.lt x1 x2; Exp.le x1 x2; Exp.num_add l; Exp.num_sub l; Exp.num_mul l;
    Exp.num_div l; Exp.num_pow x1 x2; Exp.num_log x1 x2; Exp.num_mod x1 x2;
    Exp.num_abs x1; Exp.num_floor x1; Exp.num_ceil x1; Exp.to_int x1;
    Exp.to_float x1; Exp.int_and l; Exp.int_xor l; Exp.int_not x1;
    Exp.int_lshift x1 x2; Exp.int_rshift x1 x2; Exp.int_arshift x1 x2;
    Exp.int_count x1; Exp.int_lscan x1 x2; Exp.int_rscan x1 x2; Exp.min l;
    Exp.max l; Exp.cond l; Exp.var s; Exp.unknown].

Definition list_expressions (policy : ListPolicy) (sort_flags : ListSortFlags)
    (return_type : ListReturnType) (value_type : ExpType)
    (x1 x2 x3 x4 : FilterExpression) (o1 o2 : option FilterExpression)
    (ctx : list CdtContext) : list FilterExpression :=
   [ListExp.append policy x1 x2 ctx; ListExp.append_items policy x1 x2 ctx;
    ListExp.insert policy x1 x2 x3 ctx;
    ListExp.insert_items policy x1 x2 x3 ctx;
    ListExp.increment policy x1 x2 x3 ctx; ListExp.set policy x1 x2 x3 ctx;
    ListExp.clear x1 ctx; ListExp.sort sort_flags x1 ctx;
    ListExp.remove_by_value x1 x2 ctx; ListExp.remove_by_value_list x1 x2 ctx;
    ListExp.remove_by_value_range o1 o2 x1 ctx;
    ListExp.remove_by_value_relative_rank_range x1 x2 x3 ctx;
    ListExp.remove_by_value_relative_rank_range_count x1 x2 x3 x4 ctx;
    ListExp.remove_by_index x1 x2 ctx; ListExp.remove_by_index_range x1 x2 ctx;
    ListExp.remove_by_index_range_count x1 x2 x3 ctx;
    ListExp.remove_by_rank x1 x2 ctx; ListExp.remove_by_rank_range x1 x2 ctx;
    ListExp.remove_by_rank_range_count x1 x2 x3 ctx; ListExp.size x1 ctx;
    ListExp.get_by_value return_type x1 x2 ctx;
    ListExp.get_by_value_range return_type o1 o2 x1 ctx;
    ListExp.get_by_value_list return_type x1 x2 ctx;
    ListExp.get_by_value_relative_rank_range return_type x1 x2 x3 ctx;
    ListExp.get_by_value_relative_rank_range_count return_type x1 x2 x3 x4 ctx;
    ListExp.get_by_index return_type value_type x1 x2 ctx;
    ListExp.get_by_index_range return_type x1 x2 ctx;
    ListExp.get_by_index_range_count return_type x1 x2 x3 ctx;
    ListExp.get_by_rank return_type value_type x1 x2 ctx;
    ListExp.get_by_rank_range return_type x1 x2 ctx;
    ListExp.get_by_rank_range_count return_type x1 x2 x3 ctx].

Definition map_expressions (policy : MapPolicy) (return_type : MapReturnType)
    (value_type : ExpType) (x1 x2 x3 x4 : FilterExpression)
    (o1 o2 : option FilterExpression) (ctx : list CdtContext)
    : list FilterExpression :=
   [MapExp.put policy x1 x2 x3 ctx; MapExp.put_items policy x1 x2 ctx;
    MapExp.increment policy x1 x2 x3 ctx; MapExp.clear x1 ctx;
    MapExp.remove_by_key x1 x2 ctx; MapExp.remove_by_key_list x1 x2 ctx;
    MapExp.remove_by_key_range o1 o2 x1 ctx;
    MapExp.remove_by_key_relative_index_range x1 x2 x3 ctx;
    MapExp.remove_by_key_relative_index_range_count x1 x2 x3 x4 ctx;
    MapExp.remove_by_value x1 x2 ctx; MapExp.remove_by_value_list x1 x2 ctx;
    MapExp.remove_by_value_range o1 o2 x1 ctx;
    MapExp.remove_by_value_relative_rank_range x1 x2 x3 ctx;
    MapExp.remove_by_value_relative_rank_range_count x1 x2 x3 x4 ctx;
    MapExp.remove_by_index x1 x2 ctx; MapExp.remove_by_index_range x1 x2 ctx;
    MapExp.remove_by_index_range_count x1 x2 x3 ctx;
    MapExp.remove_by_rank x1 x2 ctx; MapExp.remove_by_rank_range x1 x2 ctx;
    MapExp.remove_by_rank_range_count x1 x2 x3 ctx; MapExp.size x1 ctx;
    MapExp.get_by_key return_type value_type x1 x2 ctx;
    MapExp.get_by_key_range return_type o1 o2 x1 ctx;
    MapExp.get_by_key_list return_type x1 x2 ctx;
    MapExp.get_by_key_relative_index_range return_type x1 x2 x3 ctx;
    MapExp.get_by_key_relative_index_range_count return_type x1 x2 x3 x4 ctx;
    MapExp.get_by_value return_type x1 x2 ctx;
    MapExp.get_by_value_range return_type o1 o2 x1 ctx;
    MapExp.get_by_value_list return_type x1 x2 ctx;
    MapExp.get_by_value_relative_rank_range return_type x1 x2 x3 ctx;
    MapExp.get_by_value_relative_rank_range_count return_type x1 x2 x3 x4 ctx;
    MapExp.get_by_index return_type value_type x1 x2 ctx;
    MapExp.get_by_index_range return_type x1 x2 ctx;
    MapExp.get_by_index_range_count return_type x1 x2 x3 ctx;
    MapExp.get_by_rank return_type value_type x1 x2 ctx;
    MapExp.get_by_rank_range return_type x1 x2 ctx;
    MapExp.get_by_rank_range_count return_type x1 x2 x3 ctx].

Definition bit_expressions (policy : BitPolicy)
    (resize_flags : BitwiseResizeFlags) (action : BitwiseOverflowActions)
    (signed : bool) (x1 x2 x3 x4 : FilterExpression) : list FilterExpression :=
   [BitExp.resize policy x1 resize_flags x2; BitExp.insert policy x1 x2 x3;
    BitExp.remove policy x1 x2 x3; BitExp.set policy x1 x2 x3 x4;
    BitExp.or policy x1 x2 x3 x4; BitExp.xor policy x1 x2 x3 x4;
    BitExp.and policy x1 x2 x3 x4; BitExp.not policy x1 x2 x3;
    BitExp.lshift policy x1 x2 x3 x4; BitExp.rshift policy x1 x2 x3 x4;
    BitExp.add policy x1 x2 x3 signed action x4;
    BitExp.subtract policy x1 x2 x3 signed action x4;
    BitExp.set_int policy x1 x2 x3 x4; BitExp.get x1 x2 x3;
    BitExp.count x1 x2 x3; BitExp.lscan x1 x2 x3 x4; BitExp.rscan x1 x2 x3 x4;
    BitExp.get_int x1 x2 signed x3].

Definition hll_expressions (policy : HLLPolicy)
    (x1 x2 x3 x4 : FilterExpression) : list FilterExpression :=
   [HllExp.init_with_min_hash policy x1 x2 x3; HllExp.init policy x1 x2;
    HllExp.add_with_index_and_min_hash policy x1 x2 x3 x4;
    HllExp.add policy x1 x2; HllExp.add_with_index policy x1 x2 x3;
    HllExp.get_count x1; HllExp.get_union x1 x2; HllExp.get_union_count x1 x2;
    HllExp.get_intersect_count x1 x2; HllExp.get_similarity x1 x2;
    HllExp.describe x1; HllExp.may_contain x1 x2].

(** ** Soundness *)

Section Sound.
Context `{BO : ByteOrder} `{VF : ValueFmt}.

Lemma sound_value v :
  is_Some (enc_value v) ->
  sound (mkFilterExpression None (Some v) None None None None None).
Proof. intros H. split; [reflexivity|exact H]. Qed.

(** An operator with at most a value. *)
Lemma sound_plain op val :
  match val with Some v => is_Some (enc_value v) | None => True end ->
  match op with
  | ExpOp.Regex | ExpOp.Call | ExpOp.Bin | ExpOp.BinType | ExpOp.Var => False
  | _ => True
  end ->
  sound (mkFilterExpression (Some op) val None None None None None).
Proof.
  intros Hv Hop. split; [destruct val; reflexivity|].
  assert (is_Some (enc_plain_command op val)) as H.
  { unfold enc_plain_command. destruct val as [v|];
      do 2 (try apply opt_app_is_Some; try apply is_Some_some); exact Hv. }
  destruct op; try contradiction; destruct val; exact H.
Qed.

Lemma sound_bin ty s :
  sound (mkFilterExpression (Some ExpOp.Bin) (Some (Value.String s)) None None
           (Some ty) None None).
Proof. split; [reflexivity|apply is_Some_some]. Qed.

Lemma sound_name op s :
  op = ExpOp.BinType \/ op = ExpOp.Var ->
  sound (mkFilterExpression (Some op) (Some (Value.String s)) None None None None
           None).
Proof. intros [-> | ->]; (split; [reflexivity|apply is_Some_some]). Qed.

Lemma sound_regex s flags e :
  sound e ->
  sound (mkFilterExpression (Some ExpOp.Regex) (Some (Value.String s)) (Some e)
           (Some flags) None None None).
Proof.
  intros [He Hs]. split.
  - apply andb_true_iff in He as [Hc Hi]. unfold one_object.
    cbn [counted exp_items]. rewrite Hc, Hi. reflexivity.
  - cbn [enc_exp]. repeat (apply opt_app_is_Some; [apply is_Some_some|]). exact Hs.
Qed.

End Sound.

Ltac forall_list := repeat first [ apply Forall_nil_2 | apply Forall_cons_2 ].

(** Goals on the argument lists of calls. *)
Ltac sound_args :=
  repeat match goal with
         | |- Forall sound_arg (match ?o with _ => _ end ++ _) => destruct o
         | |- Forall sound_arg (_ ++ _) => apply Forall_app; split
         | |- Forall sound_arg (match ?o with _ => _ end) => destruct o
         | |- Forall sound_arg (if ?b then _ else _) => destruct b
         end;
  forall_list; cbn [sound_arg];
  first [ assumption | apply is_Some_some | apply sound_value, is_Some_some ].

(** At most one context. *)
Ltac sound_context := repeat case_match; cbn; repeat case_match; lia.

Section Builders.
Context `{BO : ByteOrder} `{VF : ValueFmt}.

(** The builders of [expressions/mod.rs], applied to sound operands and to
    values that can be packed, build sound expressions. *)
Theorem basic_builders_sound (value_type : ExpType) (s : bytes) (i : Z)
    (signed : bool) (values : list Value) (entries : list (Value * Value))
    (x1 x2 : FilterExpression) (l : list FilterExpression)
    (defs : list (bytes * FilterExpression)) :
  is_Some (enc_list values) -> is_Some (enc_map entries) ->
  sound x1 -> sound x2 -> Forall sound l ->
  Forall (fun d => sound d.2) defs ->
  Forall sound
    (basic_expressions value_type s i signed values entries x1 x2 l) /\
  sound (Exp.exp_let (((fun d => Exp.def d.1 d.2) <$> defs) ++ [x1])).
Proof.
  intros Hv He H1 H2 Hl Hd. split; [|apply sound_let; assumption].
  unfold basic_expressions.
  forall_list; first
    [ apply sound_bin | apply sound_name; auto | apply sound_regex; assumption
    | apply sound_operator; [discriminate|]; try exact Hl; forall_list;
      first [assumption | apply sound_value, is_Some_some | apply sound_name; auto]
    | apply sound_plain; [|exact I]; first [exact I | apply is_Some_some | assumption]
    | apply sound_value; first [apply is_Some_some | assumption] ].
Qed.

(** Every call of a list, map, bitwise or HLL operation, applied to sound
    operands and a context whose values can be packed, is sound. *)
Theorem call_builders_sound (lp : ListPolicy) (mp : MapPolicy) (bp : BitPolicy)
    (hp : HLLPolicy) (sort_flags : ListSortFlags) (lr : ListReturnType)
    (mr : MapReturnType) (value_type : ExpType)
    (resize_flags : BitwiseResizeFlags) (action : BitwiseOverflowActions)
    (signed : bool) (x1 x2 x3 x4 : FilterExpression)
    (o1 o2 : option FilterExpression) (ctx : list CdtContext) :
  Forall (fun c => is_Some (enc_value (ctx_value c))) ctx ->
  sound x1 -> sound x2 -> sound x3 -> sound x4 ->
  on_option sound o1 -> on_option sound o2 ->
  Forall sound
    (list_expressions lp sort_flags lr value_type x1 x2 x3 x4 o1 o2 ctx ++
     map_expressions mp mr value_type x1 x2 x3 x4 o1 o2 ctx ++
     bit_expressions bp resize_flags action signed x1 x2 x3 x4 ++
     hll_expressions hp x1 x2 x3 x4).
Proof.
  intros Hctx H1 H2 H3 H4 Ho1 Ho2.
  apply Forall_app; split; [|apply Forall_app; split; [|apply Forall_app; split]].
  - unfold list_expressions. forall_list;
      (apply sound_call; [assumption|sound_args|sound_context]).
  - unfold map_expressions. forall_list;
      (apply sound_call; [assumption|sound_args|sound_context]).
  - unfold bit_expressions. forall_list;
      (apply sound_call; [assumption|sound_args|sound_context]).
  - unfold hll_expressions. forall_list;
      (apply sound_call; [assumption|sound_args|sound_context]).
Qed.

End Builders.

Section Witnesses.

#[local] Existing Instance valuefmt_model.

Lemma sample_sound i : sound (Exp.int_val i).
Proof. apply sound_value, is_Some_some. Qed.

Lemma basic_builders_sound_witness :
  sound (Exp.exp_let
    [Exp.def (str "x") (Exp.int_val 1); Exp.eq (Exp.var (str "x")) (Exp.int_val 2)]).
Proof.
  apply (basic_builders_sound ExpType.INT (str "a") 0 true [] []
           (Exp.eq (Exp.var (str "x")) (Exp.int_val 2)) (Exp.int_val 1) []
           [(str "x", Exp.int_val 1)]).
  - eexists. vm_compute. reflexivity.
  - eexists. vm_compute. reflexivity.
  - split; [reflexivity|]. eexists. vm_compute. reflexivity.
  - apply sample_sound.
  - constructor.
  - constructor; [apply sample_sound|constructor].
Defined.

(** Calls in the context of the second element of a list. *)
Lemma call_builders_sound_witness :
  Forall sound
    (list_expressions ListPolicy_default ListSortFlags.Default
       ListReturnType.Values ExpType.INT (Exp.int_val 1) (Exp.int_val 2)
       (Exp.int_val 3) (Exp.int_val 4) None (Some (Exp.int_val 5))
       [ctx_list_index 1]).
Proof.
  refine (proj1 (proj1 (Forall_app _ _ _) (call_builders_sound ListPolicy_default
    MapPolicy_default BitPolicy_default HLLPolicy_default ListSortFlags.Default
    ListReturnType.Values MapReturnType.Value ExpType.INT
    BitwiseResizeFlags.Default BitwiseOverflowActions.Fail true
    (Exp.int_val 1) (Exp.int_val 2) (Exp.int_val 3) (Exp.int_val 4) None
    (Some (Exp.int_val 5)) [ctx_list_index 1] _ _ _ _ _ _ _)));
    try apply sample_sound.
  - constructor; [|constructor]. eexists. vm_compute. reflexivity.
  - exact I.
Defined.

End Witnesses.
