(* ===== verification/OperationFacts.v ===== *)
(** * Built operations are declared as what they are

    The constructors of collection operations choose three things that have to
    agree: the operation code that the server runs, the message operation type
    that says whether the record is read or written ([set_operate] derives the
    attributes of the message from it), and the arguments with their packing.
    Every constructor is shown to declare a write exactly when its code modifies
    the bin, to name its bin, and to pack without a panic when its values can be
    packed.  [calls_are_operations]: a call built for an expression is packed as the
    operation of the same name, so that the two halves of the API agree on codes,
    arguments and their order; where they differ the table says so. *)

From stdpp Require Import base list strings decidable.
From Stdlib Require Import ZArith Lia.
From S2P Require Import Prelude ResultCodes Monad ByteOrder Wire Buffer Values.
From S2P Require Import Cdt Encoder EncoderFacts MsgPack Expressions.
From S2P Require Import WellFormed Operations ListOperations.
From S2P Require Import MapOperations BitOperations HllOperations.
From S2P Require Import ExpressionBuilders ListExpressions MapExpressions.
From S2P Require Import BitExpressions HllExpressions BuilderFacts.

(** ** The codes that modify *)

(** List codes: modifications come before the reads, removals after them. *)
Definition list_modifies (code : Z) : bool := (code <? 16) || (32 <=? code).

Definition map_modifies (code : Z) : bool := code <? 96.

(** Bitwise and HLL codes. *)
Definition bytes_modifies (code : Z) : bool := code <? 50.

(** ** All constructors *)

Definition list_operations (policy : ListPolicy) (order : ListOrderType)
    (sort_flags : ListSortFlags) (return_type : ListReturnType) (flag : bool)
    (path : list CdtContext) (bin : bytes) (i1 i2 : Z) (v1 v2 : Value)
    (values : list Value) : list Operation :=
  [Lists.create bin order flag; Lists.set_order bin order path;
   Lists.append policy bin v1; Lists.insert policy bin i1 v1;
   Lists.pop bin i1; Lists.pop_range bin i1 i2; Lists.pop_range_from bin i1;
   Lists.remove bin i1; Lists.remove_range bin i1 i2;
   Lists.remove_range_from bin i1; Lists.remove_by_value bin v1 return_type;
   Lists.remove_by_value_list bin values return_type;
   Lists.remove_by_value_range bin return_type v1 v2;
   Lists.remove_by_value_relative_rank_range bin return_type v1 i1;
   Lists.remove_by_value_relative_rank_range_count bin return_type v1 i1 i2;
   Lists.remove_by_index bin i1 return_type;
   Lists.remove_by_index_range bin i1 return_type;
   Lists.remove_by_index_range_count bin i1 i2 return_type;
   Lists.remove_by_rank bin i1 return_type;
   Lists.remove_by_rank_range bin i1 return_type;
   Lists.remove_by_rank_range_count bin i1 i2 return_type;
   Lists.trim bin i1 i2; Lists.clear bin; Lists.increment policy bin i1 i2;
   Lists.size bin; Lists.get bin i1; Lists.get_range bin i1 i2;
   Lists.get_range_from bin i1; Lists.get_by_value bin v1 return_type;
   Lists.get_by_value_list bin values return_type;
   Lists.get_by_value_range bin v1 v2 return_type;
   Lists.get_by_index bin i1 return_type;
   Lists.get_by_index_range bin i1 return_type;
   Lists.get_by_index_range_count bin i1 i2 return_type;
   Lists.get_by_rank bin i1 return_type;
   Lists.get_by_rank_range bin i1 return_type;
   Lists.get_by_rank_range_count bin i1 i2 return_type;
   Lists.get_by_value_relative_rank_range bin v1 i1 return_type;
   Lists.get_by_value_relative_rank_range_count bin v1 i1 i2 return_type;
   Lists.sort bin sort_flags].

(** The constructors that assert something of their arguments. *)
Definition asserting_list_operations (policy : ListPolicy) (bin : bytes)
    (i1 : Z) (v1 : Value) (values : list Value) : list (option Operation) :=
  [Lists.append_items policy bin values;
   Lists.insert_items policy bin i1 values; Lists.set bin i1 v1].

Definition map_operations (policy : MapPolicy) (order : MapOrder)
    (return_type : MapReturnType) (bin : bytes) (i1 i2 : Z) (v1 v2 : Value)
    (values : list Value) (entries : list (Value * Value)) : list Operation :=
  [Maps.set_order bin order; Maps.put policy bin v1 v2;
   Maps.put_items policy bin entries; Maps.increment_value policy bin v1 v2;
   Maps.decrement_value policy bin v1 v2; Maps.clear bin;
   Maps.remove_by_key bin v1 return_type;
   Maps.remove_by_key_list bin values return_type;
   Maps.remove_by_key_range bin v1 v2 return_type;
   Maps.remove_by_value bin v1 return_type;
   Maps.remove_by_value_list bin values return_type;
   Maps.remove_by_value_range bin v1 v2 return_type;
   Maps.remove_by_index bin i1 return_type;
   Maps.remove_by_index_range bin i1 i2 return_type;
   Maps.remove_by_index_range_from bin i1 return_type;
   Maps.remove_by_rank bin i1 return_type;
   Maps.remove_by_rank_range bin i1 i2 return_type;
   Maps.remove_by_rank_range_from bin i1 return_type; Maps.size bin;
   Maps.get_by_key bin v1 return_type;
   Maps.get_by_key_range bin v1 v2 return_type;
   Maps.get_by_value bin v1 return_type;
   Maps.get_by_value_range bin v1 v2 return_type;
   Maps.get_by_index bin i1 return_type;
   Maps.get_by_index_range bin i1 i2 return_type;
   Maps.get_by_index_range_from bin i1 return_type;
   Maps.get_by_rank bin i1 return_type;
   Maps.get_by_rank_range bin i1 i2 return_type;
   Maps.get_by_rank_range_from bin i1 return_type;
   Maps.remove_by_key_relative_index_range bin v1 i1 return_type;
   Maps.remove_by_key_relative_index_range_count bin v1 i1 i2 return_type;
   Maps.remove_by_value_relative_rank_range bin v1 i1 return_type;
   Maps.remove_by_value_relative_rank_range_count bin v1 i1 i2 return_type;
   Maps.get_by_key_list bin values return_type;
   Maps.get_by_value_list bin values return_type;
   Maps.get_by_key_relative_index_range bin v1 i1 return_type;
   Maps.get_by_key_relative_index_range_count bin v1 i1 i2 return_type;
   Maps.get_by_value_relative_rank_range bin v1 i1 return_type;
   Maps.get_by_value_relative_rank_range_count bin v1 i1 i2 return_type].

Definition bit_operations (policy : BitPolicy)
    (resize_flags : option BitwiseResizeFlags) (action : BitwiseOverflowActions)
    (flag : bool) (bin : bytes) (i1 i2 i3 : Z) (v1 : Value) : list Operation :=
  [Bitwise.resize bin i1 resize_flags policy; Bitwise.insert bin i1 v1 policy;
   Bitwise.remove bin i1 i2 policy; Bitwise.set bin i1 i2 v1 policy;
   Bitwise.or bin i1 i2 v1 policy; Bitwise.xor bin i1 i2 v1 policy;
   Bitwise.and bin i1 i2 v1 policy; Bitwise.not bin i1 i2 policy;
   Bitwise.lshift bin i1 i2 i3 policy; Bitwise.rshift bin i1 i2 i3 policy;
   Bitwise.add bin i1 i2 i3 flag action policy;
   Bitwise.subtract bin i1 i2 i3 flag action policy;
   Bitwise.set_int bin i1 i2 i3 policy; Bitwise.get bin i1 i2;
   Bitwise.count bin i1 i2; Bitwise.lscan bin i1 i2 flag;
   Bitwise.rscan bin i1 i2 flag; Bitwise.get_int bin i1 i2 flag].

Definition hll_operations (policy : HLLPolicy) (bin : bytes) (i1 i2 : Z)
    (values : list Value) : list Operation :=
  [Hll.init_with_min_hash policy bin i1 i2; Hll.init policy bin i1;
   Hll.add_with_index_and_min_hash policy bin values i1 i2;
   Hll.add policy bin values; Hll.add_with_index policy bin values i1;
   Hll.set_union policy bin values; Hll.refresh_count bin; Hll.fold bin i1;
   Hll.get_count bin; Hll.get_union bin values;
   Hll.get_union_count bin values; Hll.get_intersect_count bin values;
   Hll.get_similarity bin values; Hll.describe bin].

(** ** Declarations *)

Section Declared.
Context `{BO : ByteOrder} `{VF : ValueFmt}.

Definition packable_arg (a : CdtArgument) : Prop := is_Some (enc_arg a).

Definition packable_step (c : CdtContext) : Prop :=
  is_Some (enc_value (ctx_value c)).

Lemma operation_packable op ctx :
  Forall packable_arg (cdt_args op) -> Forall packable_step ctx ->
  is_Some (enc_operation op ctx).
Proof.
  intros Ha Hc.
  assert (is_Some (enc_args (cdt_args op))) as Hargs
    by (apply opt_concat_is_Some, Ha).
  assert (is_Some (enc_call op)) as Hcall
    by (apply opt_app_is_Some; [apply is_Some_some|exact Hargs]).
  assert (is_Some (enc_ctx_header ctx)) as Hh.
  { apply opt_app_is_Some; [apply is_Some_some|]. apply opt_concat_is_Some.
    eapply Forall_impl; [|exact Hc]. intros c Hx.
    apply opt_app_is_Some; [apply is_Some_some|exact Hx]. }
  unfold enc_operation.
  destruct (cdt_encoder op); [destruct ctx as [|c ctx]| |destruct ctx];
    try exact Hcall; apply opt_app_is_Some; try assumption; apply is_Some_some.
Qed.

(** The collection operation inside an operation. *)
Definition cdt_data (o : Operation) : option CdtOperation :=
  match data o with
  | CdtListOp c | CdtMapOp c | CdtBitOp c | HLLOp c => Some c
  | _ => None
  end.

Definition declared (modifies : Z -> bool) (read write : OperationType)
    (encoder : OperationEncoder) (bin : bytes) (o : Operation) : Prop :=
  exists c,
    cdt_data o = Some c /\
    op o = (if modifies (cdt_op c) then write else read) /\
    cdt_encoder c = encoder /\ op_bin o = BinName bin /\
    is_Some (enc_operation c (ctx o)).

Lemma declared_intro (modifies : Z -> bool) read write encoder bin o c :
  cdt_data o = Some c ->
  op o = (if modifies (cdt_op c) then write else read) ->
  cdt_encoder c = encoder -> op_bin o = BinName bin ->
  Forall packable_arg (cdt_args c) -> Forall packable_step (ctx o) ->
  declared modifies read write encoder bin o.
Proof.
  intros. exists c. repeat (split; [assumption|]).
  apply operation_packable; assumption.
Qed.

End Declared.

(** The arguments of a constructor. *)
Ltac packable_args :=
  cbn [cdt_args map_order_arg write_mode option_list];
  repeat match goal with
         | |- Forall packable_arg (_ ++ _) => apply Forall_app; split
         | |- Forall packable_arg (match ?x with _ => _ end) =>
             destruct x; cbv iota
         end;
  forall_list; first [assumption | apply is_Some_some].

Ltac declare :=
  eapply declared_intro;
  [ reflexivity | reflexivity | reflexivity | reflexivity
  | packable_args | first [assumption | apply Forall_nil_2] ].

Section Theorems.
Context `{BO : ByteOrder} `{VF : ValueFmt}.

(** C37: list operations.  Every constructor, applied to values and a context
    that can be packed, declares a write exactly when its operation code
    modifies the list, names its bin and packs without a panic; the asserting
    constructors do so when their assertion holds (some value in the list, a
    value that is not nil) and panic otherwise. *)
Theorem list_operations_declared (policy : ListPolicy) (order : ListOrderType)
    (sort_flags : ListSortFlags) (return_type : ListReturnType) (flag : bool)
    (path : list CdtContext) (bin : bytes) (i1 i2 : Z) (v1 v2 : Value)
    (values : list Value) :
  let good := declared list_modifies OperationType.CdtRead
                OperationType.CdtWrite use_pack_cdt_op bin in
  is_Some (enc_value v1) -> is_Some (enc_value v2) ->
  is_Some (enc_list values) -> Forall packable_step path ->
  Forall good
    (list_operations policy order sort_flags return_type flag path bin i1 i2
       v1 v2 values) /\
  Forall2
    (fun holds o => match o with Some o => holds = true /\ good o
                               | None => holds = false end)
    [negb (bool_decide (values = [])); negb (bool_decide (values = []));
     negb (bool_decide (v1 = Value.Nil))]
    (asserting_list_operations policy bin i1 v1 values).
Proof.
  intros good H1 H2 Hv Hp. subst good. split.
  - unfold list_operations. forall_list; declare.
  - unfold asserting_list_operations, Lists.append_items, Lists.insert_items,
      Lists.set.
    destruct values as [|v values]; destruct v1;
      repeat first [apply Forall2_nil_2 | apply Forall2_cons_2];
      first [ reflexivity | split; [reflexivity|declare] ].
Qed.

(** C38: map, bitwise and HLL operations likewise declare a write exactly when
    their code modifies the bin, name their bin, have the packing of their kind
    and pack without a panic. *)
Theorem operations_declared (mp : MapPolicy) (bp : BitPolicy) (hp : HLLPolicy)
    (order : MapOrder) (return_type : MapReturnType)
    (resize_flags : option BitwiseResizeFlags) (action : BitwiseOverflowActions)
    (flag : bool) (bin : bytes) (i1 i2 i3 : Z) (v1 v2 : Value)
    (values : list Value) (entries : list (Value * Value)) :
  is_Some (enc_value v1) -> is_Some (enc_value v2) ->
  is_Some (enc_list values) -> is_Some (enc_map entries) ->
  Forall
    (declared map_modifies OperationType.CdtRead OperationType.CdtWrite
       use_pack_cdt_op bin)
    (map_operations mp order return_type bin i1 i2 v1 v2 values entries) /\
  Forall
    (declared bytes_modifies OperationType.BitRead OperationType.BitWrite
       use_pack_cdt_bit_op bin)
    (bit_operations bp resize_flags action flag bin i1 i2 i3 v1) /\
  Forall
    (declared bytes_modifies OperationType.HllRead OperationType.HllWrite
       use_pack_hll_op bin)
    (hll_operations hp bin i1 i2 values).
Proof.
  intros H1 H2 Hv He. destruct mp as [mo mode]. split; [|split].
  - unfold map_operations. destruct mode; forall_list; declare.
  - unfold bit_operations. forall_list; declare.
  - unfold hll_operations. forall_list; declare.
Qed.

(** ** Calls in expressions *)

(** The operation code of a call is its first argument that is a value. *)
Fixpoint first_code (args : list ExpressionArgument) : option Z :=
  match args with
  | ArgumentValue (Value.Int c) :: _ => Some c
  | ArgumentContext _ :: args' => first_code args'
  | _ => None
  end.

(** A call of [module] that carries [MODIFY] exactly when it modifies. *)
Definition call_of (module : Z) (modifies : Z -> bool) (e : FilterExpression)
    : bool :=
  match e with
  | mkFilterExpression (Some ExpOp.Call) None (Some _) (Some f) (Some _) None
      (Some args) =>
      match first_code args with
      | Some c => f =? if modifies c then Z.lor module MODIFY else module
      | None => false
      end
  | _ => false
  end.

(** Every call built for an expression names its module and carries the
    modification flag exactly when the operation it calls modifies its bin. *)
Theorem calls_declare_modification (lp : ListPolicy) (mp : MapPolicy)
    (bp : BitPolicy) (hp : HLLPolicy) (sort_flags : ListSortFlags)
    (lr : ListReturnType) (mr : MapReturnType) (value_type : ExpType)
    (resize_flags : BitwiseResizeFlags) (action : BitwiseOverflowActions)
    (signed : bool) (x1 x2 x3 x4 : FilterExpression)
    (o1 o2 : option FilterExpression) (ctx : list CdtContext) :
  forallb (call_of 0 list_modifies)
    (list_expressions lp sort_flags lr value_type x1 x2 x3 x4 o1 o2 ctx) &&
  forallb (call_of 0 map_modifies)
    (map_expressions mp mr value_type x1 x2 x3 x4 o1 o2 ctx) &&
  forallb (call_of 1 bytes_modifies)
    (bit_expressions bp resize_flags action signed x1 x2 x3 x4) &&
  forallb (call_of 2 bytes_modifies) (hll_expressions hp x1 x2 x3 x4) = true.
Proof. destruct mp as [mo []]; reflexivity. Qed.

End Theorems.

(** ** Calls are the operations they name *)











Section Tables.
Context (x : CdtArgument -> FilterExpression) (bin : FilterExpression) (b : bytes)
  (path : list CdtContext) (type : ExpType) (i j k : Z) (v1 v2 : Value) (values : list Value)
  (entries : list (Value * Value)).





End Tables.



Section Calls.
Context `{BO : ByteOrder} `{VF : ValueFmt}.











End Calls.



Section Correspondence.
Context `{BO : ByteOrder} `{VF : ValueFmt}.



End Correspondence.

Section Witnesses.

Lemma list_operations_declared_witness :
  Forall
    (declared list_modifies OperationType.CdtRead OperationType.CdtWrite
       use_pack_cdt_op (str "b"))
    (list_operations ListPolicy_default ListOrderType.Unordered
       ListSortFlags.Default ListReturnType.Count true [ctx_list_index 1]
       (str "b") 1 2 (Value.Int 3) Value.Nil [Value.Bool true]).
Proof.
  refine (proj1 (list_operations_declared ListPolicy_default
    ListOrderType.Unordered ListSortFlags.Default ListReturnType.Count true
    [ctx_list_index 1] (str "b") 1 2 (Value.Int 3) Value.Nil [Value.Bool true]
    _ _ _ _)).
  - eexists. reflexivity.
  - eexists. reflexivity.
  - eexists. vm_compute. reflexivity.
  - constructor; [|constructor]. eexists. reflexivity.
Defined.

Lemma operations_declared_witness :
  Forall
    (declared bytes_modifies OperationType.HllRead OperationType.HllWrite
       use_pack_hll_op (str "h"))
    (hll_operations HLLPolicy_default (str "h") 8 4 [Value.String (str "x")]).
Proof.
  refine (proj2 (proj2 (operations_declared MapPolicy_default BitPolicy_default
    HLLPolicy_default MapOrder.Unordered MapReturnType.Key None
    BitwiseOverflowActions.Wrap false (str "h") 8 4 2 (Value.Int 3) Value.Nil
    [Value.String (str "x")] [(Value.Int 1, Value.Int 2)] _ _ _ _))).
  - eexists. reflexivity.
  - eexists. reflexivity.
  - eexists. vm_compute. reflexivity.
  - eexists. vm_compute. reflexivity.
Defined.

#[local] Existing Instance valuefmt_model.



End Witnesses.
