(* ===== verification/Policy.v ===== *)
(** * Policies, bins selectors, keys, statements ([src/policy/], [src/bin.rs],
    [src/key.rs], [src/query/])

    The parameters of the commands.  Durations and counts that only drive
    retries are kept, because the policies are records of the public
    interface, but nothing on the wire depends on them. *)

From stdpp Require Import base list strings decidable.
From Stdlib Require Import ZArith Lia.
From S2P Require Import Prelude ResultCodes Monad ByteOrder Wire Buffer Values.
From S2P Require Import Encoder Particle Expressions.

#[local] Set Warnings "-register-all".

Module Priority.

(** [enum Priority]. *)
Inductive Priority : Type :=
| Default
| Low
| Medium
| High.

(** [t as u8]. *)
Definition to_u8 (t : Priority) : Z :=
  match t with
  | Default => 0
  | Low => 1
  | Medium => 2
  | High => 3
  end.

#[global] Instance Priority_eq_dec : EqDecision Priority.
Proof. solve_decision. Defined.

End Priority.

Abbreviation Priority := Priority.Priority.

Module ConsistencyLevel.

(** [enum ConsistencyLevel]. *)
Inductive ConsistencyLevel : Type :=
| ConsistencyOne
| ConsistencyAll.

(** [t as u8]. *)
Definition to_u8 (t : ConsistencyLevel) : Z :=
  match t with
  | ConsistencyOne => 0
  | ConsistencyAll => 1
  end.

#[global] Instance ConsistencyLevel_eq_dec : EqDecision ConsistencyLevel.
Proof. solve_decision. Defined.

End ConsistencyLevel.

Abbreviation ConsistencyLevel := ConsistencyLevel.ConsistencyLevel.

Module CommitLevel.

(** [enum CommitLevel]. *)
Inductive CommitLevel : Type :=
| CommitAll
| CommitMaster.

(** [t as u8]. *)
Definition to_u8 (t : CommitLevel) : Z :=
  match t with
  | CommitAll => 0
  | CommitMaster => 1
  end.

#[global] Instance CommitLevel_eq_dec : EqDecision CommitLevel.
Proof. solve_decision. Defined.

End CommitLevel.

Abbreviation CommitLevel := CommitLevel.CommitLevel.

Module GenerationPolicy.

(** [enum GenerationPolicy]. *)
Inductive GenerationPolicy : Type :=
| None
| ExpectGenEqual
| ExpectGenGreater.

(** [t as u8]. *)
Definition to_u8 (t : GenerationPolicy) : Z :=
  match t with
  | None => 0
  | ExpectGenEqual => 1
  | ExpectGenGreater => 2
  end.

#[global] Instance GenerationPolicy_eq_dec : EqDecision GenerationPolicy.
Proof. solve_decision. Defined.

End GenerationPolicy.

Abbreviation GenerationPolicy := GenerationPolicy.GenerationPolicy.

Module RecordExistsAction.

(** [enum RecordExistsAction]. *)
Inductive RecordExistsAction : Type :=
| Update
| UpdateOnly
| Replace
| ReplaceOnly
| CreateOnly.

(** [t as u8]. *)
Definition to_u8 (t : RecordExistsAction) : Z :=
  match t with
  | Update => 0
  | UpdateOnly => 1
  | Replace => 2
  | ReplaceOnly => 3
  | CreateOnly => 4
  end.

#[global] Instance RecordExistsAction_eq_dec : EqDecision RecordExistsAction.
Proof. solve_decision. Defined.

End RecordExistsAction.

Abbreviation RecordExistsAction := RecordExistsAction.RecordExistsAction.

Module Expiration.

(** [enum Expiration]. *)
Inductive Expiration : Type :=
| Seconds (secs : Z)
| NamespaceDefault
| Never
| DontUpdate.

Definition NAMESPACE_DEFAULT : Z := 0x00000000.

Definition NEVER_EXPIRE : Z := 0xffffffff.

Definition DONT_UPDATE : Z := 0xfffffffe.

(** [From<Expiration> for u32]. *)
Definition to_u32 (exp : Expiration) : Z :=
  match exp with
  | Seconds secs => secs
  | NamespaceDefault => NAMESPACE_DEFAULT
  | Never => NEVER_EXPIRE
  | DontUpdate => DONT_UPDATE
  end.

End Expiration.

Abbreviation Expiration := Expiration.Expiration.

(** [enum Concurrency]. *)
Inductive Concurrency : Type :=
| Sequential
| Parallel
| MaxThreads (n : Z).

(** [struct BasePolicy], also [ReadPolicy]. *)
Record BasePolicy : Type := mkBasePolicy {
  base_priority : Priority;
  base_consistency_level : ConsistencyLevel;
  base_timeout : option Duration;
  base_max_retries : option Z;
  base_sleep_between_retries : option Duration;
  base_filter_expression : option FilterExpression
}.

(** [Default for ReadPolicy]. *)
Definition BasePolicy_default : BasePolicy :=
  mkBasePolicy Priority.Default ConsistencyLevel.ConsistencyOne
    (Some (mkDuration 30 0)) (Some 2) (Some (mkDuration 0 500000000)) None.

(** [struct WritePolicy]. *)
Record WritePolicy : Type := mkWritePolicy {
  wp_base_policy : BasePolicy;
  record_exists_action : RecordExistsAction;
  generation_policy : GenerationPolicy;
  commit_level : CommitLevel;
  generation : Z;
  expiration : Expiration;
  send_key : bool;
  respond_per_each_op : bool;
  durable_delete : bool;
  wp_filter_expression : option FilterExpression
}.

(** [Default for WritePolicy]. *)
Definition WritePolicy_default : WritePolicy :=
  mkWritePolicy BasePolicy_default RecordExistsAction.Update
    GenerationPolicy.None CommitLevel.CommitAll 0 Expiration.NamespaceDefault
    false false false None.

(** [WritePolicy::new]. *)
Definition WritePolicy_new (gen : Z) (exp : Expiration) : WritePolicy :=
  mkWritePolicy BasePolicy_default RecordExistsAction.Update
    GenerationPolicy.None CommitLevel.CommitAll gen exp false false false None.

(** [struct ScanPolicy]. *)
Record ScanPolicy : Type := mkScanPolicy {
  sp_base_policy : BasePolicy;
  scan_percent : Z;
  sp_max_concurrent_nodes : Z;
  sp_record_queue_size : Z;
  sp_fail_on_cluster_change : bool;
  socket_timeout : Z;
  sp_filter_expression : option FilterExpression
}.

(** [Default for ScanPolicy]. *)
Definition ScanPolicy_default : ScanPolicy :=
  mkScanPolicy BasePolicy_default 100 0 1024 true 10000 None.

(** [struct QueryPolicy]. *)
Record QueryPolicy : Type := mkQueryPolicy {
  qp_base_policy : BasePolicy;
  qp_max_concurrent_nodes : Z;
  qp_record_queue_size : Z;
  qp_fail_on_cluster_change : bool;
  qp_filter_expression : option FilterExpression
}.

(** [Default for QueryPolicy]. *)
Definition QueryPolicy_default : QueryPolicy :=
  mkQueryPolicy BasePolicy_default 0 1024 true None.

(** [struct BatchPolicy]. *)
Record BatchPolicy : Type := mkBatchPolicy {
  bp_base_policy : BasePolicy;
  concurrency : Concurrency;
  allow_inline : bool;
  send_set_name : bool;
  bp_filter_expression : option FilterExpression
}.

(** [Default for BatchPolicy]. *)
Definition BatchPolicy_default : BatchPolicy :=
  mkBatchPolicy BasePolicy_default Sequential true false None.

Module Bins.

(** [enum Bins] of [src/bin.rs]. *)
Inductive Bins : Type :=
| All
| None
| Some (names : list bytes).

Definition is_all (b : Bins) : bool :=
  match b with All => true | _ => false end.

Definition is_none (b : Bins) : bool :=
  match b with None => true | _ => false end.

#[global] Instance Bins_eq_dec : EqDecision Bins.
Proof. solve_decision. Defined.

End Bins.

Abbreviation Bins := Bins.Bins.

(** ** Keys *)

(** The RIPEMD-160 function of the [ripemd160] crate: a digest of 20 bytes of
    the concatenation of the inputs. *)
Class Ripemd160 := {
  ripemd160 : bytes -> bytes;
  ripemd160_len input : length (ripemd160 input) = 20%nat;
  ripemd160_bytes input : all_bytes (ripemd160 input)
}.

(** A concrete digest function, for evaluating the definitions that need one:
    the first twenty bytes of the input, padded. *)
#[refine] Definition ripemd160_model : Ripemd160 := {|
  ripemd160 input := take 20 (((fun b => b mod 256) <$> input) ++ replicate 20 0)
|}.
Proof.
  - intros input. rewrite length_take, length_app, length_replicate. lia.
  - intros input. apply Forall_take, Forall_app. split.
    + apply Forall_fmap, Forall_forall. intros b _. apply Z.mod_pos_bound. lia.
    + apply Forall_replicate. unfold is_byte. lia.
Defined.

(** [struct Key]. *)
Record Key : Type := mkKey {
  namespace : bytes;
  set_name : bytes;
  user_key : option Value;
  digest : bytes
}.

Section Digest.
Context `{BO : ByteOrder} `{RD : Ripemd160}.

(** [Key::compute_digest]; [None] is a panic ([unreachable!()], and the values
    that cannot be keys). *)
Definition compute_digest (key : Key) : option Key :=
  match user_key key with
  | Some value =>
      match Value.particle_type value, write_key_bytes value with
      | Some t, Some bs =>
          Some (mkKey (namespace key) (set_name key) (user_key key)
                  (ripemd160 (set_name key ++ [ParticleType.to_u8 t] ++ bs)))
      | _, _ => None
      end
  | None => None
  end.

(** [Key::new]. *)
Definition Key_new (ns set : bytes) (key : Value) : option Key :=
  compute_digest (mkKey ns set (Some key) (replicate 20 0)).

(** The type invariant of the [[u8; 20]] field. *)
Definition key_ok (key : Key) : Prop :=
  length (digest key) = 20%nat /\ all_bytes (digest key).

(** The values that identify records. *)
Definition supported_key (v : Value) : bool :=
  match v with
  | Value.Int _ | Value.String _ | Value.Blob _ => true
  | _ => false
  end.

(** What the digest is taken over. *)
Definition key_input (set : bytes) (v : Value) : bytes :=
  match v with
  | Value.Int i =>
      set ++ [ParticleType.to_u8 ParticleType.INTEGER] ++ write_be 8 i
  | Value.String s => set ++ [ParticleType.to_u8 ParticleType.STRING] ++ s
  | Value.Blob b => set ++ [ParticleType.to_u8 ParticleType.BLOB] ++ b
  | _ => []
  end.

Lemma Key_new_supported ns set v :
  Key_new ns set v =
  if supported_key v
  then Some (mkKey ns set (Some v) (ripemd160 (key_input set v)))
  else None.
Proof. destruct v; reflexivity. Qed.

(** Integers are 64 bits wide. *)
Definition key_range (v : Value) : Prop :=
  match v with Value.Int i => in_i 64 i | _ => True end.

Lemma key_input_inj set v w :
  key_range v -> key_range w -> supported_key v = true ->
  supported_key w = true -> key_input set v = key_input set w -> v = w.
Proof.
  destruct v, w; try discriminate; cbn [key_range key_input]; intros Hv Hw _ _ H;
    apply (inj (app set)) in H; cbn in H; try congruence.
  injection H as H. f_equal.
  rewrite <- (wrap_i_id 64 i), <- (wrap_i_id 64 i0) by (assumption || lia).
  rewrite <- (wrap_i_wrap_u 64 i), <- (wrap_i_wrap_u 64 i0) by lia.
  f_equal. unfold wrap_u. rewrite <- !(read_write_be_mod 8). congruence.
Qed.

(** C24: [Key::new] succeeds exactly on integer, string and blob values (it
    panics on the others).  The key keeps namespace, set and value and carries
    a 20-byte digest of set name, particle type and value; within a set, keys
    of different values have different digest inputs. *)
Theorem key_digest (ns set : bytes) (v : Value) :
  match Key_new ns set v with
  | None => supported_key v = false
  | Some k =>
      supported_key v = true /\ key_ok k /\
      namespace k = ns /\ set_name k = set /\ user_key k = Some v /\
      digest k = ripemd160 (key_input set v) /\
      forall w, key_range v -> key_range w -> supported_key w = true ->
        v <> w -> key_input set v <> key_input set w
  end.
Proof.
  rewrite Key_new_supported. destruct (supported_key v) eqn:Hs; [|reflexivity].
  split; [reflexivity|]. split; [split|].
  - apply ripemd160_len.
  - apply ripemd160_bytes.
  - do 4 (split; [reflexivity|]).
    intros w Hv Hw Hsw Hne E. apply Hne. eapply key_input_inj; eassumption.
Qed.

End Digest.

Lemma key_digest_witness :
  exists k, @Key_new byteorder_model ripemd160_model (str "test") (str "people")
              (Value.Int 7) = Some k /\
    key_ok k /\ namespace k = str "test" /\ set_name k = str "people" /\
    key_input (str "people") (Value.Int 7)
    <> key_input (str "people") (Value.Int 8).
Proof.
  pose proof (@key_digest byteorder_model ripemd160_model (str "test")
                (str "people") (Value.Int 7)) as H.
  destruct (Key_new _ _ _) as [k|] eqn:E; [|discriminate].
  destruct H as (_ & Hok & Hns & Hset & _ & _ & Hne). exists k.
  repeat (split; [assumption || reflexivity|]).
  apply Hne; [unfold key_range, in_i; lia..|reflexivity|discriminate].
Defined.

(** A key whose digest is given. *)
Definition sample_key : Key :=
  mkKey (str "test") (str "people") (Some (Value.Int 7)) (replicate 20 171).

Lemma sample_key_ok : key_ok sample_key.
Proof.
  split; [reflexivity|]. repeat constructor; unfold is_byte; lia.
Qed.
