(* ===== verification/Records.v ===== *)
(** * Records ([src/record.rs])

    What a read returns: the bins of a record with its generation and
    expiration, and the time it has left to live. *)

From stdpp Require Import base list strings gmap.
From Stdlib Require Import ZArith Lia.
From S2P Require Import Prelude Buffer Values Policy.

Module Record.

(** [struct Record]; the bins are a [HashMap], whose order no result but
    [Display] depends on. *)
Record Record_ : Type := mkRecord {
  key : option Key;
  bins : gmap bytes Value;
  generation : Z;
  expiration : Z
}.

(** [Record::new]. *)
Definition new (key : option Key) (bins : gmap bytes Value)
    (generation expiration : Z) : Record_ :=
  mkRecord key bins generation expiration.

(** [CITRUSLEAF_EPOCH], in seconds after the Unix epoch. *)
Definition CITRUSLEAF_EPOCH : Z := 1262304000.

(** [Duration] of a number of nanoseconds. *)
Definition duration_of_nanos (n : Z) : Duration :=
  mkDuration (n / 1000000000) (n mod 1000000000).

(** [Record::time_to_live]; [now] is [SystemTime::now()], in nanoseconds after
    the Unix epoch. *)
Definition time_to_live (r : Record_) (now : Z) : option Duration :=
  if expiration r =? 0 then None
  else
    let expires := (CITRUSLEAF_EPOCH + expiration r) * 1000000000 in
    if now <=? expires then Some (duration_of_nanos (expires - now))
    else Some (mkDuration 1 0).

End Record.

Abbreviation Record_ := Record.Record_.

(** The tests of [record.rs]. *)
Example ttl_expiration_past :
  Record.time_to_live (Record.new None empty 0 0x0d00d21c) 1700000000000000000
  = Some (mkDuration 1 0).
Proof. reflexivity. Qed.

Example ttl_never_expires now :
  Record.time_to_live (Record.new None empty 0 0) now = None.
Proof. reflexivity. Qed.

(** A record that expires has a duration, which is what remains until its
    expiration when the client's clock has not passed it. *)
Lemma time_to_live_remaining r now :
  Record.expiration r <> 0 ->
  let expires := (Record.CITRUSLEAF_EPOCH + Record.expiration r) * 1000000000 in
  exists d, Record.time_to_live r now = Some d /\
    (now <= expires -> now + (as_secs d * 1000000000 + subsec_nanos d) = expires) /\
    0 <= subsec_nanos d < 1000000000.
Proof.
  intros He expires. unfold Record.time_to_live. fold expires.
  destruct (Z.eqb_spec (Record.expiration r) 0); [contradiction|].
  destruct (Z.leb_spec now expires).
  - eexists. split; [reflexivity|]. cbn.
    pose proof (Z.mod_pos_bound (expires - now) 1000000000 ltac:(lia)).
    pose proof (Z.div_mod (expires - now) 1000000000 ltac:(lia)). lia.
  - eexists. split; [reflexivity|]. cbn. lia.
Qed.
