(* ===== verification/Connection.v ===== *)
(** * Connections ([src/net/connection.rs])

    A [Connection] is a TCP stream with a command buffer, an idle deadline and
    a count of the bytes read.  The stream of the standard library is modelled
    by what the peer will have sent and how much it will still accept; reading
    past the one or writing past the other is an I/O error.  [Instant::now()]
    is a reading of a clock, a parameter. *)

From stdpp Require Import base list strings.
From Stdlib Require Import ZArith Lia Setoid Morphisms.
From S2P Require Import Prelude ResultCodes Monad ByteOrder Slices.
From S2P Require Import Buffer BufferFacts.

(** The successive readings of the clock, in nanoseconds. *)
Class Clock := { instant : nat -> Z }.

(** A concrete clock, for evaluating the definitions that need one. *)
Definition clock_model : Clock := {| instant := Z.of_nat |}.

(** [Duration] in nanoseconds. *)
Definition nanos (d : Duration) : Z := as_secs d * 1000000000 + subsec_nanos d.

Module Connection.

(** [std::net::TcpStream]: what the peer sends before it stops, what has been
    written, how many more bytes the peer accepts, and the socket options. *)
Record TcpStream : Type := mkTcpStream {
  incoming : bytes;
  outgoing : bytes;
  accepts : Z;
  shut : bool;
  socket_timeout : option Duration
}.

(** [struct Connection]; [ticks] counts the readings of the clock. *)
Record Connection : Type := mkConnection {
  idle_timeout : option Duration;
  idle_deadline : option Z;
  conn : TcpStream;
  bytes_read : Z;
  buffer : Buffer;
  ticks : nat
}.

Definition set_conn (s : TcpStream) (c : Connection) : Connection :=
  mkConnection (idle_timeout c) (idle_deadline c) s (bytes_read c) (buffer c)
    (ticks c).

Definition set_buffer (b : Buffer) (c : Connection) : Connection :=
  mkConnection (idle_timeout c) (idle_deadline c) (conn c) (bytes_read c) b
    (ticks c).

Definition set_bytes_read (n : Z) (c : Connection) : Connection :=
  mkConnection (idle_timeout c) (idle_deadline c) (conn c) n (buffer c)
    (ticks c).

Definition set_deadline (d : option Z) (c : Connection) : Connection :=
  mkConnection (idle_timeout c) d (conn c) (bytes_read c) (buffer c) (ticks c).

(** A method of [conn.buffer]. *)
Definition lift {A} (m : M Buffer A) : M Connection A :=
  fun c =>
    match m (buffer c) with
    | Ret a b => Ret a (set_buffer b c)
    | Throw e b => Throw e (set_buffer b c)
    | Panic => Panic
    | NoFuel => NoFuel
    end.

Definition modify (f : Connection -> Connection) : M Connection unit :=
  fun c => Ret tt (f c).

(** [shutdown(Shutdown::Both)]: nothing can be read or written any more. *)
Definition shutdown (s : TcpStream) : TcpStream :=
  mkTcpStream [] (outgoing s) 0 true (socket_timeout s).

(** [read_exact] into a slice of [n] bytes; when the stream ends before, what
    it had is in the slice. *)
Definition read_exact (n : Z) (s : TcpStream) : option bytes * bytes * TcpStream :=
  let got := take (Z.to_nat n) (incoming s) in
  let rest := drop (Z.to_nat n) (incoming s) in
  (if n <=? len (incoming s) then Some got else None, got,
   mkTcpStream rest (outgoing s) (accepts s) (shut s) (socket_timeout s)).

(** [write_all]; the bytes accepted before an error have been sent. *)
Definition write_all (bs : bytes) (s : TcpStream) : bool * TcpStream :=
  let sent := take (Z.to_nat (accepts s)) bs in
  (len bs <=? accepts s,
   mkTcpStream (incoming s) (outgoing s ++ sent) (accepts s - len sent) (shut s)
     (socket_timeout s)).

Section Connection.
Context `{CL : Clock}.

(** [Instant::now()]. *)
Definition now : M Connection Z :=
  fun c =>
    Ret (instant (ticks c))
      (mkConnection (idle_timeout c) (idle_deadline c) (conn c) (bytes_read c)
         (buffer c) (S (ticks c))).

Definition close : M Connection unit :=
  modify (fun c => set_conn (shutdown (conn c)) c).

Definition refresh : M Connection unit :=
  modify (set_deadline None) ;;;
  let! c := get in
  match idle_timeout c with
  | Some idle_to =>
      let! t := now in modify (set_deadline (Some (t + nanos idle_to)))
  | None => ret tt
  end.

(** Writing [bs] to the stream; [?] on the result of [write_all]. *)
Definition send (bs : bytes) : M Connection unit :=
  fun c =>
    let '(ok, s) := write_all bs (conn c) in
    if ok then Ret tt (set_conn s c) else Throw Io (set_conn s c).

Definition flush : M Connection unit :=
  let! c := get in send (data_buffer (buffer c)) ;;; refresh.

(** [read_exact] into [data_buffer]. *)
Definition fill_buffer : M Connection unit :=
  fun c =>
    let b := buffer c in
    let '(ok, got, s) := read_exact (len (data_buffer b)) (conn c) in
    let c' := set_conn s (set_buffer (set_data (splice (data_buffer b) 0 got) b) c) in
    match ok with
    | Some _ => Ret tt c'
    | None => Throw Io c'
    end.

Definition read_buffer (size : Z) : M Connection unit :=
  lift (resize_buffer size) ;;;
  fill_buffer ;;;
  modify (fun c => set_bytes_read (bytes_read c + size) c) ;;;
  lift reset_offset ;;;
  refresh.

Definition write (buf : bytes) : M Connection unit := send buf ;;; refresh.

(** [read] into a slice of [n] bytes: the bytes it holds afterwards. *)
Definition receive (n : Z) : M Connection bytes :=
  fun c =>
    let '(ok, _, s) := read_exact n (conn c) in
    match ok with
    | Some bs => Ret bs (set_conn s (set_bytes_read (bytes_read c + n) c))
    | None => Throw Io (set_conn s c)
    end.

Definition read (n : Z) : M Connection bytes :=
  let! bs := receive n in refresh ;;; ret bs.

(** [set_timeout]: the standard library refuses a zero duration. *)
Definition set_timeout (timeout : option Duration) (c : Connection)
    : option Connection :=
  match timeout with
  | Some d =>
      if nanos d =? 0 then None
      else Some (set_conn (mkTcpStream (incoming (conn c)) (outgoing (conn c))
                             (accepts (conn c)) (shut (conn c)) timeout) c)
  | None =>
      Some (set_conn (mkTcpStream (incoming (conn c)) (outgoing (conn c))
                        (accepts (conn c)) (shut (conn c)) None) c)
  end.

(** The clock is read only when there is a deadline. *)
Definition is_idle : M Connection bool :=
  let! c := get in
  match idle_deadline c with
  | None => ret false
  | Some idle_dl => let! t := now in ret (idle_dl <=? t)
  end.

Definition bookmark : M Connection unit := modify (set_bytes_read 0).

End Connection.

End Connection.

Abbreviation Connection := Connection.Connection.
