(* ===== verification/Statements.v ===== *)
(** * Queries: filters and statements ([src/query/filter.rs],
    [src/query/statement.rs])

    A statement selects records of a set; its filter is a range on an indexed
    bin.  [estimate_size] and [write] of a filter are two passes over the same
    fields, [filter_bytes]. *)

From stdpp Require Import base list strings decidable.
From Stdlib Require Import ZArith Lia Setoid Morphisms.
From S2P Require Import Prelude ResultCodes Monad ByteOrder Wire Buffer.
From S2P Require Import BufferFacts Values Encoder EncoderFacts Particle Policy.

#[local] Set Warnings "-register-all".

Module CollectionIndexType.

(** [enum CollectionIndexType]. *)
Inductive CollectionIndexType : Type :=
| Default
| List
| MapKeys
| MapValues.

(** [t as u8]. *)
Definition to_u8 (t : CollectionIndexType) : Z :=
  match t with
  | Default => 0
  | List => 1
  | MapKeys => 2
  | MapValues => 3
  end.

#[global] Instance CollectionIndexType_eq_dec : EqDecision CollectionIndexType.
Proof. solve_decision. Defined.

End CollectionIndexType.

Abbreviation CollectionIndexType := CollectionIndexType.CollectionIndexType.

Module Filter.

(** [struct Filter]. *)
Record Filter : Type := mkFilter {
  bin_name : bytes;
  collection_index_type : CollectionIndexType;
  value_particle_type : ParticleType;
  begin : Value;
  end_ : Value
}.

Section Operations.
Context `{BO : ByteOrder}.

(** [Filter::estimate_size]. *)
Definition estimate {S} (f : Filter) : M S Z :=
  let! n := estimate_size (begin f) in
  let! m := estimate_size (end_ f) in
  ret (len (bin_name f) + n + m + 10).

(** [Filter::write]. *)
Definition write (f : Filter) : M Buffer unit :=
  write_u8 (as_u8 (len (bin_name f))) ;;;
  write_str (bin_name f) ;;;
  write_u8 (ParticleType.to_u8 (value_particle_type f)) ;;;
  let! n := estimate_size (begin f) in
  write_u32 (as_u32 n) ;;;
  write_to (begin f) ;;;
  let! m := estimate_size (end_ f) in
  write_u32 (as_u32 m) ;;;
  write_to (end_ f) ;;;
  ret tt.

(** The reference: name, type and the two end points with their lengths. *)
Definition filter_bytes (f : Filter) : option bytes :=
  match particle_bytes (begin f), particle_bytes (end_ f) with
  | Some b, Some e =>
      Some ([as_u8 (len (bin_name f))] ++ bin_name f ++
            [ParticleType.to_u8 (value_particle_type f)] ++
            write_be 4 (len b) ++ b ++ write_be 4 (len e) ++ e)
  | _, _ => None
  end.

Lemma filter_estimate {S} f bs :
  filter_bytes f = Some bs -> (estimate f : M S Z) ≈ ret (len bs).
Proof.
  unfold filter_bytes, estimate.
  destruct (particle_bytes (begin f)) as [b|] eqn:Hb; [|discriminate].
  destruct (particle_bytes (end_ f)) as [e|] eqn:He; [|discriminate].
  intros <-%(inj Some).
  rewrite (estimate_size_bytes _ _ Hb), bind_ret_l,
    (estimate_size_bytes _ _ He), bind_ret_l.
  intros s. unfold ret. f_equal. size_lia.
Qed.

Lemma filter_write_emits f bs :
  filter_bytes f = Some bs -> emits (write f) bs tt.
Proof.
  unfold filter_bytes, write.
  destruct (particle_bytes (begin f)) as [b|] eqn:Hb; [|discriminate].
  destruct (particle_bytes (end_ f)) as [e|] eqn:He; [|discriminate].
  intros <-%(inj Some). eapply emits_eq.
  - do 3 (eapply emits_bind; [eauto with emits|]).
    rewrite (estimate_size_bytes _ _ Hb), bind_ret_l.
    do 2 (eapply emits_bind; [eauto using write_to_emits with emits|]).
    rewrite (estimate_size_bytes _ _ He), bind_ret_l.
    do 2 (eapply emits_bind; [eauto using write_to_emits with emits|]).
    apply emits_ret.
  - rewrite !write_be_u32, app_nil_r. reflexivity.
Qed.

End Operations.

(** *** Building filters *)

(** [Filter::new]. *)
Definition new (bin_name : bytes) (collection_index_type : CollectionIndexType)
    (value_particle_type : ParticleType) (begin end_ : Value) : Filter :=
  mkFilter bin_name collection_index_type value_particle_type begin end_.

(** The macros; [None] is the panic of [particle_type]. *)
Definition as_contains_range (bin_name : bytes) (begin end_ : Value)
    (cit : CollectionIndexType) : option Filter :=
  t ← Value.particle_type begin; Some (new bin_name cit t begin end_).

Definition as_contains (bin_name : bytes) (val : Value) (cit : CollectionIndexType)
    : option Filter :=
  t ← Value.particle_type val; Some (new bin_name cit t val val).

Definition as_eq (bin_name : bytes) (val : Value) : option Filter :=
  t ← Value.particle_type val; Some (new bin_name CollectionIndexType.Default t val val).

Definition as_range (bin_name : bytes) (begin end_ : Value) : option Filter :=
  t ← Value.particle_type begin;
  Some (new bin_name CollectionIndexType.Default t begin end_).

(** The macros on regions; the short forms have [CollectionIndexType::Default]. *)
Definition as_within_region (bin_name region : bytes) (cit : CollectionIndexType)
    : option Filter :=
  let region := Value.GeoJSON region in
  t ← Value.particle_type region; Some (new bin_name cit t region region).

Definition as_regions_containing_point (bin_name point : bytes) (cit : CollectionIndexType)
    : option Filter :=
  let point := Value.GeoJSON point in
  t ← Value.particle_type point; Some (new bin_name cit t point point).

Definition quoted (s : string) : bytes := [34] ++ str s ++ [34].

(** The text of a circle.  The [{:.8}] of the format has no effect: the [Display]
    of a value formats its own string. *)
Definition circle `{VF : ValueFmt} (lat lng radius : Value) : bytes :=
  str "{ " ++ quoted "type" ++ str ": " ++ quoted "Aeroircle" ++ str ", "
  ++ quoted "coordinates" ++ str ": [[" ++ as_string lng ++ str ", " ++ as_string lat
  ++ str "], " ++ as_string radius ++ str "] }".

(** The coordinates are the bits of [f64]s. *)
Definition as_within_radius `{VF : ValueFmt} (bin_name : bytes) (lat lng radius : Z)
    (cit : CollectionIndexType) : option Filter :=
  let geo_json :=
    Value.GeoJSON (circle (Value.from_f64 lat) (Value.from_f64 lng) (Value.from_f64 radius)) in
  t ← Value.particle_type geo_json; Some (new bin_name cit t geo_json geo_json).

End Filter.

Abbreviation Filter := Filter.Filter.

Module Statement.

(** [struct Aggregation]. *)
Record Aggregation : Type := mkAggregation {
  package_name : bytes;
  function_name : bytes;
  function_args : option (list Value)
}.

(** [struct Statement]. *)
Record Statement : Type := mkStatement {
  namespace : bytes;
  set_name : bytes;
  index_name : option bytes;
  bins : Bins;
  filters : option (list Filter);
  aggregation : option Aggregation
}.

(** [Statement::new]. *)
Definition new (namespace set_name : bytes) (bins : Bins) : Statement :=
  mkStatement namespace set_name None bins None None.

Definition add_filter (filter : Filter) (s : Statement) : Statement :=
  mkStatement (namespace s) (set_name s) (index_name s) (bins s)
    (match filters s with
     | Some filters => Some (filters ++ [filter])
     | None => Some [filter]
     end)
    (aggregation s).

Definition set_aggregate_function (package_name function_name : bytes)
    (function_args : option (list Value)) (s : Statement) : Statement :=
  mkStatement (namespace s) (set_name s) (index_name s) (bins s) (filters s)
    (Some (mkAggregation package_name function_name function_args)).

Definition is_empty {A} (l : list A) : bool :=
  match l with [] => true | _ => false end.

Definition is_scan (s : Statement) : bool :=
  match filters s with
  | Some filters => is_empty filters
  | None => true
  end.

(** [Statement::validate]; [Some e] is the error. *)
Definition validate (s : Statement) : option ErrorKind :=
  if match filters s with Some filters => 1 <? len filters | None => false end
  then Some (InvalidArgument "Too many filter expressions")
  else if is_empty (set_name s) then Some (InvalidArgument "Empty set name")
  else if match index_name s with Some n => is_empty n | None => false end
  then Some (InvalidArgument "Empty index name")
  else
    match aggregation s with
    | Some agg =>
        if is_empty (package_name agg)
        then Some (InvalidArgument "Empty UDF package name")
        else if is_empty (function_name agg)
        then Some (InvalidArgument "Empty UDF function name")
        else None
    | None => None
    end.

End Statement.

Abbreviation Statement := Statement.Statement.
