(* ===== verification/Commands.v ===== *)
(** * Command serialisation ([src/commands/buffer.rs])

    The [set_*] methods of [Buffer]: each estimates the size of its message,
    sizes the buffer, writes the header, the fields and the operations into
    it, and patches the protocol header.  The definitions follow the methods
    statement by statement; what they produce is in [CommandFacts]. *)

From stdpp Require Import base list strings decidable.
From Stdlib Require Import ZArith Lia.
From S2P Require Import Prelude ResultCodes Monad ByteOrder Slices Wire Buffer.
From S2P Require Import Values Encoder Particle Expressions Operations Policy.
From S2P Require Import Records Statements.

Definition INFO1_READ : Z := 1.

Definition INFO1_GET_ALL : Z := Z.shiftl 1 1.

Definition INFO1_BATCH : Z := Z.shiftl 1 3.

Definition INFO1_NOBINDATA : Z := Z.shiftl 1 5.

Definition INFO1_CONSISTENCY_ALL : Z := Z.shiftl 1 6.

Definition INFO2_WRITE : Z := 1.

Definition INFO2_DELETE : Z := Z.shiftl 1 1.

Definition INFO2_GENERATION : Z := Z.shiftl 1 2.

Definition INFO2_GENERATION_GT : Z := Z.shiftl 1 3.

Definition INFO2_DURABLE_DELETE : Z := Z.shiftl 1 4.

Definition INFO2_CREATE_ONLY : Z := Z.shiftl 1 5.

Definition INFO2_RESPOND_ALL_OPS : Z := Z.shiftl 1 7.

Definition INFO3_LAST : Z := 1.

Definition INFO3_COMMIT_MASTER : Z := Z.shiftl 1 1.

Definition INFO3_UPDATE_ONLY : Z := Z.shiftl 1 3.

Definition INFO3_CREATE_OR_REPLACE : Z := Z.shiftl 1 4.

Definition INFO3_REPLACE_ONLY : Z := Z.shiftl 1 5.

(** [self.data_offset = o] and [self.data_buffer[i] = v]. *)
Definition set_position (o : Z) : M Buffer unit :=
  fun b => Ret tt (set_offset o b).

Definition set_byte (i v : Z) : M Buffer unit :=
  fun b =>
    match index (data_buffer b) i with
    | Some _ => Ret tt (set_data (<[Z.to_nat i := v]> (data_buffer b)) b)
    | None => Panic
    end.

(** [v as i32] is below [i32::MAX] by the checked addition [v + k]. *)
Definition i32_add {S} (v k : Z) : M S Z :=
  if as_i32 v + k <? 2 ^ 31 then ret (as_i32 v + k) else panic.

(** [for x in l { acc = f(acc, x)?; }] *)
Fixpoint fold_m {S A B} (f : B -> A -> M S B) (acc : B) (l : list A) : M S B :=
  match l with
  | [] => ret acc
  | x :: l' => let! acc' := f acc x in fold_m f acc' l'
  end.

(** [if x > 0 { field_count += 1; }] *)
Definition count_filter (filter_size field_count : Z) : Z :=
  if 0 <? filter_size then field_count + 1 else field_count.

(** Optional parts: the empty string is an absent one. *)
Definition nonempty (s : bytes) : bool :=
  match s with [] => false | _ => true end.

(** [struct BatchRead] of [src/batch/batch_read.rs]. *)
Record BatchRead : Type := mkBatchRead {
  br_key : Key;
  br_bins : Bins;
  br_record : option Record_
}.

(** [BatchRead::new]. *)
Definition BatchRead_new (key : Key) (bins : Bins) : BatchRead :=
  mkBatchRead key bins None.

(** [BatchRead::match_header]. *)
Definition match_header (self other : BatchRead) (match_set : bool) : bool :=
  bool_decide (namespace (br_key self) = namespace (br_key other))
  && (match_set && bool_decide (set_name (br_key self) = set_name (br_key other)))
  && bool_decide (br_bins self = br_bins other).

Section Commands.
Context `{BO : ByteOrder} `{VF : ValueFmt}.

(** ** Estimates *)

Definition estimate_filter_size (filter : option FilterExpression)
    : M Buffer Z :=
  match filter with
  | Some filter =>
      let! filter_size := with_none (pack filter) in
      add_offset (filter_size + FIELD_HEADER_SIZE) ;;;
      ret filter_size
  | None => ret 0
  end.

Definition estimate_key_size (key : Key) (send_key : bool) : M Buffer Z :=
  let! a :=
    if nonempty (namespace key)
    then add_offset (len (namespace key) + FIELD_HEADER_SIZE) ;;; ret 1
    else ret 0 in
  let! b :=
    if nonempty (set_name key)
    then add_offset (len (set_name key) + FIELD_HEADER_SIZE) ;;; ret 1
    else ret 0 in
  add_offset (DIGEST_SIZE + FIELD_HEADER_SIZE) ;;;
  let! c :=
    match send_key, user_key key with
    | true, Some user_key =>
        let! n := estimate_size user_key in
        add_offset (n + FIELD_HEADER_SIZE + 1) ;;; ret 1
    | _, _ => ret 0
    end in
  ret (a + b + 1 + c).

Definition estimate_args_size (args : option (list Value)) : M Buffer unit :=
  match args with
  | Some args =>
      let! n := with_none (pack_array args) in
      add_offset (n + FIELD_HEADER_SIZE)
  | None =>
      let! n := with_none pack_empty_args_array in
      add_offset (n + FIELD_HEADER_SIZE)
  end.

Definition estimate_udf_size (package_name function_name : bytes)
    (args : option (list Value)) : M Buffer Z :=
  add_offset (len package_name + FIELD_HEADER_SIZE) ;;;
  add_offset (len function_name + FIELD_HEADER_SIZE) ;;;
  estimate_args_size args ;;;
  ret 3.

Definition estimate_operation_size_for_bin (bin : Bin) : M Buffer unit :=
  add_offset (len (bin_name bin) + OPERATION_HEADER_SIZE) ;;;
  let! n := estimate_size (bin_value bin) in
  add_offset n.

Definition estimate_operation_size_for_bin_name (name : bytes)
    : M Buffer unit :=
  add_offset (len name + OPERATION_HEADER_SIZE).

Definition estimate_operation_size : M Buffer unit :=
  add_offset OPERATION_HEADER_SIZE.

(** ** Headers *)

Definition consistency_attr (p : BasePolicy) (read_attr : Z) : Z :=
  if decide (base_consistency_level p = ConsistencyLevel.ConsistencyAll)
  then Z.lor read_attr INFO1_CONSISTENCY_ALL else read_attr.

Definition write_header (policy : BasePolicy)
    (read_attr write_attr field_count operation_count : Z) : M Buffer unit :=
  let read_attr := consistency_attr policy read_attr in
  set_byte 8 MSG_REMAINING_HEADER_SIZE ;;;
  set_byte 9 read_attr ;;;
  set_byte 10 write_attr ;;;
  for_each (seqZ 11 15) (fun i => set_byte i 0) ;;;
  set_position 26 ;;;
  write_u16 field_count ;;;
  write_u16 operation_count ;;;
  set_position MSG_TOTAL_HEADER_SIZE.

(** The flags of the write policy, in the order of the code. *)
Definition exists_flags (p : WritePolicy) (write_attr info_attr : Z) : Z * Z :=
  match record_exists_action p with
  | RecordExistsAction.Update => (write_attr, info_attr)
  | RecordExistsAction.UpdateOnly =>
      (write_attr, Z.lor info_attr INFO3_UPDATE_ONLY)
  | RecordExistsAction.Replace =>
      (write_attr, Z.lor info_attr INFO3_CREATE_OR_REPLACE)
  | RecordExistsAction.ReplaceOnly =>
      (write_attr, Z.lor info_attr INFO3_REPLACE_ONLY)
  | RecordExistsAction.CreateOnly =>
      (Z.lor write_attr INFO2_CREATE_ONLY, info_attr)
  end.

Definition generation_flags (p : WritePolicy) (write_attr : Z) : Z * Z :=
  match generation_policy p with
  | GenerationPolicy.None => (write_attr, 0)
  | GenerationPolicy.ExpectGenEqual =>
      (Z.lor write_attr INFO2_GENERATION, generation p)
  | GenerationPolicy.ExpectGenGreater =>
      (Z.lor write_attr INFO2_GENERATION_GT, generation p)
  end.

Definition commit_flags (p : WritePolicy) (info_attr : Z) : Z :=
  if decide (commit_level p = CommitLevel.CommitMaster)
  then Z.lor info_attr INFO3_COMMIT_MASTER else info_attr.

Definition durable_flags (p : WritePolicy) (write_attr : Z) : Z :=
  if durable_delete p then Z.lor write_attr INFO2_DURABLE_DELETE
  else write_attr.

Definition write_header_with_policy (policy : WritePolicy)
    (read_attr write_attr field_count operation_count : Z) : M Buffer unit :=
  let (write_attr, info_attr) := exists_flags policy write_attr 0 in
  let (write_attr, generation) := generation_flags policy write_attr in
  let info_attr := commit_flags policy info_attr in
  let read_attr := consistency_attr (wp_base_policy policy) read_attr in
  let write_attr := durable_flags policy write_attr in
  set_position 8 ;;;
  write_u8 MSG_REMAINING_HEADER_SIZE ;;;
  write_u8 read_attr ;;;
  write_u8 write_attr ;;;
  write_u8 info_attr ;;;
  write_u8 0 ;;;
  write_u8 0 ;;;
  write_u32 generation ;;;
  write_u32 (Expiration.to_u32 (expiration policy)) ;;;
  write_u8 0 ;;; write_u8 0 ;;; write_u8 0 ;;; write_u8 0 ;;;
  write_u16 field_count ;;;
  write_u16 operation_count ;;;
  set_position MSG_TOTAL_HEADER_SIZE.

(** ** Fields *)

Definition write_field_header (size : Z) (ftype : FieldType) : M Buffer unit :=
  let! n := i32_add size 1 in
  write_i32 n ;;;
  write_u8 (FieldType.to_u8 ftype) ;;;
  ret tt.

Definition write_field_string (field : bytes) (ftype : FieldType)
    : M Buffer unit :=
  write_field_header (len field) ftype ;;; write_str field ;;; ret tt.

Definition write_field_bytes (bs : bytes) (ftype : FieldType)
    : M Buffer unit :=
  write_field_header (len bs) ftype ;;; write_bytes bs ;;; ret tt.

Definition write_field_value (value : Value) (ftype : FieldType)
    : M Buffer unit :=
  let! n := estimate_size value in
  write_field_header (n + 1) ftype ;;;
  let! t := unwrap (Value.particle_type value) in
  write_u8 (ParticleType.to_u8 t) ;;;
  write_to value ;;;
  ret tt.

Definition write_args (args : option (list Value)) (ftype : FieldType)
    : M Buffer unit :=
  match args with
  | Some args =>
      let! n := with_none (pack_array args) in
      write_field_header n ftype ;;;
      with_some (pack_array args) ;;; ret tt
  | None =>
      let! n := with_none pack_empty_args_array in
      write_field_header n ftype ;;;
      with_some pack_empty_args_array ;;; ret tt
  end.

Definition write_key (key : Key) (send_key : bool) : M Buffer unit :=
  when (nonempty (namespace key))
    (write_field_string (namespace key) FieldType.Namespace) ;;;
  when (nonempty (set_name key))
    (write_field_string (set_name key) FieldType.Table) ;;;
  write_field_bytes (digest key) FieldType.DigestRipe ;;;
  match send_key, user_key key with
  | true, Some user_key => write_field_value user_key FieldType.Key
  | _, _ => ret tt
  end.

Definition write_filter_expression (filter : FilterExpression) (size : Z)
    : M Buffer unit :=
  write_field_header size FieldType.FilterExp ;;;
  with_some (pack filter) ;;;
  ret tt.

(** [if let Some(filter) = policy.filter_expression() { .. }] *)
Definition write_filter (filter : option FilterExpression) (size : Z)
    : M Buffer unit :=
  match filter with
  | Some filter => write_filter_expression filter size
  | None => ret tt
  end.

(** ** Operations *)

Definition write_operation_for_bin (bin : Bin) (op_type : OperationType)
    : M Buffer unit :=
  let name_length := len (bin_name bin) in
  let! value_length := estimate_size (bin_value bin) in
  write_i32 (as_i32 (name_length + value_length + 4)) ;;;
  write_u8 (OperationType.to_u8 op_type) ;;;
  let! t := unwrap (Value.particle_type (bin_value bin)) in
  write_u8 (ParticleType.to_u8 t) ;;;
  write_u8 0 ;;;
  write_u8 (as_u8 name_length) ;;;
  write_str (bin_name bin) ;;;
  write_to (bin_value bin) ;;;
  ret tt.

Definition write_operation_for_bin_name (name : bytes)
    (op_type : OperationType) : M Buffer unit :=
  let! n := i32_add (len name) 4 in
  write_i32 n ;;;
  write_u8 (OperationType.to_u8 op_type) ;;;
  write_u8 0 ;;;
  write_u8 0 ;;;
  write_u8 (as_u8 (len name)) ;;;
  write_str name ;;;
  ret tt.

Definition write_operation_for_operation_type (op_type : OperationType)
    : M Buffer unit :=
  write_i32 4 ;;;
  write_u8 (OperationType.to_u8 op_type) ;;;
  write_u8 0 ;;;
  write_u8 0 ;;;
  write_u8 0 ;;;
  ret tt.

(** ** Single-record commands *)

Definition set_write (policy : WritePolicy) (op_type : OperationType)
    (key : Key) (bins : list Bin) : M Buffer unit :=
  begin ;;;
  let! field_count := estimate_key_size key (send_key policy) in
  let! filter_size := estimate_filter_size (wp_filter_expression policy) in
  let field_count := count_filter filter_size field_count in
  for_each bins estimate_operation_size_for_bin ;;;
  size_buffer ;;;
  write_header_with_policy policy 0 INFO2_WRITE field_count
    (as_u16 (len bins)) ;;;
  write_key key (send_key policy) ;;;
  write_filter (wp_filter_expression policy) filter_size ;;;
  for_each bins (fun bin => write_operation_for_bin bin op_type) ;;;
  end_.

Definition set_delete (policy : WritePolicy) (key : Key) : M Buffer unit :=
  begin ;;;
  let! field_count := estimate_key_size key false in
  let! filter_size := estimate_filter_size (wp_filter_expression policy) in
  let field_count := count_filter filter_size field_count in
  size_buffer ;;;
  write_header_with_policy policy 0 (Z.lor INFO2_WRITE INFO2_DELETE)
    field_count 0 ;;;
  write_key key false ;;;
  write_filter (wp_filter_expression policy) filter_size ;;;
  end_.

Definition set_touch (policy : WritePolicy) (key : Key) : M Buffer unit :=
  begin ;;;
  let! field_count := estimate_key_size key (send_key policy) in
  let! filter_size := estimate_filter_size (wp_filter_expression policy) in
  let field_count := count_filter filter_size field_count in
  estimate_operation_size ;;;
  size_buffer ;;;
  write_header_with_policy policy 0 INFO2_WRITE field_count 1 ;;;
  write_key key (send_key policy) ;;;
  write_filter (wp_filter_expression policy) filter_size ;;;
  write_operation_for_operation_type OperationType.Touch ;;;
  end_.

Definition set_exists (policy : WritePolicy) (key : Key) : M Buffer unit :=
  begin ;;;
  let! field_count := estimate_key_size key false in
  let! filter_size := estimate_filter_size (wp_filter_expression policy) in
  let field_count := count_filter filter_size field_count in
  size_buffer ;;;
  write_header (wp_base_policy policy) (Z.lor INFO1_READ INFO1_NOBINDATA) 0
    field_count 0 ;;;
  write_key key false ;;;
  write_filter (wp_filter_expression policy) filter_size ;;;
  end_.

Definition set_read_header (policy : BasePolicy) (key : Key) : M Buffer unit :=
  begin ;;;
  let! field_count := estimate_key_size key false in
  let! filter_size := estimate_filter_size (base_filter_expression policy) in
  let field_count := count_filter filter_size field_count in
  estimate_operation_size_for_bin_name [] ;;;
  size_buffer ;;;
  write_header policy (Z.lor INFO1_READ INFO1_NOBINDATA) 0 field_count 1 ;;;
  write_key key false ;;;
  write_filter (base_filter_expression policy) filter_size ;;;
  write_operation_for_bin_name [] OperationType.Read ;;;
  end_.

Definition set_read_for_key_only (policy : BasePolicy) (key : Key)
    : M Buffer unit :=
  begin ;;;
  let! field_count := estimate_key_size key false in
  let! filter_size := estimate_filter_size (base_filter_expression policy) in
  let field_count := count_filter filter_size field_count in
  size_buffer ;;;
  write_header policy (Z.lor INFO1_READ INFO1_GET_ALL) 0 field_count 0 ;;;
  write_key key false ;;;
  write_filter (base_filter_expression policy) filter_size ;;;
  end_.

Definition set_read (policy : BasePolicy) (key : Key) (bins : Bins)
    : M Buffer unit :=
  match bins with
  | Bins.None => set_read_header policy key
  | Bins.All => set_read_for_key_only policy key
  | Bins.Some bin_names =>
      begin ;;;
      let! field_count := estimate_key_size key false in
      let! filter_size :=
        estimate_filter_size (base_filter_expression policy) in
      let field_count := count_filter filter_size field_count in
      for_each bin_names estimate_operation_size_for_bin_name ;;;
      size_buffer ;;;
      write_header policy INFO1_READ 0 field_count
        (as_u16 (len bin_names)) ;;;
      write_key key false ;;;
      write_filter (base_filter_expression policy) filter_size ;;;
      for_each bin_names (fun bin_name =>
        write_operation_for_bin_name bin_name OperationType.Read) ;;;
      end_
  end.

(** The attributes that one operation adds. *)
Definition operate_attrs (policy : WritePolicy) (o : Operation) (rw : Z * Z)
    : Z * Z :=
  let (read_attr, write_attr) := rw in
  let (read_attr, write_attr) :=
    match op o, op_bin o with
    | OperationType.Read, BinNone =>
        (Z.lor read_attr (Z.lor INFO1_READ INFO1_NOBINDATA), write_attr)
    | OperationType.Read, BinAll =>
        (Z.lor read_attr (Z.lor INFO1_READ INFO1_GET_ALL), write_attr)
    | (OperationType.Read | OperationType.CdtRead | OperationType.BitRead
       | OperationType.HllRead | OperationType.ExpRead), _ =>
        (Z.lor read_attr INFO1_READ, write_attr)
    | _, _ => (read_attr, Z.lor write_attr INFO2_WRITE)
    end in
  let each_op :=
    match data o with
    | CdtMapOp _ | CdtBitOp _ | HLLOp _ | EXPOp _ => true
    | _ => false
    end in
  if respond_per_each_op policy || each_op
  then (read_attr, Z.lor write_attr INFO2_RESPOND_ALL_OPS)
  else (read_attr, write_attr).

Definition estimate_operation (policy : WritePolicy) (rw : Z * Z)
    (o : Operation) : M Buffer (Z * Z) :=
  let rw := operate_attrs policy o rw in
  let! n := op_estimate_size o in
  add_offset (n + OPERATION_HEADER_SIZE) ;;;
  ret rw.

Definition set_operate (policy : WritePolicy) (key : Key)
    (operations : list Operation) : M Buffer unit :=
  begin ;;;
  let! (read_attr, write_attr) :=
    fold_m (estimate_operation policy) (0, 0) operations in
  let with_key := send_key policy && negb (write_attr =? 0) in
  let! field_count := estimate_key_size key with_key in
  let! filter_size := estimate_filter_size (wp_filter_expression policy) in
  let field_count := count_filter filter_size field_count in
  size_buffer ;;;
  (if write_attr =? 0
   then write_header (wp_base_policy policy) read_attr write_attr field_count
          (as_u16 (len operations))
   else write_header_with_policy policy read_attr write_attr field_count
          (as_u16 (len operations))) ;;;
  write_key key with_key ;;;
  write_filter (wp_filter_expression policy) filter_size ;;;
  for_each operations (fun o => op_write_to o ;;; ret tt) ;;;
  end_.

Definition set_udf (policy : WritePolicy) (key : Key)
    (package_name function_name : bytes) (args : option (list Value))
    : M Buffer unit :=
  begin ;;;
  let! field_count := estimate_key_size key (send_key policy) in
  let! udf_count := estimate_udf_size package_name function_name args in
  let! filter_size := estimate_filter_size (wp_filter_expression policy) in
  let field_count := count_filter filter_size (field_count + udf_count) in
  size_buffer ;;;
  write_header (wp_base_policy policy) 0 INFO2_WRITE field_count 0 ;;;
  write_key key (send_key policy) ;;;
  write_filter (wp_filter_expression policy) filter_size ;;;
  write_field_string package_name FieldType.UdfPackageName ;;;
  write_field_string function_name FieldType.UdfFunction ;;;
  write_args args FieldType.UdfArgList ;;;
  end_.

End Commands.
