(* ===== verification/CommandFacts.v ===== *)
(** * The messages the commands build

    A message is the 8-byte protocol header, the 22-byte message header and a
    body of fields and operations.  [builds m hdr body]: from any buffer, [m]
    leaves exactly that message in it (no byte of an earlier command remains),
    or fails, before writing, when the message exceeds the maximal size.  The
    estimates and the writes of a command are both derived from the same body,
    which is how the code's two passes are shown to agree. *)

From stdpp Require Import base list strings decidable.
From Stdlib Require Import ZArith Lia Setoid Morphisms.
From S2P Require Import Prelude ResultCodes Monad ByteOrder Slices Wire Buffer.
From S2P Require Import BufferFacts Values Cdt Encoder EncoderFacts Decoder.
From S2P Require Import MsgPack WellFormed RoundTrip Particle Expressions.
From S2P Require Import Operations Policy Statements Commands.

(** ** Messages *)

Section Messages.
Context `{BO : ByteOrder} `{VF : ValueFmt}.

Definition header (read_attr write_attr info_attr gen exp fields ops : Z)
    : bytes :=
  [MSG_REMAINING_HEADER_SIZE; read_attr; write_attr; info_attr; 0; 0] ++
  write_be 4 gen ++ write_be 4 exp ++ [0; 0; 0; 0] ++
  write_be 2 fields ++ write_be 2 ops.

(** Version 2, type 3, and the length of what follows in six bytes. *)
Definition protocol_header (n : Z) : bytes :=
  write_be 8 (CL_MSG_VERSION * 2 ^ 56 + AS_MSG_TYPE * 2 ^ 48 + n).

Definition message (hdr body : bytes) : bytes :=
  protocol_header (MSG_REMAINING_HEADER_SIZE + len body) ++ hdr ++ body.

Definition total_size (body : bytes) : Z := MSG_TOTAL_HEADER_SIZE + len body.

Definition builds (m : M Buffer unit) (hdr body : bytes) : Prop :=
  forall b,
    m b =
    if total_size body <=? MAX_BUFFER_SIZE
    then Ret tt (mkBuffer (message hdr body) 8 (reclaim_threshold b))
    else Throw (Msg "Invalid size for buffer: {}")
           (set_offset (total_size body) b).

Lemma len_header r w i g e f o : len (header r w i g e f o) = 22.
Proof. unfold header. size_lia. Qed.

(** *** The phases of a command *)

Definition estimates (m : M Buffer unit) (n : Z) (k : M Buffer unit) : Prop :=
  m ≈ (add_offset n ;;; size_buffer ;;; k).

Lemma estimates_bind {A} (e : M Buffer A) (kk : A -> M Buffer unit) n n' v k :
  advances e n v -> estimates (kk v) n' k -> estimates (bind e kk) (n + n') k.
Proof.
  unfold advances, estimates. intros H1 H2.
  rewrite H1, <- add_offset_add, !bind_assoc.
  apply bind_proper; [reflexivity|]. intros []. rewrite bind_ret_l. exact H2.
Qed.

Lemma estimates_done k : estimates (size_buffer ;;; k) 0 k.
Proof. unfold estimates. rewrite add_offset_0, bind_ret_l. reflexivity. Qed.

(** The header at its place, then a body. *)
Definition writes (k : M Buffer unit) (hdr body : bytes) : Prop :=
  k ≈ (set_position 8 ;;; emit hdr ;;; set_position 30 ;;; emit body ;;; end_).

(** The end of a body. *)
Definition tails (k : M Buffer unit) (body : bytes) : Prop :=
  k ≈ (emit body ;;; end_).

Lemma tails_end : tails end_ [].
Proof. unfold tails, emit. cbn [for_each]. rewrite bind_ret_l. reflexivity. Qed.

Lemma tails_step {A} (m : M Buffer A) k bs body v :
  emits m bs v -> tails k body -> tails (m ;;; k) (bs ++ body).
Proof.
  unfold emits, tails. intros H1 H2. rewrite H1, emit_app, !bind_assoc.
  apply bind_proper; [reflexivity|]. intros []. rewrite bind_ret_l. exact H2.
Qed.

Lemma tails_eq k body body' : tails k body -> body = body' -> tails k body'.
Proof. intros H <-. exact H. Qed.

Lemma writes_header (h k : M Buffer unit) hdr body :
  h ≈ (set_position 8 ;;; emit hdr ;;; set_position 30) ->
  tails k body -> writes (h ;;; k) hdr body.
Proof.
  unfold tails, writes. intros H1 H2. rewrite H1.
  do 2 (rewrite bind_assoc; apply bind_proper; [reflexivity|]; intros []).
  apply bind_proper; [reflexivity|]. intros []. exact H2.
Qed.

(** The length with version and type, as [end] combines them. *)
Lemma proto_size n :
  0 <= n < 2 ^ 48 ->
  Z.lor (Z.lor (as_i64 n) (Z.shiftl CL_MSG_VERSION 56)) (Z.shiftl AS_MSG_TYPE 48)
  = CL_MSG_VERSION * 2 ^ 56 + AS_MSG_TYPE * 2 ^ 48 + n.
Proof.
  intros Hn. unfold as_i64. rewrite wrap_i_id by (unfold in_i; lia).
  unfold CL_MSG_VERSION, AS_MSG_TYPE. rewrite !Z.shiftl_mul_pow2 by lia.
  rewrite <- Z.lor_assoc, Z.lor_comm.
  change (Z.lor (2 * 2 ^ 56) (3 * 2 ^ 48)) with ((2 * 2 ^ 8 + 3) * 2 ^ 48).
  rewrite lor_add by lia. lia.
Qed.

(** [end] patches the first eight bytes. *)
Lemma end_at (area rest : bytes) rt n :
  len area = 8 -> n = len rest -> n < 2 ^ 48 ->
  end_ (mkBuffer (area ++ rest) (8 + n) rt)
  = Ret tt (mkBuffer (protocol_header n ++ rest) 8 rt).
Proof.
  intros Ha -> Hn. pose proof (len_nonneg rest). unfold end_.
  unfold bind at 1, get at 1. unfold usize_sub. cbn [data_offset].
  decide_tests. rewrite bind_ret_l.
  replace (8 + len rest - 8) with (len rest) by lia.
  rewrite proto_size by lia. unfold bind at 1, reset_offset at 1, set_offset.
  cbn [data_buffer reclaim_threshold].
  unfold bind at 1. rewrite (write_i64_emits _ _). unfold bind.
  change (mkBuffer (area ++ rest) 0 rt)
    with (mkBuffer ([] ++ area ++ rest) (len (@nil Z)) rt).
  rewrite emit_frame by (rewrite len_write_be; exact Ha).
  unfold ret. rewrite len_write_be. reflexivity.
Qed.

Lemma command_builds m n k hdr body :
  estimates m n k ->
  (total_size body <= MAX_BUFFER_SIZE -> writes k hdr body) ->
  len body = n -> len hdr = 22 ->
  builds (begin ;;; m) hdr body.
Proof.
  intros Hm Hk <- Hh [d o rt]. unfold builds, total_size in *.
  pose proof (len_nonneg body).
  unfold bind at 1, begin, set_offset. cbn [data_buffer reclaim_threshold].
  rewrite (Hm _). unfold bind at 1, add_offset, set_offset.
  cbn [data_buffer data_offset reclaim_threshold].
  unfold bind at 1, size_buffer, resize_buffer.
  cbn [data_buffer data_offset reclaim_threshold].
  rewrite Z.gtb_ltb, Z.ltb_antisym.
  destruct (Z.leb_spec (MSG_TOTAL_HEADER_SIZE + len body) MAX_BUFFER_SIZE)
    as [Hle|]; [|reflexivity].
  cbn [negb]. rewrite (Hk Hle _). clear Hk Hm.
  unfold MSG_TOTAL_HEADER_SIZE, MAX_BUFFER_SIZE in *.
  unfold set_data. cbn [data_offset reclaim_threshold].
  set (d' := vec_resize (30 + len body) d).
  assert (len d' = 30 + len body) as Hd by (apply len_vec_resize; lia).
  destruct (slice_split d' 0 8) as (x & area & r1 & E1 & Hx & Ha); [lia..|].
  destruct (slice_split r1 0 22) as (y & mid & rest & -> & Hy & Hmid);
    [rewrite E1, !len_app in Hd; lia..|].
  destruct x, y; try (unfold len in Hx, Hy; cbn in Hx, Hy; lia).
  cbn [app] in E1. rewrite E1 in *. rewrite !len_app in Hd. clear d' E1 Hx Hy.
  unfold bind at 1, set_position at 1, set_offset. cbn [data_buffer reclaim_threshold].
  unfold bind at 1. rewrite <- Ha.
  rewrite emit_frame by lia.
  unfold bind at 1, set_position at 1, set_offset. cbn [data_buffer reclaim_threshold].
  unfold bind at 1.
  replace (area ++ hdr ++ rest) with ((area ++ hdr) ++ rest ++ [])
    by (rewrite app_nil_r, (assoc_L (++)); reflexivity).
  replace 30 with (len (area ++ hdr)) by (rewrite len_app; lia).
  rewrite emit_frame by lia.
  rewrite app_nil_r, <- (assoc_L (++)), len_app, Ha, Hh.
  replace (8 + 22 + len body) with (8 + len (hdr ++ body)) by (rewrite len_app; lia).
  rewrite end_at; [|exact Ha|reflexivity|rewrite len_app; lia].
  rewrite len_app, Hh. reflexivity.
Qed.

(** *** Headers *)

Fixpoint set_bytes (o : Z) (vs : bytes) : M Buffer unit :=
  match vs with
  | [] => ret tt
  | v :: vs' => set_byte o v ;;; set_bytes (o + 1) vs'
  end.

Lemma set_byte_emit o v k (m : M Buffer unit) :
  0 <= o ->
  (set_byte o v ;;; set_position k ;;; m)
  ≈ (set_position o ;;; emit [v] ;;; set_position k ;;; m).
Proof.
  intros Ho [d p rt]. unfold bind, set_byte, set_position, emit, set_offset.
  cbn. unfold bind, write_u8. cbn [data_buffer data_offset reclaim_threshold].
  destruct (index d o); reflexivity.
Qed.

(** An emission moves the cursor by what it writes. *)
Lemma emit_offset bs : forall b b',
  emit bs b = Ret tt b' -> data_offset b' = data_offset b + len bs.
Proof.
  induction bs as [|x bs IH]; intros b b' H.
  - injection H as <-. rewrite len_nil. lia.
  - unfold emit in H. cbn [for_each] in H.
    rewrite !(bind_assoc _ _ _ _) in H. unfold bind at 1, write_u8 in H.
    destruct (index (data_buffer b) (data_offset b)); [|discriminate].
    unfold bind at 1, ret at 1 in H. apply IH in H. cbn in H.
    rewrite len_cons. lia.
Qed.

Lemma emit_position o vs (m : M Buffer unit) :
  (set_position o ;;; emit vs ;;; set_position (o + len vs) ;;; m)
  ≈ (set_position o ;;; emit vs ;;; m).
Proof.
  intros b. unfold bind, set_position.
  destruct (emit vs (set_offset o b)) as [[] b'|e b'| |] eqn:E; try reflexivity.
  apply emit_offset in E. cbn in E. rewrite <- E. destruct b'; reflexivity.
Qed.

Lemma set_bytes_emit vs : forall o k (m : M Buffer unit),
  0 <= o ->
  (set_bytes o vs ;;; set_position k ;;; m)
  ≈ (set_position o ;;; emit vs ;;; set_position k ;;; m).
Proof.
  induction vs as [|v vs IH]; intros o k m Ho.
  - intros s. reflexivity.
  - cbn [set_bytes]. rewrite bind_assoc.
    transitivity (set_byte o v ;;; set_position (o + 1) ;;; emit vs ;;;
                  set_position k ;;; m).
    { apply bind_proper; [reflexivity|]. intros []. apply IH. lia. }
    rewrite set_byte_emit by exact Ho.
    rewrite (emit_position o [v]).
    apply bind_proper; [reflexivity|]. intros [].
    change (v :: vs) with ([v] ++ vs). rewrite emit_app, bind_assoc.
    reflexivity.
Qed.

Lemma write_header_emits p r w f o :
  write_header p r w f o
  ≈ (set_position 8 ;;;
     emit (header (consistency_attr p r) w 0 0 0 f o) ;;; set_position 30).
Proof.
  unfold write_header. set (ra := consistency_attr p r).
  assert (write_be 4 0 = [0; 0; 0; 0]) as E0
    by (rewrite !write_be_S, write_be_0; reflexivity).
  pose proof (write_u16_emits f) as Hf. pose proof (write_u16_emits o) as Hop.
  unfold emits in Hf, Hop.
  set (front := [22; ra; w] ++ replicate 15 0).
  assert (header ra w 0 0 0 f o = front ++ write_be 2 f ++ write_be 2 o)
    as -> by (unfold header; rewrite E0; reflexivity).
  transitivity (set_bytes 8 front ;;;
                set_position 26 ;;; write_u16 f ;;; write_u16 o ;;;
                set_position 30).
  - unfold front. cbn [app set_bytes].
    do 3 (rewrite (bind_assoc (set_byte _ _)); apply bind_proper;
          [reflexivity|]; intros []).
    apply bind_proper; [|intros []; reflexivity].
    change (seqZ 11 15) with ((fun i => Z.of_nat i + 11) <$> seq 0 15).
    intros s. reflexivity.
  - rewrite set_bytes_emit by lia. change 26 with (8 + len front).
    rewrite (emit_position 8 front).
    apply bind_proper; [reflexivity|]. intros [].
    rewrite emit_app, bind_assoc. apply bind_proper; [reflexivity|]. intros [].
    rewrite emit_app, bind_assoc, Hf, bind_assoc.
    apply bind_proper; [reflexivity|]. intros []. rewrite bind_ret_l.
    rewrite Hop, bind_assoc.
    apply bind_proper; [reflexivity|]. intros []. reflexivity.
Qed.

(** The attributes of a write, as the policy determines them. *)
Definition policy_header (p : WritePolicy) (r w f o : Z) : bytes :=
  let (w1, i1) := exists_flags p w 0 in
  let (w2, gen) := generation_flags p w1 in
  header (consistency_attr (wp_base_policy p) r) (durable_flags p w2)
    (commit_flags p i1) gen (Expiration.to_u32 (expiration p)) f o.

Lemma write_header_with_policy_emits p r w f o :
  write_header_with_policy p r w f o
  ≈ (set_position 8 ;;; emit (policy_header p r w f o) ;;; set_position 30).
Proof.
  unfold write_header_with_policy, policy_header.
  destruct (exists_flags p w 0) as [w1 i1].
  destruct (generation_flags p w1) as [w2 gen].
  apply bind_proper; [reflexivity|]. intros [].
  set (h := header _ _ _ _ _ _ _).
  assert (emits (write_u8 MSG_REMAINING_HEADER_SIZE ;;;
                 write_u8 (consistency_attr (wp_base_policy p) r) ;;;
                 write_u8 (durable_flags p w2) ;;;
                 write_u8 (commit_flags p i1) ;;; write_u8 0 ;;; write_u8 0 ;;;
                 write_u32 gen ;;;
                 write_u32 (Expiration.to_u32 (expiration p)) ;;;
                 write_u8 0 ;;; write_u8 0 ;;; write_u8 0 ;;; write_u8 0 ;;;
                 write_u16 f ;;; write_u16 o ;;; ret tt) h tt) as H.
  { emits_tac. unfold h, header. cbn [app]. rewrite app_nil_r. reflexivity. }
  transitivity ((write_u8 MSG_REMAINING_HEADER_SIZE ;;;
                 write_u8 (consistency_attr (wp_base_policy p) r) ;;;
                 write_u8 (durable_flags p w2) ;;;
                 write_u8 (commit_flags p i1) ;;; write_u8 0 ;;; write_u8 0 ;;;
                 write_u32 gen ;;;
                 write_u32 (Expiration.to_u32 (expiration p)) ;;;
                 write_u8 0 ;;; write_u8 0 ;;; write_u8 0 ;;; write_u8 0 ;;;
                 write_u16 f ;;; write_u16 o ;;; ret tt) ;;; set_position 30).
  - do 13 (rewrite (bind_assoc (_ : M Buffer Z)); apply bind_proper;
           [reflexivity|]; intros ?).
    intros s. unfold bind. destruct (write_u16 o s); reflexivity.
  - unfold emits in H. rewrite H, bind_assoc.
    apply bind_proper; [reflexivity|]. intros [] s. reflexivity.
Qed.


(** ** Fields *)

(** Length (of type and contents), type, contents. *)
Definition field (t : FieldType) (bs : bytes) : bytes :=
  write_be 4 (len bs + 1) ++ FieldType.to_u8 t :: bs.

Lemma len_field t bs : len (field t bs) = FIELD_HEADER_SIZE + len bs.
Proof. unfold field, FIELD_HEADER_SIZE. size_lia. Qed.

(** A string that is left out when it is empty. *)
Definition opt_field (t : FieldType) (s : bytes) : bytes :=
  if nonempty s then field t s else [].

Definition enc_user_key (key : Key) (send_key : bool) : option bytes :=
  match send_key, user_key key with
  | true, Some v =>
      match Value.particle_type v, particle_bytes v with
      | Some t, Some bs =>
          Some (field FieldType.Key (ParticleType.to_u8 t :: bs))
      | _, _ => None
      end
  | _, _ => Some []
  end.

Definition enc_key (key : Key) (send_key : bool) : option bytes :=
  Some (opt_field FieldType.Namespace (namespace key) ++
        opt_field FieldType.Table (set_name key) ++
        field FieldType.DigestRipe (digest key)) +++
  enc_user_key key send_key.

Definition count_if (b : bool) : Z := if b then 1 else 0.

Definition key_field_count (key : Key) (send_key : bool) : Z :=
  count_if (nonempty (namespace key)) + count_if (nonempty (set_name key)) + 1 +
  match send_key, user_key key with true, Some _ => 1 | _, _ => 0 end.

Definition enc_filter (filter : option FilterExpression) : option bytes :=
  match filter with
  | Some e => field FieldType.FilterExp <$> enc_exp e
  | None => Some []
  end.

Definition filter_field_count (filter : option FilterExpression) : Z :=
  match filter with Some _ => 1 | None => 0 end.

Definition enc_bin (t : OperationType) (bin : Bin) : option bytes :=
  match Value.particle_type (bin_value bin), particle_bytes (bin_value bin) with
  | Some p, Some bs => Some (op_bytes t p (bin_name bin) bs)
  | _, _ => None
  end.

(** A read operation for a bin by name. *)
Definition enc_bin_name (name : bytes) : bytes :=
  op_bytes OperationType.Read ParticleType.NULL name [].

Definition enc_udf_args (args : option (list Value)) : option bytes :=
  field FieldType.UdfArgList <$>
  enc_list (match args with Some args => args | None => [] end).

(** *** Each field is written as estimated *)

Lemma write_field_header_emits n t :
  n < 2 ^ 31 - 1 -> 0 <= n ->
  emits (write_field_header n t) (write_be 4 (n + 1) ++ [FieldType.to_u8 t]) tt.
Proof.
  intros Hn H0. unfold write_field_header, i32_add, as_i32.
  rewrite wrap_i_id by (unfold in_i; lia). decide_tests. rewrite bind_ret_l.
  emits_tac. rewrite app_nil_r. reflexivity.
Qed.

Lemma field_emits {A} n t bs (m : M Buffer A) v k :
  n = len bs -> n < 2 ^ 31 - 1 -> emits m bs v ->
  k ≈ (write_field_header n t ;;; m ;;; ret tt) ->
  emits k (field t bs) tt.
Proof.
  intros -> Hn Hm Hk. rewrite Hk. eapply emits_eq.
  - eapply emits_bind; [apply write_field_header_emits; [exact Hn|apply len_nonneg]|].
    eapply emits_bind; [exact Hm|apply emits_ret].
  - unfold field. rewrite app_nil_r, <- (assoc_L (++)). reflexivity.
Qed.

Lemma write_field_string_emits s t :
  len s < 2 ^ 31 - 1 -> emits (write_field_string s t) (field t s) tt.
Proof.
  intros Hs. eapply field_emits; [reflexivity|exact Hs|apply write_str_emits|].
  reflexivity.
Qed.

Lemma write_field_bytes_emits s t :
  len s < 2 ^ 31 - 1 -> emits (write_field_bytes s t) (field t s) tt.
Proof.
  intros Hs. eapply field_emits; [reflexivity|exact Hs|apply write_bytes_emits|].
  reflexivity.
Qed.

Lemma when_field_emits s t :
  len s < 2 ^ 31 - 1 ->
  emits (when (nonempty s) (write_field_string s t)) (opt_field t s) tt.
Proof.
  intros Hs. unfold opt_field, when. destruct (nonempty s); [|apply emits_ret].
  apply write_field_string_emits, Hs.
Qed.

Lemma opt_field_advances s t :
  advances
    (if nonempty s then add_offset (len s + FIELD_HEADER_SIZE) ;;; ret 1
     else ret 0)
    (len (opt_field t s)) (count_if (nonempty s)).
Proof.
  unfold opt_field, count_if. destruct (nonempty s); [|apply advances_ret].
  rewrite len_field. advances_tac. lia.
Qed.

Lemma len_opt_field t s : len s <= len (opt_field t s).
Proof.
  unfold opt_field. destruct s; cbn [nonempty]; [reflexivity|].
  rewrite len_field. unfold FIELD_HEADER_SIZE. lia.
Qed.

Lemma estimate_key_advances key send bs :
  enc_key key send = Some bs -> key_ok key ->
  advances (estimate_key_size key send) (len bs) (key_field_count key send).
Proof.
  unfold enc_key. intros Hb [Hd _].
  apply opt_app_Some in Hb as (b1 & b2 & <-%(inj Some) & Hu & ->).
  unfold estimate_key_size, key_field_count.
  eapply advances_eq.
  - eapply advances_bind; [apply (opt_field_advances _ FieldType.Namespace)|].
    eapply advances_bind; [apply (opt_field_advances _ FieldType.Table)|].
    eapply advances_bind; [apply advances_add|].
    eapply (advances_bind _ _ (len b2)); [|apply advances_ret].
    unfold enc_user_key in Hu.
    destruct send; [|injection Hu as <-; apply advances_ret].
    destruct (user_key key) as [v|]; [|injection Hu as <-; apply advances_ret].
    destruct (Value.particle_type v); [|discriminate].
    destruct (particle_bytes v) eqn:Hv; [|discriminate].
    apply (inj Some) in Hu as <-.
    rewrite (estimate_size_bytes _ _ Hv), bind_ret_l. advances_tac.
    rewrite len_field, len_cons. unfold FIELD_HEADER_SIZE. lia.
  - assert (len (digest key) = 20) as E by (unfold len; rewrite Hd; reflexivity).
    rewrite !len_app, len_field, E. unfold DIGEST_SIZE, FIELD_HEADER_SIZE. lia.
Qed.

Lemma write_field_value_emits v t bs :
  Value.particle_type v = Some t -> particle_bytes v = Some bs ->
  len bs + 1 < 2 ^ 31 - 1 ->
  emits (write_field_value v FieldType.Key)
    (field FieldType.Key (ParticleType.to_u8 t :: bs)) tt.
Proof.
  intros Ht Hb Hn. unfold write_field_value.
  rewrite (estimate_size_bytes _ _ Hb), bind_ret_l, Ht.
  eapply (field_emits (len bs + 1) _ _
            (write_u8 (ParticleType.to_u8 t) ;;; write_to v)).
  - rewrite len_cons. lia.
  - exact Hn.
  - eapply (emits_bind _ _ [_] bs); [apply write_u8_emits|].
    apply write_to_emits, Hb.
  - apply bind_proper; [reflexivity|]. intros [].
    cbn [unwrap]. rewrite bind_ret_l, bind_assoc. reflexivity.
Qed.

Lemma write_key_emits key send bs :
  enc_key key send = Some bs -> len bs < 2 ^ 31 - 1 ->
  emits (write_key key send) bs tt.
Proof.
  unfold enc_key. intros Hb Hn.
  apply opt_app_Some in Hb as (b1 & b2 & <-%(inj Some) & Hu & ->).
  rewrite !len_app, len_field in Hn. unfold FIELD_HEADER_SIZE in Hn.
  pose proof (len_opt_field FieldType.Namespace (namespace key)).
  pose proof (len_opt_field FieldType.Table (set_name key)).
  pose proof (len_nonneg (namespace key)). pose proof (len_nonneg (set_name key)).
  pose proof (len_nonneg (digest key)). pose proof (len_nonneg b2).
  unfold write_key. rewrite <- !(assoc_L (++)).
  eapply emits_bind; [apply when_field_emits; lia|].
  eapply emits_bind; [apply when_field_emits; lia|].
  eapply emits_bind; [apply write_field_bytes_emits; lia|].
  unfold enc_user_key in Hu.
  destruct send; [|injection Hu as <-; apply emits_ret].
  destruct (user_key key) as [v|]; [|injection Hu as <-; apply emits_ret].
  destruct (Value.particle_type v) eqn:Ht; [|discriminate].
  destruct (particle_bytes v) eqn:Hv; [|discriminate].
  apply (inj Some) in Hu as <-.
  rewrite len_field, len_cons in Hn. unfold FIELD_HEADER_SIZE in Hn.
  apply write_field_value_emits; auto. lia.
Qed.

(** *** The filter expression *)

Lemma filter_passes filter bs :
  enc_filter filter = Some bs ->
  exists n,
    advances (estimate_filter_size filter) (len bs) n /\
    (forall c, count_filter n c = c + filter_field_count filter) /\
    (len bs < 2 ^ 31 - 1 -> emits (write_filter filter n) bs tt).
Proof.
  destruct filter as [e|]; cbn [enc_filter].
  - destruct (enc_exp e) as [fb|] eqn:He; [|discriminate].
    intros <-%(inj Some). pose proof (enc_exp_pos _ _ He) as Hpos.
    pose proof (pack_packs e) as Hp. rewrite He in Hp.
    exists (len fb). split; [|split].
    + cbn [estimate_filter_size]. rewrite (packs_with_none _ _ Hp), bind_ret_l.
      rewrite len_field. advances_tac. lia.
    + intros c. unfold count_filter. cbn [filter_field_count]. decide_tests.
      reflexivity.
    + rewrite len_field. unfold FIELD_HEADER_SIZE. intros Hn.
      eapply field_emits; [reflexivity| |apply packs_with_some, Hp|reflexivity].
      lia.
  - intros <-%(inj Some). exists 0. split; [|split].
    + apply advances_ret.
    + intros c. unfold count_filter. cbn. lia.
    + intros _. apply emits_ret.
Qed.

(** *** Operations *)

Lemma for_each_emits_opt {A} (f : A -> M Buffer unit) g B l : forall bs,
  (forall x b, g x = Some b -> len b < B -> emits (f x) b tt) ->
  opt_concat (g <$> l) = Some bs -> len bs < B ->
  emits (for_each l f) bs tt.
Proof.
  induction l as [|x l IH]; intros bs Hf Hb Hn.
  - injection Hb as <-. apply emits_ret.
  - cbn [fmap list_fmap opt_concat] in Hb.
    apply opt_app_Some in Hb as (b1 & b2 & H1 & H2 & ->).
    rewrite len_app in Hn. pose proof (len_nonneg b1). pose proof (len_nonneg b2).
    eapply emits_bind; [apply Hf; [exact H1|lia]|].
    apply IH; [exact Hf|exact H2|lia].
Qed.

Lemma for_each_advances_opt {A} (f : A -> M Buffer unit) g l : forall bs,
  (forall x b, g x = Some b -> advances (f x) (len b) tt) ->
  opt_concat (g <$> l) = Some bs -> advances (for_each l f) (len bs) tt.
Proof.
  induction l as [|x l IH]; intros bs Hf Hb.
  - injection Hb as <-. apply advances_ret.
  - cbn [fmap list_fmap opt_concat] in Hb.
    apply opt_app_Some in Hb as (b1 & b2 & H1 & H2 & ->). rewrite len_app.
    eapply advances_bind; [apply Hf, H1|]. apply IH; assumption.
Qed.

Lemma estimate_bin_advances t bin bs :
  enc_bin t bin = Some bs ->
  advances (estimate_operation_size_for_bin bin) (len bs) tt.
Proof.
  unfold enc_bin, estimate_operation_size_for_bin.
  destruct (Value.particle_type _); [|discriminate].
  destruct (particle_bytes _) eqn:Hv; [|discriminate]. intros <-%(inj Some).
  rewrite len_op_bytes. eapply advances_eq.
  - eapply advances_bind; [apply advances_add|].
    rewrite (estimate_size_bytes _ _ Hv), bind_ret_l. apply advances_add.
  - lia.
Qed.

Lemma write_be_i32 v : write_be 4 (as_i32 v) = write_be 4 v.
Proof. apply (write_be_wrap_i 4 4); lia. Qed.

Lemma write_bin_emits t bin bs :
  enc_bin t bin = Some bs -> emits (write_operation_for_bin bin t) bs tt.
Proof.
  unfold enc_bin, write_operation_for_bin.
  destruct (Value.particle_type _) as [p|]; [|discriminate].
  destruct (particle_bytes _) as [d|] eqn:Hv; [|discriminate].
  intros <-%(inj Some).
  rewrite (estimate_size_bytes _ _ Hv), bind_ret_l. cbn [unwrap].
  pose proof (write_to_emits _ _ Hv). eapply emits_eq.
  - do 2 (eapply emits_bind; [eauto with emits|]). rewrite bind_ret_l.
    do 5 (eapply emits_bind; [eauto with emits|]). apply emits_ret.
  - unfold op_bytes. rewrite write_be_i32, app_nil_r. reflexivity.
Qed.

Lemma estimate_bin_name_advances name :
  advances (estimate_operation_size_for_bin_name name) (len (enc_bin_name name)) tt.
Proof.
  unfold enc_bin_name. rewrite len_op_bytes, len_nil.
  eapply advances_eq; [apply advances_add|lia].
Qed.

Lemma write_bin_name_emits name :
  len (enc_bin_name name) < 2 ^ 31 ->
  emits (write_operation_for_bin_name name OperationType.Read)
    (enc_bin_name name) tt.
Proof.
  unfold enc_bin_name. rewrite len_op_bytes, len_nil.
  unfold OPERATION_HEADER_SIZE. intros Hn. pose proof (len_nonneg name).
  unfold write_operation_for_bin_name, i32_add, as_i32.
  rewrite wrap_i_id by (unfold in_i; lia). decide_tests. rewrite bind_ret_l.
  emits_tac. unfold op_bytes. rewrite !app_nil_r.
  replace (len name + len [] + 4) with (len name + 4) by (rewrite len_nil; lia).
  reflexivity.
Qed.

Lemma write_touch_emits :
  emits (write_operation_for_operation_type OperationType.Touch)
    (op_bytes OperationType.Touch ParticleType.NULL [] []) tt.
Proof.
  unfold write_operation_for_operation_type. emits_tac.
  unfold op_bytes. rewrite !app_nil_r. reflexivity.
Qed.

End Messages.
