(* ===== verification/RecordCommands.v ===== *)
(** * Commands on one record

    The exact message of every single-record command: the header its policy
    asks for, the key and filter fields, and the operations, in this order;
    field and operation counts are the numbers of fields and operations that
    follow. *)

From stdpp Require Import base list strings decidable.
From Stdlib Require Import ZArith Lia Setoid Morphisms.
From S2P Require Import Prelude ResultCodes Monad ByteOrder Slices Wire Buffer.
From S2P Require Import BufferFacts Values Cdt Encoder EncoderFacts Decoder.
From S2P Require Import RoundTrip Particle Expressions.
From S2P Require Import Operations Policy Statements Commands CommandFacts.

Section RecordCommands.
Context `{BO : ByteOrder} `{VF : ValueFmt}.

(** The fields that every record command has. *)
Definition record_fields (key : Key) (send : bool)
    (filter : option FilterExpression) : option bytes :=
  enc_key key send +++ enc_filter filter.

Definition record_field_count (key : Key) (send : bool)
    (filter : option FilterExpression) : Z :=
  key_field_count key send + filter_field_count filter.

(** The common shape: key, filter, then what is particular to the command
    ([e] estimates it, [w] writes it). *)
Lemma record_command_builds key send filter kf tb extra
    (e w : M Buffer unit) (h : Z -> M Buffer unit) hdr (m : Z -> Z -> M Buffer unit) :
  key_ok key -> record_fields key send filter = Some kf ->
  advances e (len tb) tt ->
  (total_size (kf ++ tb) <= MAX_BUFFER_SIZE -> emits w tb tt) ->
  h (record_field_count key send filter + extra)
  ≈ (set_position 8 ;;; emit hdr ;;; set_position 30) ->
  len hdr = 22 ->
  (forall n, m (key_field_count key send) n ≈
     (e ;;; size_buffer ;;;
      h (count_filter n (key_field_count key send) + extra) ;;;
      write_key key send ;;; write_filter filter n ;;; w ;;; end_)) ->
  builds
    (begin ;;;
     let! c := estimate_key_size key send in
     let! n := estimate_filter_size filter in m c n) hdr (kf ++ tb).
Proof.
  intros Hk Hf He Hw Hh Hlen Hm.
  apply opt_app_Some in Hf as (kb & fb & Hkb & Hfb & ->).
  destruct (filter_passes _ _ Hfb) as (n & Hadv & Hcount & Hwf).
  eapply command_builds.
  - eapply estimates_bind; [apply estimate_key_advances; eassumption|].
    eapply estimates_bind; [exact Hadv|]. unfold estimates. rewrite Hm.
    eapply estimates_bind; [exact He|]. apply estimates_done.
  - intros Hsize. specialize (Hw Hsize).
    unfold total_size, MSG_TOTAL_HEADER_SIZE, MAX_BUFFER_SIZE in Hsize.
    rewrite !len_app in Hsize. pose proof (len_nonneg kb).
    pose proof (len_nonneg fb). pose proof (len_nonneg tb).
    apply writes_header.
    + rewrite Hcount. exact Hh.
    + eapply tails_eq.
      * eapply tails_step; [apply write_key_emits; [eassumption|lia]|].
        eapply tails_step; [apply Hwf; lia|].
        eapply tails_step; [exact Hw|apply tails_end].
      * rewrite app_nil_r, (assoc_L (++)). reflexivity.
  - rewrite !len_app. lia.
  - exact Hlen.
Qed.

Lemma len_policy_header p r w f o : len (policy_header p r w f o) = 22.
Proof.
  unfold policy_header. destruct (exists_flags p w 0).
  destruct (generation_flags p _). apply len_header.
Qed.

Lemma set_write_builds (policy : WritePolicy) (t : OperationType)
    (key : Key) (bins : list Bin) (fields ops : bytes) :
  key_ok key ->
  record_fields key (send_key policy) (wp_filter_expression policy)
  = Some fields ->
  opt_concat (enc_bin t <$> bins) = Some ops ->
  builds (set_write policy t key bins)
    (policy_header policy 0 INFO2_WRITE
       (record_field_count key (send_key policy) (wp_filter_expression policy))
       (as_u16 (len bins)))
    (fields ++ ops).
Proof.
  intros Hk Hf Ho.
  eapply (record_command_builds _ _ _ _ _ 0
            (for_each bins estimate_operation_size_for_bin)
            (for_each bins (fun bin => write_operation_for_bin bin t))
            (fun c => write_header_with_policy policy 0 INFO2_WRITE c _));
    [exact Hk|exact Hf| | | |apply len_policy_header|].
  - eapply for_each_advances_opt; [|exact Ho]. apply estimate_bin_advances.
  - intros _. eapply (for_each_emits_opt _ _ (len ops + 1)); [|exact Ho|lia].
    intros b bs Hb _. apply write_bin_emits, Hb.
  - rewrite Z.add_0_r. apply write_header_with_policy_emits.
  - intros n. rewrite Z.add_0_r. reflexivity.
Qed.

(** [set_write] builds exactly the write message: the header of the write
    policy with one operation per bin, key and filter fields, then each bin's
    name and value; or fails when the message is too large. *)
Theorem set_write_message (policy : WritePolicy) (t : OperationType)
    (key : Key) (bins : list Bin) (fields ops : bytes) :
  key_ok key ->
  record_fields key (send_key policy) (wp_filter_expression policy)
  = Some fields ->
  opt_concat (enc_bin t <$> bins) = Some ops ->
  builds (set_write policy t key bins)
    (policy_header policy 0 INFO2_WRITE
       (record_field_count key (send_key policy) (wp_filter_expression policy))
       (as_u16 (len bins)))
    (fields ++ ops).
Proof. apply set_write_builds. Qed.

(** [set_delete], [set_touch] and [set_exists] build exactly their
    messages: key and filter fields, and for [set_touch] one touch operation. *)
Theorem simple_command_messages (policy : WritePolicy) (key : Key) :
  key_ok key ->
  (forall fields,
     record_fields key false (wp_filter_expression policy) = Some fields ->
     builds (set_delete policy key)
       (policy_header policy 0 (Z.lor INFO2_WRITE INFO2_DELETE)
          (record_field_count key false (wp_filter_expression policy)) 0)
       fields /\
     builds (set_exists policy key)
       (header (consistency_attr (wp_base_policy policy)
                  (Z.lor INFO1_READ INFO1_NOBINDATA)) 0 0 0 0
          (record_field_count key false (wp_filter_expression policy)) 0)
       fields) /\
  (forall fields,
     record_fields key (send_key policy) (wp_filter_expression policy)
     = Some fields ->
     builds (set_touch policy key)
       (policy_header policy 0 INFO2_WRITE
          (record_field_count key (send_key policy)
             (wp_filter_expression policy)) 1)
       (fields ++ op_bytes OperationType.Touch ParticleType.NULL [] [])).
Proof.
  intros Hk. split; [intros fields Hf|intros fields Hf].
  - rewrite <- (app_nil_r fields). split.
    + eapply (record_command_builds _ _ _ _ [] 0 (ret tt) (ret tt)
                (fun c => write_header_with_policy policy 0 _ c 0));
        [exact Hk|exact Hf|apply advances_ret|intros _; apply emits_ret| |
         apply len_policy_header|].
      * rewrite Z.add_0_r. apply write_header_with_policy_emits.
      * intros n. rewrite Z.add_0_r, bind_ret_l.
        do 4 (apply bind_proper; [reflexivity|]; intros []).
        rewrite bind_ret_l. reflexivity.
    + eapply (record_command_builds _ _ _ _ [] 0 (ret tt) (ret tt)
                (fun c => write_header (wp_base_policy policy) _ 0 c 0));
        [exact Hk|exact Hf|apply advances_ret|intros _; apply emits_ret| |
         apply len_header|].
      * rewrite Z.add_0_r. apply write_header_emits.
      * intros n. rewrite Z.add_0_r, bind_ret_l.
        do 4 (apply bind_proper; [reflexivity|]; intros []).
        rewrite bind_ret_l. reflexivity.
  - eapply (record_command_builds _ _ _ _ _ 0 estimate_operation_size
              (write_operation_for_operation_type OperationType.Touch)
              (fun c => write_header_with_policy policy 0 _ c 1));
      [exact Hk|exact Hf| |intros _; apply write_touch_emits| |
       apply len_policy_header|].
    + eapply advances_eq; [apply advances_add|].
      rewrite len_op_bytes. reflexivity.
    + rewrite Z.add_0_r. apply write_header_with_policy_emits.
    + intros n. rewrite Z.add_0_r. reflexivity.
Qed.

(** The attributes, the operation count and the operations of a read. *)
Definition read_attr_of (bins : Bins) : Z :=
  match bins with
  | Bins.All => Z.lor INFO1_READ INFO1_GET_ALL
  | Bins.None => Z.lor INFO1_READ INFO1_NOBINDATA
  | Bins.Some _ => INFO1_READ
  end.

Definition read_ops (bins : Bins) : list bytes :=
  match bins with
  | Bins.All => []
  | Bins.None => [[]]
  | Bins.Some names => names
  end.

Lemma estimate_names_advances names :
  advances (for_each names estimate_operation_size_for_bin_name)
    (len (concat (enc_bin_name <$> names))) tt.
Proof.
  rewrite len_concat. apply advances_for_each. intros x _.
  apply estimate_bin_name_advances.
Qed.

Lemma write_names_emits names :
  len (concat (enc_bin_name <$> names)) < 2 ^ 31 ->
  emits (for_each names (fun name =>
           write_operation_for_bin_name name OperationType.Read))
    (concat (enc_bin_name <$> names)) tt.
Proof.
  induction names as [|n l IH]; cbn [fmap list_fmap concat]; intros Hn;
    [apply emits_ret|].
  rewrite len_app in Hn. pose proof (len_nonneg (enc_bin_name n)).
  pose proof (len_nonneg (concat (enc_bin_name <$> l))).
  eapply emits_bind; [apply write_bin_name_emits; lia|]. apply IH. lia.
Qed.

Lemma body_small fields ops :
  total_size (fields ++ ops) <= MAX_BUFFER_SIZE -> len ops < 2 ^ 31.
Proof.
  unfold total_size, MSG_TOTAL_HEADER_SIZE, MAX_BUFFER_SIZE.
  rewrite len_app. pose proof (len_nonneg fields). lia.
Qed.

Lemma read_all_builds (policy : BasePolicy) (key : Key) (fields : bytes) :
  key_ok key ->
  record_fields key false (base_filter_expression policy) = Some fields ->
  builds (set_read policy key Bins.All)
    (header (consistency_attr policy (read_attr_of Bins.All)) 0 0 0 0
       (record_field_count key false (base_filter_expression policy)) 0)
    (fields ++ []).
Proof.
  intros Hk Hf.
  eapply (record_command_builds _ _ _ _ _ 0 (ret tt) (ret tt)
            (fun c => write_header policy _ 0 c _));
    [exact Hk|exact Hf|apply advances_ret|intros _; apply emits_ret| |
     apply len_header|].
  - rewrite Z.add_0_r. apply write_header_emits.
  - intros n. rewrite Z.add_0_r, bind_ret_l.
    do 4 (apply bind_proper; [reflexivity|]; intros []).
    rewrite bind_ret_l. reflexivity.
Qed.

Lemma read_none_builds (policy : BasePolicy) (key : Key) (fields : bytes) :
  key_ok key ->
  record_fields key false (base_filter_expression policy) = Some fields ->
  builds (set_read policy key Bins.None)
    (header (consistency_attr policy (read_attr_of Bins.None)) 0 0 0 0
       (record_field_count key false (base_filter_expression policy)) 1)
    (fields ++ concat (enc_bin_name <$> [[]])).
Proof.
  intros Hk Hf.
  eapply (record_command_builds _ _ _ _ _ 0
            (estimate_operation_size_for_bin_name [])
            (write_operation_for_bin_name [] OperationType.Read)
            (fun c => write_header policy _ 0 c _));
    [exact Hk|exact Hf| | | |apply len_header|].
  - cbn [fmap list_fmap concat]. rewrite app_nil_r. apply estimate_bin_name_advances.
  - intros Hs%body_small. cbn [fmap list_fmap concat] in *.
    rewrite app_nil_r in *. apply write_bin_name_emits, Hs.
  - rewrite Z.add_0_r. apply write_header_emits.
  - intros n. rewrite Z.add_0_r. reflexivity.
Qed.

(** Each way of selecting bins: all of them (an attribute, no operation), none
    (one read operation without a name) or some (a read operation per name). *)
Lemma set_read_builds (policy : BasePolicy) (key : Key) (bins : Bins) (fields : bytes) :
  key_ok key ->
  record_fields key false (base_filter_expression policy) = Some fields ->
  builds (set_read policy key bins)
    (header (consistency_attr policy (read_attr_of bins)) 0 0 0 0
       (record_field_count key false (base_filter_expression policy))
       (as_u16 (len (read_ops bins))))
    (fields ++ concat (enc_bin_name <$> read_ops bins)).
Proof.
  intros Hk Hf. destruct bins as [| |names].
  - apply read_all_builds; assumption.
  - apply read_none_builds; assumption.
  - eapply (record_command_builds _ _ _ _ _ 0
              (for_each names estimate_operation_size_for_bin_name)
              (for_each names (fun name =>
                 write_operation_for_bin_name name OperationType.Read))
              (fun c => write_header policy _ 0 c _));
      [exact Hk|exact Hf|apply estimate_names_advances| | |apply len_header|].
    + intros Hs%body_small. apply write_names_emits, Hs.
    + rewrite Z.add_0_r. apply write_header_emits.
    + intros n. rewrite Z.add_0_r. reflexivity.
Qed.

(** [set_read] builds exactly the read message, for each way of selecting
    bins: all of them (an attribute, no operation), none (one read operation
    without a name) or some (a read operation per name). *)
Theorem set_read_message (policy : BasePolicy) (key : Key) (bins : Bins)
    (fields : bytes) :
  key_ok key ->
  record_fields key false (base_filter_expression policy) = Some fields ->
  builds (set_read policy key bins)
    (header (consistency_attr policy (read_attr_of bins)) 0 0 0 0
       (record_field_count key false (base_filter_expression policy))
       (as_u16 (len (read_ops bins))))
    (fields ++ concat (enc_bin_name <$> read_ops bins)).
Proof. apply set_read_builds. Qed.

(** *** User-defined functions *)

Lemma args_passes args bs :
  enc_udf_args args = Some bs ->
  advances (estimate_args_size args) (len bs) tt /\
  (len bs < 2 ^ 31 - 1 -> emits (write_args args FieldType.UdfArgList) bs tt).
Proof.
  unfold enc_udf_args. intros Hb.
  set (l := match args with Some a => a | None => [] end) in Hb.
  destruct (enc_list l) as [ab|] eqn:He; [|discriminate].
  apply (inj Some) in Hb as <-. rewrite len_field.
  assert (exists m : P Z, packs m (sized (Some ab)) /\
            estimate_args_size args
            = (let! n := with_none m in add_offset (n + FIELD_HEADER_SIZE)) /\
            write_args args FieldType.UdfArgList
            = (let! n := with_none m in
               write_field_header n FieldType.UdfArgList ;;;
               with_some m ;;; ret tt)) as (m & Hm & -> & ->).
  { destruct args as [a|]; eexists;
      (split; [rewrite <- He|split; reflexivity]).
    - apply pack_array_packs.
    - apply pack_empty_args_packs. }
  split.
  - rewrite (packs_with_none _ _ Hm), bind_ret_l.
    eapply advances_eq; [apply advances_add|lia].
  - unfold FIELD_HEADER_SIZE. intros Hn.
    rewrite (packs_with_none _ _ Hm), bind_ret_l.
    eapply field_emits; [reflexivity|lia|apply packs_with_some, Hm|reflexivity].
Qed.

(** Package, function and packed arguments. *)
Definition udf_fields (package function : bytes) (args : option (list Value))
    : option bytes :=
  Some (field FieldType.UdfPackageName package ++
        field FieldType.UdfFunction function) +++ enc_udf_args args.

(** [set_udf] builds exactly the call of a user-defined function: after
    key and filter, three fields for package, function and arguments. *)
Theorem set_udf_message (policy : WritePolicy) (key : Key)
    (package function : bytes) (args : option (list Value))
    (fields udf : bytes) :
  key_ok key ->
  record_fields key (send_key policy) (wp_filter_expression policy)
  = Some fields ->
  udf_fields package function args = Some udf ->
  builds (set_udf policy key package function args)
    (header (consistency_attr (wp_base_policy policy) 0) INFO2_WRITE 0 0 0
       (record_field_count key (send_key policy) (wp_filter_expression policy)
        + 3) 0)
    (fields ++ udf).
Proof.
  intros Hk Hf Hu.
  apply opt_app_Some in Hf as (kb & fb & Hkb & Hfb & ->).
  unfold udf_fields in Hu.
  apply opt_app_Some in Hu as (ub & ab & <-%(inj Some) & Hab & ->).
  destruct (filter_passes _ _ Hfb) as (n & Hadv & Hcount & Hwf).
  destruct (args_passes _ _ Hab) as [Hargs Hwa].
  eapply command_builds.
  - eapply estimates_bind; [apply estimate_key_advances; eassumption|].
    eapply estimates_bind.
    { eapply advances_bind; [apply advances_add|].
      eapply advances_bind; [apply advances_add|].
      eapply advances_bind; [exact Hargs|apply advances_ret]. }
    eapply estimates_bind; [exact Hadv|apply estimates_done].
  - unfold total_size, MSG_TOTAL_HEADER_SIZE, MAX_BUFFER_SIZE.
    rewrite !len_app, !len_field. unfold FIELD_HEADER_SIZE.
    pose proof (len_nonneg kb). pose proof (len_nonneg fb).
    pose proof (len_nonneg package). pose proof (len_nonneg function).
    pose proof (len_nonneg ab). intros Hsize.
    apply writes_header.
    + rewrite Hcount.
      replace (key_field_count key (send_key policy) + 3 +
               filter_field_count (wp_filter_expression policy))
        with (record_field_count key (send_key policy)
                (wp_filter_expression policy) + 3)
        by (unfold record_field_count; lia).
      apply write_header_emits.
    + eapply tails_eq.
      * eapply tails_step; [apply write_key_emits; [eassumption|lia]|].
        eapply tails_step; [apply Hwf; lia|].
        eapply tails_step; [apply write_field_string_emits; lia|].
        eapply tails_step; [apply write_field_string_emits; lia|].
        eapply tails_step; [apply Hwa; lia|apply tails_end].
      * rewrite app_nil_r, <- !(assoc_L (++)). reflexivity.
  - rewrite !len_app, !len_field. lia.
  - apply len_header.
Qed.

(** *** Operate *)

(** The attributes of all operations. *)
Definition all_attrs (policy : WritePolicy) (operations : list Operation)
    : Z * Z :=
  foldl (fun rw o => operate_attrs policy o rw) (0, 0) operations.

Definition operate_header (policy : WritePolicy) (read_attr write_attr f o : Z)
    : bytes :=
  if write_attr =? 0
  then header (consistency_attr (wp_base_policy policy) read_attr) write_attr
         0 0 0 f o
  else policy_header policy read_attr write_attr f o.

Lemma fold_advances {A B} (f : B -> A -> M Buffer B) pf g l : forall acc bs,
  (forall acc x b, g x = Some b -> advances (f acc x) (len b) (pf acc x)) ->
  opt_concat (g <$> l) = Some bs ->
  advances (fold_m f acc l) (len bs) (foldl pf acc l).
Proof.
  induction l as [|x l IH]; intros acc bs Hf Hb.
  - injection Hb as <-. apply advances_ret.
  - cbn [fmap list_fmap opt_concat] in Hb.
    apply opt_app_Some in Hb as (b1 & b2 & H1 & H2 & ->). rewrite len_app.
    cbn [fold_m foldl].
    eapply advances_bind; [apply Hf, H1|]. apply IH; assumption.
Qed.

Lemma estimate_operation_advances policy rw o bs :
  enc_op o = Some bs ->
  advances (estimate_operation policy rw o) (len bs) (operate_attrs policy o rw).
Proof.
  unfold enc_op, estimate_operation.
  destruct (enc_data o) as [[p d]|] eqn:Hd; [|discriminate].
  intros <-%(inj Some).
  rewrite (op_estimate_bytes _ _ _ Hd), bind_ret_l, len_op_bytes.
  advances_tac. lia.
Qed.

Lemma write_operation_emits o bs :
  enc_op o = Some bs -> len bs < 2 ^ 31 ->
  emits (op_write_to o ;;; ret tt) bs tt.
Proof.
  unfold enc_op. destruct (enc_data o) as [[p d]|] eqn:Hd; [|discriminate].
  intros <-%(inj Some). rewrite len_op_bytes. unfold OPERATION_HEADER_SIZE.
  intros Hn. eapply emits_drop, op_write_emits; [exact Hd|lia].
Qed.

(** [set_operate] builds exactly the message of a list of operations.  The
    attributes are the union of what the operations need (a read, all bins or
    no bin data for reads; a write for the others; per-operation responses);
    only a message with a write attribute carries the write policy and may
    carry the user key; every operation is written as estimated. *)
Theorem set_operate_message (policy : WritePolicy) (key : Key)
    (operations : list Operation) (r w : Z) (fields ops : bytes) :
  let send := send_key policy && negb (w =? 0) in
  key_ok key ->
  all_attrs policy operations = (r, w) ->
  record_fields key send (wp_filter_expression policy) = Some fields ->
  opt_concat (enc_op <$> operations) = Some ops ->
  builds (set_operate policy key operations)
    (operate_header policy r w
       (record_field_count key send (wp_filter_expression policy))
       (as_u16 (len operations)))
    (fields ++ ops).
Proof.
  intros send Hk Ha Hf Ho.
  apply opt_app_Some in Hf as (kb & fb & Hkb & Hfb & ->).
  destruct (filter_passes _ _ Hfb) as (n & Hadv & Hcount & Hwf).
  eapply command_builds.
  - eapply estimates_bind.
    { eapply fold_advances; [|exact Ho].
      intros acc x b. apply estimate_operation_advances. }
    fold (all_attrs policy operations). rewrite Ha. fold send.
    eapply estimates_bind; [apply estimate_key_advances; eassumption|].
    eapply estimates_bind; [exact Hadv|apply estimates_done].
  - unfold total_size, MSG_TOTAL_HEADER_SIZE, MAX_BUFFER_SIZE.
    rewrite !len_app. pose proof (len_nonneg kb). pose proof (len_nonneg fb).
    pose proof (len_nonneg ops). intros Hsize.
    apply writes_header.
    + rewrite Hcount. unfold operate_header. destruct (w =? 0);
        [apply write_header_emits|apply write_header_with_policy_emits].
    + eapply tails_eq.
      * eapply tails_step; [apply write_key_emits; [eassumption|lia]|].
        eapply tails_step; [apply Hwf; lia|].
        eapply tails_step; [|apply tails_end].
        eapply (for_each_emits_opt _ _ (2 ^ 31)); [|exact Ho|lia].
        apply write_operation_emits.
      * rewrite app_nil_r, (assoc_L (++)). reflexivity.
  - rewrite !len_app. lia.
  - unfold operate_header. destruct (w =? 0);
      [apply len_header|apply len_policy_header].
Qed.

End RecordCommands.

(** ** Instances *)

Section Witnesses.

#[local] Existing Instance valuefmt_model.

(** A policy that sends the key and expects generation 3. *)
Definition sample_write_policy : WritePolicy :=
  mkWritePolicy BasePolicy_default RecordExistsAction.Update
    GenerationPolicy.ExpectGenEqual CommitLevel.CommitMaster 3
    Expiration.Never true false true None.

Lemma set_write_message_witness :
  exists fields ops,
    builds
      (set_write sample_write_policy OperationType.Write sample_key
         [mkBin (str "a") (Value.Int 1); mkBin (str "b") (Value.Bool true)])
      (policy_header sample_write_policy 0 INFO2_WRITE 4 2) (fields ++ ops).
Proof.
  do 2 eexists.
  apply (set_write_message sample_write_policy OperationType.Write sample_key
           [mkBin (str "a") (Value.Int 1); mkBin (str "b") (Value.Bool true)]
           _ _ sample_key_ok).
  - vm_compute. reflexivity.
  - vm_compute. reflexivity.
Defined.

Lemma simple_command_messages_witness :
  exists fields,
    builds (set_delete sample_write_policy sample_key)
      (policy_header sample_write_policy 0 (Z.lor INFO2_WRITE INFO2_DELETE) 3 0)
      fields.
Proof.
  destruct (simple_command_messages sample_write_policy sample_key sample_key_ok)
    as [H _].
  eexists. refine (proj1 (H _ _)). vm_compute. reflexivity.
Defined.

Lemma set_read_message_witness :
  exists fields,
    builds (set_read BasePolicy_default sample_key (Bins.Some [str "a"; str "b"]))
      (header (consistency_attr BasePolicy_default INFO1_READ) 0 0 0 0 3 2)
      (fields ++ concat (enc_bin_name <$> [str "a"; str "b"])).
Proof.
  eexists.
  apply (set_read_message BasePolicy_default sample_key
           (Bins.Some [str "a"; str "b"]) _ sample_key_ok).
  vm_compute. reflexivity.
Defined.

Lemma set_udf_message_witness :
  exists fields udf,
    builds
      (set_udf sample_write_policy sample_key (str "pkg") (str "fn")
         (Some [Value.Int 1; Value.String (str "x")]))
      (header (consistency_attr BasePolicy_default 0) INFO2_WRITE 0 0 0 (4 + 3) 0)
      (fields ++ udf).
Proof.
  do 2 eexists.
  apply (set_udf_message sample_write_policy sample_key (str "pkg") (str "fn")
           (Some [Value.Int 1; Value.String (str "x")]) _ _ sample_key_ok).
  - vm_compute. reflexivity.
  - vm_compute. reflexivity.
Defined.

(** An increment and a read of the result. *)
Lemma set_operate_message_witness :
  let operations := [Scalar.add (mkBin (str "a") (Value.Int 1));
                     Scalar.get_bin (str "a")] in
  exists fields ops,
    builds (set_operate sample_write_policy sample_key operations)
      (operate_header sample_write_policy INFO1_READ INFO2_WRITE 4 2)
      (fields ++ ops).
Proof.
  intros operations. do 2 eexists.
  apply (set_operate_message sample_write_policy sample_key operations
           INFO1_READ INFO2_WRITE _ _ sample_key_ok).
  - vm_compute. reflexivity.
  - vm_compute. reflexivity.
  - vm_compute. reflexivity.
Defined.

End Witnesses.
