(* ===== verification/Queries.v ===== *)
(** * Scans, queries and batch reads ([src/commands/buffer.rs])

    The [set_scan], [set_query] and [set_batch_read] methods of [Buffer]. *)

From stdpp Require Import base list strings decidable.
From Stdlib Require Import ZArith Lia.
From S2P Require Import Prelude ResultCodes Monad ByteOrder Slices Wire Buffer.
From S2P Require Import Values Encoder Particle Expressions Operations Policy.
From S2P Require Import Statements Commands.

Section Queries.
Context `{BO : ByteOrder} `{VF : ValueFmt}.

(** [if !s.is_empty() { self.data_offset += ..; field_count += 1; }], with the
    increment of the count as the result. *)
Definition estimate_string_field (s : bytes) : M Buffer Z :=
  if nonempty s then add_offset (len s + FIELD_HEADER_SIZE) ;;; ret 1
  else ret 0.

Definition write_partitions (partitions : list Z) : M Buffer unit :=
  write_field_header (len partitions * 2) FieldType.PIDArray ;;;
  for_each partitions (fun pid => write_u16_little_endian pid ;;; ret tt).

(** The named bins of a selector. *)
Definition bin_names (bins : Bins) : list bytes :=
  match bins with Bins.Some names => names | _ => [] end.

Definition set_scan (policy : ScanPolicy) (namespace set_name : bytes)
    (bins : Bins) (task_id : Z) (partitions : list Z) : M Buffer unit :=
  begin ;;;
  let! filter_size := estimate_filter_size (sp_filter_expression policy) in
  let field_count := count_filter filter_size 0 in
  let! a := estimate_string_field namespace in
  let! b := estimate_string_field set_name in
  add_offset (len partitions * 2 + FIELD_HEADER_SIZE) ;;;
  add_offset (4 + FIELD_HEADER_SIZE) ;;;
  add_offset (8 + FIELD_HEADER_SIZE) ;;;
  let field_count := field_count + a + b + 1 + 1 + 1 in
  let! bin_count :=
    match bins with
    | Bins.All | Bins.None => ret 0
    | Bins.Some bin_names =>
        for_each bin_names estimate_operation_size_for_bin_name ;;;
        ret (len bin_names)
    end in
  size_buffer ;;;
  let read_attr :=
    if Bins.is_none bins then Z.lor INFO1_READ INFO1_NOBINDATA
    else INFO1_READ in
  write_header (sp_base_policy policy) read_attr 0 field_count
    (as_u16 bin_count) ;;;
  when (nonempty namespace)
    (write_field_string namespace FieldType.Namespace) ;;;
  when (nonempty set_name) (write_field_string set_name FieldType.Table) ;;;
  write_partitions partitions ;;;
  write_filter (sp_filter_expression policy) filter_size ;;;
  write_field_header 4 FieldType.ScanTimeout ;;;
  write_u32 (socket_timeout policy) ;;;
  write_field_header 8 FieldType.TranId ;;;
  write_u64 task_id ;;;
  for_each (bin_names bins) (fun bin_name =>
    write_operation_for_bin_name bin_name OperationType.Read) ;;;
  end_.

(** *** Queries *)

(** [Some(ref filters) => Some(&filters[0])]; the index panics on an empty
    list. *)
Definition first_filter (s : Statement) : M Buffer (option Filter) :=
  match Statement.filters s with
  | Some (f :: _) => ret (Some f)
  | Some [] => panic
  | None => ret None
  end.

Definition has_index_type (f : Filter) : bool :=
  bool_decide (Filter.collection_index_type f <> CollectionIndexType.Default).

(** The count byte, and a length byte and a name per bin. *)
Definition bin_list_size (names : list bytes) : Z :=
  1 + foldr Z.add 0 ((fun name => len name + 1) <$> names).

(** The filter part of the estimate: field count, [filter_size],
    [bin_name_size]. *)
Definition estimate_query_filter (filter : option Filter) (bins : Bins)
    (partitions : list Z) : M Buffer (Z * Z * Z) :=
  match filter with
  | Some filter =>
      let! a :=
        if has_index_type filter
        then add_offset (1 + FIELD_HEADER_SIZE) ;;; ret 1
        else ret 0 in
      let! n := Filter.estimate filter in
      let filter_size := 1 + n in
      add_offset (filter_size + FIELD_HEADER_SIZE) ;;;
      match bins with
      | Bins.Some bin_names =>
          add_offset FIELD_HEADER_SIZE ;;;
          let bin_name_size := bin_list_size bin_names in
          add_offset bin_name_size ;;;
          ret (a + 1 + 1, filter_size, bin_name_size)
      | _ => ret (a + 1, filter_size, 0)
      end
  | None =>
      add_offset (len partitions * 2 + FIELD_HEADER_SIZE) ;;;
      ret (1, 0, 0)
  end.

Definition estimate_aggregation (agg : option Statement.Aggregation)
    : M Buffer Z :=
  match agg with
  | Some agg =>
      add_offset (1 + FIELD_HEADER_SIZE) ;;;
      add_offset (len (Statement.package_name agg) + FIELD_HEADER_SIZE) ;;;
      add_offset (len (Statement.function_name agg) + FIELD_HEADER_SIZE) ;;;
      estimate_args_size (Statement.function_args agg) ;;;
      ret 4
  | None => ret 0
  end.

Definition write_bin_list (bin_names : list bytes) (bin_name_size : Z)
    : M Buffer unit :=
  write_field_header bin_name_size FieldType.QueryBinList ;;;
  write_u8 (as_u8 (len bin_names)) ;;;
  for_each bin_names (fun bin_name =>
    write_u8 (as_u8 (len bin_name)) ;;; write_str bin_name ;;; ret tt).

Definition write_query_filter (filter : option Filter) (bins : Bins)
    (partitions : list Z) (filter_size bin_name_size : Z) : M Buffer unit :=
  match filter with
  | Some filter =>
      when (has_index_type filter)
        (write_field_header 1 FieldType.IndexType ;;;
         write_u8 (CollectionIndexType.to_u8
                     (Filter.collection_index_type filter)) ;;;
         ret tt) ;;;
      write_field_header filter_size FieldType.IndexRange ;;;
      write_u8 1 ;;;
      Filter.write filter ;;;
      match bins with
      | Bins.Some ((_ :: _) as bin_names) =>
          write_bin_list bin_names bin_name_size
      | _ => ret tt
      end
  | None => write_partitions partitions
  end.

Definition write_aggregation (agg : option Statement.Aggregation)
    (bins : Bins) : M Buffer unit :=
  match agg with
  | Some agg =>
      write_field_header 1 FieldType.UdfOp ;;;
      write_u8 (if Bins.is_none bins then 2 else 1) ;;;
      write_field_string (Statement.package_name agg)
        FieldType.UdfPackageName ;;;
      write_field_string (Statement.function_name agg)
        FieldType.UdfFunction ;;;
      write_args (Statement.function_args agg) FieldType.UdfArgList
  | None => ret tt
  end.

(** The bins that a scan statement reads by operations. *)
Definition scan_bins (s : Statement) : list bytes :=
  if Statement.is_scan s then bin_names (Statement.bins s) else [].

Definition index_name_of (s : Statement) : bytes :=
  match Statement.index_name s with Some name => name | None => [] end.

Definition set_query (policy : QueryPolicy) (statement : Statement)
    (write : bool) (task_id : Z) (partitions : list Z) : M Buffer unit :=
  let! filter := first_filter statement in
  begin ;;;
  let! a := estimate_string_field (Statement.namespace statement) in
  let! b := estimate_string_field (Statement.set_name statement) in
  let! c := estimate_string_field (index_name_of statement) in
  add_offset (8 + FIELD_HEADER_SIZE) ;;;
  let! (f, filter_size, bin_name_size) :=
    estimate_query_filter filter (Statement.bins statement) partitions in
  let! filter_exp_size :=
    estimate_filter_size (qp_filter_expression policy) in
  let field_count := count_filter filter_exp_size (a + b + c + 1 + f) in
  let! g := estimate_aggregation (Statement.aggregation statement) in
  let field_count := field_count + g in
  for_each (scan_bins statement) estimate_operation_size_for_bin_name ;;;
  size_buffer ;;;
  let operation_count := len (scan_bins statement) in
  let info1 :=
    if Bins.is_none (Statement.bins statement)
    then Z.lor INFO1_READ INFO1_NOBINDATA else INFO1_READ in
  let info2 := if write then INFO2_WRITE else 0 in
  write_header (qp_base_policy policy) info1 info2 field_count
    (as_u16 operation_count) ;;;
  when (nonempty (Statement.namespace statement))
    (write_field_string (Statement.namespace statement)
       FieldType.Namespace) ;;;
  when (nonempty (index_name_of statement))
    (write_field_string (index_name_of statement) FieldType.IndexName) ;;;
  when (nonempty (Statement.set_name statement))
    (write_field_string (Statement.set_name statement) FieldType.Table) ;;;
  write_field_header 8 FieldType.TranId ;;;
  write_u64 task_id ;;;
  write_query_filter filter (Statement.bins statement) partitions
    filter_size bin_name_size ;;;
  write_filter (qp_filter_expression policy) filter_exp_size ;;;
  write_aggregation (Statement.aggregation statement)
    (Statement.bins statement) ;;;
  for_each (scan_bins statement) (fun bin_name =>
    write_operation_for_bin_name bin_name OperationType.Read) ;;;
  end_.

(** *** Batch reads *)

(** The element at an index, which [unwrap] requires to exist. *)
Definition batch_get (reads : list BatchRead) (idx : Z) : M Buffer BatchRead :=
  unwrap (reads !! Z.to_nat idx).

(** [match prev { Some(prev) if batch_read.match_header(prev, ..) => .. }] *)
Definition same_header (policy : BatchPolicy) (prev : option BatchRead)
    (r : BatchRead) : bool :=
  match prev with
  | Some prev => match_header r prev (send_set_name policy)
  | None => false
  end.

Definition estimate_batch_row (policy : BatchPolicy) (reads : list BatchRead)
    (prev : option BatchRead) (idx : Z) : M Buffer (option BatchRead) :=
  let! r := batch_get reads idx in
  let key := br_key r in
  add_offset (len (digest key) + 4) ;;;
  (if same_header policy prev r then add_offset 1
   else
     add_offset (len (namespace key) + FIELD_HEADER_SIZE + 6) ;;;
     when (send_set_name policy)
       (add_offset (len (set_name key) + FIELD_HEADER_SIZE)) ;;;
     for_each (bin_names (br_bins r)) estimate_operation_size_for_bin_name) ;;;
  ret (Some r).

Definition batch_read_attr (bins : Bins) : Z :=
  match bins with
  | Bins.None => Z.lor INFO1_READ INFO1_NOBINDATA
  | Bins.All => Z.lor INFO1_READ INFO1_GET_ALL
  | Bins.Some _ => INFO1_READ
  end.

Definition write_batch_row (policy : BatchPolicy) (reads : list BatchRead)
    (field_count_row : Z) (prev : option BatchRead) (idx : Z)
    : M Buffer (option BatchRead) :=
  let! r := batch_get reads idx in
  let key := br_key r in
  write_u32 (as_u32 idx) ;;;
  write_bytes (digest key) ;;;
  (if same_header policy prev r then write_u8 1 ;;; ret tt
   else
     write_u8 0 ;;;
     write_u8 (batch_read_attr (br_bins r)) ;;;
     write_u16 field_count_row ;;;
     write_u16 (as_u16 (len (bin_names (br_bins r)))) ;;;
     write_field_string (namespace key) FieldType.Namespace ;;;
     when (send_set_name policy)
       (write_field_string (set_name key) FieldType.Table) ;;;
     for_each (bin_names (br_bins r)) (fun bin =>
       write_operation_for_bin_name bin OperationType.Read)) ;;;
  ret (Some r).

(** [NetworkEndian::write_u32(&mut self.data_buffer[o..o + 4], v)]. *)
Definition patch_u32 (o v : Z) : M Buffer unit :=
  fun b =>
    if slice_ok (data_buffer b) o (o + 4)
    then Ret tt (set_data (splice (data_buffer b) o (write_be 4 v)) b)
    else Panic.

Definition set_batch_read (policy : BatchPolicy) (reads : list BatchRead)
    (offsets : list Z) : M Buffer unit :=
  let field_count_row := if send_set_name policy then 2 else 1 in
  begin ;;;
  add_offset (FIELD_HEADER_SIZE + 5) ;;;
  let! filter_size := estimate_filter_size (bp_filter_expression policy) in
  let field_count := count_filter filter_size 1 in
  fold_m (estimate_batch_row policy reads) None offsets ;;;
  size_buffer ;;;
  write_header (bp_base_policy policy) (Z.lor INFO1_READ INFO1_BATCH) 0
    field_count 0 ;;;
  write_filter (bp_filter_expression policy) filter_size ;;;
  let! b := get in
  let field_size_offset := data_offset b in
  let field_type :=
    if send_set_name policy then FieldType.BatchIndexWithSet
    else FieldType.BatchIndex in
  write_field_header 0 field_type ;;;
  write_u32 (as_u32 (len offsets)) ;;;
  write_u8 (if allow_inline policy then 1 else 0) ;;;
  fold_m (write_batch_row policy reads field_count_row) None offsets ;;;
  let! b := get in
  let! field_size := usize_sub (data_offset b) MSG_TOTAL_HEADER_SIZE in
  let! field_size := usize_sub field_size 4 in
  patch_u32 field_size_offset (as_u32 field_size) ;;;
  end_.

End Queries.
