(* ===== verification/QueryFacts.v ===== *)
(** * The messages of scans and queries

    The exact messages of [set_scan] and [set_query].  A query whose statement
    has a filter and an empty list of bin names is the exception: the code
    announces and sizes a bin-list field that it does not write
    ([set_query_empty_bins]). *)

From stdpp Require Import base list strings decidable.
From Stdlib Require Import ZArith Lia Setoid Morphisms.
From S2P Require Import Prelude ResultCodes Monad ByteOrder Slices Wire Buffer.
From S2P Require Import BufferFacts Values Cdt Encoder EncoderFacts Decoder.
From S2P Require Import RoundTrip Particle Expressions.
From S2P Require Import Operations Policy Statements Commands CommandFacts.
From S2P Require Import RecordCommands Queries.

Section QueryFacts.
Context `{BO : ByteOrder} `{VF : ValueFmt}.

Lemma string_field_advances s t :
  advances (estimate_string_field s) (len (opt_field t s))
    (count_if (nonempty s)).
Proof. apply opt_field_advances. Qed.

(** Partition ids, little endian. *)
Definition pid_bytes (partitions : list Z) : bytes :=
  concat (write_le 2 <$> partitions).

Lemma len_pid_bytes l : len (pid_bytes l) = len l * 2.
Proof.
  unfold pid_bytes. induction l as [|x l IH]; [reflexivity|].
  cbn [fmap list_fmap concat]. rewrite len_app, len_write_le, len_cons, IH. lia.
Qed.

Lemma write_partitions_emits l :
  len (pid_bytes l) < 2 ^ 31 - 1 ->
  emits (write_partitions l) (field FieldType.PIDArray (pid_bytes l)) tt.
Proof.
  rewrite len_pid_bytes. intros Hn. unfold write_partitions, field.
  pose proof (len_nonneg l). rewrite len_pid_bytes.
  eapply emits_eq.
  - eapply emits_bind; [apply write_field_header_emits; lia|].
    apply (emits_for_each _ _ (write_le 2)). intros x _.
    eapply emits_drop, write_u16_le_emits.
  - rewrite <- (assoc_L (++)). reflexivity.
Qed.

(** A field of fixed width. *)
Lemma fixed_field_emits {A} t bs (m : M Buffer A) v k :
  len bs < 256 -> emits m bs v -> tails k [] ->
  tails (write_field_header (len bs) t ;;; m ;;; k) (field t bs).
Proof.
  intros Hn Hm Hk. pose proof (len_nonneg bs). eapply tails_eq.
  - eapply tails_step; [apply write_field_header_emits; lia|].
    eapply tails_step; [exact Hm|exact Hk].
  - unfold field. rewrite app_nil_r, <- (assoc_L (++)). reflexivity.
Qed.

Lemma tails_field {A} t n bs (m : M Buffer A) v k body :
  n = len bs -> n < 2 ^ 31 - 1 -> emits m bs v -> tails k body ->
  tails (write_field_header n t ;;; m ;;; k) (field t bs ++ body).
Proof.
  intros -> Hn Hm Hk. pose proof (len_nonneg bs). eapply tails_eq.
  - eapply tails_step; [apply write_field_header_emits; lia|].
    eapply tails_step; [exact Hm|exact Hk].
  - unfold field. rewrite <- !(assoc_L (++)). reflexivity.
Qed.

(** The operations that read bins by name, estimated only when present. *)
Lemma scan_names_advances bins :
  advances
    (match bins with
     | Bins.All | Bins.None => ret 0
     | Bins.Some names =>
         for_each names estimate_operation_size_for_bin_name ;;; ret (len names)
     end)
    (len (concat (enc_bin_name <$> bin_names bins))) (len (bin_names bins)).
Proof.
  destruct bins; try apply advances_ret. cbn [bin_names].
  eapply advances_eq.
  - eapply advances_bind; [apply estimate_names_advances|apply advances_ret].
  - lia.
Qed.

Definition scan_field_count (policy : ScanPolicy) (namespace set_name : bytes)
    : Z :=
  filter_field_count (sp_filter_expression policy) +
  count_if (nonempty namespace) + count_if (nonempty set_name) + 3.

Definition scan_body (policy : ScanPolicy) (namespace set_name : bytes)
    (bins : Bins) (task_id : Z) (partitions : list Z) (fb : bytes) : bytes :=
  opt_field FieldType.Namespace namespace ++
  opt_field FieldType.Table set_name ++
  field FieldType.PIDArray (pid_bytes partitions) ++
  fb ++
  field FieldType.ScanTimeout (write_be 4 (socket_timeout policy)) ++
  field FieldType.TranId (write_be 8 task_id) ++
  concat (enc_bin_name <$> bin_names bins).

(** [set_scan] builds exactly the scan of the given partitions of a
    namespace or set, with the task id, the socket timeout and a read operation
    per selected bin; the empty namespace or set has no field. *)
Theorem set_scan_message (policy : ScanPolicy) (namespace set_name : bytes)
    (bins : Bins) (task_id : Z) (partitions : list Z) (fb : bytes) :
  enc_filter (sp_filter_expression policy) = Some fb ->
  builds (set_scan policy namespace set_name bins task_id partitions)
    (header (consistency_attr (sp_base_policy policy)
               (if Bins.is_none bins then Z.lor INFO1_READ INFO1_NOBINDATA
                else INFO1_READ)) 0 0 0 0
       (scan_field_count policy namespace set_name)
       (as_u16 (len (bin_names bins))))
    (scan_body policy namespace set_name bins task_id partitions fb).
Proof.
  intros Hfb. destruct (filter_passes _ _ Hfb) as (n & Hadv & Hcount & Hwf).
  unfold scan_body, scan_field_count. eapply command_builds.
  - eapply estimates_bind; [exact Hadv|].
    eapply estimates_bind; [apply (string_field_advances _ FieldType.Namespace)|].
    eapply estimates_bind; [apply (string_field_advances _ FieldType.Table)|].
    do 3 (eapply estimates_bind; [apply advances_add|]).
    eapply estimates_bind; [apply scan_names_advances|apply estimates_done].
  - unfold total_size, MSG_TOTAL_HEADER_SIZE, MAX_BUFFER_SIZE.
    rewrite !len_app, !len_field. unfold FIELD_HEADER_SIZE.
    pose proof (len_opt_field FieldType.Namespace namespace).
    pose proof (len_opt_field FieldType.Table set_name).
    pose proof (len_nonneg namespace). pose proof (len_nonneg set_name).
    pose proof (len_nonneg (pid_bytes partitions)). pose proof (len_nonneg fb).
    pose proof (len_nonneg (concat (enc_bin_name <$> bin_names bins))).
    rewrite !len_write_be. intros Hsize.
    apply writes_header.
    + rewrite Hcount. rewrite write_header_emits.
      replace (0 + filter_field_count (sp_filter_expression policy) +
               count_if (nonempty namespace) + count_if (nonempty set_name) +
               1 + 1 + 1)
        with (filter_field_count (sp_filter_expression policy) +
              count_if (nonempty namespace) + count_if (nonempty set_name) + 3)
        by lia.
      reflexivity.
    + eapply tails_step; [apply when_field_emits; lia|].
      eapply tails_step; [apply when_field_emits; lia|].
      eapply tails_step; [apply write_partitions_emits; lia|].
      eapply tails_step; [apply Hwf; lia|].
      eapply tails_field; [symmetry; apply (len_write_be 4)|lia|
                           apply write_u32_emits|].
      eapply tails_field; [symmetry; apply (len_write_be 8)|lia|
                           apply write_u64_emits|].
      eapply tails_eq.
      * eapply tails_step; [apply write_names_emits; lia|apply tails_end].
      * apply app_nil_r.
  - rewrite !len_app, !len_field, len_pid_bytes, !len_write_be.
    unfold FIELD_HEADER_SIZE. lia.
  - apply len_header.
Qed.

(** ** Queries *)

(** The list of bin names of a query with a filter. *)
Definition bin_list_bytes (names : list bytes) : bytes :=
  as_u8 (len names) ::
  concat ((fun name => as_u8 (len name) :: name) <$> names).

Lemma len_bin_list_bytes names :
  len (bin_list_bytes names) = bin_list_size names.
Proof.
  unfold bin_list_bytes, bin_list_size. rewrite len_cons. f_equal.
  induction names as [|x l IH]; [reflexivity|].
  cbn [fmap list_fmap concat foldr]. rewrite len_app, len_cons, IH. lia.
Qed.

Definition enc_index_type (f : Filter) : bytes :=
  if has_index_type f
  then field FieldType.IndexType
         [CollectionIndexType.to_u8 (Filter.collection_index_type f)]
  else [].

Definition enc_bin_list (bins : Bins) : bytes :=
  match bins with
  | Bins.Some ((_ :: _) as names) =>
      field FieldType.QueryBinList (bin_list_bytes names)
  | _ => []
  end.

(** The fields that locate the records: an index range, or partitions. *)
Definition enc_query_filter (filter : option Filter) (bins : Bins)
    (partitions : list Z) : option bytes :=
  match filter with
  | Some f =>
      (fun bs => enc_index_type f ++ field FieldType.IndexRange (1 :: bs) ++
                 enc_bin_list bins) <$> Filter.filter_bytes f
  | None => Some (field FieldType.PIDArray (pid_bytes partitions))
  end.

Definition query_filter_count (filter : option Filter) (bins : Bins) : Z :=
  match filter with
  | Some f =>
      count_if (has_index_type f) + 1 +
      match bins with Bins.Some _ => 1 | _ => 0 end
  | None => 1
  end.

(** The only statements whose message is not what was estimated. *)
Definition no_empty_bins (filter : option Filter) (bins : Bins) : Prop :=
  match filter, bins with Some _, Bins.Some [] => False | _, _ => True end.

Lemma index_type_passes f :
  advances
    (if has_index_type f then add_offset (1 + FIELD_HEADER_SIZE) ;;; ret 1
     else ret 0) (len (enc_index_type f)) (count_if (has_index_type f)) /\
  emits
    (when (has_index_type f)
       (write_field_header 1 FieldType.IndexType ;;;
        write_u8 (CollectionIndexType.to_u8 (Filter.collection_index_type f)) ;;;
        ret tt)) (enc_index_type f) tt.
Proof.
  unfold enc_index_type, count_if, when. destruct (has_index_type f).
  - split.
    + rewrite len_field. eapply advances_eq.
      * eapply advances_bind; [apply advances_add|apply advances_ret].
      * reflexivity.
    + eapply (field_emits 1); [reflexivity|lia|apply write_u8_emits|reflexivity].
  - split; [apply advances_ret|apply emits_ret].
Qed.

Lemma write_bin_list_emits names :
  len (bin_list_bytes names) < 2 ^ 31 - 1 ->
  emits (write_bin_list names (bin_list_size names))
    (field FieldType.QueryBinList (bin_list_bytes names)) tt.
Proof.
  rewrite <- len_bin_list_bytes. intros Hn.
  pose proof (len_nonneg (bin_list_bytes names)).
  unfold write_bin_list, field. eapply emits_eq.
  - eapply emits_bind; [apply write_field_header_emits; lia|].
    eapply emits_bind; [apply write_u8_emits|].
    apply (emits_for_each _ _ (fun name => as_u8 (len name) :: name)).
    intros x _. eapply (emits_bind _ _ [_] x); [apply write_u8_emits|].
    eapply emits_drop, write_str_emits.
  - rewrite <- (assoc_L (++)). reflexivity.
Qed.

Lemma query_filter_passes filter bins partitions bs :
  no_empty_bins filter bins ->
  enc_query_filter filter bins partitions = Some bs ->
  exists n k,
    advances (estimate_query_filter filter bins partitions) (len bs)
      (query_filter_count filter bins, n, k) /\
    (len bs < 2 ^ 31 - 1 ->
     emits (write_query_filter filter bins partitions n k) bs tt).
Proof.
  destruct filter as [f|]; cbn [enc_query_filter]; intros Hne Hb.
  - destruct (Filter.filter_bytes f) as [rb|] eqn:Hr; [|discriminate].
    apply (inj Some) in Hb as <-.
    destruct (index_type_passes f) as [Ha Hw].
    exists (1 + len rb), match bins with Bins.Some l => bin_list_size l | _ => 0 end.
    cbn [estimate_query_filter write_query_filter]. split.
    + eapply advances_eq.
      * eapply advances_bind; [exact Ha|].
        rewrite (Filter.filter_estimate _ _ Hr), bind_ret_l.
        eapply advances_bind; [apply advances_add|].
        instantiate (1 := len (enc_bin_list bins)).
        destruct bins as [| |[|x l]]; try contradiction;
          unfold query_filter_count; rewrite ?Z.add_0_r; try apply advances_ret.
        unfold enc_bin_list. rewrite len_field, len_bin_list_bytes.
        eapply advances_eq.
        { do 2 (eapply advances_bind; [apply advances_add|]). apply advances_ret. }
        lia.
      * rewrite !len_app, len_field, len_cons. lia.
    + rewrite !len_app, len_field, len_cons. unfold FIELD_HEADER_SIZE.
      pose proof (len_nonneg (enc_index_type f)). pose proof (len_nonneg rb).
      pose proof (len_nonneg (enc_bin_list bins)). intros Hn.
      eapply emits_eq.
      * eapply emits_bind; [exact Hw|].
        eapply emits_bind; [apply write_field_header_emits; lia|].
        eapply emits_bind; [apply write_u8_emits|].
        eapply emits_bind; [apply Filter.filter_write_emits, Hr|].
        instantiate (1 := enc_bin_list bins).
        destruct bins as [| |[|x l]]; try apply emits_ret.
        apply write_bin_list_emits. unfold enc_bin_list in *.
        rewrite len_field in *. unfold FIELD_HEADER_SIZE in *. lia.
      * unfold field. rewrite len_cons, <- !(assoc_L (++)). reflexivity.
  - apply (inj Some) in Hb as <-. exists 0, 0. rewrite len_field. split.
    + eapply advances_eq.
      * eapply advances_bind; [apply advances_add|apply advances_ret].
      * rewrite len_pid_bytes. lia.
    + unfold FIELD_HEADER_SIZE. intros Hn. apply write_partitions_emits. lia.
Qed.

(** *** Aggregations *)

Definition enc_aggregation (agg : option Statement.Aggregation) (bins : Bins)
    : option bytes :=
  match agg with
  | Some agg =>
      Some (field FieldType.UdfOp [if Bins.is_none bins then 2 else 1] ++
            field FieldType.UdfPackageName (Statement.package_name agg) ++
            field FieldType.UdfFunction (Statement.function_name agg)) +++
      enc_udf_args (Statement.function_args agg)
  | None => Some []
  end.

Definition aggregation_count (agg : option Statement.Aggregation) : Z :=
  match agg with Some _ => 4 | None => 0 end.

Lemma aggregation_passes agg bins bs :
  enc_aggregation agg bins = Some bs ->
  advances (estimate_aggregation agg) (len bs) (aggregation_count agg) /\
  (len bs < 2 ^ 31 - 1 -> emits (write_aggregation agg bins) bs tt).
Proof.
  destruct agg as [a|]; cbn [enc_aggregation]; intros Hb.
  - apply opt_app_Some in Hb as (b1 & ab & <-%(inj Some) & Hab & ->).
    destruct (args_passes _ _ Hab) as [Hargs Hwa].
    rewrite !len_app, !len_field. unfold FIELD_HEADER_SIZE.
    change (len [_]) with 1. split.
    + eapply advances_eq.
      * do 3 (eapply advances_bind; [apply advances_add|]).
        eapply advances_bind; [exact Hargs|apply advances_ret].
      * unfold FIELD_HEADER_SIZE. lia.
    + pose proof (len_nonneg (Statement.package_name a)).
      pose proof (len_nonneg (Statement.function_name a)).
      pose proof (len_nonneg ab). intros Hn. eapply emits_eq.
      * eapply emits_bind; [apply write_field_header_emits; lia|].
        eapply emits_bind; [apply write_u8_emits|].
        eapply emits_bind; [apply write_field_string_emits; lia|].
        eapply emits_bind; [apply write_field_string_emits; lia|].
        apply Hwa. lia.
      * unfold field. rewrite <- !(assoc_L (++)). reflexivity.
  - apply (inj Some) in Hb as <-. split; [apply advances_ret|].
    intros _. apply emits_ret.
Qed.

(** *** The query message *)

Definition query_filter (s : Statement) : option Filter :=
  match Statement.filters s with Some (f :: _) => Some f | _ => None end.

Definition query_field_count (policy : QueryPolicy) (s : Statement) : Z :=
  count_if (nonempty (Statement.namespace s)) +
  count_if (nonempty (Statement.set_name s)) +
  count_if (nonempty (index_name_of s)) + 1 +
  query_filter_count (query_filter s) (Statement.bins s) +
  filter_field_count (qp_filter_expression policy) +
  aggregation_count (Statement.aggregation s).

(** The fields of a query; [None] when a part has no encoding. *)
Definition query_fields (policy : QueryPolicy) (s : Statement) (task_id : Z)
    (partitions : list Z) : option bytes :=
  Some (opt_field FieldType.Namespace (Statement.namespace s) ++
        opt_field FieldType.IndexName (index_name_of s) ++
        opt_field FieldType.Table (Statement.set_name s) ++
        field FieldType.TranId (write_be 8 task_id)) +++
  enc_query_filter (query_filter s) (Statement.bins s) partitions +++
  enc_filter (qp_filter_expression policy) +++
  enc_aggregation (Statement.aggregation s) (Statement.bins s).

Lemma first_filter_query s :
  Statement.filters s <> Some [] -> first_filter s ≈ ret (query_filter s).
Proof.
  unfold first_filter, query_filter.
  destruct (Statement.filters s) as [[|f fs]|]; [congruence|reflexivity..].
Qed.

Lemma builds_after_ret {A} (m : M Buffer A) x (k : A -> M Buffer unit) hdr body :
  m ≈ ret x -> builds (k x) hdr body -> builds (bind m k) hdr body.
Proof. intros Hm Hk b. unfold bind. rewrite (Hm b). apply Hk. Qed.

(** One part of the estimate of a query. *)
Ltac estimate_query :=
  first [ apply estimate_names_advances | apply advances_add | eassumption ].

(** [set_query] builds exactly the query message: the fields of the
    statement (namespace, index, set, task, index range or partitions, filter
    expression, aggregation) and, for a scan statement, an operation per bin.
    The statement must not combine a filter with an empty list of bins, and its
    filter list must not be empty (the code panics). *)
Theorem set_query_message (policy : QueryPolicy) (s : Statement) (write : bool)
    (task_id : Z) (partitions : list Z) (fields : bytes) :
  Statement.filters s <> Some [] ->
  no_empty_bins (query_filter s) (Statement.bins s) ->
  query_fields policy s task_id partitions = Some fields ->
  builds (set_query policy s write task_id partitions)
    (header (consistency_attr (qp_base_policy policy)
               (if Bins.is_none (Statement.bins s)
                then Z.lor INFO1_READ INFO1_NOBINDATA else INFO1_READ))
       (if write then INFO2_WRITE else 0) 0 0 0
       (query_field_count policy s) (as_u16 (len (scan_bins s))))
    (fields ++ concat (enc_bin_name <$> scan_bins s)).
Proof.
  intros Hfs Hne Hf. unfold query_fields in Hf.
  apply opt_app_Some in Hf as (hb & r1 & <-%(inj Some) & Hr & ->).
  apply opt_app_Some in Hr as (qb & r2 & Hqb & Hr & ->).
  apply opt_app_Some in Hr as (fb & ab & Hfb & Hab & ->).
  destruct (filter_passes _ _ Hfb) as (n & Hadv & Hcount & Hwf).
  destruct (query_filter_passes _ _ _ _ Hne Hqb) as (qn & qk & Hqa & Hqw).
  destruct (aggregation_passes _ _ _ Hab) as [Haa Haw].
  eapply builds_after_ret; [apply first_filter_query, Hfs|].
  eapply command_builds.
  - eapply estimates_bind; [apply (string_field_advances _ FieldType.Namespace)|].
    eapply estimates_bind; [apply (string_field_advances _ FieldType.Table)|].
    eapply estimates_bind; [apply (string_field_advances _ FieldType.IndexName)|].
    do 5 (eapply estimates_bind; [estimate_query|]; cbn beta iota). apply estimates_done.
  - unfold total_size, MSG_TOTAL_HEADER_SIZE, MAX_BUFFER_SIZE.
    rewrite !len_app, !len_field. unfold FIELD_HEADER_SIZE.
    pose proof (len_opt_field FieldType.Namespace (Statement.namespace s)).
    pose proof (len_opt_field FieldType.Table (Statement.set_name s)).
    pose proof (len_opt_field FieldType.IndexName (index_name_of s)).
    rewrite !len_write_be. intros Hsize. note_lengths Hsize.
    apply writes_header.
    + rewrite Hcount, write_header_emits.
      replace (_ + filter_field_count (qp_filter_expression policy) +
               aggregation_count (Statement.aggregation s))
        with (query_field_count policy s) by (unfold query_field_count; lia).
      reflexivity.
    + rewrite <- !(assoc_L (++)).
      do 3 (eapply tails_step; [apply when_field_emits; lia|]).
      eapply tails_field; [symmetry; apply (len_write_be 8)|lia|
                           apply write_u64_emits|].
      eapply tails_step; [apply Hqw; lia|].
      eapply tails_step; [apply Hwf; lia|].
      eapply tails_step; [apply Haw; lia|].
      eapply tails_eq.
      * eapply tails_step; [apply write_names_emits; lia|apply tails_end].
      * apply app_nil_r.
  - rewrite !len_app, !len_field, !len_write_be. unfold FIELD_HEADER_SIZE. lia.
  - apply len_header.
Qed.

End QueryFacts.

(** ** Instances *)

Section Witnesses.

#[local] Existing Instance valuefmt_model.

(** An integer range on the bin [age]. *)
Definition sample_range : Filter :=
  Filter.mkFilter (str "age") CollectionIndexType.Default ParticleType.INTEGER
    (Value.Int 1) (Value.Int 9).

Definition range_query (bins : Bins) : Statement :=
  Statement.add_filter sample_range
    (Statement.new (str "test") (str "people") bins).

Lemma set_scan_message_witness :
  exists body,
    builds
      (set_scan ScanPolicy_default (str "test") (str "people")
         (Bins.Some [str "a"]) 77 [0; 4095])
      (header (consistency_attr (sp_base_policy ScanPolicy_default) INFO1_READ)
         0 0 0 0 5 1) body.
Proof.
  eexists.
  apply (set_scan_message ScanPolicy_default (str "test") (str "people")
           (Bins.Some [str "a"]) 77 [0; 4095] []).
  reflexivity.
Defined.

Lemma set_query_message_witness :
  exists fields,
    builds
      (set_query QueryPolicy_default (range_query (Bins.Some [str "a"])) false
         77 [])
      (header (consistency_attr (qp_base_policy QueryPolicy_default) INFO1_READ)
         0 0 0 0 5 0) (fields ++ []).
Proof.
  eexists.
  apply (set_query_message QueryPolicy_default
           (range_query (Bins.Some [str "a"])) false 77 []).
  - discriminate.
  - exact I.
  - vm_compute. reflexivity.
Defined.

(** A query with a filter and an empty list of bins is sized for a field
    that is not written.  Whatever byte [x] fills the buffer beforehand, the
    message announces five fields where it has four, its length does not count
    the last six bytes of the buffer, and these still are the old bytes. *)
Theorem set_query_empty_bins (x : Z) :
  set_query QueryPolicy_default (range_query (Bins.Some [])) false 7 []
    (mkBuffer (replicate 150 x) 0 0)
  = Ret tt
      (mkBuffer
         (message
            (header
               (consistency_attr (qp_base_policy QueryPolicy_default)
                  INFO1_READ) 0 0 0 0 5 0)
            (field FieldType.Namespace (str "test") ++
             field FieldType.Table (str "people") ++
             field FieldType.TranId (write_be 8 7) ++
             field FieldType.IndexRange
               (1 :: [3] ++ str "age" ++ [1; 0; 0; 0; 8] ++ write_be 8 1 ++
                [0; 0; 0; 8] ++ write_be 8 9)) ++ replicate 6 x) 8 0).
Proof. vm_compute. reflexivity. Qed.

End Witnesses.
