(* ===== verification/BatchFacts.v ===== *)
(** * The message of a batch read

    The exact message of [set_batch_read]: one field with a row per key, in
    which a row repeats namespace, set and bins only when they differ from the
    previous row's.  The length of that field is patched in afterwards and is
    computed from the end of the message header, so it also counts a filter
    expression written before it. *)

From stdpp Require Import base list strings decidable.
From Stdlib Require Import ZArith Lia Setoid Morphisms.
From S2P Require Import Prelude ResultCodes Monad ByteOrder Slices Wire Buffer.
From S2P Require Import BufferFacts Values Cdt Encoder EncoderFacts Decoder.
From S2P Require Import RoundTrip Particle Expressions.
From S2P Require Import Operations Policy Statements Commands CommandFacts.
From S2P Require Import RecordCommands Queries QueryFacts.

(** ** Patching a length *)

Section Patch.
Context `{BO : ByteOrder}.

Lemma emit_fits (bs : bytes) b :
  0 <= data_offset b -> data_offset b + len bs <= len (data_buffer b) ->
  exists pre area post,
    b = mkBuffer (pre ++ area ++ post) (len pre) (reclaim_threshold b) /\
    len area = len bs.
Proof.
  destruct b as [d o rt]. cbn. intros Ho Hl. pose proof (len_nonneg bs).
  destruct (slice_split d o (len bs)) as (pre & area & post & -> & <- & Ha);
    [lia..|].
  exists pre, area, post. auto.
Qed.

Lemma emit_app_panic bs1 bs2 b (k : Buffer -> M Buffer unit) :
  emit (bs1 ++ bs2) b = Panic ->
  (emit bs1 ;;; let! b0 := get in emit bs2 ;;; k b0) b = Panic.
Proof.
  rewrite (emit_app _ _ b). unfold bind, get.
  destruct (emit bs1 b) as [[] b'|e b'| |]; auto.
  intros ->. reflexivity.
Qed.

(** Emitting four bytes and patching them later is emitting the patch. *)
Lemma patch_emit (fb old rest : bytes) (f : Z -> Z) (k : M Buffer unit) b :
  len old = 4 -> 0 <= data_offset b ->
  (emit fb ;;;
   let! b0 := get in
   emit (old ++ rest) ;;;
   let! b1 := get in
   patch_u32 (data_offset b0) (f (data_offset b1)) ;;; k) b
  = (emit (fb ++ write_be 4 (f (data_offset b + len fb + 4 + len rest)) ++ rest)
     ;;; k) b.
Proof.
  intros Hold Ho.
  set (new := write_be 4 (f (data_offset b + len fb + 4 + len rest))).
  assert (len new = 4) as Hnew by apply (len_write_be 4).
  destruct (Z.leb_spec (data_offset b + len (fb ++ new ++ rest))
              (len (data_buffer b))) as [Hfit|Hover].
  - destruct (emit_fits _ _ Ho Hfit) as (pre & area & post & Hb & Ha).
    rewrite !len_app in Ha. pose proof (len_nonneg fb).
    pose proof (len_nonneg rest).
    destruct (slice_split area 0 (len fb)) as (x & a1 & r & -> & Hx & Ha1); [lia..|].
    destruct x; [|unfold len in Hx; cbn in Hx; lia]. cbn [app] in Ha, Hb.
    rewrite len_app in Ha.
    assert (data_offset b = len pre) as Hoff by (rewrite Hb; reflexivity).
    rewrite Hb. rewrite <- (assoc_L (++)). unfold bind at 1.
    rewrite emit_frame by lia. unfold bind at 1, get at 1.
    rewrite <- len_app, (assoc_L (++)). unfold bind at 1.
    rewrite emit_frame by (rewrite !len_app; lia).
    unfold bind at 1, get at 1. unfold bind at 1, patch_u32.
    cbn [data_buffer data_offset].
    rewrite <- (assoc_L (++) old).
    rewrite slice_ok_app by lia.
    rewrite splice_app by (rewrite Hold; symmetry; apply (len_write_be 4)).
    unfold bind at 1.
    rewrite (assoc_L (++) a1 r post).
    rewrite emit_frame by (rewrite !len_app; lia).
    unfold set_data. cbn [data_offset reclaim_threshold].
    assert (len (pre ++ fb) + len (old ++ rest)
            = data_offset b + len fb + 4 + len rest) as ->
      by (rewrite Hoff, !len_app; lia).
    fold new. rewrite <- !(assoc_L (++)). f_equal. f_equal.
    rewrite Hoff, !len_app. lia.
  - rewrite (emit_app_panic fb (old ++ rest)).
    + unfold bind. rewrite len_app in Hover. destruct b as [d o rt].
      rewrite emit_overflow; [reflexivity| |right; cbn in *; rewrite len_app; lia].
      intros E. apply (f_equal (@len Z)) in E. rewrite !len_app, Hnew in E.
      pose proof (len_nonneg fb). pose proof (len_nonneg rest).
      change (@len Z []) with 0 in E. lia.
    + destruct b as [d o rt]. apply emit_overflow.
      * intros E. apply (f_equal (@len Z)) in E. rewrite !len_app, Hold in E.
        pose proof (len_nonneg fb). pose proof (len_nonneg rest).
        change (@len Z []) with 0 in E. lia.
      * right. cbn in Hover. rewrite !len_app in *. lia.
Qed.

End Patch.

(** ** Rows *)

Section Rows.
Context `{BO : ByteOrder} `{VF : ValueFmt}.
Context (policy : BatchPolicy) (reads : list BatchRead).

Definition field_count_row : Z := if send_set_name policy then 2 else 1.

(** The set of a key, sent when the policy asks for it. *)
Definition set_field (k : Key) : bytes :=
  if send_set_name policy then field FieldType.Table (set_name k) else [].

(** What a row carries when the previous row does not share it. *)
Definition row_header (r : BatchRead) : bytes :=
  [0; batch_read_attr (br_bins r)] ++ write_be 2 field_count_row ++
  write_be 2 (len (bin_names (br_bins r))) ++
  field FieldType.Namespace (namespace (br_key r)) ++
  set_field (br_key r) ++
  concat (enc_bin_name <$> bin_names (br_bins r)).

Definition batch_row (prev : option BatchRead) (idx : Z) (r : BatchRead)
    : bytes :=
  write_be 4 idx ++ digest (br_key r) ++
  (if same_header policy prev r then [1] else row_header r).

(** [None]: an index out of range, which panics. *)
Fixpoint batch_rows (prev : option BatchRead) (offsets : list Z)
    : option bytes :=
  match offsets with
  | [] => Some []
  | idx :: offsets' =>
      match reads !! Z.to_nat idx with
      | Some r => Some (batch_row prev idx r) +++ batch_rows (Some r) offsets'
      | None => None
      end
  end.

Lemma batch_get_Some idx r :
  reads !! Z.to_nat idx = Some r -> batch_get reads idx ≈ ret r.
Proof. intros H. unfold batch_get. rewrite H. reflexivity. Qed.

Lemma estimate_set_advances k :
  advances (when (send_set_name policy)
              (add_offset (len (set_name k) + FIELD_HEADER_SIZE)))
    (len (set_field k)) tt.
Proof.
  unfold set_field, when. destruct (send_set_name policy); [|apply advances_ret].
  rewrite len_field. eapply advances_eq; [apply advances_add|lia].
Qed.

Lemma write_set_emits k :
  len (set_field k) < 2 ^ 31 - 1 ->
  emits (when (send_set_name policy)
           (write_field_string (set_name k) FieldType.Table)) (set_field k) tt.
Proof.
  unfold set_field, when. destruct (send_set_name policy);
    [|intros; apply emits_ret].
  rewrite len_field. unfold FIELD_HEADER_SIZE. intros Hn.
  apply write_field_string_emits. lia.
Qed.

Lemma write_row_header_emits r :
  len (row_header r) < 2 ^ 31 - 1 ->
  emits
    (write_u8 0 ;;;
     write_u8 (batch_read_attr (br_bins r)) ;;;
     write_u16 field_count_row ;;;
     write_u16 (as_u16 (len (bin_names (br_bins r)))) ;;;
     write_field_string (namespace (br_key r)) FieldType.Namespace ;;;
     when (send_set_name policy)
       (write_field_string (set_name (br_key r)) FieldType.Table) ;;;
     for_each (bin_names (br_bins r)) (fun bin =>
       write_operation_for_bin_name bin OperationType.Read))
    (row_header r) tt.
Proof.
  unfold row_header. rewrite !len_app, len_field, !len_write_be.
  unfold FIELD_HEADER_SIZE. change (len [_; _]) with 2.
  pose proof (len_nonneg (namespace (br_key r))).
  pose proof (len_nonneg (set_field (br_key r))).
  pose proof (len_nonneg (concat (enc_bin_name <$> bin_names (br_bins r)))).
  intros Hn. eapply emits_eq.
  - do 4 (eapply emits_bind; [eauto with emits|]).
    eapply emits_bind; [apply write_field_string_emits; lia|].
    eapply emits_bind; [apply write_set_emits; lia|].
    apply write_names_emits. lia.
  - rewrite write_be_u16. reflexivity.
Qed.

Lemma estimate_row_advances prev idx r :
  reads !! Z.to_nat idx = Some r ->
  advances (estimate_batch_row policy reads prev idx)
    (len (batch_row prev idx r)) (Some r).
Proof.
  intros Hr. unfold estimate_batch_row, batch_row.
  rewrite (batch_get_Some _ _ Hr), bind_ret_l, !len_app, len_write_be.
  destruct (same_header policy prev r).
  - eapply advances_eq.
    + do 2 (eapply advances_bind; [apply advances_add|]). apply advances_ret.
    + change (len [1]) with 1. lia.
  - unfold row_header. rewrite !len_app, !len_write_be, len_field.
    change (len [_; _]) with 2. eapply advances_eq.
    + eapply advances_bind; [apply advances_add|].
      eapply advances_bind; [|apply advances_ret].
      eapply advances_bind; [apply advances_add|].
      eapply advances_bind; [apply estimate_set_advances|].
      apply estimate_names_advances.
    + lia.
Qed.

Lemma estimate_rows_advances offsets : forall prev bs,
  batch_rows prev offsets = Some bs ->
  exists v, advances (fold_m (estimate_batch_row policy reads) prev offsets)
              (len bs) v.
Proof.
  induction offsets as [|idx offsets IH]; cbn [batch_rows fold_m];
    intros prev bs Hb.
  - apply (inj Some) in Hb as <-. eexists. apply advances_ret.
  - destruct (reads !! Z.to_nat idx) as [r|] eqn:Hr; [|discriminate].
    apply opt_app_Some in Hb as (b1 & b2 & <-%(inj Some) & H2 & ->).
    destruct (IH _ _ H2) as [v Hv]. exists v. rewrite len_app.
    eapply advances_bind; [apply estimate_row_advances, Hr|exact Hv].
Qed.

Lemma write_row_emits prev idx r :
  reads !! Z.to_nat idx = Some r ->
  len (batch_row prev idx r) < 2 ^ 31 - 1 ->
  emits (write_batch_row policy reads field_count_row prev idx)
    (batch_row prev idx r) (Some r).
Proof.
  intros Hr. unfold write_batch_row, batch_row.
  rewrite (batch_get_Some _ _ Hr), bind_ret_l, !len_app, len_write_be.
  intros Hn. pose proof (len_nonneg (digest (br_key r))). eapply emits_eq.
  - eapply emits_bind; [apply write_u32_emits|].
    eapply emits_bind; [apply write_bytes_emits|].
    eapply (emits_bind _ _
      (if same_header policy prev r then [1] else row_header r) []);
      [|apply emits_ret].
    revert Hn. destruct (same_header policy prev r); intros Hn.
    + eapply emits_drop, write_u8_emits.
    + apply write_row_header_emits. lia.
  - rewrite app_nil_r, write_be_u32. reflexivity.
Qed.

Lemma write_rows_emits offsets : forall prev bs,
  batch_rows prev offsets = Some bs -> len bs < 2 ^ 31 - 1 ->
  exists v, emits (fold_m (write_batch_row policy reads field_count_row) prev
                     offsets) bs v.
Proof.
  induction offsets as [|idx offsets IH]; cbn [batch_rows fold_m];
    intros prev bs Hb Hn.
  - apply (inj Some) in Hb as <-. eexists. apply emits_ret.
  - destruct (reads !! Z.to_nat idx) as [r|] eqn:Hr; [|discriminate].
    apply opt_app_Some in Hb as (b1 & b2 & <-%(inj Some) & H2 & ->).
    rewrite len_app in Hn. pose proof (len_nonneg b2).
    pose proof (len_nonneg (batch_row prev idx r)).
    destruct (IH _ _ H2) as [v Hv]; [lia|]. exists v.
    eapply emits_bind; [apply write_row_emits; [exact Hr|lia]|exact Hv].
Qed.

(** Count, inline flag and rows. *)
Definition batch_payload (offsets : list Z) (rows : bytes) : bytes :=
  write_be 4 (len offsets) ++ [if allow_inline policy then 1 else 0] ++ rows.

Definition batch_field_type : FieldType :=
  if send_set_name policy then FieldType.BatchIndexWithSet
  else FieldType.BatchIndex.

Definition write_rows (offsets : list Z) : M Buffer (option BatchRead) :=
  write_field_header 0 batch_field_type ;;;
  write_u32 (as_u32 (len offsets)) ;;;
  write_u8 (if allow_inline policy then 1 else 0) ;;;
  fold_m (write_batch_row policy reads field_count_row) None offsets.

Lemma write_field_emits offsets rows :
  batch_rows None offsets = Some rows -> len rows < 2 ^ 31 - 1 ->
  exists v, emits (write_rows offsets)
    (write_be 4 1 ++ FieldType.to_u8 batch_field_type ::
     batch_payload offsets rows) v.
Proof.
  intros Hrows Hn. destruct (write_rows_emits _ _ _ Hrows Hn) as [v Hv].
  exists v. unfold write_rows. eapply emits_eq.
  - eapply emits_bind; [apply write_field_header_emits; lia|].
    eapply emits_bind; [apply write_u32_emits|].
    eapply emits_bind; [apply write_u8_emits|exact Hv].
  - rewrite write_be_u32. unfold batch_payload.
    rewrite <- (assoc_L (++)). reflexivity.
Qed.

(** The body: the length in the field header is that of the payload plus, when
    there is one, that of the filter field. *)
Definition batch_body (offsets : list Z) (fb rows : bytes) : bytes :=
  let payload := batch_payload offsets rows in
  fb ++ write_be 4 (len fb + (1 + len payload)) ++
  FieldType.to_u8 batch_field_type :: payload.

(** The length is measured from the end of the message header. *)
Definition patch_length (o : Z) (b : Buffer) : M Buffer unit :=
  let! field_size := usize_sub (data_offset b) MSG_TOTAL_HEADER_SIZE in
  let! field_size := usize_sub field_size 4 in
  patch_u32 o (as_u32 field_size).

Lemma patch_length_eq o b :
  34 <= data_offset b ->
  patch_length o b ≈ patch_u32 o (as_u32 (data_offset b - 30 - 4)).
Proof.
  intros Hb. unfold patch_length, usize_sub, MSG_TOTAL_HEADER_SIZE.
  decide_tests. rewrite bind_ret_l. decide_tests. rewrite bind_ret_l.
  reflexivity.
Qed.

(** The body as the code writes it: the filter, the rows, then the length. *)
Definition write_batch_body (wf : M Buffer unit) (offsets : list Z)
    : M Buffer unit :=
  wf ;;;
  let! b0 := get in
  write_rows offsets ;;;
  let! b1 := get in
  patch_length (data_offset b0) b1 ;;; end_.

Lemma write_batch_body_eq wf offsets fb rows b :
  data_offset b = MSG_TOTAL_HEADER_SIZE -> emits wf fb tt ->
  batch_rows None offsets = Some rows -> len rows < 2 ^ 31 - 1 ->
  write_batch_body wf offsets b = (emit (batch_body offsets fb rows) ;;; end_) b.
Proof.
  intros Hb Hwf Hrows Hn.
  destruct (write_field_emits _ _ Hrows Hn) as [v Hv].
  set (rest := FieldType.to_u8 batch_field_type :: batch_payload offsets rows)
    in *.
  pose proof (len_nonneg fb). pose proof (len_nonneg rest).
  transitivity
    ((emit fb ;;;
      let! b0 := get in
      emit (write_be 4 1 ++ rest) ;;;
      let! b1 := get in
      patch_u32 (data_offset b0) (as_u32 (data_offset b1 - 30 - 4)) ;;; end_) b).
  - specialize (Hwf b). unfold write_batch_body.
    cbv [bind get ret emits] in Hwf, Hv |- *. rewrite Hwf.
    destruct (emit fb b) as [[] b'|e b'| |] eqn:Ef; try reflexivity.
    rewrite (Hv b'). apply emit_offset in Ef.
    destruct (emit _ b') as [[] b2|e b2| |] eqn:Er; try reflexivity.
    apply emit_offset in Er. rewrite len_app, len_write_be in Er.
    unfold MSG_TOTAL_HEADER_SIZE in Hb.
    rewrite (patch_length_eq _ b2) by lia. reflexivity.
  - rewrite (patch_emit _ _ _ (fun o => as_u32 (o - 30 - 4)));
      [|apply (len_write_be 4)|unfold MSG_TOTAL_HEADER_SIZE in *; lia].
    rewrite write_be_u32, Hb. unfold batch_body, MSG_TOTAL_HEADER_SIZE.
    cbv zeta. fold rest.
    replace (30 + len fb + 4 + len rest - 30 - 4)
      with (len fb + (1 + len (batch_payload offsets rows)))
      by (unfold rest; rewrite len_cons; lia).
    reflexivity.
Qed.

(** A body that is written from the cursor the header leaves. *)
Lemma writes_header_at (h k : M Buffer unit) hdr body :
  h ≈ (set_position 8 ;;; emit hdr ;;; set_position 30) ->
  (forall b, data_offset b = MSG_TOTAL_HEADER_SIZE ->
     k b = (emit body ;;; end_) b) ->
  writes (h ;;; k) hdr body.
Proof.
  unfold writes. intros H1 H2. rewrite H1.
  do 2 (rewrite bind_assoc; apply bind_proper; [reflexivity|]; intros []).
  intros b. unfold bind, set_position. rewrite (H2 (set_offset 30 b)); reflexivity.
Qed.

(** [set_batch_read] builds one field that holds the number of keys, the
    inline flag and, per key, its index, digest and either a repeat mark or
    namespace, set and bin names; the message has one operation-less header and
    the filter expression, when there is one, precedes that field.  Nothing is
    written past the message limit; an index out of range panics and is
    excluded. *)
Theorem set_batch_read_message (offsets : list Z) (fb rows : bytes) :
  enc_filter (bp_filter_expression policy) = Some fb ->
  batch_rows None offsets = Some rows ->
  builds (set_batch_read policy reads offsets)
    (header (consistency_attr (bp_base_policy policy)
               (Z.lor INFO1_READ INFO1_BATCH)) 0 0 0 0
       (1 + filter_field_count (bp_filter_expression policy)) 0)
    (batch_body offsets fb rows).
Proof.
  intros Hfb Hrows. destruct (filter_passes _ _ Hfb) as (n & Hadv & Hcount & Hwf).
  destruct (estimate_rows_advances _ _ _ Hrows) as [ev Hev].
  unfold set_batch_read. fold field_count_row. fold batch_field_type.
  pose proof (len_nonneg fb). pose proof (len_nonneg rows).
  assert (len (batch_body offsets fb rows)
          = FIELD_HEADER_SIZE + 5 + (len fb + (len rows + 0))) as Hlen.
  { unfold batch_body, batch_payload. cbv zeta.
    repeat rewrite ?len_app, ?len_cons, ?len_nil, ?len_write_be.
    unfold FIELD_HEADER_SIZE. lia. }
  eapply command_builds.
  - eapply estimates_bind; [apply advances_add|].
    eapply estimates_bind; [exact Hadv|].
    eapply estimates_bind; [exact Hev|apply estimates_done].
  - unfold total_size. rewrite Hlen.
    unfold MSG_TOTAL_HEADER_SIZE, MAX_BUFFER_SIZE, FIELD_HEADER_SIZE.
    intros Hsize. apply writes_header_at.
    + rewrite Hcount. apply write_header_emits.
    + intros b Hb.
      rewrite <- (write_batch_body_eq _ _ _ _ _ Hb (Hwf ltac:(lia)) Hrows)
        by lia.
      clear -b. revert b. unfold write_batch_body, write_rows.
      apply bind_proper; [reflexivity|]. intros [].
      apply bind_proper; [reflexivity|]. intros b0.
      rewrite !bind_assoc.
      do 3 (apply bind_proper; [reflexivity|]; intros ?; rewrite ?bind_assoc).
      do 2 (apply bind_proper; [reflexivity|]; intros ?).
      unfold patch_length. rewrite bind_assoc.
      apply bind_proper; [reflexivity|]. intros ?. rewrite bind_assoc.
      reflexivity.
  - exact Hlen.
  - apply len_header.
Qed.

(** The length the code patches into the batch field is the length of that
    field exactly when no filter expression precedes it: with a filter, the
    field claims the bytes of the filter field as well. *)
Theorem batch_length_exact (offsets : list Z) (fb rows : bytes) :
  total_size (batch_body offsets fb rows) <= MAX_BUFFER_SIZE ->
  batch_body offsets fb rows
    = fb ++ field batch_field_type (batch_payload offsets rows)
  <-> fb = [].
Proof.
  unfold batch_body, field, total_size, MSG_TOTAL_HEADER_SIZE, MAX_BUFFER_SIZE.
  cbv zeta. rewrite len_app.
  set (payload := batch_payload offsets rows). intros Hn.
  pose proof (len_nonneg fb). pose proof (len_nonneg payload).
  assert (len (write_be 4 (len fb + (1 + len payload)) ++
               FieldType.to_u8 batch_field_type :: payload)
          = 5 + len payload) as Hl
    by (rewrite len_app, len_cons, len_write_be; lia).
  split.
  - intros [E _]%(inj (app fb))%app_inj_1; [|rewrite !length_write_be; done].
    apply write_be4_inj in E; [|lia..]. apply nil_length_inv.
    unfold len in E. lia.
  - intros ->. change (@len Z []) with 0. cbn [app].
    replace (0 + (1 + len payload)) with (len payload + 1) by lia. reflexivity.
Qed.

End Rows.

(** ** Instances *)

Section Witnesses.

#[local] Existing Instance valuefmt_model.

(** The same record twice, once with all bins and once with one. *)
Definition sample_reads : list BatchRead :=
  [BatchRead_new sample_key Bins.All;
   BatchRead_new sample_key (Bins.Some [str "a"])].

Lemma set_batch_read_message_witness :
  exists rows,
    builds (set_batch_read BatchPolicy_default sample_reads [1; 0])
      (header (consistency_attr (bp_base_policy BatchPolicy_default)
                 (Z.lor INFO1_READ INFO1_BATCH)) 0 0 0 0 1 0)
      (batch_body BatchPolicy_default [1; 0] [] rows).
Proof.
  eexists.
  apply (set_batch_read_message BatchPolicy_default sample_reads [1; 0] []).
  - reflexivity.
  - vm_compute. reflexivity.
Defined.

Lemma batch_length_exact_witness :
  batch_body BatchPolicy_default [] [1; 2] []
  <> [1; 2] ++ field (batch_field_type BatchPolicy_default)
                 (batch_payload BatchPolicy_default [] []).
Proof.
  intros E.
  apply (batch_length_exact BatchPolicy_default [] [1; 2] []) in E.
  - discriminate E.
  - vm_compute. discriminate.
Defined.

End Witnesses.
