(* ===== verification/Responses.v ===== *)
(** * Responses to single-record commands

    [parse_result] of the commands on one record ([src/commands/*_command.rs])
    and [SingleCommand::empty_socket].  A command is a state machine over the
    pair of its own state and the connection it was given. *)

From stdpp Require Import base list strings gmap.
From Stdlib Require Import ZArith Lia.
From S2P Require Import Prelude ResultCodes Monad ByteOrder Slices Wire Buffer.
From S2P Require Import Values Decoder Encoder Expressions Operations Policy Records.
From S2P Require Import Connection Commands.

(** [commands::keep_connection]. *)
Definition keep_connection (err : ErrorKind) : bool :=
  match err with
  | ServerError result_code => bool_decide (result_code = ResultCode.KeyNotFoundError)
  | _ => false
  end.

Section Responses.
Context `{BO : ByteOrder} `{VF : ValueFmt} `{CL : Clock}.

(** [bytes_to_particle] on the connection's buffer; the fuel is the one that
    [DecoderFacts] shows to be enough. *)
Definition read_particle (particle_type size : Z) : M Buffer Value :=
  fun b => bytes_to_particle (S (length (data_buffer b))) particle_type size b.

(** [SingleCommand::empty_socket]; the subtraction of two [i64] is exact, its
    cast to [usize] wraps. *)
Definition empty_socket : M Connection unit :=
  let! sz := Connection.lift (read_i64 None) in
  let! header_length := Connection.lift (read_u8 None) in
  let receive_size := as_u64 (Z.land sz 0xFFFFFFFFFFFF - header_length) in
  when (0 <? receive_size)
    (Connection.lift (resize_buffer receive_size) ;;;
     Connection.read_buffer receive_size).

(** Reading the header of a response, and its result code. *)
Definition read_header : M Connection unit :=
  Connection.read_buffer MSG_TOTAL_HEADER_SIZE ;;;
  Connection.lift reset_offset.

Definition header_result_code : M Connection ResultCode :=
  let! code := Connection.lift (read_u8 (Some 13)) in ret (ResultCode.from_u8 code).

(** [WriteCommand::parse_result], also [TouchCommand]'s. *)
Definition write_parse_result : M Connection unit :=
  read_header ;;;
  let! result_code := header_result_code in
  if bool_decide (result_code = ResultCode.Ok) then empty_socket
  else throw (ServerError result_code).

(** [DeleteCommand::parse_result], also [ExistsCommand]'s: the state of the
    command is its flag [existed] ([exists]). *)
Definition exists_parse_result : M (bool * Connection) unit :=
  on_snd read_header ;;;
  let! result_code := on_snd header_result_code in
  if bool_decide (result_code <> ResultCode.Ok) && bool_decide (result_code <> ResultCode.KeyNotFoundError)
  then throw (ServerError result_code)
  else
    on_fst (put (bool_decide (result_code = ResultCode.Ok))) ;;;
    on_snd empty_socket.

End Responses.

Module ReadCommand.

(** [struct ReadCommand], but for the cluster. *)
Record ReadCommand : Type := mkReadCommand {
  policy : BasePolicy;
  key : Key;
  bins : Bins;
  record : option Record_
}.

Definition new (policy : BasePolicy) (key : Key) (bins : Bins) : ReadCommand :=
  mkReadCommand policy key bins None.

Definition set_record (r : option Record_) (c : ReadCommand) : ReadCommand :=
  mkReadCommand (policy c) (key c) (bins c) r.

Section Parse.
Context `{BO : ByteOrder} `{VF : ValueFmt} `{CL : Clock}.

(** The bin of the result map: the values of several operations on one bin
    are collected in a list. *)
Definition insert_bin (bins : gmap bytes Value) (name : bytes) (value : Value)
    : gmap bytes Value :=
  match bins !! name with
  | None => <[name := value]> bins
  | Some (Value.List list) => <[name := Value.List (list ++ [value])]> bins
  | Some prev => <[name := Value.List [prev; value]]> bins
  end.

(** The fields of the response are ignored. *)
Definition skip_field : M Buffer unit :=
  let! field_size := read_u32 None in skip (4 + field_size).

Definition read_op (bins : gmap bytes Value) : M Buffer (gmap bytes Value) :=
  let! op_size := read_u32 None in
  skip 1 ;;;
  let! particle_type := read_u8 None in
  skip 1 ;;;
  let! name_size := read_u8 None in
  let! name := read_str name_size in
  let! particle_bytes_size := usize_sub op_size (4 + name_size) in
  let! value := read_particle particle_type particle_bytes_size in
  ret (if Value.is_nil value then bins else insert_bin bins name value).

Definition parse_record (op_count field_count : nat) (generation expiration : Z)
    : M Buffer Record_ :=
  for_range field_count (fun _ => skip_field) tt ;;;
  let! bins := for_range op_count read_op empty in
  ret (Record.new None bins generation expiration).

(** The bin in which the server explains the failure of a UDF. *)
Definition udf_reason (r : Record_) : bytes :=
  match Record.bins r !! str "FAILURE" with
  | Some v => as_string v
  | None => str "UDF Error"
  end.

(** The first half of [parse_result]: the header, of which it keeps the result
    code, generation, expiration and counts, and the rest of the message. *)
Definition read_message : M Connection (Z * Z * Z * Z * Z) :=
  read_header ;;;
  let! sz := Connection.lift (read_u64 (Some 0)) in
  let! header_length := Connection.lift (read_u8 (Some 8)) in
  let! result_code := Connection.lift (read_u8 (Some 13)) in
  let! generation := Connection.lift (read_u32 (Some 14)) in
  let! expiration := Connection.lift (read_u32 (Some 18)) in
  let! field_count := Connection.lift (read_u16 (Some 26)) in
  let! op_count := Connection.lift (read_u16 (Some 28)) in
  let! receive_size := usize_sub (Z.land sz 0xFFFFFFFFFFFF) header_length in
  when (0 <? receive_size) (Connection.read_buffer receive_size) ;;;
  ret (result_code, generation, expiration, field_count, op_count).

Definition parse_result : M (ReadCommand * Connection) unit :=
  let! (result_code, generation, expiration, field_count, op_count) :=
    on_snd read_message in
  let parse :=
    on_snd (Connection.lift
              (parse_record (Z.to_nat op_count) (Z.to_nat field_count)
                 generation expiration)) in
  match ResultCode.from_u8 result_code with
  | ResultCode.Ok =>
      let! cmd := on_fst get in
      let! record :=
        if Bins.is_none (bins cmd)
        then ret (Record.new None empty generation expiration)
        else parse in
      on_fst (put (set_record (Some record) cmd))
  | ResultCode.UdfBadResponse =>
      let! record := parse in
      throw (Monad.UdfBadResponse (udf_reason record))
  | rc => throw (ServerError rc)
  end.

(** [prepare_buffer] of the command. *)
Definition prepare_buffer : M (ReadCommand * Connection) unit :=
  let! cmd := on_fst get in
  on_snd (Connection.lift (set_read (policy cmd) (key cmd) (bins cmd))).

End Parse.

End ReadCommand.

Abbreviation ReadCommand := ReadCommand.ReadCommand.
