(* ===== verification/Recordset.v ===== *)
(** * Record sets ([src/query/recordset.rs])

    The bounded queue between the threads that stream records from the nodes
    and the thread that iterates over them.  Every field is atomic (or a
    concurrent queue), so a method that makes several accesses is the program of
    them ([method]): [run] takes it to its end without interruption, and
    [advance] by one access, between which other threads make theirs. *)

From stdpp Require Import base list strings gmap.
From Stdlib Require Import ZArith Lia.
From S2P Require Import Prelude ResultCodes Monad Values Policy Records.

Module Recordset.

(** [Result<Record>]. *)
Definition item : Type := (Record_ + ErrorKind)%type.

(** [struct Recordset]. *)
Record Recordset : Type := mkRecordset {
  instances : Z;
  record_queue_count : Z;
  record_queue_size : Z;
  record_queue : list item;
  active : bool;
  task_id_ : Z
}.

(** [Recordset::new]; the task id is random. *)
Definition new (rec_queue_size nodes random : Z) : Recordset :=
  mkRecordset nodes 0 rec_queue_size [] true random.

(** *** Atomic accesses *)

(** [fetch_add(1)] and [fetch_sub(1)] wrap around. *)
Definition usize_incr (n : Z) : Z := wrap_u 64 (n + 1).

Definition usize_decr (n : Z) : Z := wrap_u 64 (n - 1).

Definition set_instances (n : Z) (r : Recordset) : Recordset :=
  mkRecordset n (record_queue_count r) (record_queue_size r) (record_queue r)
    (active r) (task_id_ r).

Definition set_count (n : Z) (r : Recordset) : Recordset :=
  mkRecordset (instances r) n (record_queue_size r) (record_queue r) (active r)
    (task_id_ r).

Definition set_queue (q : list item) (r : Recordset) : Recordset :=
  mkRecordset (instances r) (record_queue_count r) (record_queue_size r) q
    (active r) (task_id_ r).

Definition set_active (b : bool) (r : Recordset) : Recordset :=
  mkRecordset (instances r) (record_queue_count r) (record_queue_size r)
    (record_queue r) b (task_id_ r).

(** *** Methods as programs of accesses *)

(** What is left of a method: it is done, or makes an atomic access to the record
    set and goes on with what the access found. *)
Inductive method (A : Type) : Type :=
| Done (a : A)
| Access (B : Type) (f : Recordset -> B * Recordset) (next : B -> method A).

Arguments Done {A} a.
Arguments Access {A} B f next.

(** The method after its next access. *)
Definition advance {A} (m : method A) (r : Recordset) : method A * Recordset :=
  match m with
  | Done a => (Done a, r)
  | Access _ f next => let '(b, r') := f r in (next b, r')
  end.

(** A method that nobody interrupts. *)
Fixpoint run {A} (m : method A) (r : Recordset) : A * Recordset :=
  match m with
  | Done a => (a, r)
  | Access _ f next => let '(b, r') := f r in run (next b) r'
  end.

Definition close (r : Recordset) : Recordset := set_active false r.

Definition is_active (r : Recordset) : bool := active r.

(** The [fetch_add] of [push] and the comparison with the size, which nobody
    changes. *)
Definition enter (r : Recordset) : bool * Recordset :=
  (record_queue_count r <? record_queue_size r,
   set_count (usize_incr (record_queue_count r)) r).

Definition count_down (r : Recordset) : unit * Recordset :=
  (tt, set_count (usize_decr (record_queue_count r)) r).

Definition queue_push (record : item) (r : Recordset) : unit * Recordset :=
  (tt, set_queue (record_queue r ++ [record]) r).

Definition queue_pop (r : Recordset) : option item * Recordset :=
  match record_queue r with
  | x :: q => (Some x, set_queue q r)
  | [] => (None, r)
  end.

(** The record comes back when the queue is full. *)
Definition push (record : item) : method (option item) :=
  Access _ enter (fun room =>
    if room : bool then Access _ (queue_push record) (fun _ => Done None)
    else Access _ count_down (fun _ => Done (Some record))).

Definition task_id (r : Recordset) : Z := as_u64 (task_id_ r).

Definition signal_end : method unit :=
  Access _ (fun r => (instances r, set_instances (usize_decr (instances r)) r)) (fun old =>
    if old =? 1 then Access _ (fun r => (tt, close r)) Done else Done tt).

(** [pop], and the item it finds, or another turn. *)
Definition next_pop : method (option item + unit) :=
  Access _ queue_pop (fun result =>
    match result with
    | Some x => Access _ count_down (fun _ => Done (inl (Some x)))
    | None => Done (inr tt)
    end).

(** One turn of the loop of [next]: [inl] is the item returned ([None] at the
    end), [inr] another turn. *)
Definition next_turn : method (option item + unit) :=
  Access _ (fun r => (is_active r, r)) (fun a =>
    if a : bool then next_pop
    else Access _ (fun r => (bool_decide (record_queue r = []), r)) (fun empty =>
      if empty : bool then Done (inl None) else next_pop)).

End Recordset.

Abbreviation Recordset := Recordset.Recordset.
