(* ===== verification/Streams.v ===== *)
(** * Streamed and batched responses

    [StreamCommand] ([src/commands/stream_command.rs]), which scans and queries
    share, and the parsing half of [BatchReadCommand]
    ([src/commands/batch_read_command.rs]).  A response is a sequence of groups
    of records; a stream command pushes the records on a [Recordset] that other
    threads use at the same time. *)

From stdpp Require Import base list strings gmap.
From Stdlib Require Import ZArith Lia.
From S2P Require Import Prelude ResultCodes Monad ByteOrder Slices Wire Buffer.
From S2P Require Import Values Decoder Encoder Expressions Operations Policy Records.
From S2P Require Import Connection Commands Responses Recordset.

(** [_INFO3_PARTITION_DONE]. *)
Definition INFO3_PARTITION_DONE : Z := Z.shiftl 1 2.

(** What the other threads do to a shared object between two accesses of this
    one: before its [n]th access, the object is transformed by [interfere n]. *)
Class Interference := { interfere : nat -> Recordset -> Recordset }.

(** Nobody else uses the record set. *)
Definition alone : Interference := {| interfere := fun _ r => r |}.

(** [digest.copy_from_slice]: the lengths must agree. *)
Definition copy_digest {S} (bs : bytes) : M S bytes :=
  if len bs =? 20 then ret bs else panic.

Section Stream.
Context `{BO : ByteOrder} `{VF : ValueFmt} `{CL : Clock}.

Abbreviation lift := Connection.lift.

(** The head of an operation, and its value, each read into the buffer when
    it is needed. *)
Definition stream_op (bins : gmap bytes Value) : M Connection (gmap bytes Value) :=
  Connection.read_buffer 8 ;;;
  let! op_size := lift (read_u32 None) in
  lift (skip 1) ;;;
  let! particle_type := lift (read_u8 None) in
  lift (skip 1) ;;;
  let! name_size := lift (read_u8 None) in
  Connection.read_buffer name_size ;;;
  let! name := lift (read_str name_size) in
  let! particle_bytes_size := usize_sub op_size (4 + name_size) in
  Connection.read_buffer particle_bytes_size ;;;
  let! value := lift (read_particle particle_type particle_bytes_size) in
  ret (<[name := value]> bins).

(** What a field says of the key; an unknown field is [unreachable!()]. *)
Definition key_field_value (k : Key) (field_len field_type : Z) : M Connection Key :=
  if field_type =? FieldType.to_u8 FieldType.DigestRipe then
    let! n := usize_sub field_len 1 in
    let! s := lift (read_slice n) in
    let! d := copy_digest s in
    ret (mkKey (namespace k) (set_name k) (user_key k) d)
  else if field_type =? FieldType.to_u8 FieldType.Namespace then
    let! n := usize_sub field_len 1 in
    let! s := lift (read_str n) in
    ret (mkKey s (set_name k) (user_key k) (digest k))
  else if field_type =? FieldType.to_u8 FieldType.Table then
    let! n := usize_sub field_len 1 in
    let! s := lift (read_str n) in
    ret (mkKey (namespace k) s (user_key k) (digest k))
  else if field_type =? FieldType.to_u8 FieldType.Key then
    let! particle_type := lift (read_u8 None) in
    let! particle_bytes_size := usize_sub field_len 2 in
    let! v := lift (read_particle particle_type particle_bytes_size) in
    ret (mkKey (namespace k) (set_name k) (Some v) (digest k))
  else panic.

Definition key_field (k : Key) : M Connection Key :=
  Connection.read_buffer 4 ;;;
  let! field_len := lift (read_u32 None) in
  Connection.read_buffer field_len ;;;
  let! field_type := lift (read_u8 None) in
  key_field_value k field_len field_type.

Definition parse_key (field_count : nat) : M Connection Key :=
  for_range field_count key_field (mkKey [] [] None (replicate 20 0)).

(** The numbers of a record header after its flags. *)
Definition record_numbers : M Connection (Z * Z * Z * Z * Z) :=
  lift (skip 6) ;;;
  let! generation := lift (read_u32 None) in
  let! expiration := lift (read_u32 None) in
  let! index := lift (read_u32 None) in
  let! field_count := lift (read_u16 None) in
  let! op_count := lift (read_u16 None) in
  ret (generation, expiration, index, field_count, op_count).

(** [StreamCommand::parse_record]; the four bytes it skips are the ones the
    batch command reads as an index. *)
Definition stream_parse_record (size : Z) : M Connection (option Record_ * bool) :=
  let! code := lift (read_u8 (Some 5)) in
  let result_code := ResultCode.from_u8 code in
  if bool_decide (result_code <> ResultCode.Ok) then
    let! c := get in
    when (Connection.bytes_read c <? size)
      (Connection.read_buffer (size - Connection.bytes_read c)) ;;;
    if bool_decide (result_code = ResultCode.KeyNotFoundError)
    then ret (None, false) else throw (ServerError result_code)
  else
    let! info3 := lift (read_u8 (Some 3)) in
    if Z.land info3 INFO3_LAST =? INFO3_LAST then ret (None, false)
    else
      let! (generation, expiration, _, field_count, op_count) := record_numbers in
      let! key := parse_key (Z.to_nat field_count) in
      if negb (Z.land info3 INFO3_PARTITION_DONE =? 0) then ret (None, true)
      else
        let! bins := for_range (Z.to_nat op_count) stream_op empty in
        ret (Some (Record.new (Some key) bins generation expiration), true).

End Stream.

Module StreamCommand.

(** [struct StreamCommand], but for the node, with the count of its accesses
    to the shared record set. *)
Record StreamCommand : Type := mkStreamCommand {
  recordset : Recordset;
  accesses : nat
}.

(** [StreamCommand::new]. *)
Definition new (r : Recordset) : StreamCommand := mkStreamCommand r 0.

Section Stream.
Context `{BO : ByteOrder} `{VF : ValueFmt} `{CL : Clock} `{IN : Interference}.

(** An access to the record set, after what the other threads did. *)
Definition access {A} (f : Recordset -> A * Recordset) : M StreamCommand A :=
  fun s =>
    let '(a, r) := f (interfere (accesses s) (recordset s)) in
    Ret a (mkStreamCommand r (S (accesses s))).

(** A method of the record set; the others may come before each of its accesses. *)
Fixpoint perform {A} (m : Recordset.method A) : M StreamCommand A :=
  match m with
  | Recordset.Done a => ret a
  | Recordset.Access _ f next => let! b := access f in perform (next b)
  end.

Definition is_active : M StreamCommand bool :=
  access (fun r => (Recordset.is_active r, r)).

(** The loop around [push]: the record is pushed again until there is room. *)
Fixpoint push_record (fuel : nat) (rec : Record_) : M StreamCommand unit :=
  match fuel with
  | O => no_fuel
  | Datatypes.S fuel' =>
      let! result := perform (Recordset.push (inl rec)) in
      match result with
      | None => ret tt
      | Some (inl returned) => push_record fuel' returned
      | Some (inr e) => throw e
      end
  end.

(** [parse_stream]: the [while] loop, then the result. *)
Fixpoint parse_stream (fuel : nat) (size : Z) : M (StreamCommand * Connection) bool :=
  match fuel with
  | O => no_fuel
  | Datatypes.S fuel' =>
      let! a := on_fst is_active in
      let! c := on_snd get in
      if a && (Connection.bytes_read c <? size) then
        on_snd (Connection.read_buffer MSG_REMAINING_HEADER_SIZE) ;;;
        let! res := on_snd (catch (stream_parse_record size)) in
        match res with
        | inl (Some rec, _) =>
            on_fst (push_record fuel' rec) ;;; parse_stream fuel' size
        | inl (None, false) => ret false
        | inl (None, true) => parse_stream fuel' size
        | inr err =>
            on_fst (perform (Recordset.push (inr err))) ;;; ret false
        end
      else ret true
  end.

(** [StreamCommand::parse_result]. *)
Fixpoint parse_result (fuel : nat) : M (StreamCommand * Connection) unit :=
  match fuel with
  | O => no_fuel
  | Datatypes.S fuel' =>
      on_snd (Connection.read_buffer 8) ;;;
      let! size := on_snd (Connection.lift (read_msg_size None)) in
      on_snd Connection.bookmark ;;;
      let! status := if 0 <? size then parse_stream fuel' size else ret false in
      if status then parse_result fuel' else ret tt
  end.

(** [Drop for StreamCommand]. *)
Definition drop : M StreamCommand unit := perform Recordset.signal_end.

End Stream.

End StreamCommand.

Abbreviation StreamCommand := StreamCommand.StreamCommand.

Module BatchReadCommand.

(** [struct BatchReadCommand], but for the node. *)
Record BatchReadCommand : Type := mkBatchReadCommand {
  policy : BatchPolicy;
  batch_reads : list BatchRead;
  offsets : list Z
}.

(** [struct BatchRecord]. *)
Record BatchRecord : Type := mkBatchRecord {
  batch_index : Z;
  record : option Record_
}.

(** [batch_reads.get_mut(i).expect(..).record = r]. *)
Definition set_record (i : Z) (r : option Record_) : M BatchReadCommand unit :=
  fun cmd =>
    match batch_reads cmd !! Z.to_nat i with
    | Some br =>
        Ret tt (mkBatchReadCommand (policy cmd)
                  (<[Z.to_nat i := mkBatchRead (br_key br) (br_bins br) r]>
                     (batch_reads cmd))
                  (offsets cmd))
    | None => Panic
    end.

Section Batch.
Context `{BO : ByteOrder} `{VF : ValueFmt} `{CL : Clock}.

Abbreviation lift := Connection.lift.

Definition parse_record : M Connection (option BatchRecord) :=
  let! code := lift (read_u8 (Some 5)) in
  let! found_key :=
    match ResultCode.from_u8 code with
    | ResultCode.Ok => ret true
    | ResultCode.KeyNotFoundError => ret false
    | rc => throw (ServerError rc)
    end in
  let! info3 := lift (read_u8 (Some 3)) in
  if Z.land info3 INFO3_LAST =? INFO3_LAST then ret None
  else
    let! (generation, expiration, batch_index, field_count, op_count) :=
      record_numbers in
    let! key := parse_key (Z.to_nat field_count) in
    let! record :=
      if found_key : bool then
        let! bins := for_range (Z.to_nat op_count) stream_op empty in
        ret (Some (Record.new (Some key) bins generation expiration))
      else ret None in
    ret (Some (mkBatchRecord batch_index record)).

Fixpoint parse_group (fuel : nat) (size : Z)
    : M (BatchReadCommand * Connection) bool :=
  match fuel with
  | O => no_fuel
  | Datatypes.S fuel' =>
      let! c := on_snd get in
      if Connection.bytes_read c <? size then
        on_snd (Connection.read_buffer MSG_REMAINING_HEADER_SIZE) ;;;
        let! r := on_snd parse_record in
        match r with
        | None => ret false
        | Some batch_record =>
            on_fst (set_record (batch_index batch_record) (record batch_record)) ;;;
            parse_group fuel' size
        end
      else ret true
  end.

Fixpoint parse_result (fuel : nat) : M (BatchReadCommand * Connection) unit :=
  match fuel with
  | O => no_fuel
  | Datatypes.S fuel' =>
      on_snd (Connection.read_buffer 8) ;;;
      let! size := on_snd (lift (read_msg_size None)) in
      on_snd Connection.bookmark ;;;
      let! more := if 0 <? size then parse_group fuel' size else ret true in
      if more then parse_result fuel' else ret tt
  end.

End Batch.

End BatchReadCommand.

Abbreviation BatchReadCommand := BatchReadCommand.BatchReadCommand.
