(* ===== verification/ConnectionFacts.v ===== *)
(** * Reasoning about connections

    What a parser does to a connection is described on views: the buffer cut
    at its cursor, the bytes the peer has still to send, the count of bytes
    read.  [runs m w r w'] says that [m] ends with [r] and turns every
    connection of view [w] into one of view [w'], having sent nothing. *)

From stdpp Require Import base list strings.
From Stdlib Require Import ZArith Lia Setoid Morphisms.
From S2P Require Import Prelude ResultCodes Monad ByteOrder Slices.
From S2P Require Import Buffer BufferFacts Connection.
Import Connection.

(** Reads that may rely on the buffer fitting in memory. *)
Definition takes {A} (m : M Buffer A) (bs : bytes) (v : A) : Prop :=
  forall pre post rt,
    len (pre ++ bs ++ post) <= MAX_BUFFER_SIZE ->
    m (at_cursor pre (bs ++ post) rt) = Ret v (at_cursor (pre ++ bs) post rt).

Lemma reads_takes {A} (m : M Buffer A) bs v : reads m bs v -> takes m bs v.
Proof. intros H pre post rt _. apply H. Qed.

Lemma takes_eq {A} (m : M Buffer A) bs bs' v v' :
  takes m bs v -> bs = bs' -> v = v' -> takes m bs' v'.
Proof. intros H <- <-. exact H. Qed.

Lemma takes_bind {A B} (m : M Buffer A) (k : A -> M Buffer B) bs1 bs2 v w :
  takes m bs1 v -> takes (k v) bs2 w -> takes (bind m k) (bs1 ++ bs2) w.
Proof.
  intros H1 H2 pre post rt Hl. unfold bind.
  rewrite <- (assoc_L (++)), H1.
  - rewrite H2, (assoc_L (++)); [reflexivity|]. rewrite !len_app in *. lia.
  - rewrite !len_app in *. lia.
Qed.

Lemma takes_ret {A} (v : A) : takes (ret v) [] v.
Proof. apply reads_takes, reads_ret. Qed.

(** A pure step before a read. *)
Lemma takes_pure {A B} (a : A) (m : M Buffer A) (k : A -> M Buffer B) bs w :
  m ≈ ret a -> takes (k a) bs w -> takes (bind m k) bs w.
Proof. intros Hm H pre post rt Hl. unfold bind. rewrite Hm. apply H, Hl. Qed.

Lemma takes_skip bs n : len bs = n -> takes (skip n) bs tt.
Proof.
  intros <- pre post rt Hl. unfold skip, skip_bytes, bind, usize_checked.
  cbn [data_offset at_cursor]. rewrite !len_app in Hl.
  pose proof (len_nonneg post). unfold MAX_BUFFER_SIZE in Hl.
  destruct (Z.ltb_spec (len pre + len bs) (2 ^ 64)); [|lia].
  unfold ret. f_equal. apply (offset_after pre bs post).
Qed.

(** [for _ in 0..n] over the pieces of the input. *)
Lemma takes_for_range {A B} (f : B -> M Buffer B) (g : B -> A -> B)
    (enc : A -> bytes) l acc :
  (forall x acc, x ∈ l -> takes (f acc) (enc x) (g acc x)) ->
  takes (for_range (length l) f acc) (concat (enc <$> l)) (foldl g acc l).
Proof.
  revert acc. induction l as [|x l IH]; intros acc H; cbn.
  - apply takes_ret.
  - eapply takes_bind; [apply H; left|]. apply IH.
    intros y acc' Hy. apply H. right. exact Hy.
Qed.

(** ** Views *)

Record view : Type := View {
  v_buffer : option (bytes * bytes);
  v_incoming : bytes;
  v_read : Z
}.

Definition at_view (c : Connection) (w : view) : Prop :=
  match v_buffer w with
  | Some (pre, rest) =>
      len (pre ++ rest) <= MAX_BUFFER_SIZE /\
      exists rt, buffer c = at_cursor pre rest rt
  | None => True
  end /\
  incoming (conn c) = v_incoming w /\ bytes_read c = v_read w.

(** Nothing was sent and the socket was left open. *)
Definition quiet (c c' : Connection) : Prop :=
  outgoing (conn c') = outgoing (conn c) /\ shut (conn c') = shut (conn c).

Definition ends {S A} (r : A + ErrorKind) (s : S) : outcome S A :=
  match r with inl a => Ret a s | inr e => Throw e s end.

Definition runs {A} (m : M Connection A) (w : view) (r : A + ErrorKind)
    (w' : view) : Prop :=
  forall c, at_view c w ->
  exists c', m c = ends r c' /\ at_view c' w' /\ quiet c c'.

#[export] Instance runs_proper {A} :
  Proper (meq ==> eq ==> eq ==> eq ==> iff) (@runs A).
Proof.
  intros m1 m2 Hm w _ <- r _ <- w' _ <-. unfold runs.
  split; intros H c Hc; [rewrite <- Hm|rewrite Hm]; apply H, Hc.
Qed.

Lemma quiet_refl c : quiet c c.
Proof. split; reflexivity. Qed.

Lemma quiet_trans c1 c2 c3 : quiet c1 c2 -> quiet c2 c3 -> quiet c1 c3.
Proof. intros [H1 H2] [H3 H4]. split; congruence. Qed.

Lemma runs_bind {A B} (m : M Connection A) (k : A -> M Connection B)
    w1 w2 w3 v r :
  runs m w1 (inl v) w2 -> runs (k v) w2 r w3 -> runs (bind m k) w1 r w3.
Proof.
  intros H1 H2 c Hc. destruct (H1 c Hc) as (c1 & E1 & Hc1 & Hq1).
  destruct (H2 c1 Hc1) as (c2 & E2 & Hc2 & Hq2).
  exists c2. unfold bind. rewrite E1. cbn. rewrite E2.
  split; [reflexivity|]. split; [exact Hc2|]. eapply quiet_trans; eassumption.
Qed.

Lemma runs_bind_err {A B} (m : M Connection A) (k : A -> M Connection B)
    w1 w2 e :
  runs m w1 (inr e) w2 -> runs (bind m k) w1 (inr e) w2.
Proof.
  intros H1 c Hc. destruct (H1 c Hc) as (c1 & E1 & Hc1 & Hq1).
  exists c1. unfold bind. rewrite E1. split; [reflexivity|]. split; assumption.
Qed.

Lemma runs_ret {A} (v : A) w : runs (ret v) w (inl v) w.
Proof. intros c Hc. exists c. repeat split; auto; apply Hc. Qed.

Lemma runs_throw {A} e w : runs (throw e : M Connection A) w (inr e) w.
Proof. intros c Hc. exists c. repeat split; auto; apply Hc. Qed.

(** Forgetting the buffer. *)
Lemma runs_forget {A} (m : M Connection A) w r b inc n :
  runs m w r (View b inc n) -> runs m w r (View None inc n).
Proof.
  intros H c Hc. destruct (H c Hc) as (c' & E & Hc' & Hq).
  exists c'. split; [exact E|]. split; [|exact Hq]. split; [exact I|apply Hc'].
Qed.

Lemma runs_any {A} (m : M Connection A) b inc n r w' :
  runs m (View None inc n) r w' -> runs m (View b inc n) r w'.
Proof. intros H c Hc. apply H. split; [exact I|apply Hc]. Qed.

(** *** Buffer steps *)

Lemma runs_takes {A} (m : M Buffer A) pre bs rest inc n v :
  takes m bs v ->
  runs (lift m) (View (Some (pre, bs ++ rest)) inc n) (inl v)
    (View (Some (pre ++ bs, rest)) inc n).
Proof.
  intros H c [(Hl & rt & Hb) [Hi Hn]]. unfold lift. rewrite Hb, H by exact Hl.
  eexists. split; [reflexivity|]. split; [|split; reflexivity].
  repeat split; [|eexists; reflexivity|exact Hi|exact Hn].
  rewrite <- (assoc_L (++)). exact Hl.
Qed.

(** Looking at the buffer without moving the cursor. *)
Lemma runs_look {A} (m : M Buffer A) pre rest inc n v :
  (forall rt, m (at_cursor pre rest rt) = Ret v (at_cursor pre rest rt)) ->
  runs (lift m) (View (Some (pre, rest)) inc n) (inl v)
    (View (Some (pre, rest)) inc n).
Proof.
  intros H c [(Hl & rt & Hb) [Hi Hn]]. unfold lift. rewrite Hb, H.
  eexists. split; [reflexivity|]. split; [|split; reflexivity].
  repeat split; [exact Hl|eexists; reflexivity|exact Hi|exact Hn].
Qed.

Lemma runs_reset_offset pre rest inc n :
  runs (lift reset_offset) (View (Some (pre, rest)) inc n) (inl tt)
    (View (Some ([], pre ++ rest)) inc n).
Proof.
  intros c [(Hl & rt & Hb) [Hi Hn]]. unfold lift. rewrite Hb.
  eexists. split; [reflexivity|]. split; [|split; reflexivity].
  repeat split; [exact Hl|eexists; reflexivity|exact Hi|exact Hn].
Qed.

(** *** The socket *)

Section Clocked.
Context `{CL : Clock}.

Lemma refresh_spec c :
  exists c', refresh c = Ret tt c' /\ conn c' = conn c /\
    buffer c' = buffer c /\ bytes_read c' = bytes_read c.
Proof.
  unfold refresh, modify, bind, get. cbn.
  destruct (idle_timeout c); cbn; eexists; repeat split.
Qed.

Lemma bind_modify {A} f (k : unit -> M Connection A) c :
  bind (modify f) k c = k tt (f c).
Proof. reflexivity. Qed.

(** [read_buffer] fills the buffer with the next bytes of the stream. *)
Lemma runs_read_buffer b bs inc n k :
  len bs = k -> k <= MAX_BUFFER_SIZE ->
  runs (read_buffer k) (View b (bs ++ inc) n) (inl tt)
    (View (Some ([], bs)) inc (n + k)).
Proof.
  intros <- Hmax c [_ [Hi Hn]]. cbn in Hi, Hn.
  pose proof (len_nonneg bs) as H0.
  unfold read_buffer, lift, resize_buffer, bind at 1.
  rewrite Z.gtb_ltb. destruct (Z.ltb_spec MAX_BUFFER_SIZE (len bs)); [lia|].
  unfold fill_buffer, bind at 1. cbn [buffer set_buffer data_buffer set_data conn].
  rewrite (len_vec_resize (len bs)) by exact H0. unfold read_exact. rewrite Hi.
  rewrite len_app. pose proof (len_nonneg inc).
  destruct (Z.leb_spec (len bs) (len bs + len inc)); [|lia].
  assert (Z.to_nat (len bs) = length bs) as -> by (unfold len; apply Nat2Z.id).
  rewrite (take_app_length bs), (drop_app_length bs).
  rewrite bind_modify. unfold bind, reset_offset. cbv beta iota.
  match goal with |- context [refresh ?c1] =>
    destruct (refresh_spec c1) as (c' & -> & Hc & Hb & Hr) end.
  exists c'. split; [reflexivity|]. split.
  - split; cbn.
    + split; [lia|]. exists (reclaim_threshold (buffer c)). rewrite Hb. cbn.
      unfold at_cursor. cbn. f_equal. unfold splice.
      cbn. rewrite drop_ge, app_nil_r; [reflexivity|].
      pose proof (len_vec_resize (len bs) (data_buffer (buffer c)) H0) as Hv.
      unfold len in *. lia.
    + rewrite Hc, Hr. cbn. rewrite Hn. split; reflexivity.
  - split; rewrite Hc; reflexivity.
Qed.

(** The stream ends first. *)
Lemma runs_read_buffer_eof b inc n k :
  len inc < k -> k <= MAX_BUFFER_SIZE ->
  runs (read_buffer k) (View b inc n) (inr Io) (View None [] n).
Proof.
  intros Hk Hmax c [_ [Hi Hn]]. cbn in Hi, Hn. pose proof (len_nonneg inc).
  unfold read_buffer, lift, resize_buffer, bind at 1.
  rewrite Z.gtb_ltb. destruct (Z.ltb_spec MAX_BUFFER_SIZE k); [lia|].
  unfold fill_buffer, bind at 1. cbn [buffer set_buffer data_buffer set_data conn].
  rewrite len_vec_resize by lia. unfold read_exact. rewrite Hi.
  destruct (Z.leb_spec k (len inc)); [lia|].
  eexists. split; [reflexivity|]. split; [|split; reflexivity].
  split; [exact I|]. cbn. split; [|exact Hn]. apply drop_ge. unfold len in *. lia.
Qed.

(** More than a buffer holds. *)
Lemma runs_read_buffer_big b inc n k :
  MAX_BUFFER_SIZE < k ->
  runs (read_buffer k) (View b inc n) (inr (Msg "Invalid size for buffer: {}"))
    (View b inc n).
Proof.
  intros Hk c Hc. unfold read_buffer, lift, resize_buffer, bind at 1.
  rewrite Z.gtb_ltb. destruct (Z.ltb_spec MAX_BUFFER_SIZE k); [|lia].
  eexists. split; [reflexivity|]. split; [|split; reflexivity].
  destruct Hc as [Hb Hc]. split; [|exact Hc].
  exact Hb.
Qed.

End Clocked.

(** ** Commands

    A command is a pair of its state and a connection. *)

Definition drives {C A} (m : M (C * Connection) A) (x : C) (w : view)
    (r : A + ErrorKind) (x' : C) (w' : view) : Prop :=
  forall c, at_view c w ->
  exists c', m (x, c) = ends r (x', c') /\ at_view c' w' /\ quiet c c'.

Lemma drives_bind {C A B} (m : M (C * Connection) A) (k : A -> M (C * Connection) B)
    x1 w1 x2 w2 x3 w3 v r :
  drives m x1 w1 (inl v) x2 w2 -> drives (k v) x2 w2 r x3 w3 ->
  drives (bind m k) x1 w1 r x3 w3.
Proof.
  intros H1 H2 c Hc. destruct (H1 c Hc) as (c1 & E1 & Hc1 & Hq1).
  destruct (H2 c1 Hc1) as (c2 & E2 & Hc2 & Hq2).
  exists c2. unfold bind. rewrite E1. cbn. rewrite E2.
  split; [reflexivity|]. split; [exact Hc2|]. eapply quiet_trans; eassumption.
Qed.

Lemma drives_bind_err {C A B} (m : M (C * Connection) A)
    (k : A -> M (C * Connection) B) x1 w1 x2 w2 e :
  drives m x1 w1 (inr e) x2 w2 -> drives (bind m k) x1 w1 (inr e) x2 w2.
Proof.
  intros H1 c Hc. destruct (H1 c Hc) as (c1 & E1 & Hc1 & Hq1).
  exists c1. unfold bind. rewrite E1. split; [reflexivity|]. split; assumption.
Qed.

Lemma drives_conn {C A} (m : M Connection A) (x : C) w r w' :
  runs m w r w' -> drives (on_snd m) x w r x w'.
Proof.
  intros H c Hc. destruct (H c Hc) as (c' & E & Hc' & Hq).
  exists c'. unfold on_snd. cbn. rewrite E. split; [destruct r; reflexivity|].
  split; assumption.
Qed.

Lemma drives_self {C A} (m : M C A) (x x' : C) v w :
  m x = Ret v x' -> drives (on_fst m) x w (inl v) x' w.
Proof.
  intros H c Hc. exists c. unfold on_fst. cbn. rewrite H.
  split; [reflexivity|]. split; [exact Hc|split; reflexivity].
Qed.

Lemma drives_ret {C A} (v : A) (x : C) w : drives (ret v) x w (inl v) x w.
Proof. intros c Hc. exists c. repeat split; auto; apply Hc. Qed.

Lemma drives_throw {C A} e (x : C) w :
  drives (throw e : M (C * Connection) A) x w (inr e) x w.
Proof. intros c Hc. exists c. repeat split; auto; apply Hc. Qed.
