(* ===== verification/ResponseFacts.v ===== *)
(** * Responses: what the parsers accept

    A reference encoding of responses, and what [parse_result] of each command
    makes of them: the record it returns, the error it raises, and where it
    leaves the stream. *)

From stdpp Require Import base list strings gmap.
From Stdlib Require Import ZArith Lia Setoid Morphisms.
From S2P Require Import Prelude ResultCodes Monad ByteOrder Slices Text Wire.
From S2P Require Import Buffer BufferFacts Values Encoder Decoder RoundTrip Particle.
From S2P Require Import Expressions Policy Records Connection Commands Responses.
From S2P Require Import ConnectionFacts.
Import Connection.

Section Encoding.
Context `{BO : ByteOrder}.

(** ** The reference encoding *)

(** The protocol header: version, type, and the size of the rest in six
    bytes. *)
Definition proto (version type size : Z) : bytes :=
  [version; type] ++ write_be 6 size.

(** The message header of a response. *)
Record Header : Type := mkHeader {
  h_info1 : Z;
  h_info2 : Z;
  h_info3 : Z;
  h_unused : Z;
  h_result : Z;
  h_generation : Z;
  h_expiration : Z;
  h_ttl : Z;
  h_fields : Z;
  h_ops : Z
}.

Definition header_bytes (h : Header) : bytes :=
  [22; h_info1 h; h_info2 h; h_info3 h; h_unused h; h_result h] ++
  write_be 4 (h_generation h) ++ write_be 4 (h_expiration h) ++
  write_be 4 (h_ttl h) ++ write_be 2 (h_fields h) ++ write_be 2 (h_ops h).

Definition header_ok (h : Header) : Prop :=
  in_u 32 (h_generation h) /\ in_u 32 (h_expiration h) /\ in_u 32 (h_ttl h) /\
  in_u 16 (h_fields h) /\ in_u 16 (h_ops h).

(** A whole response whose payload is [body]. *)
Definition response (version type : Z) (h : Header) (body : bytes) : bytes :=
  proto version type (22 + len body) ++ header_bytes h ++ body.

(** A bin of a response: the operation it answers, its name and value. *)
Record ResponseBin : Type := mkResponseBin {
  rb_op : Z;
  rb_name : bytes;
  rb_value : Value
}.

Definition bin_payload (b : ResponseBin) : bytes :=
  default [] (particle_bytes (rb_value b)).

Definition bin_type (b : ResponseBin) : Z :=
  ParticleType.to_u8 (default ParticleType.NULL (Value.particle_type (rb_value b))).

Definition bin_size (b : ResponseBin) : Z := 4 + len (rb_name b) + len (bin_payload b).

Definition bin_bytes (b : ResponseBin) : bytes :=
  write_be 4 (bin_size b) ++ [rb_op b] ++ [bin_type b] ++ [0] ++
  [len (rb_name b)] ++ rb_name b ++ bin_payload b.

Definition bin_ok (b : ResponseBin) : bool :=
  utf8_valid (rb_name b) && (len (rb_name b) <? 256) &&
  encodable (rb_value b) && supported_bin (rb_value b) &&
  (len (bin_payload b) <=? MAX_BUFFER_SIZE).

Lemma len_proto v t s : len (proto v t s) = 8.
Proof. unfold proto. rewrite len_app, len_write_be. reflexivity. Qed.

Lemma len_header_bytes h : len (header_bytes h) = 22.
Proof. unfold header_bytes. rewrite !len_app, !len_write_be. reflexivity. Qed.

(** ** The protocol header *)

Lemma proto_value v t s :
  in_u 48 s -> read_be (proto v t s) mod 2 ^ 48 = s.
Proof.
  intros Hs. unfold proto. cbn [app]. rewrite !read_be_cons, read_write_be by exact Hs.
  rewrite len_cons, len_write_be.
  replace (v * 2 ^ (8 * (1 + Z.of_nat 6)) + (t * 2 ^ (8 * Z.of_nat 6) + s))
    with (s + (v * 2 ^ 8 + t) * 2 ^ 48) by (cbn; lia).
  rewrite Z_mod_plus_full. apply Z.mod_small, Hs.
Qed.

Lemma proto_size_value v t s :
  in_u 48 s -> Z.land (read_be (proto v t s)) 0xFFFFFFFFFFFF = s.
Proof.
  intros Hs. change 0xFFFFFFFFFFFF with (Z.ones 48). rewrite land_mask by lia.
  apply proto_value, Hs.
Qed.

(** The size is the same when the header is read as an [i64]. *)
Lemma proto_size_signed v t s :
  in_u 48 s -> Z.land (as_i64 (read_be (proto v t s))) 0xFFFFFFFFFFFF = s.
Proof.
  intros Hs. change 0xFFFFFFFFFFFF with (Z.ones 48). rewrite land_mask by lia.
  unfold as_i64, wrap_i. rewrite Zminus_mod.
  replace (2 ^ 64) with (2 ^ 48 * 2 ^ 16) by reflexivity.
  rewrite Z.rem_mul_r by lia.
  rewrite (Z.mul_comm (2 ^ 48)), Z_mod_plus_full, Z.mod_mod by lia.
  rewrite <- Zminus_mod. rewrite Z.add_simpl_r. apply proto_value, Hs.
Qed.

End Encoding.

(** ** Reading at a position *)

Section Positions.
Context `{BO : ByteOrder}.

Lemma read_at_look n p l1 bs l2 pre rest rt :
  pre ++ rest = l1 ++ bs ++ l2 -> len l1 = p -> len bs = n ->
  read_at n (Some p) (at_cursor pre rest rt) = Ret bs (at_cursor pre rest rt).
Proof.
  intros E <- <-. unfold read_at, at_cursor. cbn. rewrite E.
  rewrite slice_app by reflexivity. reflexivity.
Qed.

Lemma read_u8_look p l1 b l2 pre rest rt :
  pre ++ rest = l1 ++ b :: l2 -> len l1 = p ->
  read_u8 (Some p) (at_cursor pre rest rt) = Ret b (at_cursor pre rest rt).
Proof.
  intros E <-. unfold read_u8, at_cursor. cbn. rewrite E, index_app. reflexivity.
Qed.

Lemma read_u16_look p l1 v l2 pre rest rt :
  pre ++ rest = l1 ++ write_be 2 v ++ l2 -> len l1 = p -> in_u 16 v ->
  read_u16 (Some p) (at_cursor pre rest rt) = Ret v (at_cursor pre rest rt).
Proof.
  intros E Hp Hv. unfold read_u16, bind.
  rewrite (read_at_look _ _ _ _ _ _ _ _ E Hp) by apply len_write_be.
  unfold ret. rewrite read_write_be by exact Hv. reflexivity.
Qed.

Lemma read_u32_look p l1 v l2 pre rest rt :
  pre ++ rest = l1 ++ write_be 4 v ++ l2 -> len l1 = p -> in_u 32 v ->
  read_u32 (Some p) (at_cursor pre rest rt) = Ret v (at_cursor pre rest rt).
Proof.
  intros E Hp Hv. unfold read_u32, bind.
  rewrite (read_at_look _ _ _ _ _ _ _ _ E Hp) by apply len_write_be.
  unfold ret. rewrite read_write_be by exact Hv. reflexivity.
Qed.

End Positions.

(** ** Bins *)

Section Bins.
Context `{BO : ByteOrder} `{VF : ValueFmt}.

Lemma read_particle_takes v :
  encodable v = true -> supported_bin v = true ->
  takes (read_particle (ParticleType.to_u8
                          (default ParticleType.NULL (Value.particle_type v)))
           (len (default [] (particle_bytes v))))
    (default [] (particle_bytes v)) (norm_bin v).
Proof.
  intros He Hs pre post rt Hl.
  destruct (supported_bytes v He Hs) as [bs Hb]. rewrite Hb in *. cbn in Hl |- *.
  assert (exists t, Value.particle_type v = Some t) as [t Ht]
    by (destruct v; try discriminate Hs; eexists; reflexivity).
  rewrite Ht. cbn. unfold read_particle.
  set (f := S (length (data_buffer (at_cursor pre (bs ++ post) rt)))).
  assert (length bs < f)%nat as Hf
    by (subst f; unfold at_cursor; cbn; rewrite !length_app; lia).
  destruct (decide (t = ParticleType.GEOJSON)) as [->|Hg].
  - destruct v; try discriminate. apply (inj Some) in Hb as <-.
    apply andb_true_iff in He as [Hu _].
    apply geo_particle; [exact Hu|]. unfold MAX_BUFFER_SIZE in Hl. lia.
  - apply particle_reads; assumption.
Qed.

Lemma bin_size_range b : bin_ok b = true -> in_u 32 (bin_size b).
Proof.
  unfold bin_ok, bin_size. rewrite !andb_true_iff, Z.ltb_lt, Z.leb_le.
  intros [[[[_ Hn] _] _] Hp]. pose proof (len_nonneg (rb_name b)).
  pose proof (len_nonneg (bin_payload b)). unfold MAX_BUFFER_SIZE in Hp. range_lia.
Qed.

(** What one operation of the response adds to the bins. *)
Definition add_bin (m : gmap bytes Value) (b : ResponseBin) : gmap bytes Value :=
  let v := norm_bin (rb_value b) in
  if Value.is_nil v then m else ReadCommand.insert_bin m (rb_name b) v.

Lemma read_op_takes m b :
  bin_ok b = true -> takes (ReadCommand.read_op m) (bin_bytes b) (add_bin m b).
Proof.
  intros Hok. pose proof (bin_size_range b Hok) as Hsize. revert Hok.
  unfold bin_ok. rewrite !andb_true_iff, Z.ltb_lt.
  intros [[[[Hu Hn] He] Hs] _]. unfold ReadCommand.read_op, bin_bytes.
  eapply takes_bind; [apply reads_takes, read_u32_reads, Hsize|].
  eapply takes_bind; [apply takes_skip; reflexivity|].
  eapply takes_bind; [apply reads_takes, read_u8_reads|].
  eapply takes_bind; [apply takes_skip; reflexivity|].
  eapply takes_bind; [apply reads_takes, read_u8_reads|].
  eapply takes_bind; [apply reads_takes, read_str_reads; auto|].
  assert (bin_size b - (4 + len (rb_name b)) = len (bin_payload b)) as Hd
    by (unfold bin_size; lia).
  pose proof (len_nonneg (bin_payload b)).
  apply (takes_pure (len (bin_payload b))).
  { unfold usize_sub. decide_tests. rewrite Hd. reflexivity. }
  eapply takes_eq; [|apply app_nil_r|reflexivity].
  eapply takes_bind; [|apply takes_ret].
  apply read_particle_takes; assumption.
Qed.

Lemma parse_record_takes bs g e :
  forallb bin_ok bs = true ->
  takes (ReadCommand.parse_record (length bs) 0 g e) (concat (bin_bytes <$> bs))
    (Record.new None (foldl add_bin empty bs) g e).
Proof.
  intros Hok. unfold ReadCommand.parse_record. cbn [for_range].
  eapply takes_pure; [reflexivity|].
  eapply takes_eq; [|apply app_nil_r|reflexivity].
  eapply takes_bind; [|apply takes_ret].
  apply takes_for_range. intros b m Hb. apply read_op_takes.
  rewrite forallb_forall in Hok. apply Hok, list_elem_of_In, Hb.
Qed.

End Bins.

(** ** Whole messages *)

Section Messages.
Context `{BO : ByteOrder} `{VF : ValueFmt} `{CL : Clock}.

(** Normalises the nesting of concatenations. *)
Ltac layout :=
  unfold proto, header_bytes; rewrite <- ?(assoc_L (++)); cbn [app];
  rewrite <- ?(assoc_L (++)); cbn [app]; reflexivity.

Lemma read_header_runs b v t size h rest n :
  runs read_header (View b (proto v t size ++ header_bytes h ++ rest) n) (inl tt)
    (View (Some ([], proto v t size ++ header_bytes h)) rest (n + 30)).
Proof.
  unfold read_header. rewrite (assoc_L (++)). eapply runs_bind.
  - apply (runs_read_buffer b (proto v t size ++ header_bytes h)).
    + rewrite len_app, len_proto, len_header_bytes. reflexivity.
    + unfold MAX_BUFFER_SIZE, MSG_TOTAL_HEADER_SIZE. lia.
  - apply (runs_reset_offset []).
Qed.

Lemma header_result_runs v t size h rest n :
  runs header_result_code (View (Some ([], proto v t size ++ header_bytes h)) rest n)
    (inl (ResultCode.from_u8 (h_result h)))
    (View (Some ([], proto v t size ++ header_bytes h)) rest n).
Proof.
  unfold header_result_code. eapply runs_bind; [|apply runs_ret].
  apply runs_look. intros rt.
  eapply (read_u8_look _ (proto v t size ++ take 5 (header_bytes h))); [layout|].
  unfold header_bytes. cbn [app take]. rewrite len_app, len_proto. reflexivity.
Qed.

(** The rest of a message, when it has one. *)
Lemma read_rest_runs p r body rest n :
  len (p ++ r) <= MAX_BUFFER_SIZE -> len body <= MAX_BUFFER_SIZE ->
  exists p' r',
    runs (when (0 <? len body) (read_buffer (len body)))
      (View (Some (p, r)) (body ++ rest) n) (inl tt)
      (View (Some (p', body ++ r')) rest (n + len body)).
Proof.
  intros Hp Hb. destruct body as [|x body].
  - exists p, r. cbn. rewrite Z.add_0_r. apply runs_ret.
  - exists [], []. rewrite app_nil_r. pose proof (len_nonneg body).
    rewrite len_cons in *. decide_tests. cbn [when]. rewrite <- (len_cons x).
    apply runs_read_buffer; [reflexivity|]. rewrite len_cons. exact Hb.
Qed.

(** Looking at the header just read. *)
Lemma look_step {A B} (m : M Buffer A) x (f : A -> M Connection B) p r inc n y w' :
  (forall rt, m (at_cursor p r rt) = Ret x (at_cursor p r rt)) ->
  runs (f x) (View (Some (p, r)) inc n) y w' ->
  runs (bind (lift m) f) (View (Some (p, r)) inc n) y w'.
Proof. intros Hm Hk. eapply runs_bind; [apply runs_look, Hm|exact Hk]. Qed.

Lemma header_numbers v t size h rt :
  header_ok h ->
  let b := at_cursor [] (proto v t size ++ header_bytes h) rt in
  read_u32 (Some 14) b = Ret (h_generation h) b /\
  read_u32 (Some 18) b = Ret (h_expiration h) b /\
  read_u16 (Some 26) b = Ret (h_fields h) b /\
  read_u16 (Some 28) b = Ret (h_ops h) b.
Proof.
  intros (Hg & He & Ht & Hf & Ho) b. subst b.
  set (p6 := proto v t size ++ take 6 (header_bytes h)).
  assert (len p6 = 14) as Hp
    by (subst p6; rewrite len_app, len_proto; reflexivity).
  repeat split.
  - apply (read_u32_look _ p6 _ (write_be 4 (h_expiration h) ++
      write_be 4 (h_ttl h) ++ write_be 2 (h_fields h) ++ write_be 2 (h_ops h)));
      [subst p6; layout|exact Hp|exact Hg].
  - apply (read_u32_look _ (p6 ++ write_be 4 (h_generation h)) _
      (write_be 4 (h_ttl h) ++ write_be 2 (h_fields h) ++ write_be 2 (h_ops h)));
      [subst p6; layout| |exact He].
    rewrite !len_app, Hp, len_write_be. reflexivity.
  - apply (read_u16_look _ (p6 ++ write_be 4 (h_generation h) ++
      write_be 4 (h_expiration h) ++ write_be 4 (h_ttl h)) _ (write_be 2 (h_ops h)));
      [subst p6; layout| |exact Hf].
    rewrite !len_app, Hp, !len_write_be. reflexivity.
  - apply (read_u16_look _ (p6 ++ write_be 4 (h_generation h) ++
      write_be 4 (h_expiration h) ++ write_be 4 (h_ttl h) ++
      write_be 2 (h_fields h)) _ []);
      [subst p6; rewrite app_nil_r; layout| |exact Ho].
    rewrite !len_app, Hp, !len_write_be. reflexivity.
Qed.

(** A whole message is read, whatever it holds. *)
Lemma read_message_runs b v t h body rest n :
  header_ok h -> len body <= MAX_BUFFER_SIZE ->
  exists p r,
    runs ReadCommand.read_message (View b (response v t h body ++ rest) n)
      (inl (h_result h, h_generation h, h_expiration h, h_fields h, h_ops h))
      (View (Some (p, body ++ r)) rest (n + 30 + len body)).
Proof.
  intros Hh Hl. pose proof (len_nonneg body).
  set (size := 22 + len body). set (pr := proto v t size).
  assert (len pr = 8) as Hpr by apply len_proto.
  destruct (read_rest_runs [] (pr ++ header_bytes h) body rest (n + 30))
    as (p & r & Hbody); [|exact Hl|].
  { cbn [app]. rewrite len_app, Hpr, len_header_bytes. unfold MAX_BUFFER_SIZE. lia. }
  exists p, r. unfold ReadCommand.read_message, response. fold size. fold pr.
  rewrite <- !(assoc_L (++)).
  eapply runs_bind; [apply read_header_runs|]. fold pr.
  apply (look_step _ (read_be pr)).
  { intros rt. unfold read_u64, bind.
    rewrite (read_at_look 8 0 [] pr (header_bytes h)) by
      first [reflexivity | exact Hpr]. reflexivity. }
  apply (look_step _ 22).
  { intros rt. apply (read_u8_look _ pr 22 (tail (header_bytes h)));
      [reflexivity|exact Hpr]. }
  apply (look_step _ (h_result h)).
  { intros rt. eapply (read_u8_look _ (pr ++ take 5 (header_bytes h)));
      [subst pr; layout|]. rewrite len_app, Hpr. reflexivity. }
  apply (look_step _ (h_generation h)); [intros; apply header_numbers, Hh|].
  apply (look_step _ (h_expiration h)); [intros; apply header_numbers, Hh|].
  apply (look_step _ (h_fields h)); [intros; apply header_numbers, Hh|].
  apply (look_step _ (h_ops h)); [intros; apply header_numbers, Hh|].
  eapply (runs_bind _ _ _ _ _ (len body)).
  { unfold usize_sub. subst pr size. rewrite proto_size_value.
    - decide_tests. replace (22 + len body - 22) with (len body) by lia. apply runs_ret.
    - unfold in_u, MAX_BUFFER_SIZE in *. change (2 ^ 48) with 281474976710656. lia. }
  eapply runs_bind; [exact Hbody|]. apply runs_ret.
Qed.

(** From views back to connections. *)
Lemma drives_at {C A} (m : M (C * Connection) A) x (c : Connection) r x' inc :
  (exists b n,
     drives m x (View None (incoming (conn c)) (bytes_read c)) r x' (View b inc n)) ->
  exists c', m (x, c) = ends r (x', c') /\ incoming (conn c') = inc /\ quiet c c'.
Proof.
  intros (b & n & H). destruct (H c) as (c' & E & Hc & Hq).
  { split; [exact I|split; reflexivity]. }
  exists c'. split; [exact E|]. split; [apply Hc|exact Hq].
Qed.

(** *** Reads *)

Lemma parse_record_drives (cmd : ReadCommand) bs g e p r inc n :
  forallb bin_ok bs = true ->
  drives (on_snd (lift (ReadCommand.parse_record (length bs) 0 g e))) cmd
    (View (Some (p, concat (bin_bytes <$> bs) ++ r)) inc n)
    (inl (Record.new None (foldl add_bin empty bs) g e)) cmd
    (View (Some (p ++ concat (bin_bytes <$> bs), r)) inc n).
Proof. intros Hok. apply drives_conn, runs_takes, parse_record_takes, Hok. Qed.

Lemma parse_response_body (cmd : ReadCommand) (c : Connection) (v t : Z) (h : Header)
    (bs : list ResponseBin) (rest : bytes) :
  let body := concat (bin_bytes <$> bs) in
  header_ok h -> h_result h = 0 -> h_fields h = 0 -> h_ops h = len bs ->
  forallb bin_ok bs = true -> len body <= MAX_BUFFER_SIZE ->
  incoming (conn c) = response v t h body ++ rest ->
  let record :=
    Record.new None
      (if Bins.is_none (ReadCommand.bins cmd) then empty else foldl add_bin empty bs)
      (h_generation h) (h_expiration h) in
  exists c',
    ReadCommand.parse_result (cmd, c)
      = Ret tt (ReadCommand.set_record (Some record) cmd, c') /\
    incoming (conn c') = rest /\ quiet c c'.
Proof.
  intros body Hh Hr Hf Ho Hok Hl Hi record.
  destruct (read_message_runs None v t h body rest (bytes_read c) Hh Hl)
    as (p & r & Hm). rewrite <- Hi in Hm.
  apply (drives_at _ _ _ (inl tt)). unfold ReadCommand.parse_result.
  assert (Z.to_nat (len bs) = length bs) as Hn by (unfold len; apply Nat2Z.id).
  subst record. destruct (Bins.is_none (ReadCommand.bins cmd)) eqn:Hb;
    do 2 eexists; (eapply drives_bind; [apply drives_conn, Hm|]); cbv beta iota;
    rewrite Hr, Hf, Ho, Hn; change (ResultCode.from_u8 0) with ResultCode.Ok;
    (eapply drives_bind; [apply drives_self; reflexivity|]); cbv beta; rewrite Hb.
  - eapply drives_bind; [apply drives_ret|apply drives_self; reflexivity].
  - eapply drives_bind; [apply parse_record_drives, Hok|].
    apply drives_self. reflexivity.
Qed.

(** A well-formed successful response is parsed exactly: the command keeps a
    record with the generation and expiration of the header and the bins of the
    operations (values of one bin are collected, nil values dropped; no bins at
    all when none were asked for), and takes exactly the message from the
    stream, sending nothing. *)
Theorem read_response (cmd : ReadCommand) (c : Connection) (v t : Z) (h : Header)
    (bs : list ResponseBin) (rest : bytes) :
  let body := concat (bin_bytes <$> bs) in
  header_ok h -> h_result h = 0 -> h_fields h = 0 -> h_ops h = len bs ->
  forallb bin_ok bs = true -> len body <= MAX_BUFFER_SIZE ->
  incoming (conn c) = response v t h body ++ rest ->
  let record :=
    Record.new None
      (if Bins.is_none (ReadCommand.bins cmd) then empty else foldl add_bin empty bs)
      (h_generation h) (h_expiration h) in
  exists c',
    ReadCommand.parse_result (cmd, c)
      = Ret tt (ReadCommand.set_record (Some record) cmd, c') /\
    incoming (conn c') = rest /\ quiet c c'.
Proof. apply parse_response_body. Qed.

(** An error response of a read, whatever its body, raises the server's
    result code, leaves the command unchanged and takes exactly the message from
    the stream, so a connection that is kept is in step with the server. *)
Theorem read_error (cmd : ReadCommand) (c : Connection) (v t : Z) (h : Header)
    (body rest : bytes) :
  header_ok h -> len body <= MAX_BUFFER_SIZE ->
  incoming (conn c) = response v t h body ++ rest ->
  let rc := ResultCode.from_u8 (h_result h) in
  rc <> ResultCode.Ok -> rc <> ResultCode.UdfBadResponse ->
  exists c',
    ReadCommand.parse_result (cmd, c) = Throw (ServerError rc) (cmd, c') /\
    incoming (conn c') = rest /\ quiet c c'.
Proof.
  intros Hh Hl Hi rc Hok Hudf.
  destruct (read_message_runs None v t h body rest (bytes_read c) Hh Hl)
    as (p & r & Hm). rewrite <- Hi in Hm.
  apply (drives_at _ _ _ (inr (ServerError rc))). unfold ReadCommand.parse_result.
  do 2 eexists. eapply drives_bind; [apply drives_conn, Hm|]. cbv beta iota. fold rc.
  destruct rc; try contradiction; apply drives_throw.
Qed.

(** A failed UDF call raises the explanation of its [FAILURE] bin, or a
    default text, after taking exactly the message from the stream. *)
Theorem read_udf_failure (cmd : ReadCommand) (c : Connection) (v t : Z)
    (h : Header) (bs : list ResponseBin) (rest : bytes) :
  let body := concat (bin_bytes <$> bs) in
  header_ok h -> h_fields h = 0 -> h_ops h = len bs ->
  forallb bin_ok bs = true -> len body <= MAX_BUFFER_SIZE ->
  incoming (conn c) = response v t h body ++ rest ->
  ResultCode.from_u8 (h_result h) = ResultCode.UdfBadResponse ->
  let reason :=
    match foldl add_bin empty bs !! str "FAILURE" with
    | Some v => as_string v
    | None => str "UDF Error"
    end in
  exists c',
    ReadCommand.parse_result (cmd, c) = Throw (UdfBadResponse reason) (cmd, c') /\
    incoming (conn c') = rest /\ quiet c c'.
Proof.
  intros body Hh Hf Ho Hok Hl Hi Hr reason.
  destruct (read_message_runs None v t h body rest (bytes_read c) Hh Hl)
    as (p & r & Hm). rewrite <- Hi in Hm.
  apply (drives_at _ _ _ (inr (UdfBadResponse reason))).
  unfold ReadCommand.parse_result. do 2 eexists. eapply drives_bind; [apply drives_conn, Hm|]. cbv beta iota.
  rewrite Hr, Hf, Ho. unfold len at 1. rewrite Nat2Z.id. cbv iota.
  eapply drives_bind; [apply parse_record_drives, Hok|]. apply drives_throw.
Qed.

(** *** Commands without a record *)

(** [empty_socket] reads the protocol header again, from the start of the
    message, and discards the rest. *)
Lemma empty_socket_runs v t h body rest n :
  len body <= MAX_BUFFER_SIZE ->
  exists b,
    runs empty_socket
      (View (Some ([], proto v t (22 + len body) ++ header_bytes h)) (body ++ rest) n)
      (inl tt) (View b rest (n + len body)).
Proof.
  intros Hl. pose proof (len_nonneg body). set (size := 22 + len body).
  assert (in_u 48 size) as Hs.
  { unfold in_u, size, MAX_BUFFER_SIZE in *. change (2 ^ 48) with 281474976710656. lia. }
  exists (if 0 <? len body then Some ([], body)
          else Some (proto v t size ++ [22], tail (header_bytes h))).
  unfold empty_socket. eapply runs_bind.
  { apply (runs_takes (read_i64 None) [] (proto v t size) (header_bytes h)).
    apply reads_takes. unfold read_i64, read_u64.
    eapply reads_eq; [|apply app_nil_r|reflexivity].
    eapply reads_bind; [|apply reads_ret].
    apply (read_int_reads 8 _ (fun x => x)), len_proto. }
  cbv beta.
  eapply runs_bind.
  { apply (runs_takes (read_u8 None) (proto v t size) [22] (tail (header_bytes h))).
    apply reads_takes, read_u8_reads. }
  rewrite proto_size_signed by exact Hs.
  assert (as_u64 (size - 22) = len body) as ->.
  { unfold as_u64, size. rewrite wrap_u_id; [lia|]. unfold in_u, MAX_BUFFER_SIZE in *.
    change (2 ^ 64) with 18446744073709551616. lia. }
  destruct (Z.ltb_spec 0 (len body)) as [Hp|Hp]; cbn [when].
  - eapply (runs_bind _ _ _ (View None (body ++ rest) n)).
    + intros c Hc. unfold lift, resize_buffer. rewrite Z.gtb_ltb.
      destruct (Z.ltb_spec MAX_BUFFER_SIZE (len body)); [lia|].
      eexists. split; [reflexivity|]. split; [|split; reflexivity].
      split; [exact I|apply Hc].
    + apply runs_read_buffer; [reflexivity|exact Hl].
  - destruct body; [|rewrite len_cons in Hp; pose proof (len_nonneg body); lia].
    cbn [app]. rewrite Z.add_0_r. apply runs_ret.
Qed.

Lemma runs_at {A} (m : M Connection A) (c : Connection) r inc :
  (exists b n,
     runs m (View None (incoming (conn c)) (bytes_read c)) r (View b inc n)) ->
  exists c', m c = ends r c' /\ incoming (conn c') = inc /\ quiet c c'.
Proof.
  intros (b & n & H). destruct (H c) as (c' & E & Hc & Hq).
  { split; [exact I|split; reflexivity]. }
  exists c'. split; [exact E|]. split; [apply Hc|exact Hq].
Qed.

(** A write or touch succeeds exactly on the result code [Ok], and then
    takes the whole message; on any other code it raises the code but leaves the
    body of the message on the stream, also for [KeyNotFoundError], after which
    [keep_connection] keeps the connection. *)
Theorem write_response (c : Connection) (v t : Z) (h : Header) (body rest : bytes) :
  len body <= MAX_BUFFER_SIZE ->
  incoming (conn c) = response v t h body ++ rest ->
  let rc := ResultCode.from_u8 (h_result h) in
  exists c',
    quiet c c' /\
    if bool_decide (rc = ResultCode.Ok)
    then write_parse_result c = Ret tt c' /\ incoming (conn c') = rest
    else write_parse_result c = Throw (ServerError rc) c' /\
         incoming (conn c') = body ++ rest.
Proof.
  intros Hl Hi rc.
  assert (forall r inc, (exists b n, runs write_parse_result
      (View None (incoming (conn c)) (bytes_read c)) r (View b inc n)) ->
    exists c', quiet c c' /\ write_parse_result c = ends r c' /\
      incoming (conn c') = inc) as Hat.
  { intros r inc H. destruct (runs_at _ c r inc H) as (c' & ? & ? & ?). eauto. }
  rewrite Hi in Hat. unfold response in Hat. rewrite <- !(assoc_L (++)) in Hat.
  destruct (empty_socket_runs v t h body rest (bytes_read c + 30) Hl) as [b He].
  case_bool_decide as Hrc; [apply (Hat (inl tt))|apply (Hat (inr (ServerError rc)))];
    do 2 eexists; unfold write_parse_result;
    (eapply runs_bind; [apply read_header_runs|]);
    (eapply runs_bind; [apply header_result_runs|]); fold rc;
    [rewrite bool_decide_eq_true_2 by exact Hrc|
     rewrite bool_decide_eq_false_2 by exact Hrc].
  - exact He.
  - apply runs_throw.
Qed.

(** A delete or exists command sets its flag to whether the record was
    found and takes the whole message in both cases; another code is raised, with
    the flag unchanged and the body left on the stream. *)
Theorem exists_response (existed : bool) (c : Connection) (v t : Z) (h : Header)
    (body rest : bytes) :
  len body <= MAX_BUFFER_SIZE ->
  incoming (conn c) = response v t h body ++ rest ->
  let rc := ResultCode.from_u8 (h_result h) in
  exists c',
    quiet c c' /\
    match rc with
    | ResultCode.Ok =>
        exists_parse_result (existed, c) = Ret tt (true, c') /\
        incoming (conn c') = rest
    | ResultCode.KeyNotFoundError =>
        exists_parse_result (existed, c) = Ret tt (false, c') /\
        incoming (conn c') = rest
    | _ =>
        exists_parse_result (existed, c) = Throw (ServerError rc) (existed, c') /\
        incoming (conn c') = body ++ rest
    end.
Proof.
  intros Hl Hi rc.
  assert (forall r x inc, (exists b n, drives exists_parse_result existed
      (View None (incoming (conn c)) (bytes_read c)) r x (View b inc n)) ->
    exists c', quiet c c' /\ exists_parse_result (existed, c) = ends r (x, c') /\
      incoming (conn c') = inc) as Hat.
  { intros r x inc H. destruct (drives_at _ _ c r x inc H) as (c' & ? & ? & ?). eauto. }
  rewrite Hi in Hat. unfold response in Hat. rewrite <- !(assoc_L (++)) in Hat.
  destruct (empty_socket_runs v t h body rest (bytes_read c + 30) Hl) as [b He].
  assert (forall r x w', drives
      (if bool_decide (rc <> ResultCode.Ok)
          && bool_decide (rc <> ResultCode.KeyNotFoundError)
       then throw (ServerError rc)
       else on_fst (put (bool_decide (rc = ResultCode.Ok))) ;;; on_snd empty_socket)
      existed (View (Some ([], proto v t (22 + len body) ++ header_bytes h))
                 (body ++ rest) (bytes_read c + 30)) r x w' ->
    drives exists_parse_result existed
      (View None (proto v t (22 + len body) ++ header_bytes h ++ body ++ rest)
         (bytes_read c)) r x w') as Hhead.
  { intros r x w' H. unfold exists_parse_result.
    eapply drives_bind; [apply drives_conn, read_header_runs|].
    eapply drives_bind; [apply drives_conn, header_result_runs|]. exact H. }
  destruct rc eqn:Hrc;
    try (apply (Hat (inr (ServerError _)) existed); do 2 eexists; apply Hhead;
         apply drives_throw);
    [apply (Hat (inl tt) true)|apply (Hat (inl tt) false)];
    do 2 eexists; apply Hhead;
    (eapply drives_bind; [apply drives_self; reflexivity|]);
    apply drives_conn, He.
Qed.

(** Skipping a field of a response takes four bytes more than the field:
    its size was already read when [4 + field_size] bytes are skipped. *)
Theorem skip_field_overshoots (field next : bytes) :
  len field <= MAX_BUFFER_SIZE -> len next = 4 ->
  takes ReadCommand.skip_field (write_be 4 (len field) ++ field ++ next) tt.
Proof.
  intros Hf Hn. unfold ReadCommand.skip_field.
  eapply takes_bind; [apply reads_takes, read_u32_reads|].
  - pose proof (len_nonneg field). unfold in_u, MAX_BUFFER_SIZE in *.
    change (2 ^ 32) with 4294967296. lia.
  - apply takes_skip. rewrite len_app. lia.
Qed.

End Messages.

(** ** Examples *)

Section Examples.

#[local] Existing Instance valuefmt_model.
#[local] Existing Instance clock_model.

Definition sample_header (result fields ops : Z) : Header :=
  mkHeader 0 0 0 0 result 3 77 0 fields ops.

Definition sample_conn (input : bytes) : Connection :=
  mkConnection None None (mkTcpStream input [] 1000 false None) 0 (Buffer_new 0) 0.

Lemma sample_header_ok result fields ops :
  in_u 16 fields -> in_u 16 ops -> header_ok (sample_header result fields ops).
Proof. unfold header_ok, in_u. cbn. lia. Qed.

(** Two operations on one bin, and a bin that is nil. *)
Definition sample_bins : list ResponseBin :=
  [mkResponseBin 1 (str "a") (Value.Int 5);
   mkResponseBin 1 (str "b") Value.Nil;
   mkResponseBin 1 (str "a") (Value.String (str "x"))].

Lemma read_response_witness :
  let cmd := ReadCommand.new BasePolicy_default sample_key Bins.All in
  let body := concat (bin_bytes <$> sample_bins) in
  let h := sample_header 0 0 3 in
  exists c',
    ReadCommand.parse_result (cmd, sample_conn (response 2 3 h body ++ [9]))
    = Ret tt
        (ReadCommand.set_record
           (Some (Record.new None (foldl add_bin empty sample_bins) 3 77)) cmd, c') /\
    incoming (conn c') = [9] /\
    quiet (sample_conn (response 2 3 h body ++ [9])) c'.
Proof.
  apply (read_response (ReadCommand.new BasePolicy_default sample_key Bins.All)
           (sample_conn (response 2 3 (sample_header 0 0 3)
                           (concat (bin_bytes <$> sample_bins)) ++ [9]))
           2 3 (sample_header 0 0 3) sample_bins [9]);
    try reflexivity.
  - apply sample_header_ok; unfold in_u; lia.
  - vm_compute. discriminate.
Defined.

Lemma read_error_witness :
  let cmd := ReadCommand.new BasePolicy_default sample_key Bins.All in
  let c := sample_conn (response 2 3 (sample_header 2 0 0) [7; 7] ++ [9]) in
  exists c',
    ReadCommand.parse_result (cmd, c)
    = Throw (ServerError ResultCode.KeyNotFoundError) (cmd, c') /\
    incoming (conn c') = [9] /\ quiet c c'.
Proof.
  apply (read_error (ReadCommand.new BasePolicy_default sample_key Bins.All)
           (sample_conn (response 2 3 (sample_header 2 0 0) [7; 7] ++ [9]))
           2 3 (sample_header 2 0 0) [7; 7] [9]).
  - apply sample_header_ok; unfold in_u; lia.
  - vm_compute. discriminate.
  - reflexivity.
  - discriminate.
  - discriminate.
Defined.

Definition failure_bins : list ResponseBin :=
  [mkResponseBin 1 (str "FAILURE") (Value.String (str "no"))].

Lemma read_udf_failure_witness :
  let cmd := ReadCommand.new BasePolicy_default sample_key Bins.All in
  let c := sample_conn (response 2 3 (sample_header 100 0 1)
                          (concat (bin_bytes <$> failure_bins)) ++ [9]) in
  exists c',
    ReadCommand.parse_result (cmd, c) = Throw (UdfBadResponse (str "no")) (cmd, c') /\
    incoming (conn c') = [9] /\ quiet c c'.
Proof.
  apply (read_udf_failure (ReadCommand.new BasePolicy_default sample_key Bins.All)
           (sample_conn (response 2 3 (sample_header 100 0 1)
                           (concat (bin_bytes <$> failure_bins)) ++ [9]))
           2 3 (sample_header 100 0 1) failure_bins [9]);
    try reflexivity.
  - apply sample_header_ok; unfold in_u; lia.
  - vm_compute. discriminate.
Defined.

(** A write refused with a body: the connection is kept, and the body is what
    its next user reads. *)
Lemma write_response_witness :
  let c := sample_conn (response 2 3 (sample_header 2 0 0) [7; 7] ++ [9]) in
  exists c',
    quiet c c' /\
    (write_parse_result c = Throw (ServerError ResultCode.KeyNotFoundError) c' /\
     incoming (conn c') = [7; 7] ++ [9]).
Proof.
  apply (write_response (sample_conn (response 2 3 (sample_header 2 0 0) [7; 7] ++ [9]))
           2 3 (sample_header 2 0 0) [7; 7] [9]).
  - vm_compute. discriminate.
  - reflexivity.
Defined.

Lemma exists_response_witness :
  let c := sample_conn (response 2 3 (sample_header 2 0 0) [7; 7] ++ [9]) in
  exists c',
    quiet c c' /\
    (exists_parse_result (true, c) = Ret tt (false, c') /\ incoming (conn c') = [9]).
Proof.
  apply (exists_response true
           (sample_conn (response 2 3 (sample_header 2 0 0) [7; 7] ++ [9]))
           2 3 (sample_header 2 0 0) [7; 7] [9]).
  - vm_compute. discriminate.
  - reflexivity.
Defined.

Lemma skip_field_overshoots_witness :
  takes ReadCommand.skip_field (write_be 4 2 ++ [1; 2] ++ [3; 4; 5; 6]) tt.
Proof.
  apply (skip_field_overshoots [1; 2] [3; 4; 5; 6]).
  - vm_compute. discriminate.
  - reflexivity.
Defined.

End Examples.
