(* ===== verification/StreamFacts.v ===== *)
(** * Streams of records

    A reference encoding of streamed responses, and what the stream and batch
    commands make of them. *)

From stdpp Require Import base list strings gmap.
From Stdlib Require Import ZArith Lia Setoid Morphisms.
From S2P Require Import Prelude ResultCodes Monad ByteOrder Slices Text Wire.
From S2P Require Import Buffer BufferFacts Values Encoder Decoder RoundTrip Particle.
From S2P Require Import Expressions Policy Records Connection Commands Responses.
From S2P Require Import ConnectionFacts ResponseFacts Recordset Streams.
Import Connection.

Section Pieces.
Context `{BO : ByteOrder} `{VF : ValueFmt} `{CL : Clock}.

(** Loops over pieces of the stream; the buffer is forgotten in between. *)
Lemma runs_for_range {A B} (f : B -> M Connection B) (g : B -> A -> B)
    (enc : A -> bytes) l acc inc n :
  (forall x acc inc n, x ∈ l ->
    runs (f acc) (View None (enc x ++ inc) n) (inl (g acc x))
      (View None inc (n + len (enc x)))) ->
  runs (for_range (length l) f acc) (View None (concat (enc <$> l) ++ inc) n)
    (inl (foldl g acc l)) (View None inc (n + len (concat (enc <$> l)))).
Proof.
  revert acc n. induction l as [|x l IH]; intros acc n H; cbn.
  - rewrite Z.add_0_r. apply runs_ret.
  - rewrite <- (assoc_L (++)), len_app, Z.add_assoc.
    eapply runs_bind; [apply H; left|]. apply IH.
    intros y acc' inc' n' Hy. apply H. right. exact Hy.
Qed.

(** A chunk that is read into the buffer and then parsed to its end. *)
Lemma runs_chunk {A B} (m : M Buffer A) (k : A -> M Connection B)
    b bs inc n v z r w' :
  z = len bs -> len bs <= MAX_BUFFER_SIZE -> takes m bs v ->
  runs (k v) (View (Some (bs, [])) inc (n + len bs)) r w' ->
  runs (read_buffer z ;;; let! x := lift m in k x) (View b (bs ++ inc) n) r w'.
Proof.
  intros -> Hl Hm Hk. eapply runs_bind; [apply runs_read_buffer; auto|].
  eapply runs_bind; [|exact Hk].
  pose proof (runs_takes m [] bs [] inc (n + len bs) v Hm) as H.
  rewrite app_nil_r in H. exact H.
Qed.

Lemma runs_pure {A B} (a : A) (m : M Connection A) (k : A -> M Connection B) w r w' :
  m ≈ ret a -> runs (k a) w r w' -> runs (bind m k) w r w'.
Proof. intros -> H. eapply runs_bind; [apply runs_ret|exact H]. Qed.

Lemma runs_step {A B} (m : M Buffer A) (k : A -> M Connection B)
    p bs rest inc n v r w' :
  takes m bs v ->
  runs (k v) (View (Some (p ++ bs, rest)) inc n) r w' ->
  runs (bind (lift m) k) (View (Some (p, bs ++ rest)) inc n) r w'.
Proof. intros Hm Hk. eapply runs_bind; [apply runs_takes, Hm|exact Hk]. Qed.

Lemma runs_last {A B} (m : M Buffer A) (k : A -> M Connection B)
    p bs inc n v r w' :
  takes m bs v ->
  runs (k v) (View (Some (p ++ bs, [])) inc n) r w' ->
  runs (bind (lift m) k) (View (Some (p, bs)) inc n) r w'.
Proof. intros Hm Hk. rewrite <- (app_nil_r bs). eapply runs_step; eassumption. Qed.

(** ** Bins *)

Definition put_bin (m : gmap bytes Value) (b : ResponseBin) : gmap bytes Value :=
  <[rb_name b := norm_bin (rb_value b)]> m.

Lemma usize_sub_pure {S} a b d : a - b = d -> 0 <= d -> usize_sub a b ≈ (ret d : M S Z).
Proof. intros <- Hd s. unfold usize_sub. decide_tests. reflexivity. Qed.

Lemma stream_op_runs m b inc n :
  bin_ok b = true ->
  runs (stream_op m) (View None (bin_bytes b ++ inc) n) (inl (put_bin m b))
    (View None inc (n + len (bin_bytes b))).
Proof.
  intros Hok. pose proof (bin_size_range b Hok) as Hsize. revert Hok.
  unfold bin_ok. rewrite !andb_true_iff, Z.ltb_lt, Z.leb_le.
  intros [[[[Hu Hn] He] Hs] Hp]. unfold stream_op.
  set (head := write_be 4 (bin_size b) ++ [rb_op b] ++ [bin_type b] ++ [0] ++
    [len (rb_name b)]).
  assert (bin_bytes b = head ++ rb_name b ++ bin_payload b) as E
    by (unfold bin_bytes, head; rewrite <- !(assoc_L (++)); reflexivity).
  assert (len head = 8) as Hh by (unfold head; rewrite len_app, len_write_be; reflexivity).
  rewrite E, <- !(assoc_L (++)), !len_app, Hh.
  pose proof (len_nonneg (bin_payload b)). pose proof (len_nonneg (rb_name b)).
  eapply runs_bind.
  { apply (runs_read_buffer _ head); [exact Hh|unfold MAX_BUFFER_SIZE; lia]. }
  unfold head. rewrite <- (app_nil_r [len (rb_name b)]).
  eapply runs_step; [apply reads_takes, read_u32_reads, Hsize|].
  eapply runs_step; [apply takes_skip; reflexivity|].
  eapply runs_step; [apply reads_takes, read_u8_reads|].
  eapply runs_step; [apply takes_skip; reflexivity|].
  eapply runs_step; [apply reads_takes, read_u8_reads|].
  eapply runs_chunk;
    [reflexivity|unfold MAX_BUFFER_SIZE; lia|apply reads_takes, read_str_reads; auto|].
  eapply runs_pure; [apply (usize_sub_pure _ _ (len (bin_payload b)))|]; [|lia|].
  { unfold bin_size. lia. }
  eapply runs_chunk; [reflexivity|exact Hp|apply read_particle_takes; assumption|].
  eapply runs_forget. rewrite <- !Z.add_assoc. apply runs_ret.
Qed.

(** ** Keys *)

(** The fields a record of a response can have. *)
Inductive key_part : Type :=
| PDigest (d : bytes)
| PNamespace (s : bytes)
| PTable (s : bytes)
| PKey (v : Value).

Definition part_type (p : key_part) : FieldType :=
  match p with
  | PDigest _ => FieldType.DigestRipe
  | PNamespace _ => FieldType.Namespace
  | PTable _ => FieldType.Table
  | PKey _ => FieldType.Key
  end.

Definition part_payload (p : key_part) : bytes :=
  match p with
  | PDigest s | PNamespace s | PTable s => s
  | PKey v =>
      [ParticleType.to_u8 (default ParticleType.NULL (Value.particle_type v))]
      ++ default [] (particle_bytes v)
  end.

Definition part_bytes (p : key_part) : bytes :=
  write_be 4 (1 + len (part_payload p)) ++ [FieldType.to_u8 (part_type p)] ++
  part_payload p.

Definition part_ok (p : key_part) : bool :=
  (len (part_payload p) <? MAX_BUFFER_SIZE) &&
  match p with
  | PDigest d => len d =? 20
  | PNamespace s | PTable s => utf8_valid s
  | PKey v => encodable v && supported_bin v
  end.

Definition set_part (k : Key) (p : key_part) : Key :=
  match p with
  | PDigest d => mkKey (namespace k) (set_name k) (user_key k) d
  | PNamespace s => mkKey s (set_name k) (user_key k) (digest k)
  | PTable s => mkKey (namespace k) s (user_key k) (digest k)
  | PKey v => mkKey (namespace k) (set_name k) (Some (norm_bin v)) (digest k)
  end.

Lemma key_field_value_runs k p pre inc n :
  part_ok p = true ->
  runs (key_field_value k (1 + len (part_payload p)) (FieldType.to_u8 (part_type p)))
    (View (Some (pre, part_payload p)) inc n) (inl (set_part k p)) (View None inc n).
Proof.
  unfold part_ok. rewrite andb_true_iff, Z.ltb_lt. intros [Hl Hp].
  pose proof (len_nonneg (part_payload p)) as H0.
  unfold key_field_value.
  destruct p; cbn [part_type part_payload] in *; cbn [FieldType.to_u8 Z.eqb Pos.eqb].
  - eapply runs_forget, runs_pure; [apply usize_sub_pure; [apply Z.add_simpl_l|exact H0]|].
    eapply runs_bind.
    { apply runs_look. intros rt. rewrite <- (app_nil_r d) at 2 3.
      apply read_slice_at. reflexivity. }
    unfold copy_digest. rewrite Hp. eapply runs_pure; [reflexivity|]. apply runs_ret.
  - eapply runs_forget, runs_pure; [apply usize_sub_pure; [apply Z.add_simpl_l|exact H0]|].
    eapply runs_last; [apply reads_takes, read_str_reads; auto|]. apply runs_ret.
  - eapply runs_forget, runs_pure; [apply usize_sub_pure; [apply Z.add_simpl_l|exact H0]|].
    eapply runs_last; [apply reads_takes, read_str_reads; auto|]. apply runs_ret.
  - apply andb_true_iff in Hp as [He Hs].
    eapply runs_forget, runs_step; [apply reads_takes, read_u8_reads|].
    eapply runs_pure.
    { apply (usize_sub_pure _ _ (len (default [] (particle_bytes v)))).
      - rewrite len_app. change (len [_]) with 1. lia.
      - apply len_nonneg. }
    eapply runs_last; [apply read_particle_takes; assumption|]. apply runs_ret.
Qed.

Lemma key_field_runs k p inc n :
  part_ok p = true ->
  runs (key_field k) (View None (part_bytes p ++ inc) n) (inl (set_part k p))
    (View None inc (n + len (part_bytes p))).
Proof.
  intros Hok. pose proof Hok as Hl. unfold part_ok in Hl.
  rewrite andb_true_iff, Z.ltb_lt in Hl. apply proj1 in Hl.
  pose proof (len_nonneg (part_payload p)) as H0. unfold key_field, part_bytes.
  rewrite <- !(assoc_L (++)), len_app, len_write_be, Z.add_assoc.
  eapply runs_chunk; [rewrite len_write_be; reflexivity| | |].
  { rewrite len_write_be. unfold MAX_BUFFER_SIZE. cbn. lia. }
  { apply reads_takes, read_u32_reads. unfold in_u, MAX_BUFFER_SIZE in *.
    change (2 ^ 32) with 4294967296. lia. }
  rewrite (assoc_L (++) [_]).
  eapply runs_bind.
  { apply (runs_read_buffer _ ([FieldType.to_u8 (part_type p)] ++ part_payload p)).
    - rewrite len_app. reflexivity.
    - unfold MAX_BUFFER_SIZE in *. lia. }
  rewrite len_write_be, len_app. change (len [_]) with 1.
  eapply runs_step; [apply reads_takes, read_u8_reads|].
  apply key_field_value_runs, Hok.
Qed.

Definition new_key : Key := mkKey [] [] None (replicate 20 0).

Definition key_of (ps : list key_part) : Key := foldl set_part new_key ps.

Lemma parse_key_runs b ps inc n :
  forallb part_ok ps = true ->
  runs (parse_key (length ps)) (View b (concat (part_bytes <$> ps) ++ inc) n)
    (inl (key_of ps)) (View None inc (n + len (concat (part_bytes <$> ps)))).
Proof.
  intros Hok. apply runs_any, runs_for_range. intros p k inc' n' Hp.
  apply key_field_runs. rewrite forallb_forall in Hok. apply Hok, list_elem_of_In, Hp.
Qed.

Lemma bins_runs b bs inc n :
  forallb bin_ok bs = true ->
  runs (for_range (length bs) stream_op empty)
    (View b (concat (bin_bytes <$> bs) ++ inc) n) (inl (foldl put_bin empty bs))
    (View None inc (n + len (concat (bin_bytes <$> bs)))).
Proof.
  intros Hok. apply runs_any, runs_for_range. intros x m inc' n' Hx.
  apply stream_op_runs. rewrite forallb_forall in Hok. apply Hok, list_elem_of_In, Hx.
Qed.

Lemma record_numbers_runs h inc n :
  header_ok h ->
  runs record_numbers (View (Some ([], header_bytes h)) inc n)
    (inl (h_generation h, h_expiration h, h_ttl h, h_fields h, h_ops h))
    (View (Some (header_bytes h, [])) inc n).
Proof.
  intros (Hg & He & Ht & Hf & Ho). unfold record_numbers, header_bytes.
  eapply runs_step; [apply takes_skip; reflexivity|].
  eapply runs_step; [apply reads_takes, read_u32_reads, Hg|].
  eapply runs_step; [apply reads_takes, read_u32_reads, He|].
  eapply runs_step; [apply reads_takes, read_u32_reads, Ht|].
  eapply runs_step; [apply reads_takes, read_u16_reads, Hf|].
  eapply runs_last; [apply reads_takes, read_u16_reads, Ho|].
  rewrite <- !(assoc_L (++)). apply runs_ret.
Qed.

Lemma flags_look h rt i :
  (i = 3 \/ i = 5) ->
  read_u8 (Some i) (at_cursor [] (header_bytes h) rt)
  = Ret (if i =? 3 then h_info3 h else h_result h) (at_cursor [] (header_bytes h) rt).
Proof.
  intros [->| ->].
  - apply (read_u8_look _ (take 3 (header_bytes h)) _ (drop 4 (header_bytes h)));
      reflexivity.
  - apply (read_u8_look _ (take 5 (header_bytes h)) _ (drop 6 (header_bytes h)));
      reflexivity.
Qed.

(** ** Messages of a stream *)

(** A record, or the notice that a partition is done. *)
Record StreamMessage : Type := mkStreamMessage {
  sm_header : Header;
  sm_key : list key_part;
  sm_bins : list ResponseBin
}.

Definition done_partition (m : StreamMessage) : bool :=
  negb (Z.land (h_info3 (sm_header m)) INFO3_PARTITION_DONE =? 0).

Definition message_bytes (m : StreamMessage) : bytes :=
  header_bytes (sm_header m) ++ concat (part_bytes <$> sm_key m) ++
  concat (bin_bytes <$> sm_bins m).

Definition message_ok (m : StreamMessage) : Prop :=
  header_ok (sm_header m) /\
  h_fields (sm_header m) = len (sm_key m) /\ h_ops (sm_header m) = len (sm_bins m) /\
  forallb part_ok (sm_key m) = true /\ forallb bin_ok (sm_bins m) = true /\
  Z.land (h_info3 (sm_header m)) INFO3_LAST <> INFO3_LAST.

(** A message of a scan or query: successful, and without bins when it ends a
    partition. *)
Definition stream_ok (m : StreamMessage) : Prop :=
  message_ok m /\ h_result (sm_header m) = 0 /\
  (done_partition m = true -> sm_bins m = []).

Definition message_record (m : StreamMessage) : Record_ :=
  Record.new (Some (key_of (sm_key m))) (foldl put_bin empty (sm_bins m))
    (h_generation (sm_header m)) (h_expiration (sm_header m)).

Lemma stream_parse_record_runs m size inc n :
  stream_ok m ->
  let body := concat (part_bytes <$> sm_key m) ++ concat (bin_bytes <$> sm_bins m) in
  runs (stream_parse_record size) (View (Some ([], header_bytes (sm_header m)))
                                     (body ++ inc) n)
    (inl (if done_partition m then None else Some (message_record m), true))
    (View None inc (n + len body)).
Proof.
  intros ((Hh & Hf & Ho & Hp & Hb & Hlast) & Hr & Hd) body.
  unfold stream_parse_record.
  eapply look_step; [intros rt; apply (flags_look _ rt 5); auto|]. cbn [Z.eqb].
  rewrite Hr. change (ResultCode.from_u8 0) with ResultCode.Ok.
  rewrite bool_decide_eq_false_2 by auto.
  eapply look_step; [intros rt; apply (flags_look _ rt 3); auto|]. cbn [Z.eqb Pos.eqb].
  apply Z.eqb_neq in Hlast. rewrite Hlast.
  eapply runs_bind; [apply record_numbers_runs, Hh|]. cbv beta iota.
  rewrite Hf, Ho. unfold len at 1 2. rewrite !Nat2Z.id.
  subst body. rewrite <- (assoc_L (++)), len_app, Z.add_assoc.
  eapply runs_bind; [apply parse_key_runs, Hp|]. fold (done_partition m).
  destruct (done_partition m).
  - rewrite (Hd eq_refl). cbn. rewrite Z.add_0_r. apply runs_ret.
  - eapply runs_bind; [apply bins_runs, Hb|]. apply runs_ret.
Qed.

End Pieces.

(** ** A scan on its own *)

Section Alone.
Context `{BO : ByteOrder} `{VF : ValueFmt} `{CL : Clock}.

#[local] Existing Instance alone.

(** [m] turns the record set [r] into [r'], and the view [w] into [w']. *)
Definition streams {A} (m : M (StreamCommand * Connection) A) (r : Recordset)
    (w : view) (res : A + ErrorKind) (r' : Recordset) (w' : view) : Prop :=
  forall s c, StreamCommand.recordset s = r -> at_view c w ->
  exists s' c', m (s, c) = ends res (s', c') /\
    StreamCommand.recordset s' = r' /\ at_view c' w' /\ quiet c c'.

Lemma streams_bind {A B} (m : M (StreamCommand * Connection) A)
    (k : A -> M (StreamCommand * Connection) B) r1 w1 r2 w2 r3 w3 v res :
  streams m r1 w1 (inl v) r2 w2 -> streams (k v) r2 w2 res r3 w3 ->
  streams (bind m k) r1 w1 res r3 w3.
Proof.
  intros H1 H2 s c Hs Hc. destruct (H1 s c Hs Hc) as (s1 & c1 & E1 & Hs1 & Hc1 & Hq1).
  destruct (H2 s1 c1 Hs1 Hc1) as (s2 & c2 & E2 & Hs2 & Hc2 & Hq2).
  exists s2, c2. unfold bind. rewrite E1. cbn. rewrite E2.
  repeat split; auto; try apply Hc2; apply (quiet_trans c c1 c2); assumption.
Qed.

Lemma streams_conn {A} (m : M Connection A) r w v w' :
  runs m w (inl v) w' -> streams (on_snd m) r w (inl v) r w'.
Proof.
  intros H s c Hs Hc. destruct (H c Hc) as (c' & E & Hc' & Hq).
  exists s, c'. unfold on_snd. cbn. rewrite E. auto.
Qed.

Lemma streams_access {A} (f : Recordset -> A * Recordset) r r' v w :
  f r = (v, r') -> streams (on_fst (StreamCommand.access f)) r w (inl v) r' w.
Proof.
  intros H s c <- Hc. eexists _, c. unfold on_fst, StreamCommand.access. cbn.
  rewrite H. cbn. repeat split; apply Hc.
Qed.

Lemma streams_perform {A} (m : Recordset.method A) : forall r r' v w,
  Recordset.run m r = (v, r') ->
  streams (on_fst (StreamCommand.perform m)) r w (inl v) r' w.
Proof.
  induction m as [a|B f next IH]; intros r r' v w H s c <- Hc.
  - injection H as <- <-. exists s, c. repeat split; apply Hc.
  - cbn [Recordset.run] in H.
    assert (StreamCommand.access f s = Ret (f (StreamCommand.recordset s)).1
              (StreamCommand.mkStreamCommand (f (StreamCommand.recordset s)).2
                 (S (StreamCommand.accesses s)))) as E
      by (unfold StreamCommand.access; cbn; destruct (f _); reflexivity).
    destruct (f (StreamCommand.recordset s)) as [b r1].
    destruct (IH b r1 r' v w H (StreamCommand.mkStreamCommand r1 (S (StreamCommand.accesses s))) c
      eq_refl Hc) as (s' & c' & E' & H').
    exists s', c'. split; [|exact H']. rewrite <- E'. unfold on_fst. cbn [fst snd].
    cbn [StreamCommand.perform]. unfold bind. rewrite E. reflexivity.
Qed.

Lemma streams_ret {A} (v : A) r w : streams (ret v) r w (inl v) r w.
Proof. intros s c Hs Hc. exists s, c. repeat split; auto; apply Hc. Qed.

(** Reading the count of bytes read. *)
Lemma streams_get {A} (k : Connection -> M (StreamCommand * Connection) A) r w res r' w' :
  (forall c, bytes_read c = v_read w -> streams (k c) r w res r' w') ->
  streams (bind (on_snd get) k) r w res r' w'.
Proof.
  intros H s c Hs Hc. apply (H c); auto. apply Hc.
Qed.

Definition pushed (r : Recordset) (l : list Recordset.item) : Recordset :=
  Recordset.mkRecordset (Recordset.instances r)
    (Recordset.record_queue_count r + len l) (Recordset.record_queue_size r)
    (Recordset.record_queue r ++ l) (Recordset.active r) (Recordset.task_id_ r).

(** The record set is active and has room for [k] records. *)
Definition room_for (k : Z) (r : Recordset) : Prop :=
  Recordset.active r = true /\ 0 <= Recordset.record_queue_count r /\
  Recordset.record_queue_count r + k <= Recordset.record_queue_size r /\
  in_u 64 (Recordset.record_queue_size r).

Lemma pushed_nil r : pushed r [] = r.
Proof. destruct r. unfold pushed. cbn. rewrite Z.add_0_r, app_nil_r. reflexivity. Qed.

Lemma pushed_cons r x l : pushed r (x :: l) = pushed (pushed r [x]) l.
Proof.
  unfold pushed, len. cbn. rewrite <- (assoc_L (++)). f_equal. lia.
Qed.

Lemma room_pushed k r x : room_for (1 + k) r -> room_for k (pushed r [x]).
Proof.
  unfold room_for, pushed. cbn. change (len [x]) with 1. intuition lia.
Qed.

Lemma push_room r x k : 1 <= k -> room_for k r ->
  Recordset.run (Recordset.push x) r = (None, pushed r [x]).
Proof.
  intros Hk (_ & Hc & Hr & Hs). unfold Recordset.run, Recordset.push, Recordset.enter.
  unfold Recordset.usize_incr. rewrite wrap_u_id by (unfold in_u in *; lia).
  destruct (Z.ltb_spec (Recordset.record_queue_count r)
              (Recordset.record_queue_size r)); [|lia].
  destruct r. reflexivity.
Qed.

Lemma push_record_streams f rec r w :
  room_for 1 r ->
  streams (on_fst (StreamCommand.push_record (S f) rec)) r w (inl tt)
    (pushed r [inl rec]) w.
Proof.
  intros Hr s c Hs Hc.
  destruct (streams_perform _ _ _ _ w (push_room r (inl rec) 1 ltac:(lia) Hr) s c Hs Hc)
    as (s' & c' & E & H).
  exists s', c'. split; [|exact H]. unfold on_fst in *. cbn [StreamCommand.push_record fst snd] in *.
  unfold bind. destruct (StreamCommand.perform _ s) as [o s1|e s1| |]; cbn in *; simplify_eq; reflexivity.
Qed.

(** The records among the messages, in order. *)
Definition records (ms : list StreamMessage) : list Recordset.item :=
  (fun m => inl (message_record m)) <$> filter (fun m => done_partition m = false) ms.

Lemma streams_message_head {A} (k : bool -> M (StreamCommand * Connection) A) r w res r' w' :
  Recordset.active r = true ->
  streams (k true) r w res r' w' ->
  streams (bind (on_fst StreamCommand.is_active) k) r w res r' w'.
Proof.
  intros Ha H. eapply streams_bind; [|exact H]. apply streams_access.
  unfold Recordset.is_active. rewrite Ha. reflexivity.
Qed.

Lemma runs_catch {A} (m : M Connection A) w v w' :
  runs m w (inl v) w' -> runs (catch m) w (inl (inl v)) w'.
Proof.
  intros H c Hc. destruct (H c Hc) as (c' & E & Hc' & Hq).
  exists c'. unfold catch. rewrite E. split; [reflexivity|]. split; assumption.
Qed.

Lemma len_message m :
  len (message_bytes m)
  = MSG_REMAINING_HEADER_SIZE +
    len (concat (part_bytes <$> sm_key m) ++ concat (bin_bytes <$> sm_bins m)).
Proof. unfold message_bytes. rewrite len_app, len_header_bytes. reflexivity. Qed.

(** One turn of the loop of [parse_stream] reads one message. *)
Lemma parse_stream_message f size m r b inc n res r' w' :
  stream_ok m -> n < size -> room_for (len (records [m])) r ->
  streams (StreamCommand.parse_stream (S f) size) (pushed r (records [m]))
    (View None inc (n + len (message_bytes m))) res r' w' ->
  streams (StreamCommand.parse_stream (S (S f)) size) r
    (View b (message_bytes m ++ inc) n) res r' w'.
Proof.
  intros Hm Hn Hr H.
  remember (S f) as f1 eqn:Hf1. cbn [StreamCommand.parse_stream].
  apply streams_message_head; [apply Hr|].
  apply streams_get. intros c0 ->. cbn [v_read]. decide_tests. cbn [andb].
  unfold message_bytes. rewrite <- (assoc_L (++)).
  eapply streams_bind.
  { apply streams_conn, (runs_read_buffer b (header_bytes (sm_header m))).
    - apply len_header_bytes.
    - unfold MAX_BUFFER_SIZE, MSG_REMAINING_HEADER_SIZE. lia. }
  eapply streams_bind.
  { apply streams_conn, runs_catch, stream_parse_record_runs, Hm. }
  cbv beta iota. rewrite <- Z.add_assoc, <- len_message.
  revert H Hr. unfold records. cbn [filter list_filter].
  unfold decide. destruct (done_partition m); cbn; intros H Hr.
  - rewrite pushed_nil in H. exact H.
  - eapply streams_bind; [|exact H]. rewrite Hf1. apply push_record_streams, Hr.
Qed.

Lemma streams_any {A} (m : M (StreamCommand * Connection) A) r b inc n res r' w' :
  streams m r (View None inc n) res r' w' -> streams m r (View b inc n) res r' w'.
Proof. intros H s c Hs Hc. apply H; [exact Hs|]. split; [exact I|apply Hc]. Qed.

Lemma records_cons m ms : records (m :: ms) = records [m] ++ records ms.
Proof.
  unfold records. cbn [filter list_filter]. unfold decide.
  destruct (done_partition m); reflexivity.
Qed.

Lemma pushed_app r l k : pushed r (l ++ k) = pushed (pushed r l) k.
Proof.
  unfold pushed. cbn. rewrite len_app, (assoc_L (++)). f_equal. lia.
Qed.

Lemma room_app k r l : room_for (len l + k) r -> room_for k (pushed r l).
Proof.
  unfold room_for, pushed. cbn. pose proof (len_nonneg l). intuition lia.
Qed.

Lemma room_le k k' r : room_for k r -> k' <= k -> room_for k' r.
Proof. unfold room_for. intuition lia. Qed.

Abbreviation payload ms := (concat (message_bytes <$> ms)).

Lemma len_message_pos m : 0 < len (message_bytes m).
Proof.
  rewrite len_message. unfold MSG_REMAINING_HEADER_SIZE.
  pose proof (len_nonneg (concat (part_bytes <$> sm_key m)
                          ++ concat (bin_bytes <$> sm_bins m))). lia.
Qed.

Lemma parse_stream_messages f size ms : forall r b inc n res r' w',
  Forall stream_ok ms -> n + len (payload ms) <= size ->
  room_for (len (records ms)) r ->
  streams (StreamCommand.parse_stream (S f) size) (pushed r (records ms))
    (View None inc (n + len (payload ms))) res r' w' ->
  streams (StreamCommand.parse_stream (length ms + S f) size) r
    (View b (payload ms ++ inc) n) res r' w'.
Proof.
  induction ms as [|m ms IH]; intros r b inc n res r' w' Hok Hs Hr H.
  - cbn in *. rewrite pushed_nil, Z.add_0_r in H. apply streams_any, H.
  - inversion_clear Hok as [|? ? Hm Hms]. rewrite records_cons in Hr, H.
    cbn [fmap list_fmap concat] in *. rewrite len_app in Hs, H.
    pose proof (len_message_pos m). pose proof (len_nonneg (payload ms)).
    rewrite len_app in Hr. rewrite pushed_app in H.
    pose proof (len_nonneg (records ms)).
    cbn [length]. rewrite <- (assoc_L (++)), <- plus_n_Sm, <- plus_Sn_m.
    apply parse_stream_message; [exact Hm|lia|apply (room_le _ _ _ Hr); lia|].
    rewrite plus_n_Sm. apply IH; [exact Hms|lia|apply room_app, Hr|].
    rewrite <- Z.add_assoc. exact H.
Qed.

Lemma parse_stream_end f size r b inc :
  Recordset.active r = true ->
  streams (StreamCommand.parse_stream (S f) size) r (View b inc size) (inl true)
    r (View b inc size).
Proof.
  intros Ha. cbn [StreamCommand.parse_stream].
  apply streams_message_head; [exact Ha|].
  apply streams_get. intros c ->. cbn [v_read andb]. rewrite Z.ltb_irrefl.
  apply streams_ret.
Qed.

(** The header that ends a response. *)
Definition last_header (h : Header) : Prop :=
  h_result h = 0 /\ Z.land (h_info3 h) INFO3_LAST = INFO3_LAST.

Lemma last_record_runs size h inc n :
  last_header h ->
  runs (stream_parse_record size) (View (Some ([], header_bytes h)) inc n) (inl (None, false))
    (View (Some ([], header_bytes h)) inc n).
Proof.
  intros [Hr Hl]. unfold stream_parse_record.
  eapply look_step; [intros rt; apply (flags_look _ rt 5); auto|]. cbn [Z.eqb].
  rewrite Hr. change (ResultCode.from_u8 0) with ResultCode.Ok.
  rewrite bool_decide_eq_false_2 by auto.
  eapply look_step; [intros rt; apply (flags_look _ rt 3); auto|]. cbn [Z.eqb Pos.eqb].
  rewrite Hl. apply runs_ret.
Qed.

Lemma parse_stream_last f size h r b inc n :
  last_header h -> Recordset.active r = true -> n < size ->
  streams (StreamCommand.parse_stream (S f) size) r (View b (header_bytes h ++ inc) n)
    (inl false) r (View (Some ([], header_bytes h)) inc (n + MSG_REMAINING_HEADER_SIZE)).
Proof.
  intros Hh Ha Hn. cbn [StreamCommand.parse_stream].
  apply streams_message_head; [exact Ha|].
  apply streams_get. intros c ->. cbn [v_read]. decide_tests. cbn [andb].
  eapply streams_bind.
  { apply streams_conn, (runs_read_buffer b (header_bytes h)); [apply len_header_bytes|].
    unfold MAX_BUFFER_SIZE, MSG_REMAINING_HEADER_SIZE. lia. }
  eapply (streams_bind _ _ _ _ _ _ _ _ (inl (None, false))); [|apply streams_ret].
  apply streams_conn, runs_catch, last_record_runs, Hh.
Qed.

(** ** Groups *)

Lemma read_msg_size_takes v t size :
  in_u 48 size -> takes (read_msg_size None) (proto v t size) size.
Proof.
  intros Hs. apply reads_takes. unfold read_msg_size, read_i64, read_u64.
  eapply reads_eq; [|apply app_nil_r|].
  { eapply reads_bind; [|apply reads_ret].
    eapply reads_eq; [|apply app_nil_r|reflexivity].
    eapply reads_bind; [|apply reads_ret].
    apply (read_int_reads 8 _ (fun x => x)), len_proto. }
  cbv beta. rewrite proto_size_signed by exact Hs.
  unfold as_u64. apply wrap_u_id. unfold in_u in *. change (2 ^ 48) with 281474976710656 in Hs.
  change (2 ^ 64) with 18446744073709551616. lia.
Qed.

Lemma group_head_runs v t size inc n :
  in_u 48 size ->
  runs (Connection.lift (read_msg_size None)) (View (Some ([], proto v t size)) inc n) (inl size)
    (View (Some (proto v t size, [])) inc n).
Proof.
  intros Hs. pose proof (runs_takes _ [] (proto v t size) [] inc n _
    (read_msg_size_takes v t size Hs)) as Hm. rewrite app_nil_r in Hm. exact Hm.
Qed.

Lemma bookmark_runs b inc n : runs Connection.bookmark (View b inc n) (inl tt) (View b inc 0).
Proof.
  intros c Hc. eexists. split; [reflexivity|].
  split; [|split; reflexivity]. split; [apply Hc|]. split; [apply Hc|reflexivity].
Qed.

(** The head of a group: its size, from which the count of bytes starts. *)
Lemma parse_result_group f v t size r b inc n res r' w' :
  in_u 48 size -> 0 < size ->
  streams (let! status := StreamCommand.parse_stream f size in
           if status then StreamCommand.parse_result f else ret tt)
    r (View (Some (proto v t size, [])) inc 0) res r' w' ->
  streams (StreamCommand.parse_result (S f)) r (View b (proto v t size ++ inc) n)
    res r' w'.
Proof.
  intros Hs Hp H. cbn [StreamCommand.parse_result].
  eapply streams_bind.
  { apply streams_conn, (runs_read_buffer b (proto v t size)); [apply len_proto|].
    unfold MAX_BUFFER_SIZE. lia. }
  eapply streams_bind; [apply streams_conn, group_head_runs, Hs|].
  eapply streams_bind; [apply streams_conn, bookmark_runs|].
  decide_tests. exact H.
Qed.

Definition group_bytes (g : Z * Z * list StreamMessage) : bytes :=
  let '(v, t, ms) := g in proto v t (len (payload ms)) ++ payload ms.

Definition group_ok (g : Z * Z * list StreamMessage) : Prop :=
  Forall stream_ok g.2 /\ g.2 <> [] /\ len (payload g.2) < 2 ^ 48.

Definition group_fuel (g : Z * Z * list StreamMessage) : nat := (2 + length g.2)%nat.

Lemma in_u_len {A} w (l : list A) : len l < 2 ^ w -> in_u w (len l).
Proof. pose proof (len_nonneg l). unfold in_u. lia. Qed.

Lemma group_size g : group_ok g -> in_u 48 (len (payload g.2)) /\ 0 < len (payload g.2).
Proof.
  destruct g as [[v t] ms]. unfold group_ok. cbn. intros (_ & Hne & Hl).
  split; [apply in_u_len, Hl|]. destruct ms as [|m ms]; [contradiction|].
  cbn [fmap list_fmap concat]. rewrite len_app. pose proof (len_message_pos m).
  pose proof (len_nonneg (payload ms)). lia.
Qed.

Definition group_records (gs : list (Z * Z * list StreamMessage)) : list Recordset.item :=
  concat ((fun g => records g.2) <$> gs).

Lemma parse_result_groups F gs : forall r b inc n res r' w',
  Forall group_ok gs -> room_for (len (group_records gs)) r ->
  (forall f n, (F <= f)%nat ->
    streams (StreamCommand.parse_result f) (pushed r (group_records gs))
      (View None inc n) res r' w') ->
  forall f, (sum_list (group_fuel <$> gs) + F <= f)%nat ->
  streams (StreamCommand.parse_result f) r
    (View b (concat (group_bytes <$> gs) ++ inc) n) res r' w'.
Proof.
  induction gs as [|g gs IH]; intros r b inc n res r' w' Hok Hr H f Hf.
  - cbn in *. specialize (H f n Hf). rewrite pushed_nil in H. apply streams_any, H.
  - inversion_clear Hok as [|? ? Hg Hgs].
    destruct (group_size g Hg) as [Hsz Hpos]. destruct Hg as (Hms & _ & _).
    unfold group_records in Hr, H. cbn [fmap list_fmap concat] in Hr, H.
    fold (group_records gs) in Hr, H. rewrite len_app in Hr. rewrite pushed_app in H.
    pose proof (len_nonneg (records g.2)). pose proof (len_nonneg (group_records gs)).
    change (2 + length g.2 + sum_list (group_fuel <$> gs) + F <= f)%nat in Hf.
    destruct f as [|f]; [lia|].
    destruct g as [[v t] ms]. cbn [group_bytes fmap list_fmap concat fst snd] in *.
    rewrite <- !(assoc_L (++)).
    apply parse_result_group; [exact Hsz|exact Hpos|].
    eapply streams_bind.
    + replace f with (length ms + S (f - length ms - 1))%nat by lia.
      eapply parse_stream_messages; [exact Hms|lia|apply (room_le _ _ _ Hr); lia|].
      rewrite Z.add_0_l. apply parse_stream_end, Hr.
    + cbv beta iota.
      replace (length ms + S (f - length ms - 1))%nat with f by lia.
      apply (IH _ None inc _ _ _ _ Hgs); [apply room_app, Hr|exact H|].
      lia.
Qed.

(** A scan or query response of any number of groups, ended by a last
    message, pushes the records of all groups on the record set in order, leaves
    out the ends of partitions, and takes exactly the response from the stream,
    when the record set is active and has room and nobody else uses it. *)
Theorem stream_response (f : nat) (s : StreamCommand) (c : Connection)
    (gs : list (Z * Z * list StreamMessage)) (v t : Z) (ms : list StreamMessage)
    (h : Header) (rest : bytes) :
  let r := StreamCommand.recordset s in
  let all := group_records gs ++ records ms in
  let last := payload ms ++ header_bytes h in
  Forall group_ok gs -> Forall stream_ok ms -> last_header h -> len last < 2 ^ 48 ->
  room_for (len all) r ->
  (sum_list (group_fuel <$> gs) + length ms + 2 <= f)%nat ->
  incoming (conn c)
  = concat (group_bytes <$> gs) ++ proto v t (len last) ++ last ++ rest ->
  exists s' c',
    StreamCommand.parse_result f (s, c) = Ret tt (s', c') /\
    StreamCommand.recordset s' = pushed r all /\
    incoming (conn c') = rest /\ quiet c c'.
Proof.
  intros r all last Hgs Hms Hh Hl Hr Hf Hi.
  pose proof (len_nonneg (group_records gs)). pose proof (len_nonneg (records ms)).
  pose proof (len_nonneg (payload ms)).
  assert (len last = len (payload ms) + 22) as Hlast
    by (subst last; rewrite len_app, len_header_bytes; reflexivity).
  subst all. rewrite len_app in Hr.
  assert (exists b n, streams (StreamCommand.parse_result f) r
    (View None (incoming (conn c)) (bytes_read c)) (inl tt)
    (pushed r (group_records gs ++ records ms)) (View b rest n)) as (b & n & Hs).
  { do 2 eexists. rewrite Hi.
    apply (parse_result_groups (length ms + 2));
      [exact Hgs|apply (room_le _ _ _ Hr); lia| |lia].
    intros f' n' Hf'. destruct f' as [|f']; [lia|].
    apply parse_result_group; [apply in_u_len, Hl|lia|].
    eapply (streams_bind _ _ _ _ _ _ _ _ false); [|apply streams_ret].
    subst last. rewrite <- (assoc_L (++)).
    replace f' with (length ms + S (f' - length ms - 1))%nat by lia.
    eapply parse_stream_messages; [exact Hms|lia|apply room_app, Hr|].
    rewrite pushed_app. apply parse_stream_last; [exact Hh|apply Hr|lia]. }
  destruct (Hs s c eq_refl) as (s' & c' & E & Hr' & Hc' & Hq).
  { split; [exact I|split; reflexivity]. }
  exists s', c'. repeat split; [exact E|exact Hr'|apply Hc'|apply Hq..].
Qed.

(** ** When the consumer has gone, and when the server fails *)

Lemma streams_at {A} (m : M (StreamCommand * Connection) A) s (c : Connection) res r' inc :
  (exists b n, streams m (StreamCommand.recordset s)
     (View None (incoming (conn c)) (bytes_read c)) res r' (View b inc n)) ->
  exists s' c', m (s, c) = ends res (s', c') /\
    StreamCommand.recordset s' = r' /\ incoming (conn c') = inc /\ quiet c c'.
Proof.
  intros (b & n & H). destruct (H s c eq_refl) as (s' & c' & E & Hr & Hc & Hq).
  { split; [exact I|split; reflexivity]. }
  exists s', c'. split; [exact E|]. split; [exact Hr|]. split; [apply Hc|exact Hq].
Qed.

(** A group announced as empty ends the response. *)
Lemma parse_result_empty f v t r b inc n :
  streams (StreamCommand.parse_result (S f)) r (View b (proto v t 0 ++ inc) n)
    (inl tt) r (View (Some (proto v t 0, [])) inc 0).
Proof.
  cbn [StreamCommand.parse_result].
  eapply streams_bind.
  { apply streams_conn, (runs_read_buffer b (proto v t 0)); [apply len_proto|].
    unfold MAX_BUFFER_SIZE. lia. }
  eapply streams_bind; [apply streams_conn, group_head_runs; unfold in_u; lia|].
  eapply streams_bind; [apply streams_conn, bookmark_runs|].
  cbn [Z.ltb Z.compare]. eapply (streams_bind _ _ _ _ _ _ _ _ false); apply streams_ret.
Qed.

Lemma parse_stream_inactive f size r w :
  Recordset.active r = false ->
  streams (StreamCommand.parse_stream (S f) size) r w (inl true) r w.
Proof.
  intros Ha. cbn [StreamCommand.parse_stream].
  eapply (streams_bind _ _ _ _ _ _ _ _ false).
  { apply streams_access. unfold Recordset.is_active. rewrite Ha. reflexivity. }
  apply streams_get. intros c _. apply streams_ret.
Qed.

(** What the header of an ordinary record looks like to [parse_result]. *)
Lemma header_as_proto h :
  h_info2 h = 0 -> h_info3 h = 0 -> h_unused h = 0 -> h_result h = 0 ->
  in_u 16 (h_generation h) ->
  take 8 (header_bytes h) = proto 22 (h_info1 h) 0.
Proof.
  intros H2 H3 Hu Hr Hg. unfold header_bytes, proto, in_u in *.
  change (2 ^ 16) with 65536 in Hg.
  assert (forall n, (2 <= n)%nat -> (h_generation h / 2 ^ (8 * Z.of_nat n)) mod 256 = 0)
    as Hz.
  { intros n Hn. rewrite Z.div_small; [reflexivity|]. split; [lia|].
    apply (Z.lt_le_trans _ (2 ^ 16)); [change (2 ^ 16) with 65536; lia|].
    apply Z.pow_le_mono_r; lia. }
  rewrite H2, H3, Hu, Hr, !write_be_S, !write_be_0.
  rewrite (Hz 3%nat), (Hz 2%nat) by lia. reflexivity.
Qed.

(** Once the record set is closed, the next group is not read: the header
    of its first record is taken for the header of a group.  With an ordinary
    header this ends the command successfully with the rest of the records left
    on the connection, which goes back to the pool. *)
Theorem closed_stream (f : nat) (s : StreamCommand) (c : Connection) (v t : Z)
    (h : Header) (body rest : bytes) :
  Recordset.active (StreamCommand.recordset s) = false ->
  h_info2 h = 0 -> h_info3 h = 0 -> h_unused h = 0 -> h_result h = 0 ->
  in_u 16 (h_generation h) -> 22 + len body < 2 ^ 48 ->
  incoming (conn c) = proto v t (22 + len body) ++ header_bytes h ++ body ++ rest ->
  exists s' c',
    StreamCommand.parse_result (S (S f)) (s, c) = Ret tt (s', c') /\
    StreamCommand.recordset s' = StreamCommand.recordset s /\
    incoming (conn c') = drop 8 (header_bytes h) ++ body ++ rest /\ quiet c c'.
Proof.
  intros Ha H2 H3 Hu Hr Hg Hl Hi. pose proof (len_nonneg body).
  apply (streams_at _ _ _ (inl tt)). do 2 eexists. rewrite Hi.
  apply parse_result_group; [unfold in_u; lia|lia|].
  eapply streams_bind; [apply parse_stream_inactive, Ha|]. cbv iota.
  rewrite <- (take_drop 8 (header_bytes h)) at 1.
  rewrite header_as_proto, <- (assoc_L (++)) by assumption.
  apply parse_result_empty.
Qed.

Lemma push_full r x :
  in_u 64 (Recordset.record_queue_count r) ->
  Recordset.record_queue_size r <= Recordset.record_queue_count r ->
  Recordset.run (Recordset.push x) r = (Some x, r).
Proof.
  intros Hc Hs. unfold Recordset.run, Recordset.push, Recordset.enter. decide_tests.
  cbn. unfold Recordset.usize_incr, Recordset.usize_decr, wrap_u.
  rewrite Zminus_mod_idemp_l, Z.add_simpl_r, Z.mod_small by exact Hc.
  destruct r. reflexivity.
Qed.

(** The record set after an error was pushed on it, once. *)
Definition reported (e : ErrorKind) (r : Recordset) : Recordset :=
  if Recordset.record_queue_count r <? Recordset.record_queue_size r
  then pushed r [inr e] else r.

Lemma push_reported r e :
  in_u 64 (Recordset.record_queue_count r) -> in_u 64 (Recordset.record_queue_size r) ->
  exists back, Recordset.run (Recordset.push (inr e)) r = (back, reported e r).
Proof.
  intros Hc Hs. unfold reported.
  destruct (Z.ltb_spec (Recordset.record_queue_count r) (Recordset.record_queue_size r)).
  - exists None. unfold Recordset.run, Recordset.push, Recordset.enter. decide_tests.
    cbn. unfold Recordset.usize_incr. rewrite wrap_u_id by (unfold in_u in *; lia).
    destruct r. reflexivity.
  - exists (Some (inr e)). apply push_full; assumption.
Qed.

Lemma runs_catch_err {A} (m : M Connection A) w e w' :
  runs m w (inr e) w' -> runs (catch m) w (inl (inr e)) w'.
Proof.
  intros H c Hc. destruct (H c Hc) as (c' & E & Hc' & Hq).
  exists c'. unfold catch. rewrite E. split; [reflexivity|]. split; assumption.
Qed.

Lemma runs_get {A} (k : Connection -> M Connection A) w r w' :
  (forall c, bytes_read c = v_read w -> runs (k c) w r w') ->
  runs (bind get k) w r w'.
Proof. intros H c Hc. apply (H c); [apply Hc|exact Hc]. Qed.

(** The rest of the group is read before the error is raised. *)
Lemma stream_parse_record_error h body size inc n :
  let rc := ResultCode.from_u8 (h_result h) in
  rc <> ResultCode.Ok -> rc <> ResultCode.KeyNotFoundError ->
  len body <= MAX_BUFFER_SIZE -> size = n + len body ->
  runs (stream_parse_record size)
    (View (Some ([], header_bytes h)) (body ++ inc) n) (inr (ServerError rc))
    (View None inc size).
Proof.
  intros rc Hok Hnf Hl ->. pose proof (len_nonneg body). unfold stream_parse_record.
  eapply look_step; [intros rt; apply (flags_look _ rt 5); auto|]. cbn [Z.eqb].
  fold rc. rewrite bool_decide_eq_true_2 by exact Hok.
  apply runs_get. intros c ->. cbn [v_read].
  rewrite bool_decide_eq_false_2 by exact Hnf.
  destruct (Z.ltb_spec n (n + len body)); cbn [when].
  - eapply runs_bind; [|apply runs_throw]. eapply runs_forget.
    replace (n + len body - n) with (len body) by lia.
    apply runs_read_buffer; [reflexivity|exact Hl].
  - destruct body as [|x body]; [|rewrite len_cons in *; pose proof (len_nonneg body); lia].
    rewrite Z.add_0_r. eapply runs_forget, runs_bind; [apply runs_ret|apply runs_throw].
Qed.

(** An error message in a stream is not returned: the command succeeds
    after taking the group, and the error is pushed on the record set once, so it
    is lost when the queue is full. *)
Theorem stream_error (f : nat) (s : StreamCommand) (c : Connection) (v t : Z)
    (h : Header) (body rest : bytes) :
  let r := StreamCommand.recordset s in
  let rc := ResultCode.from_u8 (h_result h) in
  Recordset.active r = true ->
  in_u 64 (Recordset.record_queue_count r) -> in_u 64 (Recordset.record_queue_size r) ->
  rc <> ResultCode.Ok -> rc <> ResultCode.KeyNotFoundError ->
  len body <= MAX_BUFFER_SIZE ->
  incoming (conn c) = proto v t (22 + len body) ++ header_bytes h ++ body ++ rest ->
  exists s' c',
    StreamCommand.parse_result (S (S f)) (s, c) = Ret tt (s', c') /\
    StreamCommand.recordset s' = reported (ServerError rc) r /\
    incoming (conn c') = rest /\ quiet c c'.
Proof.
  intros r rc Ha Hc Hs Hok Hnf Hl Hi. pose proof (len_nonneg body).
  destruct (push_reported r (ServerError rc) Hc Hs) as [back Hpush].
  apply (streams_at _ _ _ (inl tt)). do 2 eexists. rewrite Hi.
  apply parse_result_group; [|lia|].
  { unfold in_u, MAX_BUFFER_SIZE in *. change (2 ^ 48) with 281474976710656. lia. }
  eapply (streams_bind _ _ _ _ _ _ _ _ false); [|apply streams_ret].
  cbn [StreamCommand.parse_stream]. apply streams_message_head; [exact Ha|].
  apply streams_get. intros c1 ->. cbn [v_read]. decide_tests. cbn [andb].
  eapply streams_bind.
  { apply streams_conn, (runs_read_buffer _ (header_bytes h)); [apply len_header_bytes|].
    unfold MAX_BUFFER_SIZE, MSG_REMAINING_HEADER_SIZE. lia. }
  eapply streams_bind.
  { apply streams_conn, runs_catch_err, stream_parse_record_error;
      [exact Hok|exact Hnf|exact Hl|reflexivity]. }
  cbv beta iota. eapply streams_bind; [|apply streams_ret].
  apply streams_perform, Hpush.
Qed.

End Alone.

(** ** Examples *)

Section Examples.

#[local] Existing Instance valuefmt_model.
#[local] Existing Instance clock_model.
#[local] Existing Instance alone.

Definition sample_parts : list key_part :=
  [PDigest (replicate 20 171); PNamespace (str "test"); PTable (str "people");
   PKey (Value.Int 7)].

Definition sample_message : StreamMessage :=
  mkStreamMessage (sample_header 0 4 1) sample_parts
    [mkResponseBin 1 (str "a") (Value.Int 5)].

(** The end of a partition. *)
Definition sample_done : StreamMessage :=
  mkStreamMessage (mkHeader 0 0 4 0 0 0 0 0 0 0) [] [].

Definition sample_last : Header := mkHeader 0 0 1 0 0 0 0 0 0 0.

Definition sample_stream (size : Z) (active : bool) : StreamCommand :=
  StreamCommand.new (Recordset.mkRecordset 1 0 size [] active 99).

Lemma sample_message_ok : stream_ok sample_message.
Proof.
  repeat split; try (vm_compute; congruence); try (unfold in_u; cbn; lia).
Qed.

Lemma sample_done_ok : stream_ok sample_done.
Proof.
  repeat split; try (vm_compute; congruence); try (unfold in_u; cbn; lia).
Qed.

Lemma stream_response_witness :
  let ms := [sample_message; sample_done] in
  let last := concat (message_bytes <$> ms) ++ header_bytes sample_last in
  let c := sample_conn (group_bytes (2, 3, ms) ++ proto 2 3 (len last) ++ last ++ [9]) in
  exists s' c',
    StreamCommand.parse_result 20 (sample_stream 2 true, c) = Ret tt (s', c') /\
    StreamCommand.recordset s'
    = pushed (Recordset.mkRecordset 1 0 2 [] true 99)
        [inl (message_record sample_message); inl (message_record sample_message)] /\
    incoming (conn c') = [9] /\ quiet c c'.
Proof.
  intros ms last c.
  apply (stream_response 20 (sample_stream 2 true) c [(2, 3, ms)] 2 3 ms sample_last [9]).
  - repeat constructor;
      first [apply sample_message_ok|apply sample_done_ok|vm_compute; congruence].
  - repeat constructor; first [apply sample_message_ok|apply sample_done_ok].
  - split; reflexivity.
  - vm_compute. reflexivity.
  - vm_compute. repeat split; congruence.
  - vm_compute. lia.
  - vm_compute. reflexivity.
Defined.

(** The consumer has closed the record set: the command succeeds and leaves
    the rest of the record, and what follows, on the connection. *)
Lemma closed_stream_witness :
  let body := concat (part_bytes <$> sample_parts) in
  let h := sample_header 0 4 0 in
  let c := sample_conn (proto 2 3 (22 + len body) ++ header_bytes h ++ body ++ [9]) in
  exists s' c',
    StreamCommand.parse_result 2 (sample_stream 2 false, c) = Ret tt (s', c') /\
    StreamCommand.recordset s' = StreamCommand.recordset (sample_stream 2 false) /\
    incoming (conn c') = drop 8 (header_bytes h) ++ body ++ [9] /\ quiet c c'.
Proof.
  intros body h c.
  apply (closed_stream 0 (sample_stream 2 false) c 2 3 h body [9]); try reflexivity.
  unfold in_u. cbn. lia.
Defined.

(** The queue is full: nobody learns of the error. *)
Lemma stream_error_witness :
  let h := sample_header 4 0 0 in
  let c := sample_conn (proto 2 3 (22 + len [7; 7]) ++ header_bytes h ++ [7; 7] ++ [9]) in
  exists s' c',
    StreamCommand.parse_result 2 (sample_stream 0 true, c) = Ret tt (s', c') /\
    StreamCommand.recordset s' = Recordset.mkRecordset 1 0 0 [] true 99 /\
    incoming (conn c') = [9] /\ quiet c c'.
Proof.
  intros h c.
  apply (stream_error 0 (sample_stream 0 true) c 2 3 h [7; 7] [9]); try reflexivity;
    try (unfold in_u; cbn; lia); vm_compute; congruence.
Defined.

End Examples.
