(* ===== verification/BatchResponseFacts.v ===== *)
(** * Batch responses

    What [BatchReadCommand::parse_result] does with a well-formed response: the
    record of every key that is answered lands in the row of its index, and
    every other row is left alone. *)

From stdpp Require Import base list strings gmap.
From Stdlib Require Import ZArith Lia Setoid Morphisms.
From S2P Require Import Prelude ResultCodes Monad ByteOrder Slices Text Wire.
From S2P Require Import Buffer BufferFacts Values Encoder Decoder RoundTrip Particle.
From S2P Require Import Expressions Policy Records Connection Commands Responses.
From S2P Require Import ConnectionFacts ResponseFacts Recordset Streams StreamFacts.
Import Connection.

Section Batch.
Context `{BO : ByteOrder} `{VF : ValueFmt} `{CL : Clock}.

Abbreviation payload ms := (concat (message_bytes <$> ms)).

(** The answer for one key: its index travels in the place of the TTL. *)
Definition answer_index (m : StreamMessage) : Z := h_ttl (sm_header m).

Definition answer (m : StreamMessage) : option Record_ :=
  if h_result (sm_header m) =? 0 then Some (message_record m) else None.

Definition answer_ok (n : nat) (m : StreamMessage) : Prop :=
  message_ok m /\
  (h_result (sm_header m) = 0 \/ h_result (sm_header m) = 2 /\ sm_bins m = []) /\
  (Z.to_nat (answer_index m) < n)%nat.

Definition assign (cmd : BatchReadCommand) (m : StreamMessage) : BatchReadCommand :=
  BatchReadCommand.mkBatchReadCommand (BatchReadCommand.policy cmd)
    (alter (fun br => mkBatchRead (br_key br) (br_bins br) (answer m))
       (Z.to_nat (answer_index m)) (BatchReadCommand.batch_reads cmd))
    (BatchReadCommand.offsets cmd).

Definition rows (cmd : BatchReadCommand) : nat :=
  length (BatchReadCommand.batch_reads cmd).

Lemma rows_assign cmd m : rows (assign cmd m) = rows cmd.
Proof. unfold rows. cbn. apply length_alter. Qed.

Lemma alter_lookup {A} (g : A -> A) (l : list A) (i : nat) x :
  l !! i = Some x -> <[i := g x]> l = alter g i l.
Proof.
  revert i. induction l as [|y l IH]; intros [|i]; cbn; try discriminate.
  - intros [= ->]. reflexivity.
  - intros H. f_equal. apply IH, H.
Qed.

Lemma set_record_assign cmd m :
  (Z.to_nat (answer_index m) < rows cmd)%nat ->
  BatchReadCommand.set_record (answer_index m) (answer m) cmd = Ret tt (assign cmd m).
Proof.
  intros Hi. unfold BatchReadCommand.set_record, assign.
  destruct (lookup_lt_is_Some_2 _ _ Hi) as [br Hbr]. rewrite Hbr.
  do 2 f_equal.
  apply (alter_lookup (fun br => mkBatchRead (br_key br) (br_bins br) (answer m))), Hbr.
Qed.

Lemma parse_answer_runs n0 m inc n :
  answer_ok n0 m ->
  let body := concat (part_bytes <$> sm_key m) ++ concat (bin_bytes <$> sm_bins m) in
  runs BatchReadCommand.parse_record
    (View (Some ([], header_bytes (sm_header m))) (body ++ inc) n)
    (inl (Some (BatchReadCommand.mkBatchRecord (answer_index m) (answer m))))
    (View None inc (n + len body)).
Proof.
  intros ((Hh & Hf & Ho & Hp & Hb & Hlast) & Hr & _) body.
  unfold BatchReadCommand.parse_record.
  eapply look_step; [intros rt; apply (flags_look _ rt 5); auto|]. cbn [Z.eqb].
  eapply (runs_pure (h_result (sm_header m) =? 0)).
  { destruct Hr as [->|[-> _]]; reflexivity. }
  eapply look_step; [intros rt; apply (flags_look _ rt 3); auto|]. cbn [Z.eqb Pos.eqb].
  apply Z.eqb_neq in Hlast. rewrite Hlast.
  eapply runs_bind; [apply record_numbers_runs, Hh|]. cbv beta iota.
  rewrite Hf, Ho. unfold len at 1 2. rewrite !Nat2Z.id.
  subst body. rewrite <- (assoc_L (++)), len_app, Z.add_assoc.
  eapply runs_bind; [apply parse_key_runs, Hp|]. unfold answer.
  destruct (Z.eqb_spec (h_result (sm_header m)) 0) as [E|E].
  - eapply runs_bind; [|apply runs_ret].
    eapply runs_bind; [apply bins_runs, Hb|apply runs_ret].
  - destruct Hr as [Hr|[_ Hnil]]; [contradiction|]. rewrite Hnil. cbn.
    rewrite Z.add_0_r. eapply runs_bind; apply runs_ret.
Qed.

Lemma drives_get {C A} (k : Connection -> M (C * Connection) A) x w r x' w' :
  (forall c, bytes_read c = v_read w -> drives (k c) x w r x' w') ->
  drives (bind (on_snd get) k) x w r x' w'.
Proof. intros H c Hc. apply (H c); [apply Hc|exact Hc]. Qed.

(** One turn of [parse_group]. *)
Lemma parse_group_answer f size m cmd b inc n r cmd' w' :
  answer_ok (rows cmd) m -> n < size ->
  drives (BatchReadCommand.parse_group f size) (assign cmd m)
    (View None inc (n + len (message_bytes m))) r cmd' w' ->
  drives (BatchReadCommand.parse_group (S f) size) cmd
    (View b (message_bytes m ++ inc) n) r cmd' w'.
Proof.
  intros Hm Hn H. cbn [BatchReadCommand.parse_group].
  apply drives_get. intros c ->. cbn [v_read]. decide_tests.
  unfold message_bytes. rewrite <- (assoc_L (++)).
  eapply drives_bind.
  { apply drives_conn, (runs_read_buffer b (header_bytes (sm_header m))).
    - apply len_header_bytes.
    - unfold MAX_BUFFER_SIZE, MSG_REMAINING_HEADER_SIZE. lia. }
  eapply drives_bind.
  { apply drives_conn, (parse_answer_runs (rows cmd)), Hm. }
  cbv beta iota. cbn [BatchReadCommand.batch_index BatchReadCommand.record].
  rewrite <- Z.add_assoc, <- len_message.
  eapply drives_bind; [apply drives_self, set_record_assign, Hm|]. exact H.
Qed.

Lemma drives_any {C A} (m : M (C * Connection) A) x b inc n r x' w' :
  drives m x (View None inc n) r x' w' -> drives m x (View b inc n) r x' w'.
Proof. intros H c Hc. apply H. split; [exact I|apply Hc]. Qed.

Lemma parse_group_answers f size ms : forall cmd b inc n r cmd' w',
  Forall (answer_ok (rows cmd)) ms -> n + len (payload ms) <= size ->
  drives (BatchReadCommand.parse_group f size) (foldl assign cmd ms)
    (View None inc (n + len (payload ms))) r cmd' w' ->
  drives (BatchReadCommand.parse_group (length ms + f) size) cmd
    (View b (payload ms ++ inc) n) r cmd' w'.
Proof.
  induction ms as [|m ms IH]; intros cmd b inc n r cmd' w' Hok Hs H.
  - cbn in *. rewrite Z.add_0_r in H. apply drives_any, H.
  - inversion_clear Hok as [|? ? Hm Hms].
    cbn [fmap list_fmap concat foldl] in *. rewrite len_app in Hs, H.
    pose proof (len_message_pos m). pose proof (len_nonneg (payload ms)).
    cbn [length Nat.add]. rewrite <- (assoc_L (++)).
    apply parse_group_answer; [exact Hm|lia|].
    apply IH; [rewrite rows_assign; exact Hms|lia|].
    rewrite <- Z.add_assoc. exact H.
Qed.

Lemma parse_group_end f size cmd b inc :
  drives (BatchReadCommand.parse_group (S f) size) cmd (View b inc size) (inl true)
    cmd (View b inc size).
Proof.
  cbn [BatchReadCommand.parse_group].
  apply drives_get. intros c ->. cbn [v_read]. rewrite Z.ltb_irrefl. apply drives_ret.
Qed.

Lemma parse_group_last f size h cmd b inc n :
  last_header h -> n < size ->
  drives (BatchReadCommand.parse_group (S f) size) cmd
    (View b (header_bytes h ++ inc) n) (inl false) cmd
    (View (Some ([], header_bytes h)) inc (n + MSG_REMAINING_HEADER_SIZE)).
Proof.
  intros [Hr Hl] Hn. cbn [BatchReadCommand.parse_group].
  apply drives_get. intros c ->. cbn [v_read]. decide_tests.
  eapply drives_bind.
  { apply drives_conn, (runs_read_buffer b (header_bytes h)); [apply len_header_bytes|].
    unfold MAX_BUFFER_SIZE, MSG_REMAINING_HEADER_SIZE. lia. }
  eapply (drives_bind _ _ _ _ _ _ _ _ None); [|apply drives_ret].
  apply drives_conn. unfold BatchReadCommand.parse_record.
  eapply look_step; [intros rt; apply (flags_look _ rt 5); auto|]. cbn [Z.eqb].
  rewrite Hr. eapply (runs_pure true); [reflexivity|].
  eapply look_step; [intros rt; apply (flags_look _ rt 3); auto|]. cbn [Z.eqb Pos.eqb].
  rewrite Hl. apply runs_ret.
Qed.

(** The head of a group. *)
Lemma batch_result_group f v t size cmd b inc n r cmd' w' :
  in_u 48 size -> 0 < size ->
  drives (let! more := BatchReadCommand.parse_group f size in
          if more then BatchReadCommand.parse_result f else ret tt)
    cmd (View (Some (proto v t size, [])) inc 0) r cmd' w' ->
  drives (BatchReadCommand.parse_result (S f)) cmd (View b (proto v t size ++ inc) n)
    r cmd' w'.
Proof.
  intros Hs Hp H. cbn [BatchReadCommand.parse_result].
  eapply drives_bind.
  { apply drives_conn, (runs_read_buffer b (proto v t size)); [apply len_proto|].
    unfold MAX_BUFFER_SIZE. lia. }
  eapply drives_bind.
  { apply drives_conn. pose proof (runs_takes _ [] (proto v t size) [] inc (n + 8) _
      (read_msg_size_takes v t size Hs)) as Hm.
    rewrite app_nil_r in Hm. exact Hm. }
  eapply (drives_bind _ _ _ _ cmd (View (Some (proto v t size, [])) inc 0) _ _ tt).
  { apply drives_conn. intros c Hc. eexists. split; [reflexivity|].
    split; [|split; reflexivity]. split; [apply Hc|]. split; [apply Hc|reflexivity]. }
  decide_tests. exact H.
Qed.

(** A group of answers, with the version and type of its header. *)
Definition batch_group_ok (n : nat) (g : Z * Z * list StreamMessage) : Prop :=
  Forall (answer_ok n) g.2 /\ g.2 <> [] /\ len (payload g.2) < 2 ^ 48.

Definition group_answers (gs : list (Z * Z * list StreamMessage)) : list StreamMessage :=
  concat (snd <$> gs).

Lemma rows_assigned ms : forall cmd, rows (foldl assign cmd ms) = rows cmd.
Proof.
  induction ms as [|m ms IH]; intros cmd; [reflexivity|].
  cbn. rewrite IH. apply rows_assign.
Qed.

Lemma batch_group_size n g :
  batch_group_ok n g -> in_u 48 (len (payload g.2)) /\ 0 < len (payload g.2).
Proof.
  destruct g as [[v t] ms]. unfold batch_group_ok. cbn. intros (_ & Hne & Hl).
  split; [apply in_u_len, Hl|]. destruct ms as [|m ms]; [contradiction|].
  cbn [fmap list_fmap concat]. rewrite len_app. pose proof (len_message_pos m).
  pose proof (len_nonneg (payload ms)). lia.
Qed.

Lemma batch_result_groups F gs : forall cmd b inc n r cmd' w',
  Forall (batch_group_ok (rows cmd)) gs ->
  (forall f n, (F <= f)%nat ->
    drives (BatchReadCommand.parse_result f) (foldl assign cmd (group_answers gs))
      (View None inc n) r cmd' w') ->
  forall f, (sum_list (group_fuel <$> gs) + F <= f)%nat ->
  drives (BatchReadCommand.parse_result f) cmd
    (View b (concat (group_bytes <$> gs) ++ inc) n) r cmd' w'.
Proof.
  induction gs as [|g gs IH]; intros cmd b inc n r cmd' w' Hok H f Hf.
  - cbn in *. specialize (H f n Hf). apply drives_any, H.
  - inversion_clear Hok as [|? ? Hg Hgs].
    destruct (batch_group_size _ g Hg) as [Hsz Hpos]. destruct Hg as (Hms & _ & _).
    unfold group_answers in H. cbn [fmap list_fmap concat] in H.
    fold (group_answers gs) in H. rewrite foldl_app in H.
    change (2 + length g.2 + sum_list (group_fuel <$> gs) + F <= f)%nat in Hf.
    destruct f as [|f]; [lia|].
    destruct g as [[v t] ms]. cbn [group_bytes fmap list_fmap concat fst snd] in *.
    rewrite <- !(assoc_L (++)).
    apply batch_result_group; [exact Hsz|exact Hpos|].
    eapply drives_bind.
    + replace f with (length ms + S (f - length ms - 1))%nat by lia.
      eapply parse_group_answers; [exact Hms|lia|].
      rewrite Z.add_0_l. apply parse_group_end.
    + cbv beta iota.
      replace (length ms + S (f - length ms - 1))%nat with f by lia.
      apply (IH _ None); [|exact H|lia].
      rewrite rows_assigned. exact Hgs.
Qed.

(** A batch response of any number of groups stores the answer of every
    message in the row of its index ([None] for a key that is not found), leaves
    the other rows alone, and takes exactly the response from the stream. *)
Theorem batch_response (f : nat) (cmd : BatchReadCommand) (c : Connection)
    (gs : list (Z * Z * list StreamMessage)) (v t : Z) (ms : list StreamMessage)
    (h : Header) (rest : bytes) :
  let last := payload ms ++ header_bytes h in
  Forall (batch_group_ok (rows cmd)) gs -> Forall (answer_ok (rows cmd)) ms ->
  last_header h -> len last < 2 ^ 48 ->
  (sum_list (group_fuel <$> gs) + length ms + 2 <= f)%nat ->
  incoming (conn c)
  = concat (group_bytes <$> gs) ++ proto v t (len last) ++ last ++ rest ->
  exists c',
    BatchReadCommand.parse_result f (cmd, c)
    = Ret tt (foldl assign cmd (group_answers gs ++ ms), c') /\
    incoming (conn c') = rest /\ quiet c c'.
Proof.
  intros last Hgs Hms Hh Hl Hf Hi. pose proof (len_nonneg (payload ms)).
  assert (len last = len (payload ms) + 22) as Hlast
    by (subst last; rewrite len_app, len_header_bytes; reflexivity).
  apply (drives_at _ _ _ (inl tt)). do 2 eexists. rewrite Hi.
  apply (batch_result_groups (length ms + 2)); [exact Hgs| |lia].
  intros f' n' Hf'. destruct f' as [|f']; [lia|].
  apply batch_result_group; [apply in_u_len, Hl|lia|].
  eapply (drives_bind _ _ _ _ _ _ _ _ false); [|apply drives_ret].
  subst last. rewrite <- (assoc_L (++)).
  replace f' with (length ms + S (f' - length ms - 1))%nat by lia.
  eapply parse_group_answers; [rewrite rows_assigned; exact Hms|lia|].
  rewrite foldl_app. apply parse_group_last; [exact Hh|lia].
Qed.

End Batch.

(** ** Example *)

Section Example.

#[local] Existing Instance valuefmt_model.
#[local] Existing Instance clock_model.

(** The second key is found, the first is not. *)
Definition sample_answers : list StreamMessage :=
  [mkStreamMessage (mkHeader 0 0 0 0 0 3 77 1 4 1) sample_parts
     [mkResponseBin 1 (str "a") (Value.Int 5)];
   mkStreamMessage (mkHeader 0 0 0 0 2 0 0 0 0 0) [] []].

Definition sample_batch : BatchReadCommand :=
  BatchReadCommand.mkBatchReadCommand BatchPolicy_default
    [BatchRead_new sample_key Bins.All; BatchRead_new sample_key Bins.All] [0; 1].

Lemma batch_response_witness :
  let ms := sample_answers in
  let last := concat (message_bytes <$> ms) ++ header_bytes sample_last in
  let c := sample_conn (group_bytes (2, 3, ms) ++ proto 2 3 (len last) ++ last ++ [9]) in
  exists c',
    BatchReadCommand.parse_result 20 (sample_batch, c)
    = Ret tt (foldl assign sample_batch (ms ++ ms), c') /\
    incoming (conn c') = [9] /\ quiet c c'.
Proof.
  intros ms last c.
  assert (Forall (answer_ok (rows sample_batch)) ms) as Hms.
  { repeat constructor; try (vm_compute; congruence); try (unfold in_u; cbn; lia);
      try (vm_compute; lia); right; split; reflexivity. }
  apply (batch_response 20 sample_batch c [(2, 3, ms)] 2 3 ms sample_last [9]).
  - constructor; [|constructor]. split; [exact Hms|]. split; [discriminate|].
    vm_compute. reflexivity.
  - exact Hms.
  - split; reflexivity.
  - vm_compute. reflexivity.
  - vm_compute. lia.
  - vm_compute. reflexivity.
Defined.

End Example.
