(* ===== verification/RecordsetFacts.v ===== *)
(** * Record sets under concurrency

    Threads that stream records from the nodes push them on a record set while
    another thread iterates over it.  A thread is the program of accesses that is
    left of its current method, and each step of [step] is one access of one of
    them.  [all_delivered]: in every interleaving the queue stays within its
    size; when the iteration ends on a set that nobody closed, every record has been
    delivered, exactly once; and it can always go on to its end.  The positions of the threads in their methods
    are named ([producer], [consumer]), with what their next access does
    ([produce], [consume]); the programs take exactly these steps. *)

From stdpp Require Import base list strings gmap relations.
From Stdlib Require Import ZArith Lia Permutation.
From S2P Require Import Prelude ResultCodes Monad Values Policy Records Recordset.
Import Recordset.

(** ** Threads *)

(** A streaming thread: [todo] are the records of its response and [err] the
    error that ends it, if any.  The constructors are its positions in the code:
    before the test of [is_active], before the [fetch_add] of [push], after it
    with room or without, and in [signal_end] before each of its accesses. *)
Inductive producer : Type :=
| Ready (todo : list Record_) (err : option ErrorKind)
| Trying (x : item) (todo : list Record_) (err : option ErrorKind)
| Entered (x : item) (todo : list Record_) (err : option ErrorKind)
| Refused (x : item) (todo : list Record_) (err : option ErrorKind)
| Ending
| Closing
| Gone.

(** The iterating thread in [next]: before the test of [is_active], of
    [is_empty], before [pop], and after it with a record; [Finished] is the
    return of [None]. *)
Inductive consumer : Type :=
| Top
| Emptiness
| Popping
| Taken (x : item)
| Finished.

(** A record set with its threads, at positions [T] and [C], and what became of the
    items. *)
Record system (T C : Type) : Type := mkSystem {
  set : Recordset;
  producers : list T;
  iterating : C;
  delivered : list item;
  lost : list item;
  dropped : list item;
  closed : bool
}.

Arguments mkSystem {T C} _ _ _ _ _ _ _.
Arguments set {T C} _.
Arguments producers {T C} _.
Arguments iterating {T C} _.
Arguments delivered {T C} _.
Arguments lost {T C} _.
Arguments dropped {T C} _.
Arguments closed {T C} _.

(** Any thread makes an access; the user may close the set at any time. *)
Inductive step {T C}
    (produce : Recordset -> T -> Recordset -> T -> list item -> list item -> Prop)
    (consume : Recordset -> C -> Recordset -> C -> list item -> Prop)
    : system T C -> system T C -> Prop :=
| step_produce s l1 p l2 r p' ls ds :
    producers s = l1 ++ p :: l2 ->
    produce (set s) p r p' ls ds ->
    step produce consume s
      (mkSystem r (l1 ++ p' :: l2) (iterating s) (delivered s) (lost s ++ ls)
         (dropped s ++ ds) (closed s))
| step_consume s r c out :
    consume (set s) (iterating s) r c out ->
    step produce consume s
      (mkSystem r (producers s) c (delivered s ++ out) (lost s) (dropped s) (closed s))
| step_close s :
    step produce consume s
      (mkSystem (Recordset.close (set s)) (producers s) (iterating s) (delivered s)
         (lost s) (dropped s) true).

(** What is left of a response. *)
Definition rest (todo : list Record_) (err : option ErrorKind) : list item :=
  (inl <$> todo) ++ match err with Some e => [inr e] | None => [] end.

(** After an item: an error ends the stream. *)
Definition proceed (x : item) (todo : list Record_) (err : option ErrorKind) : producer :=
  match x with inl _ => Ready todo err | inr _ => Ending end.

(** One atomic access of a streaming thread: the record set, the thread, and the
    items that it gives up. *)
Inductive produce : Recordset -> producer -> Recordset -> producer ->
    list item -> list item -> Prop :=
| produce_record r x todo err :
    is_active r = true ->
    produce r (Ready (x :: todo) err) r (Trying (inl x) todo err) [] []
| produce_error r e :
    is_active r = true ->
    produce r (Ready [] (Some e)) r (Trying (inr e) [] None) [] []
| produce_stop r todo err :
    is_active r = false ->
    produce r (Ready todo err) r Ending [] (rest todo err)
| produce_end r :
    produce r (Ready [] None) r Ending [] []
| produce_enter r x todo err :
    record_queue_count r < record_queue_size r ->
    produce r (Trying x todo err)
      (set_count (usize_incr (record_queue_count r)) r) (Entered x todo err) [] []
| produce_refuse r x todo err :
    record_queue_size r <= record_queue_count r ->
    produce r (Trying x todo err)
      (set_count (usize_incr (record_queue_count r)) r) (Refused x todo err) [] []
| produce_push r x todo err :
    produce r (Entered x todo err)
      (set_queue (record_queue r ++ [x]) r) (proceed x todo err) [] []
| produce_retry r x todo err :
    produce r (Refused (inl x) todo err)
      (set_count (usize_decr (record_queue_count r)) r) (Trying (inl x) todo err) [] []
| produce_lose r e todo err :
    produce r (Refused (inr e) todo err)
      (set_count (usize_decr (record_queue_count r)) r) Ending [inr e] []
| produce_last r :
    instances r = 1 ->
    produce r Ending (set_instances (usize_decr (instances r)) r) Closing [] []
| produce_leave r :
    instances r <> 1 ->
    produce r Ending (set_instances (usize_decr (instances r)) r) Gone [] []
| produce_close r :
    produce r Closing (Recordset.close r) Gone [] [].

(** One atomic access of the iterating thread, and what it returns. *)
Inductive consume : Recordset -> consumer -> Recordset -> consumer -> list item -> Prop :=
| consume_active r : is_active r = true -> consume r Top r Popping []
| consume_inactive r : is_active r = false -> consume r Top r Emptiness []
| consume_empty r : record_queue r = [] -> consume r Emptiness r Finished []
| consume_nonempty r : record_queue r <> [] -> consume r Emptiness r Popping []
| consume_pop r x q : record_queue r = x :: q -> consume r Popping (set_queue q r) (Taken x) []
| consume_wait r : record_queue r = [] -> consume r Popping r Top []
| consume_count r x :
    consume r (Taken x) (set_count (usize_decr (record_queue_count r)) r) Top [x].

(** ** Threads as programs

    A streaming thread before the test of [is_active], in a [push], in
    [signal_end], or gone; the iterating thread in a turn of [next], or after it
    returned [None]. *)
Inductive thread : Type :=
| Testing (todo : list Record_) (err : option ErrorKind)
| Pushing (x : item) (todo : list Record_) (err : option ErrorKind) (m : method (option item))
| Signalling (m : method unit)
| Left.

Inductive iterator : Type :=
| Iterating (m : method (option item + unit))
| Exhausted.

(** After an access of a [push]: an item that was taken ends the thread if it is
    an error; a record that comes back is pushed again, an error is given up. *)
Definition after_push (x : item) (todo : list Record_) (err : option ErrorKind)
    (m : method (option item)) : thread * list item :=
  match m with
  | Done None =>
      (match x with inl _ => Testing todo err | inr _ => Signalling signal_end end, [])
  | Done (Some (inl rec)) => (Pushing (inl rec) todo err (push (inl rec)), [])
  | Done (Some (inr e)) => (Signalling signal_end, [inr e])
  | Access _ _ _ => (Pushing x todo err m, [])
  end.

(** The next access of a streaming thread: the record set and the thread after it,
    and the items that it gives up, full queue or closed set. *)
Definition thread_access (r : Recordset) (t : thread)
    : option (Recordset * thread * list item * list item) :=
  match t with
  | Testing todo err =>
      if is_active r then
        match todo, err with
        | x :: todo, _ => Some (r, Pushing (inl x) todo err (push (inl x)), [], [])
        | [], Some e => Some (r, Pushing (inr e) [] None (push (inr e)), [], [])
        | [], None => Some (r, Signalling signal_end, [], [])
        end
      else Some (r, Signalling signal_end, [], rest todo err)
  | Pushing x todo err m =>
      let '(m', r') := advance m r in
      let '(t', ls) := after_push x todo err m' in Some (r', t', ls, [])
  | Signalling m =>
      let '(m', r') := advance m r in
      Some (r', match m' with Done _ => Left | Access _ _ _ => Signalling m' end, [], [])
  | Left => None
  end.

(** The next access of the iterating thread, and the item it returns. *)
Definition iterator_access (r : Recordset) (c : iterator)
    : option (Recordset * iterator * list item) :=
  match c with
  | Iterating m =>
      let '(m', r') := advance m r in
      match m' with
      | Done (inl (Some x)) => Some (r', Iterating next_turn, [x])
      | Done (inl None) => Some (r', Exhausted, [])
      | Done (inr _) => Some (r', Iterating next_turn, [])
      | Access _ _ _ => Some (r', Iterating m', [])
      end
  | Exhausted => None
  end.

Definition thread_step r t r' t' ls ds : Prop := thread_access r t = Some (r', t', ls, ds).

Definition iterator_step r c r' c' out : Prop := iterator_access r c = Some (r', c', out).

(** The interleavings of the programs. *)
Abbreviation run_step := (step thread_step iterator_step).

(** The start: one streaming thread per response. *)
Definition start (size task_id : Z) (responses : list (list Record_ * option ErrorKind))
    : system thread iterator :=
  mkSystem (Recordset.new size (len responses) task_id)
    ((fun p => Testing p.1 p.2) <$> responses) (Iterating next_turn) [] [] [] false.

(** *** The positions of the programs *)

Definition at_push (x : item) : method (option item) :=
  Access _ (queue_push x) (fun _ => Done None).

Definition at_refusal (x : item) : method (option item) :=
  Access _ count_down (fun _ => Done (Some x)).

Definition thread_at (p : producer) : thread :=
  match p with
  | Ready todo err => Testing todo err
  | Trying x todo err => Pushing x todo err (push x)
  | Entered x todo err => Pushing x todo err (at_push x)
  | Refused x todo err => Pushing x todo err (at_refusal x)
  | Ending => Signalling signal_end
  | Closing => Signalling (Access _ (fun r => (tt, Recordset.close r)) Done)
  | Gone => Left
  end.

Definition iterator_at (c : consumer) : iterator :=
  match c with
  | Top => Iterating next_turn
  | Emptiness =>
      Iterating (Access _ (fun r => (bool_decide (record_queue r = []), r)) (fun empty =>
        if empty : bool then Done (inl None) else next_pop))
  | Popping => Iterating next_pop
  | Taken x => Iterating (Access _ count_down (fun _ => Done (inl (Some x))))
  | Finished => Exhausted
  end.

(** The next access of a program at a position is a step of the position. *)
Lemma thread_position r p r' t' ls ds :
  thread_access r (thread_at p) = Some (r', t', ls, ds) ->
  exists p', produce r p r' p' ls ds /\ t' = thread_at p'.
Proof.
  destruct p as [todo err|x todo err|x todo err|x todo err| | |]; cbn; intros H.
  - destruct (is_active r) eqn:Ha; [destruct todo as [|y todo]; [destruct err as [e|]|]|];
      injection H as <- <- <- <-; eexists; (split; [constructor; exact Ha|reflexivity]).
  - destruct (Z.ltb_spec (record_queue_count r) (record_queue_size r)); cbn in H;
      injection H as <- <- <- <-; eexists; (split; [constructor; assumption|reflexivity]).
  - destruct x; cbn in H; injection H as <- <- <- <-; eexists (proceed _ _ _);
      (split; [apply produce_push|reflexivity]).
  - destruct x as [rec|e]; cbn in H; injection H as <- <- <- <-; eexists;
      (split; [constructor|reflexivity]).
  - destruct (Z.eqb_spec (instances r) 1); cbn in H; injection H as <- <- <- <-; eexists;
      (split; [constructor; assumption|reflexivity]).
  - injection H as <- <- <- <-. eexists. split; [constructor|reflexivity].
  - discriminate.
Qed.

Lemma iterator_position r c r' i' out :
  iterator_access r (iterator_at c) = Some (r', i', out) ->
  exists c', consume r c r' c' out /\ i' = iterator_at c'.
Proof.
  destruct c as [| | |x|]; cbn; intros H.
  - destruct (is_active r) eqn:Ha; cbn in H; injection H as <- <- <-; eexists;
      (split; [constructor; exact Ha|reflexivity]).
  - case_bool_decide; cbn in H; injection H as <- <- <-; eexists;
      (split; [constructor; assumption|reflexivity]).
  - unfold queue_pop in H. destruct (record_queue r) as [|x q] eqn:Hq; cbn in H;
      injection H as <- <- <-; eexists; (split; [constructor; exact Hq|reflexivity]).
  - injection H as <- <- <-. eexists. split; [constructor|reflexivity].
  - discriminate.
Qed.

(** The programs of a system of positions. *)
Definition programs (s : system producer consumer) : system thread iterator :=
  mkSystem (set s) (thread_at <$> producers s) (iterator_at (iterating s)) (delivered s)
    (lost s) (dropped s) (closed s).

Lemma programs_step s s' :
  run_step (programs s) s' -> exists s1, step produce consume s s1 /\ s' = programs s1.
Proof.
  remember (programs s) as s0 eqn:Es.
  intros H. destruct H as [s0 l1 t l2 r t' ls ds Hl Ht|s0 r i out Hc|s0]; subst s0;
    cbn [programs set producers iterating delivered lost dropped closed] in *.
  - apply fmap_app_inv in Hl as (k1 & k2 & -> & E2 & Hk).
    destruct k2 as [|p k2]; [discriminate|]. injection E2 as -> ->.
    destruct (thread_position _ _ _ _ _ _ Ht) as (p' & Hp & ->).
    eexists. split; [eapply step_produce; [exact Hk|exact Hp]|].
    unfold programs. cbn. rewrite fmap_app. reflexivity.
  - destruct (iterator_position _ _ _ _ _ Hc) as (c' & Hc' & ->).
    eexists. split; [eapply step_consume, Hc'|]. reflexivity.
  - eexists. split; [apply step_close|]. reflexivity.
Qed.

Lemma programs_steps s0 s' :
  rtc run_step (programs s0) s' ->
  exists s, rtc (step produce consume) s0 s /\ s' = programs s.
Proof.
  remember (programs s0) as t0 eqn:E. intros H. revert s0 E.
  induction H as [t|t1 t2 t3 Hs _ IH]; intros s0 ->; [exists s0; split; [constructor|reflexivity]|].
  apply programs_step in Hs as (s1 & Hs & ->).
  destruct (IH s1 eq_refl) as (s & Hr & ->). exists s. split; [|reflexivity].
  eapply rtc_l; eassumption.
Qed.

(** The start of the positions. *)
Definition positions (size task_id : Z) (responses : list (list Record_ * option ErrorKind))
    : system producer consumer :=
  mkSystem (Recordset.new size (len responses) task_id)
    ((fun p => Ready p.1 p.2) <$> responses) Top [] [] [] false.

Lemma programs_start size task_id responses :
  start size task_id responses = programs (positions size task_id responses).
Proof. unfold start, programs. cbn. rewrite <- list_fmap_compose. reflexivity. Qed.

(** ** Counting *)

Definition total {A} (f : A -> Z) (l : list A) : Z := foldr (fun x n => f x + n) 0 l.

Lemma total_app {A} (f : A -> Z) l1 l2 : total f (l1 ++ l2) = total f l1 + total f l2.
Proof. induction l1 as [|x l1 IH]; cbn; [reflexivity|]. unfold total in *. cbn. lia. Qed.

Lemma total_cons {A} (f : A -> Z) x l : total f (x :: l) = f x + total f l.
Proof. reflexivity. Qed.

Lemma total_nonneg {A} (f : A -> Z) l : (forall x, 0 <= f x) -> 0 <= total f l.
Proof.
  intros H. induction l as [|x l IH]; [reflexivity|]. rewrite total_cons.
  specialize (H x). lia.
Qed.

Definition live (p : producer) : Z := match p with Closing | Gone => 0 | _ => 1 end.

Definition entered (p : producer) : Z := match p with Entered _ _ _ => 1 | _ => 0 end.

Definition refused (p : producer) : Z := match p with Refused _ _ _ => 1 | _ => 0 end.

Definition in_hand (c : consumer) : list item := match c with Taken x => [x] | _ => [] end.

Definition pending (p : producer) : list item :=
  match p with
  | Ready todo err => rest todo err
  | Trying x todo err | Entered x todo err | Refused x todo err => x :: rest todo err
  | _ => []
  end.

(** An error is the last item of its thread. *)
Definition error_last (p : producer) : Prop :=
  match p with
  | Trying (inr _) todo err | Entered (inr _) todo err | Refused (inr _) todo err =>
      todo = [] /\ err = None
  | _ => True
  end.

(** Everything there is, wherever it is. *)
Definition everything (s : system producer consumer) : list item :=
  delivered s ++ in_hand (iterating s) ++ record_queue (set s)
  ++ concat (pending <$> producers s) ++ lost s ++ dropped s.

Definition is_error (x : item) : Prop := match x with inr _ => True | inl _ => False end.

(** ** The invariant *)

Record invariant (size : Z) (n : Z) (all : list item) (s : system producer consumer)
    : Prop := {
  inv_size : record_queue_size (set s) = size;
  inv_threads : len (producers s) = n;
  inv_count : record_queue_count (set s)
    = len (record_queue (set s)) + total entered (producers s) + total refused (producers s)
      + len (in_hand (iterating s));
  inv_room : len (record_queue (set s)) + total entered (producers s) <= size;
  inv_instances : instances (set s) = total live (producers s);
  inv_all : everything s ≡ₚ all;
  inv_last : Forall error_last (producers s);
  inv_lost : Forall is_error (lost s);
  inv_dropped : closed s = false -> dropped s = [];
  inv_closing : Closing ∈ producers s -> total live (producers s) = 0;
  inv_active : is_active (set s) = false -> closed s = true \/ total live (producers s) = 0;
  inv_iterating : iterating s = Emptiness \/ iterating s = Finished ->
    closed s = true \/ total live (producers s) = 0;
  inv_finished : iterating s = Finished -> closed s = true \/ record_queue (set s) = [];
  inv_over : 0 < n -> total live (producers s) = 0 ->
    Closing ∈ producers s \/ is_active (set s) = false
}.

(** A thread that has ended has nothing left. *)
Lemma no_live_no_pending l :
  total live l = 0 -> concat (pending <$> l) = [].
Proof.
  induction l as [|p l IH]; [reflexivity|]. rewrite total_cons. intros H.
  assert (0 <= total live l) by (apply total_nonneg; intros []; cbn; lia).
  destruct p; cbn in *; try lia; apply IH; lia.
Qed.

Lemma usize_incr_small c : 0 <= c < 2 ^ 64 - 1 -> usize_incr c = c + 1.
Proof. intros H. unfold usize_incr. apply wrap_u_id. unfold in_u. lia. Qed.

Lemma usize_decr_small c : 1 <= c < 2 ^ 64 -> usize_decr c = c - 1.
Proof. intros H. unfold usize_decr. apply wrap_u_id. unfold in_u. lia. Qed.

(** *** Steps of a streaming thread *)

Lemma produce_items r p r' p' ls ds :
  produce r p r' p' ls ds -> error_last p ->
  record_queue r' ++ pending p' ++ ls ++ ds ≡ₚ record_queue r ++ pending p.
Proof.
  intros Hp He.
  destruct Hp as [r x todo err|r e|r todo err|r|r x todo err|r x todo err|r x todo err
    |r x todo err|r e todo err|r|r|r]; cbn; rewrite ?app_nil_r; try reflexivity.
  - destruct x as [x|e]; cbn in *.
    + rewrite <- (assoc_L (++)). reflexivity.
    + destruct He as [-> ->]. rewrite app_nil_r. reflexivity.
  - destruct He as [-> ->]. reflexivity.
Qed.

(** What a step does to the counters, when they do not wrap around. *)
Definition counters_agree (r : Recordset) (p : producer) (r' : Recordset) (p' : producer)
    : Prop :=
  record_queue_size r' = record_queue_size r /\
  record_queue_count r' - len (record_queue r') - entered p' - refused p'
    = record_queue_count r - len (record_queue r) - entered p - refused p /\
  instances r' - live p' = instances r - live p /\
  (len (record_queue r') + entered p' = len (record_queue r) + entered p \/
   record_queue_count r < record_queue_size r /\
   len (record_queue r') + entered p' = len (record_queue r) + entered p + 1).

Lemma produce_counters r p r' p' ls ds :
  produce r p r' p' ls ds ->
  0 <= record_queue_count r < 2 ^ 64 - 1 -> (refused p = 1 -> 1 <= record_queue_count r) ->
  (live p = 1 -> 1 <= instances r) -> instances r < 2 ^ 64 ->
  counters_agree r p r' p'.
Proof.
  intros Hp Hc Hr Hl Hi. unfold counters_agree.
  destruct Hp as [r x todo err|r e|r todo err|r|r x todo err|r x todo err|r x todo err
    |r x todo err|r e todo err|r|r|r]; cbn in *;
    rewrite ?usize_incr_small, ?usize_decr_small by lia; try lia.
  rewrite len_app, len_cons, len_nil. destruct x; cbn; lia.
Qed.

Lemma closing_other (l1 l2 : list producer) p p' :
  p <> Closing -> Closing ∈ l1 ++ p :: l2 -> Closing ∈ l1 ++ p' :: l2.
Proof.
  intros Hp Hin. apply elem_of_app in Hin as [Hin|Hin]; [apply elem_of_app; left; exact Hin|].
  apply elem_of_cons in Hin as [?|Hin]; [congruence|]. apply elem_of_app. right. right. exact Hin.
Qed.

(** The last of the threads is about to close the set, or has closed it. *)
Lemma over_produce (n : Z) r p r' p' ls ds l1 l2 :
  produce r p r' p' ls ds ->
  instances r = total live l1 + (live p + total live l2) ->
  (0 < n -> total live l1 + (live p + total live l2) = 0 ->
   Closing ∈ l1 ++ p :: l2 \/ is_active r = false) ->
  0 < n -> total live l1 + (live p' + total live l2) = 0 ->
  Closing ∈ l1 ++ p' :: l2 \/ is_active r' = false.
Proof.
  intros Hp Hi Hover Hn H0. pose proof (fun H => Hover Hn H) as Ho. clear Hover.
  destruct Hp; cbn in *;
    try (destruct Ho as [Hin|Ha]; [lia| |right; exact Ha]; left; eapply closing_other;
         [|exact Hin]; discriminate).
  - destruct Ho as [Hin|Ha]; [destruct x; exact H0| |right; exact Ha]. left.
    eapply closing_other; [|exact Hin]. discriminate.
  - left. apply elem_of_app. right. left.
  - right. reflexivity.
Qed.

(** What a step does to the shape of the threads. *)
Lemma produce_shape r p r' p' ls ds :
  produce r p r' p' ls ds -> error_last p ->
  error_last p' /\ Forall is_error ls /\
  (ds <> [] -> is_active r = false /\ live p = 1) /\
  (p' = Closing -> instances r = 1 /\ live p = 1) /\
  (is_active r' = false -> is_active r = false \/ p = Closing) /\
  live p' <= live p.
Proof.
  intros Hp He.
  destruct Hp as [r x todo err|r e|r todo err|r|r x todo err|r x todo err|r x todo err
    |r x todo err|r e todo err|r|r|r]; cbn in *;
    repeat split; try (intros; congruence); try lia; auto.
  all: try (destruct x; cbn; auto; try lia; discriminate).
  all: repeat constructor.
Qed.

(** *** Steps of the iterating thread *)

Lemma consume_effects r c r' c' out :
  consume r c r' c' out ->
  0 <= record_queue_count r < 2 ^ 64 - 1 ->
  (len (in_hand c) = 1 -> 1 <= record_queue_count r) ->
  record_queue_size r' = record_queue_size r /\
  instances r' = instances r /\
  is_active r' = is_active r /\
  record_queue_count r' - len (record_queue r') - len (in_hand c')
    = record_queue_count r - len (record_queue r) - len (in_hand c) /\
  len (record_queue r') <= len (record_queue r) /\
  out ++ in_hand c' ++ record_queue r' = in_hand c ++ record_queue r /\
  (c' = Emptiness -> is_active r = false) /\
  (c' = Finished -> c = Emptiness /\ record_queue r' = []).
Proof.
  intros Hc Hr Ht.
  destruct Hc as [r Ha|r Ha|r Hq|r Hq|r x q Hq|r Hq|r x]; cbn in *;
    repeat split; try (intros; congruence); try lia; auto.
  all: try rewrite Hq; try reflexivity.
  all: unfold len in *; cbn [length] in *; rewrite ?usize_decr_small; lia.
Qed.

(** *** Preservation *)

Section Preservation.
Context (size n : Z) (all : list item).
Hypothesis fits : 0 <= size /\ 0 <= n /\ size + n + 1 < 2 ^ 64 - 1.

Lemma total_le_len {A} (f : A -> Z) l : (forall x, f x <= 1) -> total f l <= len l.
Proof.
  intros H. induction l as [|x l IH]; [reflexivity|].
  rewrite total_cons, len_cons. specialize (H x). lia.
Qed.

Lemma in_hand_le c : 0 <= len (in_hand c) <= 1.
Proof. destruct c; unfold len; cbn; lia. Qed.

(** The counters of a set of threads stay within a word. *)
Lemma count_range s :
  invariant size n all s ->
  0 <= record_queue_count (set s) < 2 ^ 64 - 1 /\ 0 <= instances (set s) < 2 ^ 64 /\
  0 <= total entered (producers s) /\ 0 <= total refused (producers s).
Proof.
  intros [Hs Hn Hc Hr Hi _ _ _ _ _ _ _ _ _].
  pose proof (total_nonneg entered (producers s) ltac:(intros []; cbn; lia)).
  pose proof (total_nonneg refused (producers s) ltac:(intros []; cbn; lia)).
  pose proof (total_nonneg live (producers s) ltac:(intros []; cbn; lia)).
  pose proof (total_le_len live (producers s) ltac:(intros []; cbn; lia)).
  pose proof (total_le_len refused (producers s) ltac:(intros []; cbn; lia)).
  pose proof (in_hand_le (iterating s)). pose proof (len_nonneg (record_queue (set s))). lia.
Qed.

Lemma everything_produce s l1 p l2 r p' ls ds :
  producers s = l1 ++ p :: l2 ->
  record_queue r ++ pending p' ++ ls ++ ds ≡ₚ record_queue (set s) ++ pending p ->
  everything (mkSystem r (l1 ++ p' :: l2) (iterating s) (delivered s) (lost s ++ ls)
                (dropped s ++ ds) (closed s)) ≡ₚ everything s.
Proof.
  intros Hl Hp. unfold everything. cbn [set producers iterating delivered lost dropped].
  rewrite Hl, !fmap_app, !concat_app. cbn [fmap list_fmap concat].
  apply Permutation_app_head, Permutation_app_head.
  transitivity ((record_queue r ++ pending p' ++ ls ++ ds)
    ++ concat (pending <$> l1) ++ concat (pending <$> l2) ++ lost s ++ dropped s);
    [solve_Permutation|].
  rewrite Hp. solve_Permutation.
Qed.

Lemma invariant_produce s l1 p l2 r p' ls ds :
  invariant size n all s -> producers s = l1 ++ p :: l2 ->
  produce (set s) p r p' ls ds ->
  invariant size n all
    (mkSystem r (l1 ++ p' :: l2) (iterating s) (delivered s) (lost s ++ ls)
       (dropped s ++ ds) (closed s)).
Proof.
  intros Hinv Hl Hp. destruct (count_range s Hinv) as (Hc0 & Hi0 & He0 & Hr0).
  destruct Hinv as [Hs Hn Hc Hroom Hi Hall Hlast Hlost Hdrop Hclosing Hact Hit Hfin Hover].
  rewrite Hl in *. rewrite !total_app, !total_cons in *.
  apply Forall_app in Hlast as [Hlast1 Hlast2].
  apply Forall_cons in Hlast2 as [Hlastp Hlast2].
  assert (forall l, 0 <= total live l /\ 0 <= total refused l /\ 0 <= total entered l) as Hnn
    by (intros l; split; [|split]; apply total_nonneg; intros []; cbn; lia).
  pose proof (Hnn l1). pose proof (Hnn l2).
  pose proof (len_nonneg (record_queue (set s))). pose proof (in_hand_le (iterating s)).
  assert (0 <= live p <= 1 /\ 0 <= entered p <= 1 /\ 0 <= refused p <= 1
    /\ 0 <= live p' <= 1 /\ 0 <= refused p' <= 1) as (Hp1 & Hp2 & Hp3 & Hp4 & Hp5)
    by (destruct p, p'; cbn; lia).
  destruct (produce_counters _ _ _ _ _ _ Hp Hc0) as (Hsz & Hcount & Hinst & Hq); [lia..|].
  destruct (produce_shape _ _ _ _ _ _ Hp Hlastp) as (Hlast' & Hls & Hds & Hclo & Hact' & Hlive).
  pose proof (produce_items _ _ _ _ _ _ Hp Hlastp) as Hitems.
  split; cbn [set producers iterating delivered lost dropped closed];
    rewrite ?total_app, ?total_cons.
  - congruence.
  - rewrite !len_app, !len_cons in *. exact Hn.
  - lia.
  - rewrite Hs in Hq. lia.
  - lia.
  - etransitivity; [|exact Hall]. apply everything_produce with (p := p); assumption.
  - apply Forall_app. split; [exact Hlast1|]. constructor; assumption.
  - apply Forall_app. split; assumption.
  - intros E. rewrite (Hdrop E). destruct ds as [|d ds]; [reflexivity|].
    destruct (Hds ltac:(discriminate)) as [Hoff Hone].
    destruct (Hact Hoff) as [?|?]; [congruence|lia].
  - intros Hin. apply elem_of_app in Hin as [Hin|Hin];
      [|apply elem_of_cons in Hin as [Hin|Hin]].
    + specialize (Hclosing ltac:(apply elem_of_app; left; exact Hin)). lia.
    + destruct (Hclo (eq_sym Hin)) as [? ?]. destruct p'; try discriminate. cbn in *. lia.
    + specialize (Hclosing ltac:(apply elem_of_app; right; right; exact Hin)). lia.
  - intros E. destruct (Hact' E) as [E'| ->].
    + destruct (Hact E') as [?|?]; [left; assumption|right; lia].
    + right. specialize (Hclosing ltac:(apply elem_of_app; right; left)). lia.
  - intros E. destruct (Hit E) as [?|?]; [left; assumption|right; lia].
  - intros E. destruct (Hfin E) as [?|Eq]; [left; assumption|].
    destruct (Hit (or_intror E)) as [?|?]; [left; assumption|].
    right. destruct Hp; cbn in *; try exact Eq; lia.
  - apply (over_produce _ _ _ _ _ _ _ _ _ Hp Hi Hover).
Qed.

Lemma invariant_consume s r c out :
  invariant size n all s -> consume (set s) (iterating s) r c out ->
  invariant size n all
    (mkSystem r (producers s) c (delivered s ++ out) (lost s) (dropped s) (closed s)).
Proof.
  intros Hinv Hc. destruct (count_range s Hinv) as (Hc0 & Hi0 & He0 & Hr0).
  destruct Hinv as [Hs Hn Hcount Hroom Hi Hall Hlast Hlost Hdrop Hclosing Hact Hit Hfin Hover].
  pose proof (len_nonneg (record_queue (set s))).
  destruct (consume_effects _ _ _ _ _ Hc Hc0) as (Hsz & Hin & Ha & Hcnt & Hle & Hitems & Hem & Hfi).
  { intros E. rewrite E in Hcount. lia. }
  split; cbn [set producers iterating delivered lost dropped closed]; try assumption.
  - congruence.
  - lia.
  - lia.
  - congruence.
  - rewrite <- Hall. unfold everything. cbn [set producers iterating delivered lost dropped].
    rewrite <- !(assoc_L (++)). apply Permutation_app_head.
    rewrite !(assoc_L (++)). do 3 apply Permutation_app_tail.
    rewrite <- !(assoc_L (++)). rewrite Hitems. reflexivity.
  - rewrite Ha. exact Hact.
  - intros [E|E]; [apply Hact, Hem, E|apply Hit; left; apply Hfi, E].
  - intros E. right. apply Hfi, E.
  - rewrite Ha. exact Hover.
Qed.

Lemma invariant_step s s' :
  invariant size n all s -> step produce consume s s' -> invariant size n all s'.
Proof.
  intros Hinv Hs. destruct Hs as [s l1 p l2 r p' ls ds Hl Hp|s r c out Hc|s].
  - eapply invariant_produce; eassumption.
  - apply invariant_consume; assumption.
  - destruct Hinv as [Hs Hn Hcount Hroom Hi Hall Hlast Hlost Hdrop Hclosing Hact Hit Hfin Hover].
    split; cbn; auto. discriminate.
Qed.

End Preservation.

Lemma invariant_start size task_id responses :
  0 <= size ->
  invariant size (len responses) (concat ((fun p => rest p.1 p.2) <$> responses))
    (positions size task_id responses).
Proof.
  intros Hs. unfold positions.
  assert (forall f c, (forall p, f (Ready p.1 p.2) = c) ->
    total f ((fun p : list Record_ * option ErrorKind => Ready p.1 p.2) <$> responses)
    = c * len responses) as Ht.
  { intros f c Hf. induction responses as [|x l IH]; [unfold len; cbn; lia|].
    cbn [fmap list_fmap]. rewrite total_cons, Hf, len_cons.
    change (list_fmap _ _ ?g l) with (g <$> l). rewrite IH. lia. }
  split; cbn [set producers iterating delivered lost dropped closed Recordset.new
    record_queue_size record_queue_count record_queue instances is_active active in_hand].
  - reflexivity.
  - apply len_map.
  - rewrite (Ht entered 0), (Ht refused 0) by reflexivity. reflexivity.
  - rewrite (Ht entered 0) by reflexivity. exact Hs.
  - rewrite (Ht live 1) by reflexivity. lia.
  - unfold everything. cbn. rewrite !app_nil_r, <- list_fmap_compose. reflexivity.
  - apply Forall_fmap, Forall_true. intros x. exact I.
  - constructor.
  - reflexivity.
  - intros Hin. apply list_elem_of_fmap in Hin as (x & Hx & _). discriminate.
  - discriminate.
  - intros [?|?]; discriminate.
  - discriminate.
  - rewrite (Ht live 1) by reflexivity. lia.
Qed.

(** *** Progress *)

(** The programs take the steps of the positions. *)
Lemma position_thread r p r' p' ls ds :
  produce r p r' p' ls ds -> thread_access r (thread_at p) = Some (r', thread_at p', ls, ds).
Proof.
  intros Hp. destruct Hp as [r x todo err Ha|r e Ha|r todo err Ha|r|r x todo err Hc|r x todo err Hc
    |r x todo err|r x todo err|r e todo err|r Hi|r Hi|r]; cbn; try (rewrite Ha; reflexivity);
    try reflexivity.
  - destruct (is_active r); reflexivity.
  - rewrite (proj2 (Z.ltb_lt _ _) Hc). reflexivity.
  - rewrite (proj2 (Z.ltb_ge _ _) Hc). reflexivity.
  - destruct x; reflexivity.
  - rewrite (proj2 (Z.eqb_eq _ _) Hi). reflexivity.
  - rewrite (proj2 (Z.eqb_neq _ _) Hi). reflexivity.
Qed.

Lemma position_iterator r c r' c' out :
  consume r c r' c' out -> iterator_access r (iterator_at c) = Some (r', iterator_at c', out).
Proof.
  intros Hc. destruct Hc as [r Ha|r Ha|r Hq|r Hq|r x q Hq|r Hq|r x]; cbn;
    rewrite ?Ha; try reflexivity.
  - rewrite bool_decide_eq_true_2 by exact Hq. reflexivity.
  - rewrite bool_decide_eq_false_2 by exact Hq. reflexivity.
  - unfold queue_pop. rewrite Hq. reflexivity.
  - unfold queue_pop. rewrite Hq. reflexivity.
Qed.

(** An access of one of the threads, not of the user. *)
Definition working (s s' : system producer consumer) : Prop :=
  closed s' = closed s /\ step produce consume s s'.

Lemma working_programs s s' :
  working s s' -> closed s' = closed s /\ run_step (programs s) (programs s').
Proof.
  intros [Hc H]. split; [exact Hc|]. destruct H as [s l1 p l2 r p' ls ds Hl Hp|s r c out Hs|s].
  - unfold programs at 2. cbn [set producers iterating delivered lost dropped closed].
    rewrite fmap_app. apply (step_produce _ _ (programs s) _ (thread_at p)).
    + cbn. rewrite Hl, fmap_app. reflexivity.
    + apply position_thread, Hp.
  - eapply (step_consume _ _ (programs s)), position_iterator, Hs.
  - apply (step_close _ _ (programs s)).
Qed.

Lemma working_steps s s' :
  rtc working s s' -> closed s' = closed s /\ rtc run_step (programs s) (programs s').
Proof.
  induction 1 as [s|s1 s2 s3 Hs _ [IHc IH]]; [split; [reflexivity|constructor]|].
  apply working_programs in Hs as [Hc Hs]. split; [congruence|]. eapply rtc_l; eassumption.
Qed.

(** What a thread still has to do. *)
Definition weight (p : producer) : Z :=
  match p with
  | Ready todo err => 3 + 16 * len (rest todo err)
  | Trying _ todo err => 17 + 16 * len (rest todo err)
  | Refused _ todo err => 18 + 16 * len (rest todo err)
  | Entered _ todo err => 16 + 16 * len (rest todo err)
  | Ending => 2
  | Closing => 1
  | Gone => 0
  end.

Definition turn (c : consumer) : Z :=
  match c with Taken _ => 6 | Top => 3 | Emptiness => 2 | Popping => 1 | Finished => 0 end.

Definition work (s : system producer consumer) : Z :=
  total weight (producers s) + 8 * len (record_queue (set s)) + turn (iterating s).

Lemma weight_nonneg p : 0 <= weight p.
Proof. destruct p; cbn; try lia; pose proof (len_nonneg (rest todo err)); lia. Qed.

Lemma work_nonneg s : 0 <= work s.
Proof.
  unfold work. pose proof (total_nonneg weight (producers s) weight_nonneg).
  pose proof (len_nonneg (record_queue (set s))). destruct (iterating s); cbn; lia.
Qed.

(** A thread that finds room if it tries. *)
Definition finds_room (r : Recordset) (p : producer) : Prop :=
  match p with
  | Trying _ _ _ => record_queue_count r < record_queue_size r
  | Gone => False
  | _ => True
  end.

Lemma produce_works r p :
  finds_room r p ->
  exists r' p' ls ds, produce r p r' p' ls ds /\
    weight p' + 8 * len (record_queue r') < weight p + 8 * len (record_queue r).
Proof.
  intros Hp. destruct p as [todo err|x todo err|x todo err|x todo err| | |]; try contradiction.
  - pose proof (len_nonneg (rest todo err)). destruct (is_active r) eqn:Ha.
    + destruct todo as [|x todo]; [destruct err as [e|]|].
      * eexists _, _, _, _. split; [apply produce_error, Ha|].
        cbn [weight rest fmap list_fmap app]. rewrite len_cons. lia.
      * eexists _, _, _, _. split; [apply produce_end|].
        cbn [weight] in *. lia.
      * eexists _, _, _, _. split; [apply produce_record, Ha|].
        cbn [weight]. unfold rest. rewrite fmap_cons, <- app_comm_cons, len_cons. lia.
    + eexists _, _, _, _. split; [apply produce_stop, Ha|]. cbn. lia.
  - eexists _, _, _, _. split; [apply produce_enter, Hp|]. cbn. lia.
  - eexists _, _, _, _. split; [apply produce_push|]. pose proof (len_nonneg (rest todo err)).
    cbn [queue_push set_queue record_queue]. rewrite len_app. change (len [x]) with 1.
    destruct x; cbn; lia.
  - pose proof (len_nonneg (rest todo err)). destruct x; eexists _, _, _, _;
      (split; [constructor|]); cbn; lia.
  - destruct (Z.eq_dec (instances r) 1); eexists _, _, _, _; (split; [constructor; assumption|]);
      cbn; lia.
  - eexists _, _, _, _. split; [constructor|]. cbn. lia.
Qed.

Lemma thread_works s l1 p l2 :
  producers s = l1 ++ p :: l2 -> finds_room (set s) p ->
  exists s', working s s' /\ work s' < work s.
Proof.
  intros Hl Hp. destruct (produce_works _ _ Hp) as (r' & p' & ls & ds & H & Hw).
  eexists. split; [split; [|eapply step_produce; eassumption]; reflexivity|].
  unfold work. cbn [producers set iterating]. rewrite Hl, !total_app, !total_cons. lia.
Qed.

Lemma iterator_works s r' c' out :
  consume (set s) (iterating s) r' c' out ->
  8 * len (record_queue r') + turn c' < 8 * len (record_queue (set s)) + turn (iterating s) ->
  exists s', working s s' /\ work s' < work s.
Proof.
  intros H Hw. eexists. split; [split; [|eapply step_consume, H]; reflexivity|].
  unfold work. cbn [producers set iterating]. lia.
Qed.

(** Nobody is left, and the set is closed: the iteration ends. *)
Lemma iterator_ends s :
  record_queue (set s) = [] -> is_active (set s) = false -> in_hand (iterating s) = [] ->
  exists s', rtc working s s' /\ iterating s' = Finished.
Proof.
  intros Hq Ha Hh.
  assert (forall s, record_queue (set s) = [] -> is_active (set s) = false ->
    iterating s = Top \/ iterating s = Emptiness ->
    exists s', rtc working s s' /\ iterating s' = Finished) as Hend.
  { clear. intros [r ps c dl lo dr cl] Hq Ha [E|E]; cbn in *; subst c.
    - eexists. split; [eapply rtc_l|].
      + split; [|eapply step_consume, consume_inactive, Ha]; reflexivity.
      + apply rtc_once. split; [|eapply step_consume, consume_empty, Hq]; reflexivity.
      + reflexivity.
    - eexists. split; [apply rtc_once; split; [|eapply step_consume, consume_empty, Hq]|];
        reflexivity. }
  destruct (iterating s) as [| | |x|] eqn:E; try discriminate Hh.
  - apply Hend; auto.
  - apply Hend; auto.
  - edestruct (Hend (mkSystem (set s) (producers s) Top (delivered s ++ []) (lost s) (dropped s)
      (closed s))) as (s' & Hs & Hf); cbn; auto.
    exists s'. split; [|exact Hf]. eapply rtc_l; [|exact Hs].
    split; [reflexivity|]. eapply step_consume. rewrite E. apply consume_wait, Hq.
  - exists s. split; [constructor|exact E].
Qed.

Lemma some_or_none (P : producer -> Prop) `{forall p, Decision (P p)} l :
  (exists l1 p l2, l = l1 ++ p :: l2 /\ P p) \/ Forall (fun p => ~ P p) l.
Proof.
  destruct (decide (Exists P l)) as [He|Hn]; [left|right; apply not_Exists_Forall; assumption].
  apply Exists_exists in He as (p & Hin & Hp). apply list_elem_of_split in Hin as (l1 & l2 & ->).
  eauto 6.
Qed.

Definition pushing (p : producer) : Prop :=
  match p with Entered _ _ _ | Refused _ _ _ => True | _ => False end.

#[local] Instance pushing_dec p : Decision (pushing p).
Proof. destruct p; cbn; apply _. Defined.

Definition left_behind (p : producer) : Prop := match p with Gone => False | _ => True end.

#[local] Instance left_behind_dec p : Decision (left_behind p).
Proof. destruct p; cbn; apply _. Defined.

Lemma total_none (P : producer -> Prop) f l :
  (forall p, ~ P p -> f p = 0) -> Forall (fun p => ~ P p) l -> total f l = 0.
Proof.
  intros Hf. induction 1 as [|p l Hp _ IH]; [reflexivity|]. rewrite total_cons, Hf, IH by exact Hp.
  reflexivity.
Qed.

Lemma progress size n all s :
  1 <= size -> 0 < n -> invariant size n all s ->
  (exists s', rtc working s s' /\ iterating s' = Finished) \/
  (exists s', working s s' /\ work s' < work s).
Proof.
  intros Hsize Hn [Hs _ Hc _ _ _ _ _ _ _ _ _ _ Hover].
  destruct (record_queue (set s)) as [|x q] eqn:Hq.
  - destruct (in_hand (iterating s)) as [|x l] eqn:Hh.
    + destruct (some_or_none pushing (producers s)) as [(l1 & p & l2 & Hl & Hp)|Hnone].
      { right. apply (thread_works s l1 p l2 Hl). destruct p; exact I || contradiction. }
      rewrite (total_none pushing entered) in Hc; [|intros []; cbn; tauto|exact Hnone].
      rewrite (total_none pushing refused) in Hc; [|intros []; cbn; tauto|exact Hnone].
      destruct (some_or_none left_behind (producers s)) as [(l1 & p & l2 & Hl & Hp)|Hgone].
      { right. apply (thread_works s l1 p l2 Hl). destruct p; try exact I; [|contradiction].
        cbn. unfold len in Hc. cbn in Hc. lia. }
      left. apply iterator_ends; [exact Hq| |exact Hh].
      destruct (Hover Hn) as [Hin|Ha]; [|clear -Hin Hgone|exact Ha].
      * apply (total_none left_behind live); [intros []; cbn; tauto|exact Hgone].
      * rewrite Forall_forall in Hgone. destruct (Hgone _ Hin I).
    + right. destruct (iterating s) as [| | |y|] eqn:E; try discriminate Hh.
      eapply iterator_works; rewrite E; [apply consume_count|]. cbn. rewrite Hq. lia.
  - destruct (iterating s) as [| | |y|] eqn:E.
    + right. destruct (is_active (set s)) eqn:Ha;
        (eapply iterator_works; rewrite E; [constructor; exact Ha|]); cbn; lia.
    + right. eapply iterator_works; rewrite E; [apply consume_nonempty; congruence|]. cbn. lia.
    + right. eapply iterator_works; rewrite E; [eapply consume_pop, Hq|].
      rewrite Hq, len_cons. cbn. lia.
    + right. eapply iterator_works; rewrite E; [apply consume_count|]. cbn. lia.
    + left. exists s. split; [constructor|exact E].
Qed.

Lemma can_finish size n all : forall s,
  1 <= size -> 0 < n -> size + n + 1 < 2 ^ 64 - 1 -> invariant size n all s ->
  exists s', rtc working s s' /\ iterating s' = Finished.
Proof.
  intros s Hsize Hn Hfits. pose proof (work_nonneg s) as Hw. revert Hw.
  remember (work s) as k eqn:Hk. intros Hw. revert s Hk.
  induction k as [k IH] using (well_founded_induction (Z.lt_wf 0)). intros s -> Hinv.
  destruct (progress size n all s Hsize Hn Hinv) as [H|(s1 & [Hc Hs] & Hlt)]; [exact H|].
  destruct (IH (work s1) (conj (work_nonneg s1) Hlt) (work_nonneg s1) s1 eq_refl)
    as (s' & Hr & Hf).
  - eapply invariant_step; [|exact Hinv|exact Hs]. lia.
  - exists s'. split; [|exact Hf]. eapply rtc_l; [split; [exact Hc|exact Hs]|exact Hr].
Qed.

(** C7: in every interleaving of the accesses of the threads that stream responses
    ([push], [signal_end]) with those of the one that iterates ([next]), the queue
    never holds more than its size; when the iteration ends on a set that nobody
    closed, it has returned every record of every response, each once, and every
    error but those that met a full queue; and from every state that is reached, the
    threads can go on until it ends, without anybody closing the set, if the queue
    has room for an item and there is a response. *)
Theorem all_delivered size task_id responses s :
  0 <= size -> size + len responses + 1 < 2 ^ 64 - 1 ->
  rtc run_step (start size task_id responses) s ->
  len (record_queue (set s)) <= size /\
  (iterating s = Exhausted -> closed s = false ->
   delivered s ++ lost s ≡ₚ concat ((fun p => rest p.1 p.2) <$> responses) /\
   Forall is_error (lost s)) /\
  (1 <= size -> responses <> [] ->
   exists s', rtc run_step s s' /\ iterating s' = Exhausted /\ closed s' = closed s).
Proof.
  intros Hs Hfits Hr. pose proof (len_nonneg responses).
  rewrite programs_start in Hr. apply programs_steps in Hr as (s1 & Hr & ->).
  assert (invariant size (len responses)
    (concat ((fun p => rest p.1 p.2) <$> responses)) s1) as Hinv.
  { pose proof (invariant_start size task_id responses Hs) as H0.
    induction Hr as [|s1 s2 s3 Hstep _ IH]; [exact H0|].
    apply IH. eapply invariant_step; [|exact H0|exact Hstep]. lia. }
  pose proof Hinv as [_ _ _ Hroom _ Hall _ Hlost Hdrop _ _ Hit Hfin _].
  pose proof (total_nonneg entered (producers s1) ltac:(intros []; cbn; lia)).
  cbn [programs set iterating closed delivered lost]. split; [lia|split].
  - intros Hend Hopen. split; [|exact Hlost].
    assert (iterating s1 = Finished) as Hf by (destruct (iterating s1); discriminate || reflexivity).
    destruct (Hit (or_intror Hf)) as [?|Hlive]; [congruence|].
    destruct (Hfin Hf) as [?|Hq]; [congruence|].
    rewrite <- Hall. unfold everything.
    rewrite Hf, Hq, (Hdrop Hopen), (no_live_no_pending _ Hlive), app_nil_r. reflexivity.
  - intros Hsize Hne.
    assert (0 < len responses) as Hn by (destruct responses; [congruence|unfold len; cbn; lia]).
    destruct (can_finish _ _ _ s1 Hsize Hn Hfits Hinv) as (s2 & Hw & Hf).
    apply working_steps in Hw as [Hc Hw]. exists (programs s2). split; [exact Hw|].
    split; [cbn; rewrite Hf; reflexivity|exact Hc].
Qed.

Ltac produces := eapply rtc_l; [eapply (step_produce _ _ _ [] _ []); reflexivity|]; cbn.

Ltac consumes := eapply rtc_l; [eapply step_consume; reflexivity|]; cbn.

(** The thread of a record, and then the iteration. *)
Lemma all_delivered_witness :
  let r := Record.new None ∅ 1 0 in
  exists s, rtc run_step (start 1 7 [([r], None)]) s /\ iterating s = Exhausted /\
    delivered s ++ lost s ≡ₚ [inl r] /\ len (record_queue (set s)) <= 1 /\
    exists s', rtc run_step (start 1 7 [([r], None)]) s' /\ iterating s' = Exhausted /\
      closed s' = false.
Proof.
  intros r. eexists.
  match goal with |- ?A /\ _ => assert A as Hr end.
  { unfold start, Recordset.new. cbn. do 6 produces. do 6 consumes. apply rtc_refl. }
  split; [exact Hr|]. split; [reflexivity|].
  destruct (all_delivered 1 7 [([r], None)] _ ltac:(lia) ltac:(vm_compute; reflexivity) Hr)
    as (Hq & Hall & _).
  split; [apply Hall; reflexivity|]. split; [exact Hq|].
  destruct (all_delivered 1 7 [([r], None)] (start 1 7 [([r], None)]) ltac:(lia)
    ltac:(vm_compute; reflexivity) ltac:(constructor)) as (_ & _ & Hgo).
  apply Hgo; [lia|discriminate].
Defined.
