(* ===== verification/ResponseTotality.v ===== *)
(** * Response parsing ends on every input

    Whatever bytes a server sends, the parsers of responses return, fail or
    panic.  Every turn of a loop takes bytes from the stream, so the bytes left in
    the stream bound the turns of the loops over groups, and the fuel given to the
    decoder is enough for what is in the buffer.  Only pushing a record can go on
    for ever: it ends when the consumer makes room ([makes_room]), and never on a set
    that stays full ([full_set_spins]). *)

From stdpp Require Import base list strings gmap.
From Stdlib Require Import ZArith Lia.
From S2P Require Import Prelude ResultCodes Monad ByteOrder Slices Text Wire.
From S2P Require Import Buffer BufferFacts Values Decoder DecoderFacts.
From S2P Require Import Expressions Policy Records Connection Commands Responses.
From S2P Require Import ConnectionFacts ResponseFacts Recordset Streams StreamFacts.
From S2P Require Import BatchResponseFacts.
Import Connection.

(** ** Buffers *)

Definition bgood (b : Buffer) : Prop :=
  all_bytes (data_buffer b) /\ 0 <= data_offset b.

(** [m] ends in a good buffer, with a result that satisfies [Q]. *)
Definition bsafe {A} (m : M Buffer A) (Q : A -> Prop) : Prop :=
  forall b, bgood b ->
  match m b with
  | Ret a b' => bgood b' /\ Q a
  | Throw _ b' => bgood b'
  | Panic => True
  | NoFuel => False
  end.

Definition any {A} (_ : A) : Prop := True.

Lemma bsafe_steps {A} (m : M Buffer A) (Q : A -> Prop) :
  (forall r, 0 <= r -> steps r 0 m) ->
  (forall b a b', all_bytes (data_buffer b) -> m b = Ret a b' -> Q a) -> bsafe m Q.
Proof.
  intros H HQ b [Hb Ho]. pose proof (len_nonneg (data_buffer b)).
  specialize (H (len (data_buffer b)) ltac:(lia) b Hb
    ltac:(unfold room; lia)). specialize (HQ b).
  destruct (m b) as [a b'|e b'| |] eqn:E; auto.
  - destruct H as [Hd Hr]. unfold bgood, room in *. rewrite Hd in *.
    repeat split; [exact Hb|lia|]. apply (HQ a b' Hb eq_refl).
  - destruct H as [Hd Hr]. unfold bgood, room in *. rewrite Hd in *.
    split; [exact Hb|lia].
Qed.

Lemma bsafe_any {A} (m : M Buffer A) : (forall r, 0 <= r -> steps r 0 m) -> bsafe m any.
Proof. intros H. apply bsafe_steps; [exact H|]. intros. exact I. Qed.

(** *** Reads *)

Section Reads.
Context `{BO : ByteOrder}.

Lemma bsafe_read_u8 pos : bsafe (read_u8 pos) is_byte.
Proof.
  intros b [Hb Ho]. unfold read_u8. destruct pos as [p|].
  - destruct (index (data_buffer b) p) as [x|] eqn:E; [|exact I]. cbn.
    split; [split; assumption|]. eapply index_bytes; eassumption.
  - unfold bind. destruct (index _ (data_offset b)) as [x|] eqn:E; [|exact I]. cbn.
    split; [split; [exact Hb|cbn; lia]|]. eapply index_bytes; eassumption.
Qed.

Lemma bsafe_read_at n pos : 0 <= n -> bsafe (read_at n pos) all_bytes.
Proof.
  intros Hn b [Hb Ho]. unfold read_at. destruct pos as [p|];
    (destruct (slice _ _ _) as [bs|] eqn:E; [|exact I]);
    (split; [split; [exact Hb|cbn; lia]|eapply slice_bytes; eassumption]).
Qed.

Lemma bsafe_bind {A B} (m : M Buffer A) (f : A -> M Buffer B) Q R :
  bsafe m Q -> (forall a, Q a -> bsafe (f a) R) -> bsafe (bind m f) R.
Proof.
  intros Hm Hf b Hb. specialize (Hm b Hb). unfold bind.
  destruct (m b) as [a b'|e b'| |]; try exact Hm.
  destruct Hm as [Hb' HQ]. apply (Hf a HQ b' Hb').
Qed.

Lemma bsafe_ret {A} (a : A) (Q : A -> Prop) : Q a -> bsafe (ret a) Q.
Proof. intros H b Hb. split; assumption. Qed.

Lemma bsafe_read_be n pos :
  0 <= n -> bsafe (let! bs := read_at n pos in ret (read_be bs)) (Z.le 0).
Proof.
  intros Hn. eapply bsafe_bind; [apply bsafe_read_at, Hn|].
  intros bs Hbs. apply bsafe_ret, (read_be_range bs Hbs).
Qed.

Lemma bsafe_read_u16 pos : bsafe (read_u16 pos) (Z.le 0).
Proof. apply bsafe_read_be. lia. Qed.

Lemma bsafe_read_u32 pos : bsafe (read_u32 pos) (Z.le 0).
Proof. apply bsafe_read_be. lia. Qed.

Lemma bsafe_read_u64 pos : bsafe (read_u64 pos) (Z.le 0).
Proof. apply bsafe_read_be. lia. Qed.

Lemma bsafe_read_i64 pos : bsafe (read_i64 pos) any.
Proof.
  eapply bsafe_bind; [apply bsafe_read_u64|]. intros. apply bsafe_ret. exact I.
Qed.

Lemma bsafe_read_msg_size pos : bsafe (read_msg_size pos) any.
Proof.
  eapply bsafe_bind; [apply bsafe_read_i64|]. intros. apply bsafe_ret. exact I.
Qed.

Lemma bsafe_skip n : 0 <= n -> bsafe (skip n) any.
Proof. intros Hn. apply bsafe_any. intros. apply steps_skip, Hn. Qed.

Lemma bsafe_read_str n : 0 <= n -> bsafe (read_str n) any.
Proof. intros Hn. apply bsafe_any. intros. apply steps_read_str, Hn. Qed.

Lemma bsafe_read_slice n : bsafe (read_slice n) any.
Proof. apply bsafe_any. intros. apply steps_read_slice. Qed.

Lemma bsafe_read_particle t n : 0 <= n -> bsafe (read_particle t n) any.
Proof.
  intros Hn b Hb. pose proof (len_nonneg (data_buffer b)). destruct Hb as [Hb Ho].
  unfold read_particle.
  pose proof (steps_bytes_to_particle (S (length (data_buffer b)))
    (len (data_buffer b)) t n ltac:(unfold len in *; lia) Hn b Hb
    ltac:(unfold room; lia)) as Hs.
  destruct (bytes_to_particle _ t n b) as [a b'|e b'| |]; auto;
    destruct Hs as [Hd Hr]; unfold bgood, room in *; rewrite Hd in *;
    repeat split; auto; lia.
Qed.

Lemma bsafe_usize_sub {B} x y (f : Z -> M Buffer B) R :
  (0 <= x - y -> bsafe (f (x - y)) R) -> bsafe (bind (usize_sub x y) f) R.
Proof.
  intros H. unfold usize_sub. destruct (Z.leb_spec y x).
  - apply H. lia.
  - intros b Hb. exact I.
Qed.

Lemma bsafe_for_range {A} n (f : A -> M Buffer A) acc :
  (forall a, bsafe (f a) any) -> bsafe (for_range n f acc) any.
Proof.
  intros Hf. revert acc. induction n as [|n IH]; intros acc; cbn.
  - apply bsafe_ret. exact I.
  - eapply bsafe_bind; [apply Hf|]. intros a _. apply IH.
Qed.

Lemma bsafe_parse_record ops fields g e :
  bsafe (ReadCommand.parse_record ops fields g e) any.
Proof.
  eapply bsafe_bind.
  - apply bsafe_for_range. intros _. eapply bsafe_bind; [apply bsafe_read_u32|].
    intros n Hn. apply bsafe_skip. lia.
  - intros _ _. eapply bsafe_bind; [|intros; apply bsafe_ret; exact I].
    apply bsafe_for_range. intros m. unfold ReadCommand.read_op.
    eapply bsafe_bind; [apply bsafe_read_u32|]. intros size _.
    eapply bsafe_bind; [apply bsafe_skip; lia|]. intros _ _.
    eapply bsafe_bind; [apply bsafe_read_u8|]. intros t _.
    eapply bsafe_bind; [apply bsafe_skip; lia|]. intros _ _.
    eapply bsafe_bind; [apply bsafe_read_u8|]. intros n [Hn _].
    eapply bsafe_bind; [apply bsafe_read_str, Hn|]. intros name _.
    apply bsafe_usize_sub. intros Hs.
    eapply bsafe_bind; [apply bsafe_read_particle, Hs|]. intros v _.
    apply bsafe_ret. exact I.
Qed.

End Reads.

(** ** Connections *)

Definition left (c : Connection) : Z := len (incoming (conn c)).

Definition good (c : Connection) : Prop :=
  all_bytes (incoming (conn c)) /\ bgood (buffer c).

(** [m] ends in a good connection, and a success takes [k] bytes from the
    stream. *)
Definition csafe {A} (k : Z) (m : M Connection A) (Q : A -> Prop) : Prop :=
  forall c, good c ->
  match m c with
  | Ret a c' => good c' /\ Q a /\ left c' + k <= left c
  | Throw _ c' => good c' /\ left c' <= left c
  | Panic => True
  | NoFuel => False
  end.

Lemma csafe_bind {A B} k j (m : M Connection A) (f : A -> M Connection B) Q R :
  0 <= k -> csafe k m Q -> (forall a, Q a -> csafe j (f a) R) ->
  csafe (k + j) (bind m f) R.
Proof.
  intros Hk Hm Hf c Hc. specialize (Hm c Hc). unfold bind.
  destruct (m c) as [a c'|e c'| |]; try exact Hm.
  destruct Hm as (Hc' & HQ & Hl). specialize (Hf a HQ c' Hc').
  destruct (f a c'); try exact Hf; intuition lia.
Qed.

Lemma csafe_le {A} k k' (m : M Connection A) Q : csafe k m Q -> k' <= k -> csafe k' m Q.
Proof.
  intros H Hk c Hc. specialize (H c Hc). destruct (m c); try exact H. intuition lia.
Qed.

Lemma csafe_seq {A B} (m : M Connection A) (f : A -> M Connection B) Q R :
  csafe 0 m Q -> (forall a, Q a -> csafe 0 (f a) R) -> csafe 0 (bind m f) R.
Proof. apply (csafe_bind 0 0). lia. Qed.

Lemma csafe_ret {A} (a : A) (Q : A -> Prop) : Q a -> csafe 0 (ret a) Q.
Proof. intros H c Hc. repeat split; try apply Hc; [exact H|lia]. Qed.

Lemma csafe_throw {A} e (Q : A -> Prop) : csafe 0 (throw e : M Connection A) Q.
Proof. intros c Hc. split; [exact Hc|lia]. Qed.

Lemma csafe_panic {A} k (Q : A -> Prop) : csafe k (panic : M Connection A) Q.
Proof. intros c Hc. exact I. Qed.

Lemma csafe_lift {A} (m : M Buffer A) Q : bsafe m Q -> csafe 0 (lift m) Q.
Proof.
  intros H c [Hi Hb]. specialize (H (buffer c) Hb). unfold lift.
  destruct (m (buffer c)) as [a b|e b| |]; auto.
  - destruct H as [Hb' HQ]. repeat split; try apply Hb'; [exact Hi|exact HQ|].
    unfold left. cbn. lia.
  - split; [split; [exact Hi|exact H]|]. unfold left. cbn. lia.
Qed.

Lemma csafe_usize_sub {B} k x y (f : Z -> M Connection B) R :
  (0 <= x - y -> csafe k (f (x - y)) R) -> csafe k (bind (usize_sub x y) f) R.
Proof.
  intros H. unfold usize_sub. destruct (Z.leb_spec y x).
  - apply H. lia.
  - intros c Hc. exact I.
Qed.

Lemma csafe_for_range {A} n (f : A -> M Connection A) acc :
  (forall a, csafe 0 (f a) any) -> csafe 0 (for_range n f acc) any.
Proof.
  intros Hf. revert acc. induction n as [|n IH]; intros acc; cbn.
  - apply csafe_ret. exact I.
  - eapply csafe_seq; [apply Hf|]. intros a _. apply IH.
Qed.

Section Total.
Context `{BO : ByteOrder} `{VF : ValueFmt} `{CL : Clock}.

Lemma csafe_refresh : csafe 0 refresh any.
Proof.
  intros c Hc. destruct (refresh_spec c) as (c' & -> & Hs & Hb & _).
  unfold good, left. rewrite Hs, Hb. repeat split; try apply Hc. lia.
Qed.

Lemma csafe_resize n : csafe 0 (lift (resize_buffer n)) any.
Proof.
  apply csafe_lift. intros b [Hb Ho]. unfold resize_buffer.
  destruct (n >? MAX_BUFFER_SIZE); [split; assumption|].
  split; [|exact I]. split; [|exact Ho]. cbn. unfold vec_resize.
  apply Forall_resize; [unfold is_byte; lia|exact Hb].
Qed.

Lemma splice_bytes d a bs : all_bytes d -> all_bytes bs -> all_bytes (splice d a bs).
Proof.
  intros Hd Hb. unfold splice.
  apply Forall_app; split; [apply Forall_take, Hd|].
  apply Forall_app; split; [exact Hb|apply Forall_drop, Hd].
Qed.

Lemma csafe_read_buffer k : 0 <= k -> csafe k (read_buffer k) any.
Proof.
  intros Hk c [Hi [Hb Ho]]. unfold read_buffer, lift, resize_buffer, bind at 1.
  destruct (k >? MAX_BUFFER_SIZE).
  { split; [repeat split; assumption|]. unfold left. cbn. lia. }
  unfold fill_buffer, bind at 1. cbn [buffer set_buffer data_buffer set_data conn].
  rewrite (len_vec_resize k) by exact Hk. unfold read_exact.
  assert (all_bytes (take (Z.to_nat k) (incoming (conn c)))) as Ht by (apply Forall_take, Hi).
  assert (all_bytes (drop (Z.to_nat k) (incoming (conn c)))) as Hd by (apply Forall_drop, Hi).
  assert (all_bytes (vec_resize k (data_buffer (buffer c)))) as Hv
    by (apply Forall_resize; [unfold is_byte; lia|exact Hb]).
  destruct (Z.leb_spec k (len (incoming (conn c)))).
  - rewrite bind_modify. unfold bind, reset_offset. cbv beta iota.
    match goal with |- context [refresh ?c1] =>
      destruct (refresh_spec c1) as (c' & -> & Hc & Hbuf & _) end.
    unfold good, bgood, left. rewrite Hc, Hbuf. cbn.
    repeat split; [exact Hd|apply splice_bytes; assumption|lia|].
    unfold len in *. rewrite length_drop. lia.
  - unfold good, bgood, left. cbn.
    repeat split; [exact Hd|apply splice_bytes; assumption|exact Ho|].
    unfold len in *. rewrite length_drop. lia.
Qed.

Lemma splice_all d bs : len bs = len d -> splice d 0 bs = bs.
Proof.
  unfold splice, len. intros H. rewrite drop_ge by lia. apply app_nil_r.
Qed.

Lemma read_buffer_fresh k c b :
  0 <= k -> reclaim_threshold b = reclaim_threshold (buffer c) ->
  match read_buffer k c with
  | Ret _ c' => read_buffer k (set_buffer b c) = Ret tt c'
  | NoFuel => False
  | _ => True
  end.
Proof.
  intros Hk Hb. unfold read_buffer, lift, resize_buffer, bind at 1.
  destruct (k >? MAX_BUFFER_SIZE) eqn:Hm; [exact I|].
  unfold fill_buffer, bind at 1. cbn [buffer set_buffer data_buffer set_data conn set_conn].
  rewrite (len_vec_resize k) by exact Hk. unfold read_exact.
  destruct (Z.leb_spec k (len (incoming (conn c)))) as [Hl|]; [|exact I].
  rewrite bind_modify. unfold bind at 1, reset_offset. cbv beta iota.
  match goal with |- context [refresh ?x] => set (c1 := x) end.
  destruct (refresh_spec c1) as (c' & E & _). rewrite E, <- E.
  unfold bind at 1.
  unfold bind at 1. cbv beta. cbn [buffer set_buffer data_buffer set_data conn set_conn].
  rewrite (len_vec_resize k) by exact Hk. rewrite (proj2 (Z.leb_le _ _) Hl).
  rewrite bind_modify. unfold bind at 1. cbv beta iota. f_equal. unfold c1.
  assert (len (take (Z.to_nat k) (incoming (conn c))) = k) as Ht
    by (unfold len in *; rewrite length_take; lia).
  unfold set_bytes_read, set_buffer, set_conn, set_data, set_offset.
  cbn [idle_timeout idle_deadline conn bytes_read buffer ticks data_buffer data_offset reclaim_threshold].
  rewrite !splice_all by (rewrite (len_vec_resize k); lia). rewrite Hb. reflexivity.
Qed.

Lemma csafe_chunk k : 0 <= k -> csafe 0 (read_buffer k) any.
Proof. intros Hk. eapply csafe_le; [apply csafe_read_buffer, Hk|exact Hk]. Qed.

Lemma csafe_look {A B} (m : M Buffer A) (f : A -> M Connection B) Q R :
  bsafe m Q -> (forall a, Q a -> csafe 0 (f a) R) -> csafe 0 (bind (lift m) f) R.
Proof. intros Hm Hf. eapply csafe_seq; [apply csafe_lift, Hm|exact Hf]. Qed.

(** *** Messages *)

Lemma csafe_read_header : csafe 30 read_header any.
Proof.
  apply (csafe_bind 30 0 _ _ any); [lia|apply csafe_read_buffer|].
  - unfold MSG_TOTAL_HEADER_SIZE. lia.
  - intros _ _. apply csafe_lift. intros b [Hb _]. cbn. repeat split; [exact Hb|cbn; lia].
Qed.

Lemma csafe_read_message : csafe 30 ReadCommand.read_message any.
Proof.
  apply (csafe_bind 30 0 _ _ any); [lia|apply csafe_read_header|]. intros _ _.
  eapply csafe_look; [apply bsafe_read_u64|]. intros sz _.
  do 2 (eapply csafe_look; [apply bsafe_read_u8|]; intros ? _).
  do 2 (eapply csafe_look; [apply bsafe_read_u32|]; intros ? _).
  do 2 (eapply csafe_look; [apply bsafe_read_u16|]; intros ? _).
  apply csafe_usize_sub. intros Hn. eapply csafe_seq.
  - instantiate (1 := any). destruct (0 <? _); [apply csafe_chunk, Hn|].
    apply csafe_ret. exact I.
  - intros _ _. apply csafe_ret. exact I.
Qed.

Lemma csafe_stream_op m : csafe 8 (stream_op m) any.
Proof.
  apply (csafe_bind 8 0 _ _ any); [lia|apply csafe_read_buffer; lia|]. intros _ _.
  eapply csafe_look; [apply bsafe_read_u32|]. intros size _.
  eapply csafe_look; [apply bsafe_skip; lia|]. intros _ _.
  eapply csafe_look; [apply bsafe_read_u8|]. intros t _.
  eapply csafe_look; [apply bsafe_skip; lia|]. intros _ _.
  eapply csafe_look; [apply bsafe_read_u8|]. intros n [Hn _].
  eapply csafe_seq; [apply csafe_chunk, Hn|]. intros _ _.
  eapply csafe_look; [apply bsafe_read_str, Hn|]. intros name _.
  apply csafe_usize_sub. intros Hs.
  eapply csafe_seq; [apply csafe_chunk, Hs|]. intros _ _.
  eapply csafe_look; [apply bsafe_read_particle, Hs|]. intros v _.
  apply csafe_ret. exact I.
Qed.

Lemma csafe_key_field k : csafe 0 (key_field k) any.
Proof.
  eapply csafe_seq; [apply csafe_chunk; lia|]. intros _ _.
  eapply csafe_look; [apply bsafe_read_u32|]. intros n Hn.
  eapply csafe_seq; [apply csafe_chunk, Hn|]. intros _ _.
  eapply csafe_look; [apply bsafe_read_u8|]. intros t _. unfold key_field_value.
  repeat match goal with |- csafe _ (if ?b then _ else _) _ => destruct b end.
  - apply csafe_usize_sub. intros _.
    eapply csafe_look; [apply bsafe_read_slice|]. intros s _.
    unfold copy_digest. destruct (len s =? 20); [|intros c Hc; exact I].
    apply (csafe_ret _ any). exact I.
  - apply csafe_usize_sub. intros Hs.
    eapply csafe_look; [apply bsafe_read_str, Hs|]. intros s _. apply csafe_ret. exact I.
  - apply csafe_usize_sub. intros Hs.
    eapply csafe_look; [apply bsafe_read_str, Hs|]. intros s _. apply csafe_ret. exact I.
  - eapply csafe_look; [apply bsafe_read_u8|]. intros pt _.
    apply csafe_usize_sub. intros Hs.
    eapply csafe_look; [apply bsafe_read_particle, Hs|]. intros v _.
    apply csafe_ret. exact I.
  - apply csafe_panic.
Qed.

Lemma csafe_record_numbers : csafe 0 record_numbers any.
Proof.
  eapply csafe_look; [apply bsafe_skip; lia|]. intros _ _.
  do 3 (eapply csafe_look; [apply bsafe_read_u32|]; intros ? _).
  do 2 (eapply csafe_look; [apply bsafe_read_u16|]; intros ? _).
  apply csafe_ret. exact I.
Qed.

Lemma csafe_ops n m : csafe 0 (for_range n stream_op m) any.
Proof.
  apply csafe_for_range. intros a. eapply csafe_le; [apply csafe_stream_op|lia].
Qed.

Lemma csafe_batch_record : csafe 0 BatchReadCommand.parse_record any.
Proof.
  eapply csafe_look; [apply bsafe_read_u8|]. intros code _.
  eapply (csafe_seq _ _ any).
  { destruct (ResultCode.from_u8 code);
      first [apply csafe_ret; exact I|apply csafe_throw]. }
  intros found _. eapply csafe_look; [apply bsafe_read_u8|]. intros info3 _.
  destruct (_ =? _); [apply csafe_ret; exact I|].
  eapply csafe_seq; [apply csafe_record_numbers|]. intros [[[[g e] i] fc] oc] _.
  eapply csafe_seq; [apply csafe_for_range, csafe_key_field|]. intros key _.
  eapply (csafe_seq _ _ any); [|intros r _; apply csafe_ret; exact I].
  destruct found; [|apply csafe_ret; exact I].
  eapply csafe_seq; [apply csafe_ops|]. intros bins _. apply csafe_ret. exact I.
Qed.

(** *** Commands *)

(** [m] ends, whatever the state of the command, and a success takes [k]
    bytes. *)
Definition dsafe {C A} (k : Z) (m : M (C * Connection) A) : Prop :=
  forall x c, good c ->
  match m (x, c) with
  | Ret _ (_, c') => good c' /\ left c' + k <= left c
  | Throw _ (_, c') => good c' /\ left c' <= left c
  | Panic => True
  | NoFuel => False
  end.

Lemma dsafe_conn {C A} k (m : M Connection A) Q :
  csafe k m Q -> dsafe (C := C) k (on_snd m).
Proof.
  intros H x c Hc. specialize (H c Hc). unfold on_snd. cbn.
  destruct (m c); try exact H; intuition.
Qed.

Lemma dsafe_bind {C A B} k j (m : M (C * Connection) A) (f : A -> M (C * Connection) B) :
  0 <= k -> dsafe k m -> (forall a, dsafe j (f a)) -> dsafe (k + j) (bind m f).
Proof.
  intros Hk Hm Hf x c Hc. specialize (Hm x c Hc). unfold bind.
  destruct (m (x, c)) as [a [x' c']|e [x' c']| |]; try exact Hm.
  destruct Hm as (Hc' & Hl). specialize (Hf a x' c' Hc').
  destruct (f a (x', c')) as [b [? ?]|e [? ?]| |]; try exact Hf; intuition lia.
Qed.

Lemma dsafe_seq {C A B} (m : M (C * Connection) A) (f : A -> M (C * Connection) B) :
  dsafe 0 m -> (forall a, dsafe 0 (f a)) -> dsafe 0 (bind m f).
Proof. apply (dsafe_bind 0 0). lia. Qed.

Lemma dsafe_le {C A} k k' (m : M (C * Connection) A) : dsafe k m -> k' <= k -> dsafe k' m.
Proof.
  intros H Hk x c Hc. specialize (H x c Hc).
  destruct (m (x, c)) as [? [? ?]|? [? ?]| |]; try exact H; intuition lia.
Qed.

Lemma dsafe_ret {C A} (a : A) : dsafe (C := C) 0 (ret a).
Proof. intros x c Hc. cbn. split; [exact Hc|lia]. Qed.

Lemma dsafe_throw {C A} e : dsafe (C := C) 0 (throw e : M _ A).
Proof. intros x c Hc. cbn. split; [exact Hc|lia]. Qed.

Lemma dsafe_get {C} : dsafe (C := C) 0 (on_fst get).
Proof. intros x c Hc. cbn. split; [exact Hc|lia]. Qed.

Lemma dsafe_put {C} (x : C) : dsafe 0 (on_fst (put x)).
Proof. intros y c Hc. cbn. split; [exact Hc|lia]. Qed.

Lemma read_parse_result_safe : dsafe 30 ReadCommand.parse_result.
Proof.
  apply (dsafe_bind 30 0); [lia|eapply dsafe_conn, csafe_read_message|].
  intros [[[[rc g] e] fc] oc].
  assert (dsafe (C := ReadCommand) 0 (on_snd (lift
    (ReadCommand.parse_record (Z.to_nat oc) (Z.to_nat fc) g e)))) as Hp
    by (eapply dsafe_conn, csafe_lift, bsafe_parse_record).
  destruct (ResultCode.from_u8 rc); try apply dsafe_throw.
  - apply dsafe_seq; [apply dsafe_get|]. intros cmd.
    apply dsafe_seq; [|intros r; apply dsafe_put].
    destruct (Bins.is_none _); [apply dsafe_ret|exact Hp].
  - apply dsafe_seq; [exact Hp|]. intros r. apply dsafe_throw.
Qed.

Lemma csafe_empty_socket : csafe 0 empty_socket any.
Proof.
  eapply csafe_look; [apply bsafe_read_i64|]. intros sz _.
  eapply csafe_look; [apply bsafe_read_u8|]. intros hl _.
  cbv zeta. destruct (Z.ltb_spec 0 (as_u64 (Z.land sz 0xFFFFFFFFFFFF - hl)));
    cbn [when]; [|apply csafe_ret; exact I].
  eapply csafe_seq; [apply csafe_resize|]. intros _ _. apply csafe_chunk. lia.
Qed.

Lemma csafe_header_result : csafe 0 header_result_code any.
Proof.
  eapply csafe_look; [apply bsafe_read_u8|]. intros c _. apply csafe_ret. exact I.
Qed.

Lemma write_parse_result_safe : csafe 30 write_parse_result any.
Proof.
  apply (csafe_bind 30 0 _ _ any); [lia|apply csafe_read_header|]. intros _ _.
  eapply csafe_seq; [apply csafe_header_result|]. intros rc _.
  destruct (bool_decide _); [apply csafe_empty_socket|apply csafe_throw].
Qed.

Lemma exists_parse_result_safe : dsafe 30 exists_parse_result.
Proof.
  apply (dsafe_bind 30 0); [lia|eapply dsafe_conn, csafe_read_header|]. intros _.
  apply dsafe_seq; [eapply dsafe_conn, csafe_header_result|]. intros rc.
  destruct (_ && _); [apply dsafe_throw|].
  apply dsafe_seq; [apply dsafe_put|]. intros _. eapply dsafe_conn, csafe_empty_socket.
Qed.

(** *** Loops *)

(** With more fuel than bytes in the stream, [m] ends and takes no byte
    back. *)
Definition bounded {C A} (f : nat) (m : M (C * Connection) A) : Prop :=
  forall x c, good c -> left c < Z.of_nat f ->
  match m (x, c) with
  | Ret _ (_, c') | Throw _ (_, c') => good c' /\ left c' <= left c
  | Panic => True
  | NoFuel => False
  end.

Lemma bounded_safe {C A} f (m : M (C * Connection) A) : dsafe 0 m -> bounded f m.
Proof.
  intros H x c Hc _. specialize (H x c Hc).
  destruct (m (x, c)) as [? [? ?]|? [? ?]| |]; try exact H; intuition lia.
Qed.

(** A step that takes a byte pays for a unit of fuel. *)
Lemma bounded_pay {C A B} f (m : M (C * Connection) A) (k : A -> M (C * Connection) B) :
  dsafe 1 m -> (forall a, bounded f (k a)) -> bounded (S f) (bind m k).
Proof.
  intros Hm Hk x c Hc Hl. specialize (Hm x c Hc). unfold bind.
  destruct (m (x, c)) as [a [x' c']|e [x' c']| |]; try exact Hm.
  destruct Hm as [Hc' Hl']. specialize (Hk a x' c' Hc' ltac:(lia)).
  destruct (k a (x', c')) as [? [? ?]|? [? ?]| |]; try exact Hk; intuition lia.
Qed.

Lemma bounded_bind {C A B} f (m : M (C * Connection) A) (k : A -> M (C * Connection) B) :
  bounded f m -> (forall a, bounded f (k a)) -> bounded f (bind m k).
Proof.
  intros Hm Hk x c Hc Hl. specialize (Hm x c Hc Hl). unfold bind.
  destruct (m (x, c)) as [a [x' c']|e [x' c']| |]; try exact Hm.
  destruct Hm as [Hc' Hl']. specialize (Hk a x' c' Hc' ltac:(lia)).
  destruct (k a (x', c')) as [? [? ?]|? [? ?]| |]; try exact Hk; intuition lia.
Qed.

Lemma bounded_fuel0 {C A} (m : M (C * Connection) A) : bounded 0 m.
Proof. intros x c Hc Hl. pose proof (len_nonneg (incoming (conn c))). unfold left in *. lia. Qed.

Lemma dsafe_read {C} k : 1 <= k -> dsafe (C := C) 1 (on_snd (read_buffer k)).
Proof.
  intros Hk. eapply dsafe_le; [eapply dsafe_conn, csafe_read_buffer; lia|exact Hk].
Qed.

Lemma dsafe_conn_get {C} : dsafe (C := C) 0 (on_snd get).
Proof. intros x c Hc. cbn. split; [exact Hc|lia]. Qed.

Lemma bounded_ret {C A} f (a : A) : bounded (C := C) f (ret a).
Proof. apply bounded_safe, dsafe_ret. Qed.

Lemma csafe_bookmark : csafe 0 bookmark any.
Proof. intros c Hc. repeat split; try apply Hc. unfold left. cbn. lia. Qed.

Lemma batch_group_bounded f size : bounded f (BatchReadCommand.parse_group f size).
Proof.
  induction f as [|f IH]; [apply bounded_fuel0|]. cbn [BatchReadCommand.parse_group].
  apply bounded_bind; [apply bounded_safe, dsafe_conn_get|]. intros c.
  destruct (_ <? _); [|apply bounded_ret].
  apply bounded_pay; [apply dsafe_read; unfold MSG_REMAINING_HEADER_SIZE; lia|].
  intros _. apply bounded_bind.
  { eapply bounded_safe, dsafe_conn, csafe_batch_record. }
  intros [[i rec]|]; [|apply bounded_ret].
  apply bounded_bind; [|intros _; exact IH]. apply bounded_safe.
  intros x c' Hc. unfold on_fst, BatchReadCommand.set_record. cbn.
  destruct (BatchReadCommand.batch_reads x !! Z.to_nat i); cbn; [|exact I].
  split; [exact Hc|lia].
Qed.

Lemma batch_result_bounded f : bounded f (BatchReadCommand.parse_result f).
Proof.
  induction f as [|f IH]; [apply bounded_fuel0|]. cbn [BatchReadCommand.parse_result].
  apply bounded_pay; [apply dsafe_read; lia|]. intros _.
  apply bounded_bind; [eapply bounded_safe, dsafe_conn, csafe_lift, bsafe_read_msg_size|].
  intros size.
  apply bounded_bind; [eapply bounded_safe, dsafe_conn, csafe_bookmark|]. intros _.
  apply bounded_bind; [destruct (0 <? size); [apply batch_group_bounded|apply bounded_ret]|].
  intros more. destruct more; [exact IH|apply bounded_ret].
Qed.

(** *** Streams *)

Section Stream.
Context `{IN : Interference}.

(** The consumer makes room within [lag] further tries of a push: a refused push is
    two accesses. *)
Definition makes_room (lag : nat) : Prop :=
  forall n, exists k, (k <= lag)%nat /\ forall r,
    let r' := interfere (n + 2 * k) r in
    Recordset.record_queue_count r' < Recordset.record_queue_size r'.

Section Room.
Context (lag : nat) (consumed : makes_room lag).

Lemma csafe_stream_record size : csafe 0 (stream_parse_record size) any.
Proof.
  eapply csafe_look; [apply bsafe_read_u8|]. intros code _.
  cbv zeta. case_bool_decide.
  - eapply (csafe_seq _ _ any); [intros c Hc; cbn; repeat split; try apply Hc; lia|].
    intros c _. eapply (csafe_seq _ _ any).
    + destruct (Z.ltb_spec (bytes_read c) size); [apply csafe_chunk; lia|].
      apply csafe_ret. exact I.
    + intros _ _. case_bool_decide; [apply csafe_ret; exact I|apply csafe_throw].
  - eapply csafe_look; [apply bsafe_read_u8|]. intros info3 _.
    destruct (_ =? _); [apply csafe_ret; exact I|].
    eapply csafe_seq; [apply csafe_record_numbers|]. intros [[[[g e] i] fc] oc] _.
    eapply csafe_seq; [apply csafe_for_range, csafe_key_field|]. intros key _.
    destruct (negb _); [apply csafe_ret; exact I|].
    eapply csafe_seq; [apply csafe_ops|]. intros bins _. apply csafe_ret. exact I.
Qed.

Lemma csafe_catch {A} (m : M Connection A) Q : csafe 0 m Q -> csafe 0 (catch m) any.
Proof.
  intros H c Hc. specialize (H c Hc). unfold catch.
  destruct (m c); try exact H; intuition (try exact I; lia).
Qed.

Lemma dsafe_access {A} (g : Recordset -> A * Recordset) :
  dsafe 0 (on_fst (StreamCommand.access g)).
Proof.
  intros x c Hc. unfold on_fst, StreamCommand.access. cbn.
  destruct (g _). split; [exact Hc|lia].
Qed.

Lemma perform_total {A} (m : Recordset.method A) : forall s,
  exists a s', StreamCommand.perform m s = Ret a s'.
Proof.
  induction m as [a|B f next IH]; intros s; [eexists _, _; reflexivity|].
  cbn [StreamCommand.perform]. unfold bind, StreamCommand.access.
  destruct (f _) as [b r]. apply IH.
Qed.

Lemma dsafe_perform {A} (m : Recordset.method A) : dsafe 0 (on_fst (StreamCommand.perform m)).
Proof.
  intros x c Hc. unfold on_fst. cbn [fst snd].
  destruct (perform_total m x) as (a & s' & ->). split; [exact Hc|lia].
Qed.

(** A push is done at the latest when there is room. *)
Lemma push_done k : forall fuel rec s,
  (k < fuel)%nat ->
  (forall r, let r' := interfere (StreamCommand.accesses s + 2 * k) r in
     Recordset.record_queue_count r' < Recordset.record_queue_size r') ->
  exists s', StreamCommand.push_record fuel rec s = Ret tt s'.
Proof.
  induction k as [|k IH]; intros [|fuel] rec s Hf Hroom; try lia; cbn [StreamCommand.push_record];
    unfold bind at 1; cbn [Recordset.push StreamCommand.perform];
    unfold bind at 1, StreamCommand.access at 1, Recordset.enter.
  - specialize (Hroom (StreamCommand.recordset s)). rewrite Nat.mul_0_r, Nat.add_0_r in Hroom.
    cbv zeta in Hroom. decide_tests. eexists. reflexivity.
  - destruct (_ <? _); [eexists; reflexivity|].
    unfold StreamCommand.perform, bind at 1, StreamCommand.access at 1, Recordset.count_down.
    apply (IH fuel rec); [lia|]. intros r. specialize (Hroom r). cbn in *.
    replace (S (S (StreamCommand.accesses s + (k + (k + 0)))))
      with (StreamCommand.accesses s + S (k + S (k + 0)))%nat by lia. exact Hroom.
Qed.

Lemma dsafe_push f rec :
  (lag <= f)%nat -> dsafe 0 (on_fst (StreamCommand.push_record (S f) rec)).
Proof.
  intros Hf x c Hc. unfold on_fst. cbn [fst snd].
  destruct (consumed (StreamCommand.accesses x)) as (k & Hk & Hroom).
  destruct (push_done k (S f) rec x ltac:(lia) Hroom) as (s' & ->). split; [exact Hc|lia].
Qed.

Lemma stream_bounded f size : bounded f (StreamCommand.parse_stream (S (f + lag)) size).
Proof.
  induction f as [|f IH]; [apply bounded_fuel0|].
  change (S f + lag)%nat with (S (f + lag)). remember (S (f + lag)) as f1 eqn:Hf1.
  cbn [StreamCommand.parse_stream].
  apply bounded_bind; [apply bounded_safe, dsafe_access|]. intros a.
  apply bounded_bind; [apply bounded_safe, dsafe_conn_get|]. intros c.
  destruct (_ && _); [|apply bounded_ret].
  apply bounded_pay; [apply dsafe_read; unfold MSG_REMAINING_HEADER_SIZE; lia|].
  intros _. apply bounded_bind.
  { eapply bounded_safe, dsafe_conn, csafe_catch, csafe_stream_record. }
  intros [[[rec|] [|]]|err]; try apply bounded_ret; try (exact IH).
  1, 2: apply bounded_bind; [apply bounded_safe; rewrite Hf1; apply dsafe_push; lia|];
    intros _; exact IH.
  apply bounded_bind; [apply bounded_safe, dsafe_perform|]. intros _. apply bounded_ret.
Qed.

Lemma stream_result_bounded f : bounded f (StreamCommand.parse_result (S (f + lag))).
Proof.
  induction f as [|f IH]; [apply bounded_fuel0|].
  change (S f + lag)%nat with (S (f + lag)). remember (S (f + lag)) as f1 eqn:Hf1.
  cbn [StreamCommand.parse_result].
  apply bounded_pay; [apply dsafe_read; lia|]. intros _.
  apply bounded_bind; [eapply bounded_safe, dsafe_conn, csafe_lift, bsafe_read_msg_size|].
  intros size.
  apply bounded_bind; [eapply bounded_safe, dsafe_conn, csafe_bookmark|]. intros _.
  apply bounded_bind.
  { destruct (0 <? size); [rewrite Hf1; apply stream_bounded|apply bounded_ret]. }
  intros status. destruct status; [exact IH|apply bounded_ret].
Qed.

(** What the buffer holds does not matter: the first read fills it anew. *)
Lemma stream_ends f s (c : Connection) :
  all_bytes (incoming (conn c)) -> (length (incoming (conn c)) < f)%nat ->
  StreamCommand.parse_result (S (f + lag)) (s, c) <> NoFuel.
Proof.
  intros Hi Hf. set (b := mkBuffer [] 0 (reclaim_threshold (buffer c))).
  pose proof (stream_result_bounded f s (set_buffer b c)
    ltac:(split; [exact Hi|split; [constructor|cbn; lia]])
    ltac:(unfold left, len; cbn; lia)) as H.
  pose proof (read_buffer_fresh 8 c b ltac:(lia) eq_refl) as Hr. intros E.
  cbn [StreamCommand.parse_result] in H, E. unfold bind at 1, on_snd at 1 in H.
  unfold bind at 1, on_snd at 1 in E. cbn [fst snd] in H, E.
  destruct (read_buffer 8 c) as [[] c'|e c'| |]; try discriminate E; [|contradiction].
  rewrite Hr, E in H. exact H.
Qed.

End Room.

(** A push on a set that stays full is tried for ever, whatever the fuel and whether
    or not the set was closed. *)
Lemma full_set_spins : forall fuel rec s,
  (forall n r, let r' := interfere n r in
     Recordset.record_queue_size r' <= Recordset.record_queue_count r') ->
  StreamCommand.push_record fuel rec s = NoFuel.
Proof.
  induction fuel as [|fuel IH]; intros rec s Hfull; [reflexivity|].
  cbn [StreamCommand.push_record]. unfold bind at 1. cbn [Recordset.push StreamCommand.perform].
  unfold bind at 1, StreamCommand.access at 1, Recordset.enter.
  specialize (Hfull (StreamCommand.accesses s) (StreamCommand.recordset s)) as H.
  cbv zeta in H. decide_tests. cbn [StreamCommand.perform].
  unfold bind at 1, StreamCommand.access at 1, Recordset.count_down. cbn [ret].
  apply IH, Hfull.
Qed.

(** C23: with any bytes in the stream and the buffer, the commands on one record and
    the batches end, the latter with as much fuel as there are bytes in the stream;
    a scan or a query ends if the consumer of its records makes room within [lag]
    further tries of a push, with that much more fuel.  (Without that condition it
    does not: [full_set_spins].) *)
Theorem responses_terminate (f lag : nat) (c : Connection) (read : ReadCommand)
    (existed : bool) (batch : BatchReadCommand) (stream : StreamCommand) :
  all_bytes (incoming (conn c)) -> all_bytes (data_buffer (buffer c)) ->
  0 <= data_offset (buffer c) -> (length (incoming (conn c)) < f)%nat ->
  ReadCommand.parse_result (read, c) <> NoFuel /\
  write_parse_result c <> NoFuel /\
  exists_parse_result (existed, c) <> NoFuel /\
  BatchReadCommand.parse_result f (batch, c) <> NoFuel /\
  (makes_room lag -> StreamCommand.parse_result (S (f + lag)) (stream, c) <> NoFuel).
Proof.
  intros Hi Hb Ho Hf. assert (good c) as Hc by (repeat split; assumption).
  assert (left c < Z.of_nat f) as Hl by (unfold left, len; lia).
  pose proof (read_parse_result_safe read c Hc).
  pose proof (write_parse_result_safe c Hc).
  pose proof (exists_parse_result_safe existed c Hc).
  pose proof (batch_result_bounded f batch c Hc Hl).
  split; [|split; [|split; [|split]]]; try (intros E; rewrite E in *; assumption).
  intros Hroom E. pose proof (stream_result_bounded lag Hroom f stream c Hc Hl) as H5.
  rewrite E in H5. exact H5.
Qed.

End Stream.

End Total.

(** ** Example *)

Section Example.

#[local] Existing Instance valuefmt_model.
#[local] Existing Instance clock_model.

(** A consumer that empties the queue, of 1024 records, before two accesses in four. *)
#[local] Instance lazy : Interference := {|
  interfere n r :=
    let full := Nat.ltb (Nat.modulo n 4) 2 in
    Recordset.mkRecordset (Recordset.instances r) (if full then 1024 else 0) 1024 []
      (Recordset.active r) (Recordset.task_id_ r)
|}.

Lemma lazy_makes_room : makes_room 1.
Proof.
  intros n. pose proof (Nat.mod_upper_bound n 4 ltac:(lia)).
  pose proof (Nat.div_mod_eq n 4).
  destruct (Nat.ltb_spec (n mod 4) 2) as [Hn|Hn].
  - exists 1%nat. split; [lia|]. intros r. cbn [interfere lazy Recordset.record_queue_count
      Recordset.record_queue_size].
    replace ((n + 2 * 1) mod 4)%nat with (n mod 4 + 2)%nat; [rewrite (proj2 (Nat.ltb_ge _ _)); lia|].
    apply (Nat.mod_unique _ 4 (n / 4)); lia.
  - exists 0%nat. split; [lia|]. intros r. cbn [interfere lazy Recordset.record_queue_count
      Recordset.record_queue_size].
    rewrite Nat.mul_0_r, Nat.add_0_r, (proj2 (Nat.ltb_ge _ _)); lia.
Qed.

(** A stream of zeros. *)
Lemma responses_terminate_witness :
  let c := sample_conn (replicate 40 0) in
  ReadCommand.parse_result
    (ReadCommand.new BasePolicy_default sample_key Bins.All, c) <> NoFuel /\
  BatchReadCommand.parse_result 41 (sample_batch, c) <> NoFuel /\
  StreamCommand.parse_result 43 (sample_stream 1024 true, c) <> NoFuel.
Proof.
  intros c.
  destruct (responses_terminate (IN := lazy) 41 1 c
           (ReadCommand.new BasePolicy_default sample_key Bins.All) false
           sample_batch (sample_stream 1024 true)) as (H1 & _ & _ & H4 & H5).
  - apply Forall_replicate. unfold is_byte. lia.
  - constructor.
  - cbn. lia.
  - vm_compute. lia.
  - split; [exact H1|]. split; [exact H4|]. apply H5, lazy_makes_room.
Defined.

End Example.
