(* ===== verification/Execute.v ===== *)
(** * Executing a command ([src/commands/single_command.rs])

    [SingleCommand::execute], the retry loop that every command but the admin
    and info ones goes through ([BatchReadCommand::execute] is the same loop).
    A command is an instance of [Command], the trait of
    [src/commands/mod.rs]; what the loop needs of the cluster, its nodes and
    their connection pools is the interface [Environment]. *)

From stdpp Require Import base list strings gmap.
From Stdlib Require Import ZArith Lia.
From S2P Require Import Prelude ResultCodes Monad ByteOrder Slices Wire Buffer.
From S2P Require Import Values Decoder Encoder Expressions Operations Policy Records.
From S2P Require Import Connection Statements Commands Queries Responses Recordset.
From S2P Require Import Streams.

(** [trait Command], but for [get_node], which is the environment's. *)
Class Command (C : Type) := {
  write_timeout : option Duration -> M (C * Connection) unit;
  prepare_buffer : M (C * Connection) unit;
  write_buffer : M (C * Connection) unit;
  parse_result : M (C * Connection) unit
}.

(** The cluster, seen from a command: clock and timer, the node of the command,
    its pool, and the two ends of a [PooledConnection]: [invalidate], and the
    [Drop] that puts it back.  A [Lease] is what a [PooledConnection] has beside
    the connection: the queue it came from. *)
Class Environment (W Node Lease : Type) := {
  env_now : M W Z;
  sleep : Duration -> M W unit;
  get_node : M W Node;
  get_connection : Node -> option Duration -> M W (Lease * Connection);
  invalidate : Lease -> Connection -> M W unit;
  put_back : Lease -> Connection -> M W unit
}.

(** One turn of the loop ends in [continue] or in a result. *)
Inductive turn : Type :=
| Again
| Finished (result : unit + ErrorKind).

Section Execute.
Context `{CM : Command C} `{EN : Environment W Node Lease}.

(** A method of the command on the connection it holds, as a [match] on its
    result. *)
Definition on_connection {A} (m : M (C * Connection) A) (conn : Connection)
    : M (C * W) ((A + ErrorKind) * Connection) :=
  fun s =>
    match m (fst s, conn) with
    | Ret a (x, conn') => Ret (inl a, conn') (x, snd s)
    | Throw e (x, conn') => Ret (inr e, conn') (x, snd s)
    | Panic => Panic
    | NoFuel => NoFuel
    end.

(** [execute] from the choice of a node to the end of the turn.  The error of
    [chain_err] has the new message. *)
Definition attempt (timeout : option Duration) : M (C * W) turn :=
  let! node := on_snd (catch get_node) in
  match node with
  | inr _ => ret Again
  | inl node =>
      let! conn := on_snd (catch (get_connection node timeout)) in
      match conn with
      | inr _ => ret Again
      | inl (lease, conn) =>
          let! (r, conn) := on_connection prepare_buffer conn in
          match r with
          | inr _ =>
              on_snd (put_back lease conn) ;;;
              ret (Finished (inr (Msg "Failed to prepare send buffer")))
          | inl _ =>
              let! (r, conn) := on_connection (write_timeout timeout) conn in
              match r with
              | inr _ =>
                  on_snd (put_back lease conn) ;;;
                  ret (Finished (inr (Msg "Failed to set timeout for send buffer")))
              | inl _ =>
                  let! (r, conn) := on_connection write_buffer conn in
                  match r with
                  | inr _ => on_snd (invalidate lease conn) ;;; ret Again
                  | inl _ =>
                      let! (r, conn) := on_connection parse_result conn in
                      match r with
                      | inr err =>
                          on_snd (if keep_connection err
                                  then put_back lease conn else invalidate lease conn) ;;;
                          ret (Finished (inr err))
                      | inl _ =>
                          on_snd (put_back lease conn) ;;; ret (Finished (inl tt))
                      end
                  end
              end
          end
      end
  end.

(** [policy.deadline()]. *)
Definition policy_deadline (timeout : option Duration) : M (C * W) (option Z) :=
  match timeout with
  | Some t => let! n := on_snd env_now in ret (Some (n + nanos t))
  | None => ret None
  end.

Definition past (deadline : option Z) : M (C * W) bool :=
  match deadline with
  | Some d => let! n := on_snd env_now in ret (d <? n)
  | None => ret false
  end.

Definition finish (r : unit + ErrorKind) : M (C * W) unit :=
  match r with inl _ => ret tt | inr e => throw e end.

(** The loop; [iterations] is the count before this turn. *)
Fixpoint execute_loop (fuel : nat) (policy : BasePolicy) (deadline : option Z)
    (iterations : Z) : M (C * W) unit :=
  match fuel with
  | O => no_fuel
  | S fuel' =>
      let! iterations := usize_checked (iterations + 1) in
      let! too_many :=
        match base_max_retries policy with
        | Some max_retries =>
            let! most := usize_checked (max_retries + 1) in ret (most <? iterations)
        | None => ret false
        end in
      if too_many : bool then throw (ConnectionError "Timeout after {} tries")
      else
        when (1 <? iterations)
          match base_sleep_between_retries policy with
          | Some d => on_snd (sleep d)
          | None => ret tt
          end ;;;
        let! late := past deadline in
        if late : bool then throw (ConnectionError "Timeout")
        else
          let! t := attempt (base_timeout policy) in
          match t with
          | Again => execute_loop fuel' policy deadline iterations
          | Finished r => finish r
          end
  end.

(** [SingleCommand::execute], also [BatchReadCommand::execute]. *)
Definition execute (fuel : nat) (policy : BasePolicy) : M (C * W) unit :=
  let! deadline := policy_deadline (base_timeout policy) in
  execute_loop fuel policy deadline 0.

End Execute.

(** ** The commands *)

Section Commands.
Context `{BO : ByteOrder} `{VF : ValueFmt} `{CL : Clock}.

(** [write_timeout] and [write_buffer] are the same for every command. *)
Definition conn_write_timeout {C} (timeout : option Duration) : M (C * Connection) unit :=
  on_snd (Connection.lift (Buffer.write_timeout timeout)).

Definition conn_write_buffer {C} : M (C * Connection) unit := on_snd Connection.flush.

(** [prepare_buffer] that calls one of the [set_*] methods. *)
Definition preparing {C} (f : C -> M Buffer unit) : M (C * Connection) unit :=
  let! cmd := on_fst get in on_snd (Connection.lift (f cmd)).

(** [struct WriteCommand]; the key stands for the embedded [SingleCommand]. *)
Record WriteCommand : Type := mkWriteCommand {
  wc_policy : WritePolicy;
  wc_key : Key;
  wc_bins : list Bin;
  wc_operation : OperationType
}.

#[export] Instance write_command : Command WriteCommand := {|
  write_timeout := conn_write_timeout;
  prepare_buffer :=
    preparing (fun c => set_write (wc_policy c) (wc_operation c) (wc_key c) (wc_bins c));
  write_buffer := conn_write_buffer;
  parse_result := on_snd write_parse_result
|}.

(** [struct TouchCommand]. *)
Record TouchCommand : Type := mkTouchCommand {
  tc_policy : WritePolicy;
  tc_key : Key
}.

#[export] Instance touch_command : Command TouchCommand := {|
  write_timeout := conn_write_timeout;
  prepare_buffer := preparing (fun c => set_touch (tc_policy c) (tc_key c));
  write_buffer := conn_write_buffer;
  parse_result := on_snd write_parse_result
|}.

(** A command that embeds another is a pair of its parameters and the other,
    whose methods it calls. *)
Definition on_embedded {P X A} (m : M (X * Connection) A) : M ((P * X) * Connection) A :=
  fun s =>
    let '(p, x, c) := s in
    match m (x, c) with
    | Ret a (x', c') => Ret a (p, x', c')
    | Throw e (x', c') => Throw e (p, x', c')
    | Panic => Panic
    | NoFuel => NoFuel
    end.

(** The commands that answer whether the record was there are their parameters
    and that flag. *)

(** [struct DeleteCommand] is a policy and a key with the flag [existed]. *)
Record DeleteParams : Type := mkDeleteParams {
  dc_policy : WritePolicy;
  dc_key : Key
}.

#[export] Instance delete_command : Command (DeleteParams * bool) := {|
  write_timeout := conn_write_timeout;
  prepare_buffer := preparing (fun c => set_delete (dc_policy c.1) (dc_key c.1));
  write_buffer := conn_write_buffer;
  parse_result := on_embedded exists_parse_result
|}.

(** [struct ExistsCommand] likewise, with the flag [exists]. *)
Record ExistsParams : Type := mkExistsParams {
  ec_policy : WritePolicy;
  ec_key : Key
}.

#[export] Instance exists_command : Command (ExistsParams * bool) := {|
  write_timeout := conn_write_timeout;
  prepare_buffer := preparing (fun c => set_exists (ec_policy c.1) (ec_key c.1));
  write_buffer := conn_write_buffer;
  parse_result := on_embedded exists_parse_result
|}.

#[export] Instance read_command : Command ReadCommand := {|
  write_timeout := conn_write_timeout;
  prepare_buffer := ReadCommand.prepare_buffer;
  write_buffer := conn_write_buffer;
  parse_result := ReadCommand.parse_result
|}.

(** [struct OperateCommand], before its [ReadCommand]. *)
Record OperateParams : Type := mkOperateParams {
  oc_policy : WritePolicy;
  oc_operations : list Operation
}.

Definition OperateCommand_new (policy : WritePolicy) (key : Key)
    (operations : list Operation) : OperateParams * ReadCommand :=
  (mkOperateParams policy operations,
   ReadCommand.new (wp_base_policy policy) key Bins.All).

#[export] Instance operate_command : Command (OperateParams * ReadCommand) := {|
  write_timeout := conn_write_timeout;
  prepare_buffer :=
    preparing (fun c => set_operate (oc_policy c.1) (ReadCommand.key c.2)
                          (oc_operations c.1));
  write_buffer := conn_write_buffer;
  parse_result := on_embedded ReadCommand.parse_result
|}.

(** [struct ExecuteUDFCommand], before its [ReadCommand]. *)
Record UDFParams : Type := mkUDFParams {
  uc_policy : WritePolicy;
  uc_package_name : bytes;
  uc_function_name : bytes;
  uc_args : option (list Value)
}.

Definition ExecuteUDFCommand_new (policy : WritePolicy) (key : Key)
    (package_name function_name : bytes) (args : option (list Value))
    : UDFParams * ReadCommand :=
  (mkUDFParams policy package_name function_name args,
   ReadCommand.new (wp_base_policy policy) key Bins.All).

#[export] Instance udf_command : Command (UDFParams * ReadCommand) := {|
  write_timeout := conn_write_timeout;
  prepare_buffer :=
    preparing (fun c => set_udf (uc_policy c.1) (ReadCommand.key c.2)
                          (uc_package_name c.1) (uc_function_name c.1) (uc_args c.1));
  write_buffer := conn_write_buffer;
  parse_result := on_embedded ReadCommand.parse_result
|}.

#[export] Instance batch_read_command (fuel : nat) : Command BatchReadCommand := {|
  write_timeout := conn_write_timeout;
  prepare_buffer :=
    preparing (fun c => set_batch_read (BatchReadCommand.policy c)
                          (BatchReadCommand.batch_reads c)
                          (BatchReadCommand.offsets c));
  write_buffer := conn_write_buffer;
  parse_result := BatchReadCommand.parse_result fuel
|}.

Section Streams.
Context `{IN : Interference}.

(** [struct ScanCommand], before its [StreamCommand]. *)
Record ScanParams : Type := mkScanParams {
  sc_policy : ScanPolicy;
  sc_namespace : bytes;
  sc_set_name : bytes;
  sc_bins : Bins;
  sc_partitions : list Z
}.

#[export] Instance scan_command (fuel : nat) : Command (ScanParams * StreamCommand) := {|
  write_timeout := conn_write_timeout;
  prepare_buffer :=
    preparing (fun c => set_scan (sc_policy c.1) (sc_namespace c.1) (sc_set_name c.1)
                          (sc_bins c.1)
                          (Recordset.task_id (StreamCommand.recordset c.2))
                          (sc_partitions c.1));
  write_buffer := conn_write_buffer;
  parse_result := on_embedded (StreamCommand.parse_result fuel)
|}.

(** [struct QueryCommand], before its [StreamCommand]. *)
Record QueryParams : Type := mkQueryParams {
  qc_policy : QueryPolicy;
  qc_statement : Statement;
  qc_partitions : list Z
}.

#[export] Instance query_command (fuel : nat) : Command (QueryParams * StreamCommand) := {|
  write_timeout := conn_write_timeout;
  prepare_buffer :=
    preparing (fun c => set_query (qc_policy c.1) (qc_statement c.1) false
                          (Recordset.task_id (StreamCommand.recordset c.2))
                          (qc_partitions c.1));
  write_buffer := conn_write_buffer;
  parse_result := on_embedded (StreamCommand.parse_result fuel)
|}.

End Streams.

End Commands.
