(* ===== verification/Admin.v ===== *)
(** * Administration ([src/commands/admin_command.rs])

    Users and roles: the messages of [AdminCommand] and the handling of their
    responses, authentication included.  The methods are split at the
    connection they get from a random node: what they build on it, and
    [execute], which sends it and decides what becomes of the connection.
    [bcrypt] hashes passwords; the crate is a parameter. *)

From stdpp Require Import base list strings.
From Stdlib Require Import ZArith Lia.
From S2P Require Import Prelude ResultCodes Monad ByteOrder Slices Buffer.
From S2P Require Import Connection.

(** [bcrypt::hash_with] with the salt and cost of the client; [None] is the
    error of the crate. *)
Class Bcrypt := { bcrypt_hash : bytes -> option bytes }.

(** A concrete hash, for evaluating the definitions that need one. *)
Definition bcrypt_model : Bcrypt := {| bcrypt_hash p := Some (str "$2a$10$" ++ p) |}.

Module AdminCommand.

Definition CREATE_USER : Z := 1.

Definition DROP_USER : Z := 2.

Definition SET_PASSWORD : Z := 3.

Definition CHANGE_PASSWORD : Z := 4.

Definition GRANT_ROLES : Z := 5.

Definition REVOKE_ROLES : Z := 6.

Definition LOGIN : Z := 20.

Definition USER : Z := 0.

Definition PASSWORD : Z := 1.

Definition OLD_PASSWORD : Z := 2.

Definition CREDENTIAL : Z := 3.

Definition ROLES : Z := 10.

Definition MSG_VERSION : Z := 0.

Definition MSG_TYPE : Z := 2.

Definition HEADER_SIZE : Z := 24.

Definition HEADER_REMAINING : Z := 16.

Definition RESULT_CODE : Z := 9.

Section Admin.
Context `{BO : ByteOrder} `{CL : Clock} `{BC : Bcrypt}.

(** *** Building blocks *)

(** The message starts after its size. *)
Definition start : M Buffer unit := fun b => Ret tt (set_offset 8 b).

Definition write_size (size : Z) : M Buffer unit :=
  write_i64 (Z.lor (Z.lor (size - 8) (Z.shiftl MSG_VERSION 56))
               (Z.shiftl MSG_TYPE 48)) ;;;
  ret tt.

Definition write_header (command field_count : Z) : M Buffer unit :=
  start ;;;
  write_u8 0 ;;; write_u8 0 ;;; write_u8 command ;;; write_u8 field_count ;;;
  for_each (seq 0 12) (fun _ => write_u8 0 ;;; ret tt).

(** [size as u32 + 1] is checked. *)
Definition write_field_header (id size : Z) : M Buffer unit :=
  (if as_u32 size + 1 <? 2 ^ 32 then write_u32 (as_u32 size + 1) ;;; ret tt else panic) ;;;
  write_u8 id ;;; ret tt.

Definition write_field_str (id : Z) (s : bytes) : M Buffer unit :=
  write_field_header id (len s) ;;; write_str s ;;; ret tt.

Definition write_field_bytes (id : Z) (b : bytes) : M Buffer unit :=
  write_field_header id (len b) ;;; write_bytes b ;;; ret tt.

Definition roles_size (roles : list bytes) : Z :=
  foldl (fun size role => size + (len role + 1)) 0 roles.

Definition write_roles (roles : list bytes) : M Buffer unit :=
  write_field_header ROLES (roles_size roles) ;;;
  write_u8 (as_u8 (len roles)) ;;;
  for_each roles (fun role =>
    write_u8 (as_u8 (len role)) ;;; write_str role ;;; ret tt).

Definition hash_password {S} (password : bytes) : M S bytes :=
  match bcrypt_hash password with
  | Some h => ret h
  | None => throw PwHash
  end.

Definition write_password (id : Z) (password : bytes) : M Buffer unit :=
  let! h := hash_password password in write_field_str id h.

(** *** Requests, before they are sent *)

Definition room_for_message : M Buffer unit := resize_buffer 1024 ;;; reset_offset.

Definition create_user (user password : bytes) (roles : list bytes) : M Buffer unit :=
  room_for_message ;;;
  write_header CREATE_USER 3 ;;;
  write_field_str USER user ;;;
  write_password PASSWORD password ;;;
  write_roles roles.

Definition drop_user (user : bytes) : M Buffer unit :=
  room_for_message ;;;
  write_header DROP_USER 1 ;;;
  write_field_str USER user.

Definition set_password (user password : bytes) : M Buffer unit :=
  room_for_message ;;;
  write_header SET_PASSWORD 2 ;;;
  write_field_str USER user ;;;
  write_password PASSWORD password.

(** [user_password] is the client's own, from its policy. *)
Definition change_password (user_password : option (bytes * bytes))
    (user password : bytes) : M Buffer unit :=
  room_for_message ;;;
  write_header CHANGE_PASSWORD 3 ;;;
  write_field_str USER user ;;;
  match user_password with
  | Some (_, old) => write_password OLD_PASSWORD old
  | None => write_field_str OLD_PASSWORD []
  end ;;;
  write_password PASSWORD password.

Definition grant_roles (user : bytes) (roles : list bytes) : M Buffer unit :=
  room_for_message ;;;
  write_header GRANT_ROLES 2 ;;;
  write_field_str USER user ;;;
  write_roles roles.

Definition revoke_roles (user : bytes) (roles : list bytes) : M Buffer unit :=
  room_for_message ;;;
  write_header REVOKE_ROLES 2 ;;;
  write_field_str USER user ;;;
  write_roles roles.

(** Truncating the buffer to the message, and its size in front. *)
Definition seal : M Buffer unit :=
  size_buffer ;;;
  let! b := get in
  let size := data_offset b in
  reset_offset ;;;
  write_size (as_i64 size).

(** *** Sending *)

(** What becomes of the [PooledConnection]: [invalidate], or the [Drop] that
    puts it back. *)
Inductive fate : Type :=
| Dropped
| Invalidated.

(** An I/O step whose error invalidates the connection. *)
Definition or_invalidate {A} (m : M Connection A) : M (fate * Connection) A :=
  let! r := on_snd (catch m) in
  match r with
  | inl a => ret a
  | inr err => on_fst (put Invalidated) ;;; throw err
  end.

Definition execute : M (fate * Connection) unit :=
  on_snd (Connection.lift seal) ;;;
  or_invalidate Connection.flush ;;;
  or_invalidate (Connection.read_buffer HEADER_SIZE) ;;;
  let! code := on_snd (Connection.lift (read_u8 (Some RESULT_CODE))) in
  let result_code := ResultCode.from_u8 code in
  if bool_decide (result_code <> ResultCode.Ok)
  then throw (ServerError result_code)
  else ret tt.

(** A whole admin method on the connection it obtained. *)
Definition run (request : M Buffer unit) : M (fate * Connection) unit :=
  on_snd (Connection.lift request) ;;; execute.

Definition login (user password : bytes) : M Buffer unit :=
  room_for_message ;;;
  write_header LOGIN 2 ;;;
  write_field_str USER user ;;;
  write_field_bytes CREDENTIAL password ;;;
  seal.

Definition authenticate (user password : bytes) : M Connection unit :=
  Connection.lift (login user password) ;;;
  Connection.flush ;;;
  Connection.read_buffer HEADER_SIZE ;;;
  let! code := Connection.lift (read_u8 (Some RESULT_CODE)) in
  let result_code := ResultCode.from_u8 code in
  if bool_decide (ResultCode.SecurityNotEnabled <> result_code)
     && bool_decide (ResultCode.Ok <> result_code)
  then throw (ServerError result_code)
  else
    let! sz := Connection.lift (read_u64 (Some 0)) in
    let! receive_size := usize_sub (Z.land sz 0xFFFFFFFFFFFF) HEADER_REMAINING in
    Connection.read_buffer receive_size.

End Admin.

End AdminCommand.
