(* ===== verification/ClientPolicy.v ===== *)
(** * Client policies ([src/policy/client_policy.rs], [admin_policy.rs]) *)

From stdpp Require Import base list strings gmap.
From Stdlib Require Import ZArith Lia.
From S2P Require Import Prelude ResultCodes Monad Buffer Admin.

(** [struct ClientPolicy]. *)
Record ClientPolicy : Type := mkClientPolicy {
  user_password : option (bytes * bytes);
  cp_timeout : option Duration;
  cp_idle_timeout : option Duration;
  max_conns_per_node : Z;
  conn_pools_per_node : Z;
  fail_if_not_connected : bool;
  buffer_reclaim_threshold : Z;
  tend_interval : Duration;
  ip_map : option (gmap bytes bytes);
  use_services_alternate : bool;
  thread_pool_size : Z;
  cluster_name : option bytes
}.

(** [Default for ClientPolicy]. *)
Definition ClientPolicy_default : ClientPolicy :=
  mkClientPolicy None (Some (mkDuration 30 0)) (Some (mkDuration 5 0)) 256 1 true
    65536 (mkDuration 1 0) None false 128 None.

(** [ClientPolicy::set_user_password]: the stored password is the hash. *)
Definition set_user_password `{Bcrypt} (username password : bytes)
    : M ClientPolicy unit :=
  let! h := AdminCommand.hash_password password in
  fun p =>
    Ret tt
      (mkClientPolicy (Some (username, h)) (cp_timeout p) (cp_idle_timeout p)
         (max_conns_per_node p) (conn_pools_per_node p) (fail_if_not_connected p)
         (buffer_reclaim_threshold p) (tend_interval p) (ip_map p)
         (use_services_alternate p) (thread_pool_size p) (cluster_name p)).

(** [struct AdminPolicy]. *)
Record AdminPolicy : Type := mkAdminPolicy { ap_timeout : Duration }.
