(* ===== verification/AdminFacts.v ===== *)
(** * The messages of the administration

    Every admin request is a 16-byte header and fields behind an 8-byte size.
    [requests m cmd n fields]: from any buffer, [m] followed by [seal] leaves
    exactly that message, or panics when it exceeds the 1024 bytes that are set
    aside for it. *)

From stdpp Require Import base list strings gmap.
From Stdlib Require Import ZArith Lia Setoid Morphisms.
From S2P Require Import Prelude ResultCodes Monad ByteOrder Slices.
From S2P Require Import Buffer BufferFacts Connection Admin ClientPolicy.
Import AdminCommand.

Section Messages.
Context `{BO : ByteOrder} `{BC : Bcrypt}.

(** ** The reference encoding *)

Definition field (id : Z) (s : bytes) : bytes := write_be 4 (len s + 1) ++ [id] ++ s.

Definition admin_header (command fields : Z) : bytes :=
  [0; 0; command; fields] ++ replicate 12 0.

(** Size, version and type, as one number. *)
Definition admin_size (n : Z) : bytes :=
  write_be 8 (MSG_TYPE * 2 ^ 48 + n).

Definition admin_message (command fields : Z) (body : bytes) : bytes :=
  admin_size (16 + len body) ++ admin_header command fields ++ body.

(** The roles field as the client writes it: the announced length is one less
    than that of the identifier and the payload. *)
Definition roles_payload (roles : list bytes) : bytes :=
  [as_u8 (len roles)] ++ concat ((fun r => as_u8 (len r) :: r) <$> roles).

Definition roles_field (roles : list bytes) : bytes :=
  write_be 4 (len (roles_payload roles)) ++ [ROLES] ++ roles_payload roles.

Definition requests (m : M Buffer unit) (command fields : Z) (body : bytes) : Prop :=
  forall b,
    (m ;;; seal) b =
    if 24 + len body <=? 1024
    then Ret tt (mkBuffer (admin_message command fields body) 8 (reclaim_threshold b))
    else Panic.

(** ** Pieces *)

Lemma admin_write_field_header_emits id n :
  0 <= n < 2 ^ 32 - 1 ->
  emits (write_field_header id n) (write_be 4 (n + 1) ++ [id]) tt.
Proof.
  intros Hn. unfold write_field_header. unfold as_u32. rewrite wrap_u_id
    by (unfold in_u; lia). decide_tests.
  eapply emits_bind; [apply (emits_drop _ _ 4), write_u32_emits|].
  apply (emits_drop _ _ 1), write_u8_emits.
Qed.

Lemma write_field_str_emits id s :
  len s < 2 ^ 32 - 1 -> emits (write_field_str id s) (field id s) tt.
Proof.
  intros Hs. unfold write_field_str, field. rewrite (assoc_L (++)).
  eapply emits_bind; [apply admin_write_field_header_emits|].
  - pose proof (len_nonneg s). lia.
  - eapply emits_drop, write_str_emits.
Qed.

Lemma admin_write_field_bytes_emits id s :
  len s < 2 ^ 32 - 1 -> emits (write_field_bytes id s) (field id s) tt.
Proof. apply write_field_str_emits. Qed.

Lemma write_password_emits id p h :
  bcrypt_hash p = Some h -> len h < 2 ^ 32 - 1 ->
  emits (write_password id p) (field id h) tt.
Proof.
  intros Hh Hl. unfold write_password, hash_password. rewrite Hh, bind_ret_l.
  apply write_field_str_emits, Hl.
Qed.

Lemma roles_size_payload roles : 1 + roles_size roles = len (roles_payload roles).
Proof.
  unfold roles_payload. rewrite len_app. change (len [_]) with 1. f_equal.
  unfold roles_size.
  enough (forall acc, foldl (fun size role => size + (len role + 1)) acc roles
    = acc + len (concat ((fun r => as_u8 (len r) :: r) <$> roles))) as H
    by (rewrite H; lia).
  induction roles as [|r roles IH]; intros acc; cbn.
  - rewrite len_nil. lia.
  - rewrite IH. rewrite len_cons, len_app. lia.
Qed.

Lemma write_roles_emits roles :
  len (roles_payload roles) < 2 ^ 32 -> emits (write_roles roles) (roles_field roles) tt.
Proof.
  intros Hl. pose proof (roles_size_payload roles) as Hs.
  assert (0 <= roles_size roles).
  { unfold roles_payload in Hs. rewrite len_app in Hs. change (len [_]) with 1 in Hs.
    pose proof (len_nonneg (concat ((fun r => as_u8 (len r) :: r) <$> roles))). lia. }
  unfold write_roles, roles_field. rewrite (assoc_L (++)).
  replace (len (roles_payload roles)) with (roles_size roles + 1) by lia.
  eapply emits_bind; [apply admin_write_field_header_emits; lia|].
  unfold roles_payload. eapply emits_bind; [apply write_u8_emits|].
  apply emits_for_each. intros r _.
  apply (emits_bind _ _ [as_u8 (len r)] r _ _ (write_u8_emits _)).
  eapply emits_drop, write_str_emits.
Qed.

(** ** Requests *)

Lemma header_then command fields k body :
  emits k body tt ->
  (write_header command fields ;;; k)
  ≈ (start ;;; emit (admin_header command fields ++ body)).
Proof.
  intros Hk. unfold write_header. rewrite (bind_assoc _ _ _).
  apply bind_proper; [reflexivity|]. intros [].
  enough (emits (write_u8 0 ;;; write_u8 0 ;;; write_u8 command ;;; write_u8 fields ;;;
    for_each (seq 0 12) (fun _ => write_u8 0 ;;; ret tt)) (admin_header command fields) tt)
    as Hh.
  { pose proof (emits_bind _ _ _ _ _ _ Hh Hk) as H. unfold emits in H.
    rewrite H. intros b. unfold bind. destruct (emit _ b) as [[]| | |]; reflexivity. }
  unfold admin_header.
  apply (emits_bind _ _ [0] _ 1); [apply write_u8_emits|].
  apply (emits_bind _ _ [0] _ 1); [apply write_u8_emits|].
  apply (emits_bind _ _ [command] _ 1); [apply write_u8_emits|].
  apply (emits_bind _ _ [fields] _ 1); [apply write_u8_emits|].
  apply (emits_for_each (seq 0 12) _ (fun _ => [0])).
  intros x _. apply (emits_drop _ _ 1), write_u8_emits.
Qed.

Lemma size_number n :
  0 <= n < 2 ^ 48 ->
  Z.lor (Z.lor n (Z.shiftl MSG_VERSION 56)) (Z.shiftl MSG_TYPE 48)
  = MSG_TYPE * 2 ^ 48 + n.
Proof.
  intros Hn. change (Z.shiftl MSG_VERSION 56) with 0. rewrite Z.lor_0_r, Z.lor_comm.
  rewrite Z.shiftl_mul_pow2 by lia. apply lor_add; lia.
Qed.

(** [seal] on a buffer whose cursor ends a message of [n] bytes. *)
Lemma seal_at (area msg post : bytes) rt :
  len area = 8 -> 8 + len msg <= 1024 ->
  seal (mkBuffer (area ++ msg ++ post) (8 + len msg) rt)
  = Ret tt (mkBuffer (admin_size (len msg) ++ msg) 8 rt).
Proof.
  intros Ha Hl. pose proof (len_nonneg msg).
  unfold seal. unfold bind at 1, size_buffer, resize_buffer. cbn [data_offset data_buffer].
  rewrite Z.gtb_ltb. unfold MAX_BUFFER_SIZE.
  destruct (Z.ltb_spec (1024 * 1024 + 8) (8 + len msg)); [lia|].
  unfold bind at 1, get at 1, bind at 1, reset_offset at 1.
  unfold set_data, set_offset. cbn [data_offset data_buffer reclaim_threshold].
  assert (vec_resize (8 + len msg) (area ++ msg ++ post) = area ++ msg) as ->.
  { unfold vec_resize. rewrite (assoc_L (++)).
    rewrite resize_le by (rewrite !length_app; unfold len in *; lia).
    apply take_app_length'. rewrite length_app. unfold len in *. lia. }
  unfold write_size, as_i64. rewrite wrap_i_id by (unfold in_i; lia).
  replace (8 + len msg - 8) with (len msg) by lia.
  rewrite size_number by (change (2 ^ 48) with 281474976710656; lia).
  unfold bind at 1. rewrite (write_i64_emits _ _). unfold bind.
  change (mkBuffer (area ++ msg) 0 rt)
    with (mkBuffer ([] ++ area ++ msg) (len (@nil Z)) rt).
  rewrite emit_frame by (rewrite len_write_be; exact Ha).
  unfold ret, admin_size. rewrite len_write_be. reflexivity.
Qed.

(** What [room_for_message], [start] and a whole message leave. *)
Lemma sealed_message command fields body m :
  m ≈ (start ;;; emit (admin_header command fields ++ body)) ->
  requests (room_for_message ;;; m) command fields body.
Proof.
  intros Hm b. set (msg := admin_header command fields ++ body) in *.
  assert (len msg = 16 + len body) as Hl by (unfold msg; rewrite len_app; reflexivity).
  pose proof (len_nonneg body).
  assert ((m ;;; seal) ≈ (start ;;; emit msg ;;; seal)) as Hseal
    by (rewrite Hm, (bind_assoc _ _ _); reflexivity).
  rewrite (bind_assoc _ _ _ _). unfold bind at 1.
  assert (exists area post, len area = 8 /\ len area + len post = 1024 /\
    room_for_message b
    = Ret tt (mkBuffer (area ++ post) 0 (reclaim_threshold b))) as (area & post & Ha & Hr & ->).
  { set (d := vec_resize 1024 (data_buffer b)).
    exists (take 8 d), (drop 8 d). rewrite take_drop.
    assert (length d = 1024%nat) as Hd.
    { pose proof (len_vec_resize 1024 (data_buffer b)). unfold len, d in *. lia. }
    unfold len. rewrite length_take, length_drop, Hd.
    split; [reflexivity|]. split; [reflexivity|]. reflexivity. }
  rewrite (Hseal _). unfold bind at 1, start at 1, set_offset.
  cbn [data_buffer data_offset reclaim_threshold].
  destruct (Z.leb_spec (24 + len body) 1024) as [Hfit|Hbig].
  - rewrite <- (take_drop (Z.to_nat (len msg)) post).
    unfold bind. rewrite <- Ha at 1. rewrite emit_frame.
    + rewrite Ha. rewrite seal_at by lia. unfold admin_message, msg. rewrite len_app.
      reflexivity.
    + unfold len in *. rewrite length_take. lia.
  - unfold bind. rewrite emit_overflow; [reflexivity| |].
    + unfold msg, admin_header. discriminate.
    + right. rewrite len_app. lia.
Qed.

(** ** The requests of [AdminCommand] *)

Inductive request : Type :=
| CreateUser (user password : bytes) (roles : list bytes)
| DropUser (user : bytes)
| SetPassword (user password : bytes)
| ChangePassword (user_password : option (bytes * bytes)) (user password : bytes)
| GrantRoles (user : bytes) (roles : list bytes)
| RevokeRoles (user : bytes) (roles : list bytes)
| Login (user credential : bytes).

(** The client's definitions, up to the sending of the message. *)
Definition build (r : request) : M Buffer unit :=
  match r with
  | CreateUser u p roles => create_user u p roles ;;; seal
  | DropUser u => drop_user u ;;; seal
  | SetPassword u p => set_password u p ;;; seal
  | ChangePassword up u p => change_password up u p ;;; seal
  | GrantRoles u roles => grant_roles u roles ;;; seal
  | RevokeRoles u roles => revoke_roles u roles ;;; seal
  | Login u c => login u c
  end.

(** Command and fields of a request; [None] when a password cannot be hashed. *)
Definition fields_of (r : request) : option (Z * list bytes) :=
  match r with
  | CreateUser u p roles =>
      h ← bcrypt_hash p;
      Some (CREATE_USER, [field USER u; field PASSWORD h; roles_field roles])
  | DropUser u => Some (DROP_USER, [field USER u])
  | SetPassword u p =>
      h ← bcrypt_hash p; Some (SET_PASSWORD, [field USER u; field PASSWORD h])
  | ChangePassword up u p =>
      old ← match up with Some (_, old) => bcrypt_hash old | None => Some [] end;
      h ← bcrypt_hash p;
      Some (CHANGE_PASSWORD, [field USER u; field OLD_PASSWORD old; field PASSWORD h])
  | GrantRoles u roles => Some (GRANT_ROLES, [field USER u; roles_field roles])
  | RevokeRoles u roles => Some (REVOKE_ROLES, [field USER u; roles_field roles])
  | Login u c => Some (LOGIN, [field USER u; field CREDENTIAL c])
  end.

Lemma admin_len_field id s : len (field id s) = 5 + len s.
Proof. unfold field. rewrite !len_app, len_write_be. change (len [id]) with 1. lia. Qed.

Lemma len_roles_field roles : len (roles_field roles) = 5 + len (roles_payload roles).
Proof.
  unfold roles_field. rewrite !len_app, len_write_be. change (len [ROLES]) with 1. lia.
Qed.

(** Fields in sequence after the header. *)
Lemma sealed_fields command n k fs :
  emits k (concat fs) tt ->
  requests (room_for_message ;;; write_header command n ;;; k) command n (concat fs).
Proof. intros Hk. apply sealed_message, header_then, Hk. Qed.

Lemma emits_one m bs : emits m bs tt -> emits m (concat [bs]) tt.
Proof. intros H. eapply emits_eq; [exact H|]. cbn. rewrite app_nil_r. reflexivity. Qed.

(** The fields of a request, written one after another. *)
Ltac emit_field :=
  first [ apply write_field_str_emits | apply admin_write_field_bytes_emits
        | apply write_roles_emits | eapply write_password_emits; [eassumption|] ];
  size_lia.

Ltac emit_fields :=
  lazymatch goal with
  | |- emits (bind _ _) _ _ => eapply emits_bind; [emit_field|emit_fields]
  | |- _ => apply emits_one; emit_field
  end.

Lemma build_fields r command fs :
  fields_of r = Some (command, fs) ->
  len (concat fs) < 2 ^ 32 - 1 ->
  exists k n, build r ≈ ((room_for_message ;;; write_header command n ;;; k) ;;; seal) /\
    n = len fs /\ emits k (concat fs) tt.
Proof.
  intros Hr Hl.
  destruct r as [u p roles|u|u p|up u p|u roles|u roles|u c]; cbn in Hr;
    repeat (apply bind_Some in Hr as (? & ? & Hr)); simplify_eq; cbn [concat] in Hl.
  7: eexists (write_field_str USER u ;;; write_field_bytes CREDENTIAL c), 2; split;
       [unfold build, login;
        repeat first [rewrite (bind_assoc _ _ _); apply bind_proper; [reflexivity|intros []]
                     | reflexivity]|].
  1-6: unfold build, create_user, drop_user, set_password, change_password, grant_roles,
         revoke_roles; eexists _, _; split; [reflexivity|].
  all: split; [reflexivity|]; autorewrite with sizes in Hl.
  all: rewrite ?admin_len_field, ?len_roles_field in Hl; note_lengths Hl.
  4: destruct up as [[? ?]|]; simplify_eq.
  all: emit_fields.
Qed.

(** C33: every message of the administration is the one its command stands for:
    size, version and type, the command with the number of its fields, and the
    fields, passwords hashed; a request that does not fit into the 1024 bytes
    set aside for it panics. *)
Theorem admin_requests r command fs b :
  fields_of r = Some (command, fs) ->
  len (concat fs) < 2 ^ 32 - 1 ->
  build r b =
  if 24 + len (concat fs) <=? 1024
  then Ret tt (mkBuffer (admin_message command (len fs) (concat fs)) 8
                 (reclaim_threshold b))
  else Panic.
Proof.
  intros Hr Hl. destruct (build_fields r command fs Hr Hl) as (k & n & Hb & -> & Hk).
  rewrite (Hb b). apply sealed_fields, Hk.
Qed.

End Messages.

Lemma admin_requests_witness :
  build (BO := byteorder_model) (BC := bcrypt_model)
    (GrantRoles (str "joe") [str "read"; str "sys-admin"]) (Buffer_new 1024)
  = Ret tt (mkBuffer
      ([0; 2; 0; 0; 0; 0; 0; 45] ++ [0; 0; 5; 2] ++ replicate 12 0
       ++ [0; 0; 0; 4; 0] ++ str "joe"
       ++ [0; 0; 0; 16; 10; 2; 4] ++ str "read" ++ [9] ++ str "sys-admin") 8 1024).
Proof.
  etransitivity.
  - apply (admin_requests (BO := byteorder_model) (BC := bcrypt_model)
      (GrantRoles (str "joe") [str "read"; str "sys-admin"]) _ _ (Buffer_new 1024)
      eq_refl).
    vm_compute. reflexivity.
  - vm_compute. reflexivity.
Defined.
