(* ===== verification/ExecuteFacts.v ===== *)
(** * The retry loop

    [execute_attempts]: the loop of [SingleCommand::execute] is a recursion on
    the number of attempts that are left.  [execute_returns_connections]: every
    connection it takes from a pool is returned to it, whatever the command and
    the network do. *)

From stdpp Require Import base list strings gmap.
From Stdlib Require Import ZArith Lia Setoid Morphisms.
From S2P Require Import Prelude ResultCodes Monad Invariants Buffer Policy Connection Responses Execute.

Section Attempts.
Context `{CM : Command C} `{EN : Environment W Node Lease}.

(** ** A bounded number of attempts *)

(** [left] attempts, of which the first is not preceded by a pause. *)
Fixpoint attempts (policy : BasePolicy) (deadline : option Z) (first : bool) (left : nat)
    : M (C * W) unit :=
  match left with
  | O => throw (ConnectionError "Timeout after {} tries")
  | S left' =>
      (match base_sleep_between_retries policy with
       | Some d => if first then ret tt else on_snd (sleep d)
       | None => ret tt
       end) ;;;
      let! late := past deadline in
      if late : bool then throw (ConnectionError "Timeout")
      else
        let! t := attempt (base_timeout policy) in
        match t with
        | Finished r => finish r
        | Again => attempts policy deadline false left'
        end
  end.

Lemma when_pause (first : bool) policy :
  when (negb first)
    match base_sleep_between_retries policy with
    | Some d => on_snd (sleep d)
    | None => ret tt
    end
  ≈ (match base_sleep_between_retries policy with
     | Some d => if first then ret tt else on_snd (sleep d)
     | None => ret tt
     end : M (C * W) unit).
Proof. destruct first, (base_sleep_between_retries policy); reflexivity. Qed.

Lemma usize_checked_ret {S} v : v < 2 ^ 64 -> @usize_checked S v ≈ ret v.
Proof. intros Hv s. unfold usize_checked. rewrite (proj2 (Z.ltb_lt _ _) Hv). reflexivity. Qed.

(** The loop after [iterations] turns, with [left] of them allowed still. *)
Lemma loop_attempts policy deadline most left : forall fuel iterations,
  base_max_retries policy = Some most ->
  0 <= iterations -> iterations + Z.of_nat left = most + 1 -> most + 2 < 2 ^ 64 ->
  (left < fuel)%nat ->
  execute_loop fuel policy deadline iterations
  ≈ attempts policy deadline (iterations =? 0) left.
Proof.
  induction left as [|left IH]; intros fuel it Hm Hit Hsum Hmax Hf;
    (destruct fuel as [|fuel]; [lia|]); cbn [execute_loop attempts];
    rewrite usize_checked_ret by lia; rewrite (bind_ret_l _ _); rewrite Hm;
    rewrite usize_checked_ret by lia; rewrite !(bind_ret_l _ _).
  - rewrite (proj2 (Z.ltb_lt _ _)) by lia. reflexivity.
  - rewrite (proj2 (Z.ltb_ge _ _)) by lia.
    replace (1 <? it + 1) with (negb (it =? 0))
      by (destruct (Z.eqb_spec it 0), (Z.ltb_spec 1 (it + 1)); cbn; lia || reflexivity).
    rewrite when_pause.
    apply bind_proper; [reflexivity|]. intros [].
    apply bind_proper; [reflexivity|]. intros [|]; [reflexivity|].
    apply bind_proper; [reflexivity|]. intros [|r]; [|reflexivity].
    rewrite IH by (assumption || lia).
    replace (it + 1 =? 0) with false by (symmetry; apply Z.eqb_neq; lia). reflexivity.
Qed.

(** C13: with [max_retries] set to [n], executing a command makes at most [n + 1]
    attempts, pausing between them, and gives up after them or at the deadline;
    [n + 2] turns of the loop are always enough. *)
Theorem execute_attempts policy n fuel :
  base_max_retries policy = Some (Z.of_nat n) ->
  Z.of_nat n + 2 < 2 ^ 64 ->
  (n + 1 < fuel)%nat ->
  execute fuel policy
  ≈ (let! deadline := policy_deadline (base_timeout policy) in
     attempts policy deadline true (n + 1)).
Proof.
  intros Hm Hmax Hf. unfold execute. apply bind_proper; [reflexivity|]. intros deadline.
  rewrite (loop_attempts policy deadline (Z.of_nat n) (n + 1)) by (assumption || lia).
  reflexivity.
Qed.

End Attempts.

(** ** What the loop keeps *)

Section Keeps.
Context `{CM : Command C} `{EN : Environment W Node Lease}.
Context (R : relation (C * W)) `{!PreOrder R}.
Hypothesis now_stays : stays R (on_snd env_now).
Hypothesis sleep_stays : forall d, stays R (on_snd (sleep d)).
Hypothesis attempt_stays : forall timeout, stays R (attempt timeout).

Lemma past_stays deadline : stays R (past deadline).
Proof.
  destruct deadline as [d|]; [|apply stays_ret, _].
  apply stays_bind; [apply _|exact now_stays|]. intros n. apply stays_ret, _.
Qed.

Lemma loop_stays fuel policy deadline : forall iterations,
  stays R (execute_loop fuel policy deadline iterations).
Proof.
  induction fuel as [|fuel IH]; intros it; [intros s; exact I|]. cbn [execute_loop].
  apply stays_bind; [apply _|apply stays_usize_checked, _|]. intros it'.
  apply stays_bind; [apply _| |].
  { destruct (base_max_retries policy) as [n|]; [|apply stays_ret, _].
    apply stays_bind; [apply _|apply stays_usize_checked, _|]. intros v. apply stays_ret, _. }
  intros [|]; [apply stays_throw, _|].
  apply stays_bind; [apply _| |].
  { apply stays_when; [apply _|].
    destruct (base_sleep_between_retries policy) as [d|]; [|apply stays_ret, _].
    apply sleep_stays. }
  intros _. apply stays_bind; [apply _|apply past_stays|].
  intros [|]; [apply stays_throw, _|].
  apply stays_bind; [apply _|apply attempt_stays|].
  intros [|[?|?]]; [apply IH|apply stays_ret, _|apply stays_throw, _].
Qed.

Lemma execute_stays fuel policy : stays R (execute fuel policy).
Proof.
  apply stays_bind; [apply _| |intros deadline; apply loop_stays].
  destruct (base_timeout policy); [|apply stays_ret, _].
  apply stays_bind; [apply _|exact now_stays|]. intros n. apply stays_ret, _.
Qed.

End Keeps.

(** *** What a command keeps of its own state *)

Section Commands.
Context `{CM : Command C} `{EN : Environment W Node Lease}.
Context {O : Type} (f : C -> O).

Abbreviation keeps := (stays (agree (fun s : C * Connection => f s.1))).

Hypothesis prepare_keeps : keeps prepare_buffer.
Hypothesis timeout_keeps : forall t, keeps (write_timeout t).
Hypothesis write_keeps : keeps write_buffer.
Hypothesis parse_keeps : keeps parse_result.

Abbreviation kept := (stays (agree (fun s : C * W => f s.1))).

Lemma kept_on_snd {A} (m : M W A) : kept (on_snd m).
Proof. apply stays_on_snd. intros c w. destruct (m w); reflexivity || exact I. Qed.

Lemma kept_on_connection {A} (m : M (C * Connection) A) conn :
  keeps m -> kept (on_connection m conn).
Proof.
  intros H [c w]. specialize (H (c, conn)). unfold on_connection. cbn.
  destruct (m (c, conn)) as [a [c' conn']|e [c' conn']| |]; exact H.
Qed.

Lemma kept_then {A B} (m : M W A) (b : B) : kept (on_snd m ;;; ret b).
Proof. apply stays_bind; [apply _|apply kept_on_snd|intros _; apply stays_ret, _]. Qed.

Lemma kept_attempt timeout : kept (attempt timeout).
Proof.
  apply stays_bind; [apply _|apply kept_on_snd|]. intros [node|e]; [|apply stays_ret, _].
  apply stays_bind; [apply _|apply kept_on_snd|]. intros [[lease conn]|e]; [|apply stays_ret, _].
  apply stays_bind; [apply _|apply kept_on_connection, prepare_keeps|].
  intros [[_|e] conn1]; [|apply kept_then].
  apply stays_bind; [apply _|apply kept_on_connection, timeout_keeps|].
  intros [[_|e] conn2]; [|apply kept_then].
  apply stays_bind; [apply _|apply kept_on_connection, write_keeps|].
  intros [[_|e] conn3]; [|apply kept_then].
  apply stays_bind; [apply _|apply kept_on_connection, parse_keeps|].
  intros [[_|e] conn4]; [apply kept_then|].
  apply stays_bind; [apply _|destruct (keep_connection e); apply kept_on_snd|].
  intros _. apply stays_ret, _.
Qed.

Lemma execute_keeps fuel policy : kept (execute fuel policy).
Proof.
  apply execute_stays; [apply _|apply kept_on_snd|intros d; apply kept_on_snd|apply kept_attempt].
Qed.

End Commands.

(** ** The response is parsed once *)

Section Once.
Context `{CM : Command C} `{EN : Environment W Node Lease}.

Abbreviation fixed := (stays (agree (fun s : C * Connection => s.1))).

Hypothesis prepare_fixed : fixed prepare_buffer.
Hypothesis timeout_fixed : forall t, fixed (write_timeout t).
Hypothesis write_fixed : fixed write_buffer.

(** The state of a command after one [parse_result], or as it was. *)
Definition parsed (x x' : C) : Prop :=
  x' = x \/ exists conn,
    match parse_result (x, conn) with Ret _ s' | Throw _ s' => s'.1 = x' | _ => False end.

(** A computation that ends the loop parses at most once, and another turn finds
    the command as it was. *)
Definition once {A} (again : A -> bool) (m : M (C * W) A) : Prop :=
  forall s, match m s with
            | Ret a s' => if again a then s'.1 = s.1 else parsed s.1 s'.1
            | Throw _ s' => parsed s.1 s'.1
            | _ => True
            end.

Lemma once_bind {A B} again (m : M (C * W) A) (k : A -> M (C * W) B) :
  stays (agree fst) m -> (forall a, once again (k a)) -> once again (bind m k).
Proof.
  intros Hm Hk s. specialize (Hm s). unfold bind.
  destruct (m s) as [a s1|e s1| |]; try exact I; unfold agree in Hm.
  - specialize (Hk a s1). rewrite Hm in Hk. exact Hk.
  - left. exact Hm.
Qed.

Lemma once_fixed {A} again (m : M (C * W) A) : stays (agree fst) m -> once again m.
Proof.
  intros H s. specialize (H s). destruct (m s) as [a s'|e s'| |]; try exact I.
  - destruct (again a); [exact H|left; exact H].
  - left. exact H.
Qed.

Definition is_again (t : turn) : bool := match t with Again => true | Finished _ => false end.

Lemma once_attempt timeout : once is_again (attempt timeout).
Proof.
  apply once_bind; [apply (kept_on_snd (fun x => x))|]. intros [node|e];
    [|apply once_fixed, stays_ret, _].
  apply once_bind; [apply (kept_on_snd (fun x => x))|]. intros [[lease conn]|e];
    [|apply once_fixed, stays_ret, _].
  apply once_bind; [apply (kept_on_connection (fun x => x)), prepare_fixed|].
  intros [[_|e] conn1]; [|apply once_fixed, (kept_then (fun x => x))].
  apply once_bind; [apply (kept_on_connection (fun x => x)), timeout_fixed|].
  intros [[_|e] conn2]; [|apply once_fixed, (kept_then (fun x => x))].
  apply once_bind; [apply (kept_on_connection (fun x => x)), write_fixed|].
  intros [[_|e] conn3]; [|apply once_fixed, (kept_then (fun x => x))].
  intros [x w]. unfold bind, on_connection. cbn [fst snd].
  destruct (parse_result (x, conn3)) as [u [x' conn']|e [x' conn']| |] eqn:E; try exact I.
  all: assert (parsed x x') as Hp by (right; exists conn3; rewrite E; reflexivity).
  - unfold on_snd. cbn. destruct (put_back lease conn' w); exact Hp || exact I.
  - destruct (keep_connection e); unfold on_snd; cbn;
      [destruct (put_back _ _ _)|destruct (invalidate _ _ _)]; exact Hp || exact I.
Qed.

Lemma past_fixed deadline : stays (agree fst) (past (W := W) (C := C) deadline).
Proof. apply past_stays; [apply _|apply (kept_on_snd (fun x => x))]. Qed.

Lemma once_loop fuel policy deadline : forall it,
  once (fun _ => false) (execute_loop fuel policy deadline it).
Proof.
  induction fuel as [|fuel IH]; intros it; [intros s; exact I|]. cbn [execute_loop].
  apply once_bind; [apply stays_usize_checked, _|]. intros it'.
  apply once_bind.
  { destruct (base_max_retries policy) as [n|]; [|apply stays_ret, _].
    apply stays_bind; [apply _|apply stays_usize_checked, _|]. intros v. apply stays_ret, _. }
  intros [|]; [apply once_fixed, stays_throw, _|].
  apply once_bind.
  { apply stays_when; [apply _|]. destruct (base_sleep_between_retries policy) as [d|];
      [apply (kept_on_snd (fun x => x))|apply stays_ret, _]. }
  intros _. apply once_bind; [apply past_fixed|].
  intros [|]; [apply once_fixed, stays_throw, _|]. intros s. unfold bind.
  pose proof (once_attempt (base_timeout policy) s) as Ha.
  destruct (attempt (base_timeout policy) s) as [[|[u|e]] s'|e s'| |]; try exact I; try exact Ha.
  cbn in Ha. specialize (IH it' s'). rewrite Ha in IH. exact IH.
Qed.

(** Whatever happens, [execute] changes the command by one [parse_result] at most. *)
Lemma execute_once fuel policy : once (fun _ => false) (execute fuel policy).
Proof.
  apply once_bind; [|intros deadline; apply once_loop].
  destruct (base_timeout policy); [|apply stays_ret, _].
  apply stays_bind; [apply _|apply (kept_on_snd (fun x => x))|]. intros n. apply stays_ret, _.
Qed.

End Once.

(** *** What a command that succeeded has *)

Section Results.
Context `{CM : Command C} `{EN : Environment W Node Lease}.
Context (Q : C -> Prop).
Hypothesis parse_gives : forall s, match parse_result s with Ret _ s' => Q s'.1 | _ => True end.

Definition delivers (m : M (C * W) turn) : Prop :=
  forall s, match m s with Ret (Finished (inl _)) s' => Q s'.1 | _ => True end.

Lemma delivers_bind {A} (m : M (C * W) A) (k : A -> M (C * W) turn) :
  (forall a, delivers (k a)) -> delivers (bind m k).
Proof. intros Hk s. unfold bind. destruct (m s); auto. apply Hk. Qed.

Lemma delivers_again : delivers (ret Again).
Proof. intros s. exact I. Qed.

Lemma delivers_error {A} (m : M (C * W) A) e : delivers (m ;;; ret (Finished (inr e))).
Proof. apply delivers_bind. intros _ s. exact I. Qed.

Lemma delivers_attempt timeout : delivers (attempt timeout).
Proof.
  apply delivers_bind. intros [node|e]; [|apply delivers_again].
  apply delivers_bind. intros [[lease conn]|e]; [|apply delivers_again].
  apply delivers_bind. intros [[_|e] conn1]; [|apply delivers_error].
  apply delivers_bind. intros [[_|e] conn2]; [|apply delivers_error].
  apply delivers_bind. intros [[_|e] conn3];
    [|apply delivers_bind; intros _; apply delivers_again].
  intros [c w]. unfold bind, on_connection. cbn [fst snd].
  pose proof (parse_gives (c, conn3)) as H.
  destruct (parse_result (c, conn3)) as [u [c' conn']|e [c' conn']| |]; try exact I.
  - unfold on_snd. cbn. destruct (put_back lease conn' w); exact H || exact I.
  - destruct (keep_connection e); unfold on_snd; cbn;
      [destruct (put_back _ _ _)|destruct (invalidate _ _ _)]; exact I.
Qed.

Lemma execute_gives fuel policy s s' : execute fuel policy s = Ret tt s' -> Q s'.1.
Proof.
  intros (deadline & s0 & _ & H)%bind_Ret_inv. revert H. generalize 0 as it. revert s0.
  induction fuel as [|fuel IH]; intros s0 it H; [discriminate H|]. cbn [execute_loop] in H.
  apply bind_Ret_inv in H as (it' & s1 & _ & H).
  apply bind_Ret_inv in H as ([|] & s2 & _ & H); [discriminate H|].
  apply bind_Ret_inv in H as (_ & s3 & _ & H).
  apply bind_Ret_inv in H as ([|] & s4 & _ & H); [discriminate H|].
  apply bind_Ret_inv in H as (t & s5 & Ha & H).
  pose proof (delivers_attempt (base_timeout policy) s4) as Hd. rewrite Ha in Hd.
  destruct t as [|[u|e]]; [apply (IH _ _ H)| |discriminate H].
  injection H as <-. exact Hd.
Qed.

End Results.

(** ** Connections are returned *)

(** What the pools promise: [leases] counts the connections that are out. *)
Class Leasing (W Node Lease : Type) `{EN : Environment W Node Lease} := {
  leases : W -> Z;
  leases_now s : match env_now s with Ret _ s' | Throw _ s' => leases s' = leases s | _ => True end;
  leases_sleep d s :
    match sleep d s with Ret _ s' | Throw _ s' => leases s' = leases s | _ => True end;
  leases_node s :
    match get_node s with Ret _ s' | Throw _ s' => leases s' = leases s | _ => True end;
  leases_get node timeout s :
    match get_connection node timeout s with
    | Ret _ s' => leases s' = leases s + 1
    | Throw _ s' => leases s' = leases s
    | _ => True
    end;
  leases_put lease conn s :
    match put_back lease conn s with
    | Ret _ s' => leases s' = leases s - 1
    | Throw _ _ => False
    | _ => True
    end;
  leases_invalidate lease conn s :
    match invalidate lease conn s with
    | Ret _ s' => leases s' = leases s - 1
    | Throw _ _ => False
    | _ => True
    end
}.

Section Returns.
Context `{CM : Command C} `{LE : Leasing W Node Lease}.

(** [m] ends with as many connections out as it started with. *)
Abbreviation balanced := (stays (agree (fun s : C * W => leases s.2))).

(** [m] succeeds, and returns one connection. *)
Definition returns_one {A} (m : M (C * W) A) : Prop :=
  forall s,
    match m s with
    | Ret _ s' => leases s'.2 = leases s.2 - 1
    | Throw _ _ => False
    | _ => True
    end.

Lemma balanced_on_snd {A} (m : M W A) : stays (agree leases) m -> balanced (on_snd m).
Proof. intros H. apply stays_on_snd. intros c. exact H. Qed.

Lemma returns_then {A B} (m : M (C * W) A) (b : B) :
  returns_one m -> returns_one (m ;;; ret b).
Proof.
  intros H s. specialize (H s). unfold bind. destruct (m s); exact H.
Qed.

Lemma returns_put lease conn : returns_one (on_snd (put_back lease conn)).
Proof.
  intros [c w]. pose proof (leases_put lease conn w) as H. unfold on_snd. cbn.
  destruct (put_back lease conn w); exact H.
Qed.

Lemma returns_invalidate lease conn : returns_one (on_snd (invalidate lease conn)).
Proof.
  intros [c w]. pose proof (leases_invalidate lease conn w) as H. unfold on_snd. cbn.
  destruct (invalidate lease conn w); exact H.
Qed.

(** A method on the connection does not touch the pools, and hands its error to
    the code that returns the connection. *)
Lemma returns_on_connection {A B} (m : M (C * Connection) A) conn
    (k : (A + ErrorKind) * Connection -> M (C * W) B) :
  (forall r, returns_one (k r)) -> returns_one (bind (on_connection m conn) k).
Proof.
  intros Hk [c w]. unfold bind, on_connection. cbn.
  destruct (m (c, conn)) as [a [c' conn']|e [c' conn']| |]; try exact I.
  - apply (Hk (inl a, conn') (c', w)).
  - apply (Hk (inr e, conn') (c', w)).
Qed.

Lemma balanced_get {B} node timeout (k : (Lease * Connection) + ErrorKind -> M (C * W) B) :
  (forall e, balanced (k (inr e))) ->
  (forall r, returns_one (k (inl r))) ->
  balanced (let! c := on_snd (catch (get_connection node timeout)) in k c).
Proof.
  intros He Hr [c w]. pose proof (leases_get node timeout w) as H.
  unfold agree, bind, on_snd, catch. cbn. destruct (get_connection node timeout w) as [r w'|e w'| |];
    try exact I.
  - specialize (Hr r (c, w')). destruct (k (inl r) (c, w')); cbn in *; lia || tauto.
  - specialize (He e (c, w')). unfold agree in He.
    destruct (k (inr e) (c, w')); cbn in *; lia || tauto.
Qed.

Lemma balanced_attempt timeout : balanced (attempt timeout).
Proof.
  apply stays_bind; [apply _|apply balanced_on_snd, stays_catch; exact leases_node|].
  intros [node|e]; [|apply stays_ret, _].
  apply balanced_get; [intros e; apply stays_ret, _|]. intros [lease conn].
  apply returns_on_connection. intros [[_|e] conn1];
    [|apply returns_then, returns_put].
  apply returns_on_connection. intros [[_|e] conn2];
    [|apply returns_then, returns_put].
  apply returns_on_connection. intros [[_|e] conn3];
    [|apply returns_then, returns_invalidate].
  apply returns_on_connection. intros [[_|e] conn4]; apply returns_then;
    [apply returns_put|].
  destruct (keep_connection e); [apply returns_put|apply returns_invalidate].
Qed.

(** C14: however a command ends, and however often it was retried, every
    connection it took from a pool has been put back or invalidated, exactly
    once. *)
Theorem execute_returns_connections fuel policy s :
  match execute fuel policy s with
  | Ret _ s' | Throw _ s' => leases s'.2 = leases s.2
  | _ => True
  end.
Proof.
  pose proof (execute_stays (agree (fun s : C * W => leases s.2))
    (balanced_on_snd _ leases_now) (fun d => balanced_on_snd _ (leases_sleep d))
    balanced_attempt fuel policy s) as H.
  destruct (execute fuel policy s); exact H.
Qed.

End Returns.
