(* ===== verification/Hosts.v ===== *)
(** * Hosts ([src/net/host.rs], [src/net/parser.rs])

    Host names with their ports, and the parser of host lists.  The [Peekable]
    of the characters that are left is the bytes of the string that are left:
    the parser only tells the ASCII characters [:] and [,] from others, and
    copies the others.  [read_hosts_refines]: the parser, whose loops look at one
    character at a time, computes the grammar [hosts_of]: hosts between commas,
    parts between colons. *)

From stdpp Require Import base list strings.
From Stdlib Require Import ZArith Lia.
From S2P Require Import Prelude ResultCodes Monad Text.

(** [struct Host]. *)
Record Host : Type := mkHost {
  host_name : bytes;
  host_port : Z
}.

#[export] Instance Host_eq_dec : EqDecision Host.
Proof. solve_decision. Defined.

Definition Host_new (name : bytes) (port : Z) : Host := mkHost name port.

(** [address] and [Display]. *)
Definition address (h : Host) : bytes :=
  host_name h ++ 58 :: str (dec_string (host_port h)).

Module Parser.

Definition peek : M bytes (option Z) := fun s => Ret (head s) s.

Definition next_char : M bytes (option Z) := fun s => Ret (head s) (tail s).

Definition invalid_address : ErrorKind := InvalidArgument "Invalid address string".

(** The loop takes a character in each turn. *)
Fixpoint read_addr_part_loop (fuel : nat) (substr : bytes) : M bytes bytes :=
  match fuel with
  | O => no_fuel
  | S fuel' =>
      let! p := peek in
      let stop :=
        match substr with [] => throw invalid_address | _ :: _ => ret substr end in
      match p with
      | Some c =>
          if negb (c =? 58) && negb (c =? 44) then
            next_char ;;; read_addr_part_loop fuel' (substr ++ [c])
          else stop
      | None => stop
      end
  end.

Definition read_addr_part (fuel : nat) : M bytes bytes := read_addr_part_loop fuel [].

Fixpoint read_addr_tuple_loop (fuel : nat) (parts : list bytes) : M bytes (list bytes) :=
  match fuel with
  | O => no_fuel
  | S fuel' =>
      let! part := read_addr_part fuel in
      let parts := parts ++ [part] in
      let! p := peek in
      match p with
      | Some c =>
          if c =? 58 then next_char ;;; read_addr_tuple_loop fuel' parts
          else ret parts
      | None => ret parts
      end
  end.

Definition read_addr_tuple (fuel : nat) : M bytes (list bytes) :=
  read_addr_tuple_loop fuel [].

(** The host of a tuple; the TLS name is dropped. *)
Definition tuple_host (default_port : Z) (addr : list bytes) : Host + ErrorKind :=
  match addr with
  | [name; _; port] =>
      match parse_u16 port with
      | Some port => inl (Host_new name port)
      | None => inr ParseInt
      end
  | [name; p] =>
      match parse_u16 p with
      | Some port => inl (Host_new name port)
      | None => inl (Host_new name default_port)
      end
  | [name] => inl (Host_new name default_port)
  | _ => inr invalid_address
  end.

Fixpoint read_hosts_loop (fuel : nat) (default_port : Z) (hosts : list Host)
    : M bytes (list Host) :=
  match fuel with
  | O => no_fuel
  | S fuel' =>
      let! addr := read_addr_tuple fuel in
      match tuple_host default_port addr with
      | inr e => throw e
      | inl h =>
          let hosts := hosts ++ [h] in
          let! p := peek in
          match p with
          | Some c =>
              if c =? 44 then next_char ;;; read_hosts_loop fuel' default_port hosts
              else ret hosts
          | None => ret hosts
          end
      end
  end.

Definition read_hosts (fuel : nat) (default_port : Z) : M bytes (list Host) :=
  read_hosts_loop fuel default_port [].

End Parser.

(** [ToHosts for String]; the parser is a local of the function.  One turn of a
    loop per character and one for the end are enough. *)
Definition to_hosts (s : bytes) : M unit (list Host) :=
  fun u =>
    match Parser.read_hosts (S (length s)) 3000 s with
    | Ret hosts _ => Ret hosts u
    | Throw _ _ => Throw (InvalidArgument "Invalid hosts list: '{}'") u
    | Panic => Panic
    | NoFuel => NoFuel
    end.

(** [ToHosts for Vec<Host>]. *)
Definition hosts_to_hosts (hosts : list Host) : M unit (list Host) := ret hosts.

Import Parser.

(** ** The grammar *)

Definition colon : Z := 58.

Definition comma : Z := 44.

(** The first error of a list of results, or all values. *)
Fixpoint all_ok {A} (l : list (A + ErrorKind)) : list A + ErrorKind :=
  match l with
  | [] => inl []
  | inr e :: _ => inr e
  | inl a :: l' =>
      match all_ok l' with
      | inl r => inl (a :: r)
      | inr e => inr e
      end
  end.

(** One address: between one and three parts, none of them empty. *)
Definition host_of (default_port : Z) (s : bytes) : Host + ErrorKind :=
  let parts := split (Z.eqb colon) s in
  if bool_decide ([] ∈ parts) then inr invalid_address else tuple_host default_port parts.

Definition hosts_of (default_port : Z) (s : bytes) : list Host + ErrorKind :=
  all_ok (host_of default_port <$> split (Z.eqb comma) s).

(** ** The loops *)

Definition in_part (c : Z) : bool := negb (c =? 58) && negb (c =? 44).

Definition head_is (p : Z -> bool) (s : bytes) : Prop :=
  match s with [] => True | c :: _ => p c = true end.

(** A part extends to a separator or to the end. *)
Lemma read_part part : forall fuel rest acc,
  Forall (fun c => in_part c = true) part ->
  head_is (fun c => negb (in_part c)) rest ->
  (length part < fuel)%nat ->
  read_addr_part_loop fuel acc (part ++ rest)
  = match acc ++ part with
    | [] => Throw invalid_address rest
    | s => Ret s rest
    end.
Proof.
  induction part as [|c part IH]; intros fuel rest acc Hp Hr Hf;
    (destruct fuel as [|fuel]; [cbn in Hf; lia|]); cbn [read_addr_part_loop].
  - rewrite app_nil_r. unfold bind at 1, peek. cbn [app].
    destruct rest as [|c rest]; cbn [head].
    + destruct acc; reflexivity.
    + unfold head_is, in_part in Hr. apply negb_true_iff in Hr. rewrite Hr.
      destruct acc; reflexivity.
  - inversion_clear Hp as [|? ? Hc Hp']. unfold bind at 1, peek. cbn [head app].
    unfold in_part in Hc. rewrite Hc. unfold bind, next_char. cbn [head tail].
    rewrite IH by (assumption || (cbn in Hf; lia)). rewrite <- (assoc_L (++)). reflexivity.
Qed.

Lemma in_part_free s :
  Forall (fun c => (colon =? c) = false) s -> Forall (fun c => (comma =? c) = false) s ->
  Forall (fun c => in_part c = true) s.
Proof.
  intros H1 H2. rewrite Forall_forall in *. intros c Hc.
  specialize (H1 c Hc). specialize (H2 c Hc). unfold in_part, colon, comma in *.
  rewrite (Z.eqb_sym c 58), H1, (Z.eqb_sym c 44), H2. reflexivity.
Qed.

(** The parts of an address, up to a comma or to the end. *)
Lemma read_tuple parts : forall fuel rest acc,
  parts <> [] ->
  Forall (Forall (fun c => in_part c = true)) parts ->
  head_is (Z.eqb comma) rest ->
  (length (join colon parts) < fuel)%nat ->
  exists rest',
  read_addr_tuple_loop fuel acc (join colon parts ++ rest)
  = if bool_decide ([] ∈ parts) then Throw invalid_address rest'
    else Ret (acc ++ parts) rest.
Proof.
  induction parts as [|part parts IH]; intros fuel rest acc Hne Hps Hr Hf; [congruence|].
  inversion_clear Hps as [|? ? Hp Hps'].
  destruct fuel as [|fuel]; [lia|]. cbn [read_addr_tuple_loop].
  unfold read_addr_part. destruct parts as [|part' parts].
  - cbn [join] in *. exists rest. unfold bind at 1.
    rewrite read_part; [|assumption| |lia].
    2: { destruct rest as [|c rest]; [exact I|]. unfold head_is in *. apply Z.eqb_eq in Hr as <-.
         reflexivity. }
    cbn [app]. destruct part as [|c part].
    + rewrite bool_decide_eq_true_2 by left. reflexivity.
    + rewrite bool_decide_eq_false_2
        by (intros H; apply list_elem_of_singleton in H; discriminate).
      unfold bind, peek. destruct rest as [|d rest]; [reflexivity|]. cbn [head].
      unfold head_is in Hr. apply Z.eqb_eq in Hr as <-. reflexivity.
  - change (join colon (part :: part' :: parts))
      with (part ++ colon :: join colon (part' :: parts)) in *.
    rewrite length_app in Hf. cbn [length] in Hf. rewrite <- (assoc_L (++)). cbn [app].
    unfold bind at 1. rewrite read_part; [|assumption|reflexivity|lia].
    cbn [app]. destruct part as [|c part].
    + exists (colon :: join colon (part' :: parts) ++ rest).
      rewrite bool_decide_eq_true_2 by left. reflexivity.
    + unfold bind at 1, peek. cbn [head]. unfold bind at 1, next_char. cbn [head tail].
      change (colon =? 58) with true. cbn [app].
      destruct (IH fuel rest (acc ++ [c :: part])) as (rest' & Heq);
        [discriminate|assumption|assumption|lia|].
      exists rest'. cbv beta zeta iota. cbn [tail]. rewrite Heq.
      rewrite (bool_decide_ext ([] ∈ (c :: part) :: part' :: parts) ([] ∈ part' :: parts)).
      * rewrite <- (assoc_L (++)). reflexivity.
      * rewrite (elem_of_cons (part' :: parts)).
        split; [intros [?|?]; [discriminate|assumption]|intros ?; right; assumption].
Qed.

(** An address is parsed as the grammar says. *)
Lemma read_host s fuel rest :
  Forall (fun c => (comma =? c) = false) s ->
  head_is (Z.eqb comma) rest ->
  (length s < fuel)%nat ->
  exists rest',
  read_addr_tuple fuel (s ++ rest)
  = (let parts := split (Z.eqb colon) s in
     if bool_decide ([] ∈ parts) then Throw invalid_address rest' else Ret parts rest).
Proof.
  intros Hs Hr Hf. destruct (read_tuple (split (Z.eqb colon) s) fuel rest [])
    as (rest' & Heq).
  - apply split_nonempty.
  - pose proof (split_pieces (Z.eqb colon) s) as Hp.
    assert (Forall (Forall (fun c => (comma =? c) = false)) (split (Z.eqb colon) s)) as Hc.
    { rewrite <- (join_split colon s) in Hs. revert Hs. generalize (split (Z.eqb colon) s).
      clear. intros l. induction l as [|a [|b l] IH]; intros H; cbn [join] in *.
      - constructor.
      - repeat constructor. exact H.
      - apply Forall_app in H as [Ha H]. apply Forall_cons in H as [_ H].
        constructor; [exact Ha|apply IH, H]. }
    rewrite Forall_forall in Hp, Hc. rewrite Forall_forall.
    intros x Hx. apply in_part_free; auto.
  - exact Hr.
  - rewrite join_split. exact Hf.
  - rewrite join_split in Heq. exists rest'. exact Heq.
Qed.

(** The result of a parse, without what is left of the text. *)
Definition verdict {A} (o : outcome bytes A) : option (A + ErrorKind) :=
  match o with
  | Ret a _ => Some (inl a)
  | Throw e _ => Some (inr e)
  | _ => None
  end.

(** One host after another. *)
Lemma read_hosts_join pieces : forall fuel port acc,
  pieces <> [] ->
  Forall (Forall (fun c => (comma =? c) = false)) pieces ->
  (length (join comma pieces) < fuel)%nat ->
  verdict (read_hosts_loop fuel port acc (join comma pieces))
  = Some match all_ok (host_of port <$> pieces) with
         | inl hosts => inl (acc ++ hosts)
         | inr e => inr e
         end.
Proof.
  induction pieces as [|s pieces IH]; intros fuel port acc Hne Hps Hf; [congruence|].
  inversion_clear Hps as [|? ? Hs Hps'].
  destruct fuel as [|fuel]; [lia|]. cbn [read_hosts_loop fmap list_fmap all_ok].
  set (rest := match pieces with [] => [] | _ => comma :: join comma pieces end).
  assert (join comma (s :: pieces) = s ++ rest) as E
    by (destruct pieces; cbn; rewrite ?app_nil_r; reflexivity).
  rewrite E in *. rewrite length_app in Hf.
  assert (head_is (Z.eqb comma) rest) as Hr by (destruct pieces; reflexivity || exact I).
  destruct (read_host s (S fuel) rest Hs Hr) as (rest' & Heq); [lia|].
  unfold bind at 1. rewrite Heq. cbv zeta.
  assert (host_of port s = if bool_decide ([] ∈ split (Z.eqb colon) s) then inr invalid_address
    else tuple_host port (split (Z.eqb colon) s)) as -> by reflexivity.
  case_bool_decide; [reflexivity|].
  destruct (tuple_host port (split (Z.eqb colon) s)) as [h|e]; [|reflexivity].
  unfold bind at 1, peek. destruct pieces as [|s' pieces]; [reflexivity|].
  cbn [head rest]. change (comma =? 44) with true. unfold bind, next_char.
  cbn [head tail rest]. cbn [length rest] in Hf.
  rewrite (IH fuel port (acc ++ [h]) ltac:(discriminate) Hps' ltac:(lia)).
  cbn [fmap list_fmap]. destruct (all_ok _); [|reflexivity].
  rewrite <- (assoc_L (++)). reflexivity.
Qed.

(** C32: on every text, the parser of host lists ends and gives the hosts, or the
    first error, of the grammar: addresses between commas, each between one and
    three non-empty parts between colons. *)
Theorem read_hosts_refines s port fuel :
  (length s < fuel)%nat ->
  verdict (read_hosts fuel port s) = Some (hosts_of port s).
Proof.
  intros Hf. unfold read_hosts, hosts_of.
  rewrite <- (join_split comma s) in Hf |- * at 1.
  rewrite read_hosts_join; [|apply split_nonempty|apply split_pieces|exact Hf].
  destruct (all_ok _); reflexivity.
Qed.

Lemma read_hosts_refines_witness :
  verdict (read_hosts 30 3000 (str "foo:1234,bar:tls:5,baz"))
  = Some (inl [mkHost (str "foo") 1234; mkHost (str "bar") 5; mkHost (str "baz") 3000]).
Proof.
  etransitivity.
  - apply read_hosts_refines. vm_compute. lia.
  - vm_compute. reflexivity.
Defined.

(** ** Printing and parsing *)

(** A name that the syntax of host lists can hold. *)
Definition plain_name (name : bytes) : Prop :=
  name <> [] /\ Forall (fun c => in_part c = true) name.

Lemma part_free sep name :
  sep = colon \/ sep = comma ->
  Forall (fun c => in_part c = true) name -> Forall (fun c => (sep =? c) = false) name.
Proof.
  intros Hsep Hn. eapply Forall_impl; [exact Hn|]. intros c Hc. unfold in_part in Hc.
  apply andb_true_iff in Hc as [H1 H2]. apply negb_true_iff, Z.eqb_neq in H1, H2.
  apply Z.eqb_neq. unfold colon, comma in Hsep. lia.
Qed.

Lemma port_free sep port :
  sep = colon \/ sep = comma -> 0 <= port ->
  Forall (fun c => (sep =? c) = false) (str (dec_string port)).
Proof.
  intros Hsep Hp. apply (dec_string_free (Z.eqb sep)); [exact Hp|].
  intros d Hd. apply Z.eqb_neq. unfold colon, comma in Hsep. lia.
Qed.

Lemma host_of_address port h :
  plain_name (host_name h) -> in_u 16 (host_port h) -> host_of port (address h) = inl h.
Proof.
  intros [Hne Hn] Hp. unfold host_of, address.
  rewrite (split_sep _ _ 58) by (reflexivity || (apply part_free; auto)).
  rewrite split_piece by (apply port_free; [auto|apply Hp]).
  destruct (dec_string_digits (host_port h)) as (ds & Hds & Hds' & _); [apply Hp|].
  rewrite bool_decide_eq_false_2.
  - cbn [tuple_host]. rewrite parse_u16_dec by exact Hp. destruct h; reflexivity.
  - rewrite !elem_of_cons, elem_of_nil. intros [H|[H|[]]]; [congruence|].
    rewrite Hds in H. destruct ds; [congruence|discriminate].
Qed.

(** A list of hosts that is printed with commas between the hosts' addresses
    is parsed back. *)
Theorem hosts_round_trip hosts u :
  hosts <> [] ->
  Forall (fun h => plain_name (host_name h) /\ in_u 16 (host_port h)) hosts ->
  to_hosts (join comma (address <$> hosts)) u = Ret hosts u.
Proof.
  intros Hne Hh. unfold to_hosts.
  assert (all_ok (host_of 3000 <$> (address <$> hosts)) = inl hosts) as Hok.
  { clear Hne. induction Hh as [|h hosts [Hn Hp] _ IH]; [reflexivity|].
    cbn. rewrite host_of_address by assumption. cbn in IH. rewrite IH. reflexivity. }
  assert (verdict (read_hosts (S (length (join comma (address <$> hosts)))) 3000
    (join comma (address <$> hosts))) = Some (inl hosts)) as H.
  { unfold read_hosts. rewrite read_hosts_join, Hok; [reflexivity| | |lia].
    - destruct hosts; [congruence|discriminate].
    - apply Forall_fmap. eapply Forall_impl; [exact Hh|]. intros h [[_ Hn] Hp].
      apply Forall_app. split; [apply part_free; auto|].
      constructor; [reflexivity|]. apply port_free; [auto|apply Hp]. }
  destruct (read_hosts _ _ _); cbn in H; congruence.
Qed.

Lemma hosts_round_trip_witness :
  to_hosts (str "10.0.0.1:3000,db:65535") tt
  = Ret [mkHost (str "10.0.0.1") 3000; mkHost (str "db") 65535] tt.
Proof.
  apply (hosts_round_trip [mkHost (str "10.0.0.1") 3000; mkHost (str "db") 65535] tt).
  - discriminate.
  - repeat constructor; discriminate || reflexivity.
Defined.
