(* ===== verification/Info.v ===== *)
(** * Info requests ([src/commands/info_command.rs])

    The text protocol by which nodes are asked about themselves: a request is
    one command per line, a response one line per command with a tab between
    its name and its value.  [info_exchange]: what a node answers is what the
    caller gets, for any number of commands and any later contents of the
    stream. *)

From stdpp Require Import base list strings gmap.
From Stdlib Require Import ZArith Lia.
From S2P Require Import Prelude ResultCodes Monad ByteOrder Slices Text Buffer.
From S2P Require Import Connection ConnectionFacts.

Module Message.

(** [struct Message]. *)
Record Message : Type := mkMessage { buf : bytes }.

Section Message.
Context `{BO : ByteOrder} `{CL : Clock}.

Definition new (data : bytes) : Message :=
  mkMessage ([2; 1] ++ drop 2 (write_be 8 (as_u64 (len data))) ++ data).

(** The six bytes of the length; a buffer that is too short panics. *)
Definition data_len {S} (m : Message) : M S Z :=
  if 8 <=? len (buf m) then ret (read_be ([0; 0] ++ take 6 (drop 2 (buf m)))) else panic.

(** On an error of a read the message is dropped with the function's caller. *)
Definition send (m : Message) : M Connection Message :=
  Connection.write (buf m) ;;;
  let! header := Connection.read 8 in
  let m := mkMessage (splice (buf m) 0 header) in
  let! n := data_len m in
  if MAX_BUFFER_SIZE <? n then throw (Msg "Invalid size for info command buffer: {}")
  else
    let! content := Connection.read n in
    ret (mkMessage content).

(** One line: a name, and a value if there is a tab. *)
Definition parse_tuple (tuple : bytes) : option (bytes * bytes) :=
  match split (Z.eqb 9) tuple with
  | key :: val :: _ => Some (key, val)
  | [key] => Some (key, [])
  | [] => None
  end.

Definition parse_response {S} (m : Message) : M S (gmap bytes bytes) :=
  if utf8_valid (buf m) then
    let response := trim_matches 10 (buf m) in
    fold_left
      (fun acc tuple =>
         let! result := acc in
         match parse_tuple tuple with
         | Some (key, val) => ret (<[key := val]> result)
         | None => throw (Msg "Parsing Info command failed")
         end)
      (split (Z.eqb 10) response) (ret ∅)
  else throw InvalidUtf8.

(** [Message::info]. *)
Definition info (commands : list bytes) : M Connection (gmap bytes bytes) :=
  let cmd := join 10 commands ++ [10] in
  let! msg := send (new cmd) in
  parse_response msg.

End Message.

End Message.

Import Connection Message.

(** ** The text of a response *)

Definition tab : Z := 9.

Definition newline : Z := 10.

Definition line (e : bytes * bytes) : bytes := e.1 ++ tab :: e.2.

(** Lines, and newlines after the last. *)
Definition response_text (entries : list (bytes * bytes)) (newlines : nat) : bytes :=
  join newline (line <$> entries) ++ replicate newlines newline.

Definition entries_map (entries : list (bytes * bytes)) : gmap bytes bytes :=
  foldl (fun m e => <[e.1 := e.2]> m) ∅ entries.

Definition plain (s : bytes) : Prop :=
  Forall (fun c => (tab =? c) = false) s /\ Forall (fun c => (newline =? c) = false) s.

Lemma plain_line e :
  plain e.1 -> plain e.2 -> Forall (fun c => (newline =? c) = false) (line e).
Proof.
  intros [_ H1] [_ H2]. apply Forall_app. split; [exact H1|].
  constructor; [reflexivity|exact H2].
Qed.

Lemma parse_line e : plain e.1 -> plain e.2 -> parse_tuple (line e) = Some e.
Proof.
  intros [H1 _] [H2 _]. unfold parse_tuple, line.
  rewrite split_sep by (exact H1 || reflexivity). rewrite split_piece by exact H2.
  destruct e; reflexivity.
Qed.

(** *** Trimming *)

Lemma trim_start_id p c s : p c = false -> trim_start p (c :: s) = c :: s.
Proof. intros H. cbn. rewrite H. reflexivity. Qed.

Lemma trim_start_replicate c n s :
  trim_start (Z.eqb c) (replicate n c ++ s) = trim_start (Z.eqb c) s.
Proof. induction n; cbn; [reflexivity|]. rewrite Z.eqb_refl. exact IHn. Qed.

(** A text between newlines that neither starts nor ends with one. *)
Lemma trim_newlines c d s n :
  (newline =? c) = false -> (newline =? d) = false -> last (c :: s) = Some d ->
  trim_matches newline ((c :: s) ++ replicate n newline) = c :: s.
Proof.
  intros Hc Hd Hlast. unfold trim_matches. cbn [app].
  rewrite trim_start_id by exact Hc.
  change (c :: s ++ replicate n newline) with ((c :: s) ++ replicate n newline).
  rewrite reverse_app, reverse_replicate, trim_start_replicate.
  apply last_Some in Hlast as (l & Hl). rewrite Hl, reverse_snoc.
  rewrite trim_start_id by exact Hd. rewrite <- reverse_snoc, reverse_involutive. reflexivity.
Qed.

Lemma free_last sep s d :
  Forall (fun c => (sep =? c) = false) s -> last s = Some d -> (sep =? d) = false.
Proof.
  intros Hs Hl. apply last_Some in Hl as (l & ->). apply Forall_app in Hs as [_ Hs].
  inversion_clear Hs. assumption.
Qed.

(** The ends of joined pieces that are not empty. *)
Lemma join_ends sep pieces :
  pieces <> [] ->
  Forall (fun s => s <> [] /\ Forall (fun c => (sep =? c) = false) s) pieces ->
  exists c s d, join sep pieces = c :: s /\ last (c :: s) = Some d /\
    (sep =? c) = false /\ (sep =? d) = false.
Proof.
  intros Hne. induction 1 as [|p pieces [Hp Hs] Hps IH]; [congruence|].
  destruct p as [|c p]; [congruence|]. inversion_clear Hs as [|? ? Hc Hp'].
  destruct pieces as [|q pieces].
  - cbn [join]. destruct (last (c :: p)) as [d|] eqn:Hd.
    + exists c, p, d. repeat split; auto. eapply (free_last sep (c :: p)); auto.
    + apply last_None in Hd. discriminate.
  - destruct IH as (c' & s' & d & Hj & Hl & _ & Hd); [discriminate|].
    exists c, (p ++ sep :: join sep (q :: pieces)), d. repeat split; auto.
    rewrite Hj. rewrite app_comm_cons, last_app. cbn [last] in *. rewrite Hl. reflexivity.
Qed.

Section Exchange.
Context `{BO : ByteOrder} `{CL : Clock}.

Lemma parse_lines {S} entries : forall (acc : gmap bytes bytes) (s : S),
  Forall (fun e => plain e.1 /\ plain e.2) entries ->
  fold_left
    (fun acc tuple =>
       let! result := acc in
       match parse_tuple tuple with
       | Some (key, val) => ret (<[key := val]> result)
       | None => throw (Msg "Parsing Info command failed")
       end) (line <$> entries) (ret acc) s
  = Ret (foldl (fun m e => <[e.1 := e.2]> m) acc entries) s.
Proof.
  intros acc s Hes. change (ret acc) with ((fun acc : gmap bytes bytes => @ret S _ acc) acc).
  revert acc. induction Hes as [|e entries [H1 H2] _ IH]; intros acc; [reflexivity|].
  cbn. rewrite parse_line by assumption. destruct e as [k v]. apply (IH (<[k := v]> acc)).
Qed.

Lemma parse_response_text {S} entries n (s : S) :
  entries <> [] ->
  Forall (fun e => plain e.1 /\ plain e.2) entries ->
  utf8_valid (response_text entries n) = true ->
  parse_response (mkMessage (response_text entries n)) s = Ret (entries_map entries) s.
Proof.
  intros Hne Hes Hutf. unfold parse_response. cbn [buf]. rewrite Hutf.
  assert (Forall (fun s => s <> [] /\ Forall (fun c => (newline =? c) = false) s)
    (line <$> entries)) as Hls.
  { apply Forall_fmap. eapply Forall_impl; [exact Hes|]. intros e [H1 H2].
    split; [|apply plain_line; assumption]. unfold line. destruct e.1; discriminate. }
  destruct (join_ends newline (line <$> entries)) as (c & r & d & Hj & Hl & Hc & Hd);
    [destruct entries; [congruence|discriminate]|exact Hls|].
  unfold response_text. rewrite Hj. rewrite (trim_newlines c d) by assumption. rewrite <- Hj.
  rewrite split_join.
  - apply parse_lines, Hes.
  - destruct entries; [congruence|discriminate].
  - eapply Forall_impl; [exact Hls|]. intros x [_ Hx]. exact Hx.
Qed.

(** ** The exchange *)

(** A request or the header and text of a response. *)
Definition info_message (version type : Z) (text : bytes) : bytes :=
  [version; type] ++ drop 2 (write_be 8 (len text)) ++ text.

(** The six low bytes of a length that fits into them. *)
Lemma be_low_bytes (v : Z) :
  0 <= v < 2 ^ 48 -> [0; 0] ++ drop 2 (write_be 8 v) = write_be 8 v.
Proof.
  intros Hv. rewrite !write_be_S.
  rewrite (Z.div_small v (2 ^ (8 * Z.of_nat 7))), (Z.div_small v (2 ^ (8 * Z.of_nat 6)));
    [reflexivity|cbn; lia..].
Qed.

Lemma data_len_header {S} (text rest : bytes) (s : S) v t :
  len text < 2 ^ 48 -> 
  data_len (mkMessage ([v; t] ++ drop 2 (write_be 8 (len text)) ++ rest)) s
  = Ret (len text) s.
Proof.
  intros Ht. pose proof (len_nonneg text). pose proof (len_nonneg rest).
  assert (length (drop 2 (write_be 8 (len text))) = 6%nat) as H6
    by (rewrite length_drop, length_write_be; reflexivity).
  unfold data_len. cbn [buf].
  destruct (Z.leb_spec 8 (len ([v; t] ++ drop 2 (write_be 8 (len text)) ++ rest))) as [_|Hlt].
  - change (drop 2 ([v; t] ++ drop 2 (write_be 8 (len text)) ++ rest)) with (drop 2 (write_be 8 (len text)) ++ rest).
    rewrite take_app_length' by (rewrite H6; reflexivity).
    change (read_be ([0; 0] ++ drop 2 (write_be 8 (len text)))) with
      (read_be (0 :: 0 :: drop 2 (write_be 8 (len text)))).
    unfold ret. f_equal.
    pose proof (be_low_bytes (len text) ltac:(lia)) as Hb. cbn [app] in Hb. rewrite Hb.
    rewrite read_write_be; [reflexivity|].
    change (2 ^ 48) with 281474976710656 in Ht. unfold in_u. cbn. lia.
  - exfalso. assert (len (drop 2 (write_be 8 (len text))) = 6) as H6'
      by (unfold len at 1; rewrite H6; reflexivity).
    rewrite !len_app, H6' in Hlt. change (len [v; t]) with 2 in Hlt. lia.
Qed.

(** A write that the peer accepts. *)
Lemma write_spec bs c :
  len bs <= accepts (conn c) ->
  exists c', write bs c = Ret tt c' /\ incoming (conn c') = incoming (conn c) /\
    outgoing (conn c') = outgoing (conn c) ++ bs.
Proof.
  intros Hl. pose proof (len_nonneg bs). unfold Connection.write, Connection.send, write_all, bind. cbv beta.
  rewrite (proj2 (Z.leb_le _ _) Hl).
  match goal with |- context [refresh ?c1] =>
    destruct (refresh_spec c1) as (c' & -> & Hc & _) end.
  exists c'. rewrite Hc. cbn. split; [reflexivity|]. split; [reflexivity|].
  f_equal. apply take_ge. unfold len in *. lia.
Qed.

(** A read of what the stream has next. *)
Lemma read_spec bs inc n c :
  incoming (conn c) = bs ++ inc -> len bs = n ->
  exists c', read n c = Ret bs c' /\ incoming (conn c') = inc /\
    outgoing (conn c') = outgoing (conn c).
Proof.
  intros Hi <-. pose proof (len_nonneg inc). unfold read, receive, read_exact, bind. cbv beta.
  rewrite Hi, len_app. rewrite (proj2 (Z.leb_le _ _)) by lia.
  assert (Z.to_nat (len bs) = length bs) as -> by (unfold len; apply Nat2Z.id).
  rewrite (take_app_length bs), (drop_app_length bs).
  match goal with |- context [refresh ?c1] =>
    destruct (refresh_spec c1) as (c' & -> & Hc & _) end.
  exists c'. rewrite Hc. repeat split.
Qed.

Lemma send_spec data v t text rest c :
  incoming (conn c) = info_message v t text ++ rest ->
  len text <= MAX_BUFFER_SIZE -> len data < 2 ^ 64 ->
  8 + len data <= accepts (conn c) ->
  exists c', Message.send (new data) c = Ret (mkMessage text) c' /\
    incoming (conn c') = rest /\
    outgoing (conn c') = outgoing (conn c) ++ info_message 2 1 data.
Proof.
  intros Hi Ht Hd Ha. pose proof (len_nonneg data). pose proof (len_nonneg text).
  set (hdr := drop 2 (write_be 8 (len text))) in *.
  assert (len hdr = 6) as H6
    by (unfold hdr, len; rewrite length_drop, length_write_be; reflexivity).
  set (dhdr := drop 2 (write_be 8 (len data))).
  assert (len dhdr = 6) as D6
    by (unfold dhdr, len; rewrite length_drop, length_write_be; reflexivity).
  assert (buf (new data) = [2; 1] ++ dhdr ++ data) as Hb.
  { unfold new, as_u64. rewrite wrap_u_id by (unfold in_u; lia). reflexivity. }
  unfold Message.send. rewrite Hb.
  destruct (write_spec ([2; 1] ++ dhdr ++ data) c) as (c1 & Hw & Hi1 & Ho1).
  { rewrite !len_app, D6. change (len [2; 1]) with 2. lia. }
  unfold bind at 1. rewrite Hw.
  destruct (read_spec ([v; t] ++ hdr) (text ++ rest) 8 c1) as (c2 & Hr & Hi2 & Ho2).
  { rewrite Hi1, Hi. unfold info_message. fold hdr. rewrite <- !(assoc_L (++)). reflexivity. }
  { rewrite len_app, H6. reflexivity. }
  unfold bind at 1. rewrite Hr.
  assert (splice ([2; 1] ++ dhdr ++ data) 0 ([v; t] ++ hdr) = [v; t] ++ hdr ++ data) as ->.
  { apply (splice_app [] ([2; 1] ++ dhdr) data ([v; t] ++ hdr)).
    rewrite !len_app, H6, D6. reflexivity. }
  unfold bind at 1. unfold hdr at 1.
  rewrite data_len_header by (unfold MAX_BUFFER_SIZE in Ht; lia).
  rewrite (proj2 (Z.ltb_ge _ _) Ht).
  destruct (read_spec text rest (len text) c2 Hi2 eq_refl) as (c3 & Hr3 & Hi3 & Ho3).
  unfold bind. rewrite Hr3. exists c3. split; [reflexivity|]. split; [exact Hi3|].
  rewrite Ho3, Ho2, Ho1. reflexivity.
Qed.

Lemma info_spec commands entries newlines v t rest c :
  let request := join newline commands ++ [newline] in
  let text := response_text entries newlines in
  incoming (conn c) = info_message v t text ++ rest ->
  entries <> [] ->
  Forall (fun e => plain e.1 /\ plain e.2) entries ->
  utf8_valid text = true ->
  len text <= MAX_BUFFER_SIZE -> len request < 2 ^ 64 ->
  8 + len request <= accepts (conn c) ->
  exists c', info commands c = Ret (entries_map entries) c' /\
    incoming (conn c') = rest /\
    outgoing (conn c') = outgoing (conn c) ++ info_message 2 1 request.
Proof.
  intros request text Hi Hne Hes Hutf Ht Hr Ha.
  destruct (send_spec request v t text rest c Hi Ht Hr Ha) as (c' & Hs & Hi' & Ho').
  exists c'. unfold info, bind. fold newline request. rewrite Hs.
  split; [apply parse_response_text; assumption|]. split; assumption.
Qed.

(** C29: an info request sends one message with a line per command, takes exactly
    the response from the stream, and returns the map of its lines, however many
    newlines end them. *)
Theorem info_exchange commands entries newlines v t rest c :
  let request := join newline commands ++ [newline] in
  let text := response_text entries newlines in
  incoming (conn c) = info_message v t text ++ rest ->
  entries <> [] ->
  Forall (fun e => plain e.1 /\ plain e.2) entries ->
  utf8_valid text = true ->
  len text <= MAX_BUFFER_SIZE -> len request < 2 ^ 64 ->
  8 + len request <= accepts (conn c) ->
  exists c', info commands c = Ret (entries_map entries) c' /\
    incoming (conn c') = rest /\
    outgoing (conn c') = outgoing (conn c) ++ info_message 2 1 request.
Proof. apply info_spec. Qed.

End Exchange.

Lemma info_exchange_witness :
  let answer := str "node" ++ [9] ++ str "BB9" ++ [10] ++ str "services" ++ [9; 10] in
  let request := str "node" ++ [10] ++ str "services" ++ [10] in
  let stream := [2; 1; 0; 0; 0; 0; 0; 19] ++ answer ++ [7] in
  let c := mkConnection None None (mkTcpStream stream [] 100 false None) 0 (Buffer_new 0) 0 in
  exists c',
    info (BO := byteorder_model) (CL := clock_model) [str "node"; str "services"] c
    = Ret (<[str "services" := []]> {[ str "node" := str "BB9" ]}) c' /\
    incoming (conn c') = [7] /\
    outgoing (conn c') = [2; 1; 0; 0; 0; 0; 0; 14] ++ request.
Proof.
  intros answer request stream c.
  apply (info_exchange (BO := byteorder_model) (CL := clock_model)
    [str "node"; str "services"]
    [(str "node", str "BB9"); (str "services", [])] 1 2 1 [7] c).
  - vm_compute. reflexivity.
  - discriminate.
  - repeat constructor.
  - vm_compute. reflexivity.
  - vm_compute. discriminate.
  - vm_compute. reflexivity.
  - vm_compute. discriminate.
Defined.
