(* ===== verification/ConnectionPool.v ===== *)
(** * Connection pools ([src/net/connection_pool.rs])

    The queues of idle connections of a node, with the number of connections
    that exist, and [Connection::new] of [src/net/connection.rs].  A queue is
    shared by the pool and by every [PooledConnection] that came from it
    ([Arc<SharedQueue>]): queues live in a store, and are referred to by their
    position.  Each method of a queue holds its lock from beginning to end, so
    it is one step of the interleaving of the threads. *)

From stdpp Require Import base list strings gmap.
From Stdlib Require Import ZArith Lia.
From S2P Require Import Prelude ResultCodes Monad ByteOrder Slices Buffer.
From S2P Require Import Connection Hosts Admin ClientPolicy.

(** What the network does when a client connects: a stream or an error; the
    second component is the first reading of the clock of the connection. *)
Class Dialer (Net : Type) := {
  connect : Host -> M Net (Connection.TcpStream * nat)
}.

Section NewConnection.
Context `{BO : ByteOrder} `{CL : Clock} `{DI : Dialer Net}.

(** A computation on a local connection, which is dropped on an error. *)
Definition with_local (m : M Connection unit) (c : Connection) : M Net Connection :=
  fun net =>
    match m c with
    | Ret _ c' => Ret c' net
    | Throw e _ => Throw e net
    | Panic => Panic
    | NoFuel => NoFuel
    end.

Definition authenticate (user_password : option (bytes * bytes)) : M Connection unit :=
  match user_password with
  | Some (user, password) =>
      let! r := catch (AdminCommand.authenticate user password) in
      match r with
      | inl _ => ret tt
      | inr err => Connection.close ;;; throw err
      end
  | None => ret tt
  end.

(** [Connection::new]. *)
Definition Connection_new (addr : Host) (policy : ClientPolicy) : M Net Connection :=
  let! (stream, tick) := connect addr in
  with_local
    (match cp_idle_timeout policy with
     | None => ret tt
     | Some timeout =>
         let! t := Connection.now in
         Connection.modify (Connection.set_deadline (Some (t + nanos timeout)))
     end ;;;
     authenticate (user_password policy) ;;;
     Connection.refresh)
    (Connection.mkConnection (cp_idle_timeout policy) None stream 0
       (Buffer_new (buffer_reclaim_threshold policy)) tick).

End NewConnection.

Module Queue.

(** [struct SharedQueue] with its [QueueInternals]. *)
Record Queue : Type := mkQueue {
  connections : list Connection;
  num_conns : Z;
  capacity : Z;
  host : Host;
  policy : ClientPolicy
}.

Definition set_connections (l : list Connection) (q : Queue) : Queue :=
  mkQueue l (num_conns q) (capacity q) (host q) (policy q).

Definition set_num_conns (n : Z) (q : Queue) : Queue :=
  mkQueue (connections q) n (capacity q) (host q) (policy q).

Definition with_capacity (capacity : Z) (host : Host) (policy : ClientPolicy) : Queue :=
  mkQueue [] 0 capacity host policy.

(** [internals.num_conns -= 1]. *)
Definition decr_conns : M Queue unit :=
  let! q := get in
  let! n := usize_sub (num_conns q) 1 in
  put (set_num_conns n q).

Definition incr_conns : M Queue unit :=
  let! q := get in
  let! n := usize_checked (num_conns q + 1) in
  put (set_num_conns n q).

Definition pop_front : M Queue (option Connection) :=
  let! q := get in
  match connections q with
  | conn :: rest => put (set_connections rest q) ;;; ret (Some conn)
  | [] => ret None
  end.

Section Get.
Context `{BO : ByteOrder} `{CL : Clock} `{DI : Dialer Net}.

(** The loop of [get]: idle connections whose deadline has passed are closed;
    nobody sees their socket any more. *)
Fixpoint get_loop (fuel : nat) : M (Queue * Net) Connection :=
  match fuel with
  | O => no_fuel
  | S fuel' =>
      let! popped := on_fst pop_front in
      match popped with
      | Some conn =>
          match Connection.is_idle conn with
          | Ret true conn => on_fst decr_conns ;;; get_loop fuel'
          | Ret false conn => ret conn
          | Throw e _ => throw e
          | Panic => panic
          | NoFuel => no_fuel
          end
      | None =>
          let! q := on_fst get in
          if capacity q <=? num_conns q then throw NoMoreConnections
          else
            let! conn := on_snd (Connection_new (host q) (policy q)) in
            on_fst incr_conns ;;; ret conn
      end
  end.

(** [Queue::get]; each turn but the last takes a connection out of the queue. *)
Definition get (timeout : option Duration) : M (Queue * Net) Connection :=
  let! q := on_fst get in
  let! connection := get_loop (S (length (connections q))) in
  match Connection.set_timeout timeout connection with
  | Some connection => ret connection
  | None => on_fst decr_conns ;;; throw Io
  end.

End Get.

Definition put_back (conn : Connection) : M Queue unit :=
  let! q := Monad.get in
  if num_conns q <? capacity q then put (set_connections (connections q ++ [conn]) q)
  else decr_conns.

Definition drop_conn (conn : Connection) : M Queue unit := decr_conns.

Definition clear : M Queue unit :=
  let! q := Monad.get in put (set_num_conns 0 (set_connections [] q)).

End Queue.

Module ConnectionPool.

(** [struct ConnectionPool]; the queues by their positions in the store. *)
Record ConnectionPool : Type := mkConnectionPool {
  num_queues : Z;
  queues : list nat;
  queue_counter : Z
}.

(** A pool, the store of queues and the network. *)
Record Pooled (Net : Type) : Type := mkPooled {
  pool : ConnectionPool;
  store : list Queue.Queue;
  net : Net
}.

Arguments mkPooled {Net} _ _ _.
Arguments pool {Net} _.
Arguments store {Net} _.
Arguments net {Net} _.

(** The capacities of [n] queues, [rem] of them one larger than [max]. *)
Fixpoint capacities (n : nat) (max rem : Z) : list Z :=
  match n with
  | O => []
  | S n' =>
      if 0 <? rem then max + 1 :: capacities n' max (rem - 1)
      else max :: capacities n' max rem
  end.

(** [initialize_queues]; [None] is the panic of a division by zero. *)
Definition initialize_queues (num_conns num_queues : Z) (host : Host)
    (policy : ClientPolicy) : option (list Queue.Queue) :=
  if num_queues =? 0 then None
  else
    let max := num_conns / num_queues in
    let rem := num_conns mod num_queues in
    Some ((fun capacity => Queue.with_capacity capacity host policy)
            <$> capacities (Z.to_nat num_queues) max rem).

(** [ConnectionPool::new], with its queues at the end of the store. *)
Definition new (host : Host) (policy : ClientPolicy) (store : list Queue.Queue)
    : option (ConnectionPool * list Queue.Queue) :=
  let num_conns := max_conns_per_node policy in
  let num_queues := conn_pools_per_node policy in
  queues ← initialize_queues num_conns num_queues host policy;
  Some (mkConnectionPool num_queues (seq (length store) (length queues)) 0,
        store ++ queues).

(** [struct PooledConnection]: the connection, and its queue. *)
Record PooledConnection : Type := mkPooledConnection {
  queue : nat;
  conn : option Connection
}.

Section Pool.
Context `{BO : ByteOrder} `{CL : Clock} `{DI : Dialer Net}.

(** A method of the queue at a position. *)
Definition on_queue {A} (i : nat) (m : M (Queue.Queue * Net) A) : M (Pooled Net) A :=
  fun p =>
    match store p !! i with
    | Some q =>
        let back q' := <[i := q']> (store p) in
        match m (q, net p) with
        | Ret a (q', n) => Ret a (mkPooled (pool p) (back q') n)
        | Throw e (q', n) => Throw e (mkPooled (pool p) (back q') n)
        | Panic => Panic
        | NoFuel => NoFuel
        end
    | None => Panic
    end.

Definition queue_get (i : nat) (timeout : option Duration)
    : M (Pooled Net) PooledConnection :=
  let! c := on_queue i (Queue.get timeout) in ret (mkPooledConnection i (Some c)).

(** [queue_counter.fetch_add(1)]. *)
Definition fetch_add_counter : M (Pooled Net) Z :=
  fun p =>
    Ret (queue_counter (pool p))
      (mkPooled
         (mkConnectionPool (num_queues (pool p)) (queues (pool p))
            (wrap_u 64 (queue_counter (pool p) + 1)))
         (store p) (net p)).

(** [self.queues[i]]. *)
Definition queue_at (i : Z) : M (Pooled Net) nat :=
  let! p := Monad.get in unwrap (queues (pool p) !! Z.to_nat i).

(** The round over the queues, [attempts] of which are left. *)
Fixpoint get_loop (attempts : nat) (timeout : option Duration)
    : M (Pooled Net) PooledConnection :=
  let! i := fetch_add_counter in
  let! p := Monad.get in
  let! q := queue_at (i mod num_queues (pool p)) in
  let! connection := catch (queue_get q timeout) in
  match connection with
  | inr NoMoreConnections =>
      match attempts with
      | S ((S _) as attempts') => get_loop attempts' timeout
      | _ => throw NoMoreConnections
      end
  | inr e => throw e
  | inl c => ret c
  end.

(** [ConnectionPool::get]. *)
Definition get (timeout : option Duration) : M (Pooled Net) PooledConnection :=
  let! p := Monad.get in
  if num_queues (pool p) =? 1 then let! q := queue_at 0 in queue_get q timeout
  else get_loop (Z.to_nat (num_queues (pool p))) timeout.

Definition clear_all (l : list nat) : M (Pooled Net) unit :=
  for_each l (fun i => on_queue i (on_fst Queue.clear)).

(** [ConnectionPool::close] drains the vector of queues. *)
Definition close : M (Pooled Net) unit :=
  let! p := Monad.get in
  clear_all (queues (pool p)) ;;;
  fun p =>
    Ret tt (mkPooled (mkConnectionPool (num_queues (pool p)) [] (queue_counter (pool p)))
              (store p) (net p)).

(** [PooledConnection::invalidate]. *)
Definition invalidate (c : PooledConnection) : M (Pooled Net) unit :=
  let! conn := unwrap (conn c) in on_queue (queue c) (on_fst (Queue.drop_conn conn)).

(** [Drop for PooledConnection]. *)
Definition drop (c : PooledConnection) : M (Pooled Net) unit :=
  match conn c with
  | Some conn => on_queue (queue c) (on_fst (Queue.put_back conn))
  | None => ret tt
  end.

End Pool.

End ConnectionPool.

Abbreviation Queue := Queue.Queue.
Abbreviation ConnectionPool := ConnectionPool.ConnectionPool.
