(* ===== verification/PoolFacts.v ===== *)
(** * Connection pools

    A queue and the connections of it that are in use, under any interleaving
    of the threads that take and return them ([step]), and of those that clear it
    ([lifetime]).  [pool_invariant]: the queue counts exactly the connections that
    exist but those that were in use when it was cleared, within its capacity, and
    until then none of its operations fails.  [pool_bounded]: the queues of a pool together
    stay within the connections allowed per node. *)

From stdpp Require Import base list strings gmap relations.
From Stdlib Require Import ZArith Lia.
From S2P Require Import Prelude ResultCodes Monad ByteOrder Slices Buffer.
From S2P Require Import Connection Hosts Admin ClientPolicy ConnectionPool.
Import Queue.

Section Queues.
Context `{BO : ByteOrder} `{CL : Clock} `{DI : Dialer Net}.

(** ** What the operations do to the count *)

(** Connections of a queue that are not idle in it. *)
Definition out (q : Queue) : Z := num_conns q - len (connections q).

(** The configuration of a queue never changes. *)
Definition same_config (q q' : Queue) : Prop :=
  capacity q' = capacity q /\ host q' = host q /\ policy q' = policy q.

Lemma same_config_refl q : same_config q q.
Proof. repeat split. Qed.

Lemma same_config_trans q1 q2 q3 :
  same_config q1 q2 -> same_config q2 q3 -> same_config q1 q3.
Proof. intros (?&?&?) (?&?&?). repeat split; congruence. Qed.

Lemma decr_conns_zero q : num_conns q = 0 -> decr_conns q = Panic.
Proof. intros H. unfold decr_conns, bind, Monad.get. rewrite H. reflexivity. Qed.

Lemma decr_conns_spec q :
  1 <= num_conns q -> decr_conns q = Ret tt (set_num_conns (num_conns q - 1) q).
Proof.
  intros H. unfold decr_conns, bind, Monad.get, usize_sub.
  rewrite (proj2 (Z.leb_le _ _) H). reflexivity.
Qed.

(** Within capacity, with [n] connections in use beyond those that are not counted:
    after a [clear], [n] can be negative. *)
Definition balanced_queue (q : Queue) (n : Z) : Prop :=
  out q = n /\ 0 <= num_conns q /\ num_conns q <= capacity q < 2 ^ 64.

Definition panics_in_dial (q : Queue) : Prop :=
  exists net, Connection_new (host q) (policy q) net = Panic.

Definition fuelless_dial (q : Queue) : Prop :=
  exists net, Connection_new (host q) (policy q) net = NoFuel.

(** The result of taking a connection. *)
Definition taken (q : Queue) (n : Z) (o : outcome (Queue * Net) Connection) : Prop :=
  match o with
  | Ret _ (q', _) => same_config q q' /\ balanced_queue q' (n + 1)
  | Throw _ (q', _) => same_config q q' /\ balanced_queue q' n
  | Panic => panics_in_dial q \/ n < 0
  | NoFuel => fuelless_dial q
  end.

Lemma taken_config q1 q2 n o : same_config q1 q2 -> taken q2 n o -> taken q1 n o.
Proof.
  intros Hc. pose proof Hc as (_ & Hh & Hp). unfold taken, panics_in_dial, fuelless_dial.
  rewrite Hh, Hp. destruct o as [? [? ?]|? [? ?]| |]; try tauto.
  all: intros [? ?]; split; [eapply same_config_trans; eassumption|assumption].
Qed.

(** Neither the count nor the configuration depends on which connection it is. *)
Lemma is_idle_total conn :
  exists b conn', Connection.is_idle conn = Ret b conn'.
Proof.
  unfold Connection.is_idle, bind, Monad.get.
  destruct (Connection.idle_deadline conn); cbn; eauto.
Qed.

Lemma new_connection_taken q n net :
  balanced_queue q n -> connections q = [] -> num_conns q < capacity q ->
  taken q n ((let! conn := on_snd (Connection_new (host q) (policy q)) in
              on_fst incr_conns ;;; ret conn) (q, net)).
Proof.
  intros (Ho & Hn & Hc) He Hlt. unfold bind, on_snd, on_fst, incr_conns, Monad.get. cbn.
  destruct (Connection_new (host q) (policy q) net) as [c net'|e net'| |] eqn:Hd; cbn.
  - unfold usize_checked, bind. rewrite (proj2 (Z.ltb_lt _ _)) by lia. cbn.
    split; [repeat split|]. unfold balanced_queue, out in *. cbn. lia.
  - split; [repeat split|]. unfold balanced_queue. auto.
  - left. exists net. exact Hd.
  - exists net. exact Hd.
Qed.

Lemma get_loop_taken fuel : forall q n net,
  balanced_queue q n -> (length (connections q) < fuel)%nat ->
  taken q n (get_loop fuel (q, net)).
Proof.
  induction fuel as [|fuel IH]; intros q n net Hb Hf; [lia|]. cbn [get_loop].
  pose proof Hb as (Ho & Hn & Hc). unfold out in Ho.
  unfold bind at 1, on_fst, pop_front, bind at 1, Monad.get. cbn [fst snd].
  destruct (connections q) as [|conn conns] eqn:Hq.
  - cbn. unfold bind at 1, Monad.get, on_fst. cbn [fst snd].
    destruct (Z.leb_spec (capacity q) (num_conns q)).
    + split; [apply same_config_refl|exact Hb].
    + apply new_connection_taken; assumption.
  - cbn [bind put ret]. rewrite len_cons in Ho. cbn [length] in Hf.
    pose proof (len_nonneg conns).
    destruct (is_idle_total conn) as (idle & conn' & ->). destruct idle.
    + unfold bind at 1. cbn [fst snd].
      destruct (Z_le_gt_dec 1 (num_conns q)) as [H1|H1];
        [|rewrite decr_conns_zero by (cbn; lia); right; lia].
      rewrite decr_conns_spec by (cbn; lia).
      eapply taken_config; [|apply IH].
      * repeat split.
      * unfold balanced_queue, out. cbn. lia.
      * cbn. lia.
    + split; [repeat split|]. unfold balanced_queue, out. cbn. lia.
Qed.

Lemma get_taken q n net timeout :
  balanced_queue q n -> taken q n (get timeout (q, net)).
Proof.
  intros Hb. unfold get. unfold bind at 1, on_fst, Monad.get. cbn [fst snd].
  pose proof (get_loop_taken (S (length (connections q))) q n net Hb ltac:(lia)) as H.
  unfold bind at 1. destruct (get_loop _ (q, net)) as [c [q' net']|e [q' net']| |];
    try exact H.
  destruct H as [Hc (Ho & Hn & Hk)].
  destruct (Connection.set_timeout timeout c);
    [split; [exact Hc|split; [exact Ho|split; assumption]]|].
  pose proof (len_nonneg (connections q')). unfold out in Ho.
  unfold bind, on_fst. cbn [fst snd].
  destruct (Z_le_gt_dec 1 (num_conns q')) as [H1|H1];
    [|rewrite decr_conns_zero by lia; right; lia].
  rewrite decr_conns_spec by lia. split; [exact Hc|]. unfold balanced_queue, out. cbn. lia.
Qed.

Lemma put_back_balanced q n conn :
  balanced_queue q n -> 0 < n \/ 0 < capacity q ->
  exists q', put_back conn q = Ret tt q' /\ same_config q q' /\ balanced_queue q' (n - 1).
Proof.
  intros (Ho & Hn & Hk) Hpos. unfold out in Ho. pose proof (len_nonneg (connections q)).
  unfold put_back, bind at 1, Monad.get. destruct (Z.ltb_spec (num_conns q) (capacity q)).
  - eexists. split; [reflexivity|]. split; [repeat split|].
    unfold balanced_queue, out. cbn. rewrite len_app, len_cons, len_nil. lia.
  - rewrite decr_conns_spec by lia. eexists. split; [reflexivity|]. split; [repeat split|].
    unfold balanced_queue, out. cbn. lia.
Qed.

Lemma drop_conn_balanced q n conn :
  balanced_queue q n -> 1 <= num_conns q ->
  exists q', drop_conn conn q = Ret tt q' /\ same_config q q' /\ balanced_queue q' (n - 1).
Proof.
  intros (Ho & Hn & Hk) Hpos. unfold out in Ho. pose proof (len_nonneg (connections q)).
  unfold drop_conn. rewrite decr_conns_spec by lia.
  eexists. split; [reflexivity|]. split; [repeat split|]. unfold balanced_queue, out. cbn. lia.
Qed.

(** ** Interleavings *)

(** A queue, and how many of its connections threads hold.  Between two steps
    the network may have changed in any way. *)
Definition config : Type := Queue * nat.

Inductive step : config -> config -> Prop :=
| step_get q n net timeout conn q' net' :
    get timeout (q, net) = Ret conn (q', net') -> step (q, n) (q', S n)
| step_refused q n net timeout e q' net' :
    get timeout (q, net) = Throw e (q', net') -> step (q, n) (q', n)
| step_put q n conn q' :
    put_back conn q = Ret tt q' -> step (q, S n) (q', n)
| step_invalidate q n conn q' :
    drop_conn conn q = Ret tt q' -> step (q, S n) (q', n).

(** The same with [clear] at any time; the last number is that of the connections
    that were in use when it came: they are not counted any more. *)
Inductive lifetime : config * nat -> config * nat -> Prop :=
| lifetime_step c c' k : step c c' -> lifetime (c, k) (c', k)
| lifetime_clear q n k q' : clear q = Ret tt q' -> lifetime (q, n, k) (q', n, n).

Definition good (cap : Z) (h : Host) (p : ClientPolicy) (c : config * nat) : Prop :=
  same_config (with_capacity cap h p) c.1.1 /\
  balanced_queue c.1.1 (Z.of_nat c.1.2 - Z.of_nat c.2).

Lemma put_back_step q n conn q' :
  balanced_queue q n -> put_back conn q = Ret tt q' ->
  same_config q q' /\ balanced_queue q' (n - 1).
Proof.
  intros Hb E. destruct (Z_lt_le_dec 0 n) as [Hn|Hn].
  - destruct (put_back_balanced q n conn Hb (or_introl Hn)) as (q1 & E1 & H). congruence.
  - destruct (Z_lt_le_dec 0 (capacity q)) as [Hc|Hc].
    + destruct (put_back_balanced q n conn Hb (or_intror Hc)) as (q1 & E1 & H). congruence.
    + destruct Hb as (_ & H0 & H1). unfold put_back, bind at 1, Monad.get in E.
      rewrite (proj2 (Z.ltb_ge _ _)), decr_conns_zero in E by lia. discriminate.
Qed.

Lemma drop_conn_step q n conn q' :
  balanced_queue q n -> drop_conn conn q = Ret tt q' ->
  same_config q q' /\ balanced_queue q' (n - 1).
Proof.
  intros Hb E. destruct (Z_le_gt_dec 1 (num_conns q)) as [Hn|Hn].
  - destruct (drop_conn_balanced q n conn Hb Hn) as (q1 & E1 & H). congruence.
  - destruct Hb as (_ & H0 & _). unfold drop_conn in E.
    rewrite decr_conns_zero in E by lia. discriminate.
Qed.

Lemma good_step cap h p c c' k : good cap h p (c, k) -> step c c' -> good cap h p (c', k).
Proof.
  intros [Hc Hb] Hs. destruct Hs as [q n net timeout conn q' net' Hg|q n net timeout e q' net' Hg
    |q n conn q' Hg|q n conn q' Hg]; unfold good; cbn [fst snd] in *.
  - pose proof (get_taken q _ net timeout Hb) as H. rewrite Hg in H. destruct H as [Hc' Hb'].
    split; [eapply same_config_trans; eassumption|].
    replace (Z.of_nat (S n) - Z.of_nat k) with (Z.of_nat n - Z.of_nat k + 1) by lia. exact Hb'.
  - pose proof (get_taken q _ net timeout Hb) as H. rewrite Hg in H. destruct H as [Hc' Hb'].
    split; [eapply same_config_trans; eassumption|exact Hb'].
  - destruct (put_back_step _ _ _ _ Hb Hg) as [Hc' Hb'].
    split; [eapply same_config_trans; eassumption|].
    replace (Z.of_nat n - Z.of_nat k) with (Z.of_nat (S n) - Z.of_nat k - 1) by lia. exact Hb'.
  - destruct (drop_conn_step _ _ _ _ Hb Hg) as [Hc' Hb'].
    split; [eapply same_config_trans; eassumption|].
    replace (Z.of_nat n - Z.of_nat k) with (Z.of_nat (S n) - Z.of_nat k - 1) by lia. exact Hb'.
Qed.

Lemma good_lifetime cap h p c c' : good cap h p c -> lifetime c c' -> good cap h p c'.
Proof.
  intros Hg Hl. destruct Hl as [c1 c2 k Hs|q n k q' Hs]; [eapply good_step; eassumption|].
  destruct Hg as [Hc (_ & H0 & Hk)]. unfold clear, bind, Monad.get, put in Hs. injection Hs as <-.
  split; [destruct Hc as (?&?&?); repeat split; assumption|].
  unfold balanced_queue, out. cbn in *. unfold len. cbn. lia.
Qed.

Lemma lifetime_good cap h p c :
  0 <= cap < 2 ^ 64 -> rtc lifetime (with_capacity cap h p, O, O) c -> good cap h p c.
Proof.
  intros Hcap Hr. remember (with_capacity cap h p, O, O) as c0 eqn:E.
  assert (good cap h p c0) as H0.
  { subst. split; [apply same_config_refl|]. unfold balanced_queue, out, with_capacity.
    cbn [num_conns connections capacity fst snd]. unfold len. cbn [length]. lia. }
  clear E. induction Hr as [|c1 c2 c3 Hs _ IH]; [exact H0|].
  apply IH. eapply good_lifetime; eassumption.
Qed.

Lemma steps_lifetime c c' k : rtc step c c' -> rtc lifetime (c, k) (c', k).
Proof.
  induction 1 as [|c1 c2 c3 Hs _ IH]; [constructor|]. eapply rtc_l; [|exact IH].
  apply lifetime_step, Hs.
Qed.

Lemma reachable_good cap h p c :
  0 <= cap < 2 ^ 64 -> rtc step (with_capacity cap h p, O) c -> good cap h p (c, O).
Proof. intros Hcap Hr. apply lifetime_good, steps_lifetime; assumption. Qed.

(** C15: whatever threads do with a queue, [clear] included, it counts exactly its
    idle connections and those in use but for the [k] that were in use when it was
    last cleared, and never more than its capacity.  Taking a connection fails in no
    other way than with an error, or than opening one fails, and the connections in
    use can be returned, unless [k] are as many as are in use: always, if the queue
    was never cleared while one was ([k] is 0).  After such a [clear] putting back
    still works on a queue that keeps connections at all, but invalidating panics,
    exactly when nothing is counted. *)
Theorem pool_invariant cap h p q n k :
  0 <= cap < 2 ^ 64 ->
  rtc lifetime (with_capacity cap h p, O, O) (q, n, k) ->
  num_conns q = len (connections q) + Z.of_nat n - Z.of_nat k /\
  0 <= num_conns q <= cap /\
  (forall timeout net,
     (get timeout (q, net) = Panic ->
      (exists net', Connection_new h p net' = Panic) \/ (n < k)%nat) /\
     (get timeout (q, net) = NoFuel -> exists net', Connection_new h p net' = NoFuel)) /\
  (forall conn, (k < n)%nat ->
     (exists q', put_back conn q = Ret tt q') /\ (exists q', drop_conn conn q = Ret tt q')) /\
  (forall conn, 0 < cap -> exists q', put_back conn q = Ret tt q') /\
  (forall conn, drop_conn conn q = Panic <-> num_conns q = 0).
Proof.
  intros Hcap Hr. destruct (lifetime_good cap h p _ Hcap Hr) as [(Hc & Hh & Hp) Hb].
  cbn [fst snd capacity with_capacity] in Hc, Hh, Hp, Hb.
  pose proof Hb as (Ho & H0 & Hk). unfold out in Ho. pose proof (len_nonneg (connections q)).
  split; [lia|]. split; [lia|]. split; [|split; [|split]].
  - intros timeout net. pose proof (get_taken q _ net timeout Hb) as H1.
    unfold taken, panics_in_dial, fuelless_dial in H1. rewrite Hh, Hp in H1.
    split; intros E; rewrite E in H1; [|exact H1].
    destruct H1 as [H1|H1]; [left; exact H1|right; lia].
  - intros conn Hn. split.
    + destruct (put_back_balanced q _ conn Hb) as (q' & E & _); [lia|eauto].
    + destruct (drop_conn_balanced q _ conn Hb) as (q' & E & _); [lia|eauto].
  - intros conn Hc0. destruct (put_back_balanced q _ conn Hb) as (q' & E & _); [lia|eauto].
  - intros conn. split; intros E.
    + destruct (Z_le_gt_dec 1 (num_conns q)); [|lia].
      destruct (drop_conn_balanced q _ conn Hb ltac:(lia)) as (q' & E' & _). congruence.
    + apply decr_conns_zero, E.
Qed.

(** The last connection of a full queue is closed when it is put back: with a
    capacity of one, no connection is ever used twice. *)
Lemma full_queue_keeps_nothing q conn :
  num_conns q = capacity q -> 1 <= num_conns q ->
  put_back conn q = Ret tt (set_num_conns (num_conns q - 1) q).
Proof.
  intros Hf Hn. unfold put_back, bind, Monad.get.
  rewrite (proj2 (Z.ltb_ge _ _)) by lia. apply decr_conns_spec, Hn.
Qed.

(** After [clear], a connection that was in use cannot be invalidated. *)
Lemma invalidate_after_clear q conn q' :
  clear q = Ret tt q' -> drop_conn conn q' = Panic.
Proof. unfold clear, bind, Monad.get, put. intros [= <-]. reflexivity. Qed.

(** ** The queues of a pool *)

Definition sum (l : list Z) : Z := foldr Z.add 0 l.

(** Queues as a number of threads may have left them. *)
Definition used (qs : list Queue) (rs : list (Queue * nat)) : Prop :=
  Forall2 (fun q r => rtc step (q, O) r) qs rs.

(** The connections that exist in a queue. *)
Definition existing (r : Queue * nat) : Z := len (connections r.1) + Z.of_nat r.2.

Lemma sum_cons x l : sum (x :: l) = x + sum l.
Proof. reflexivity. Qed.

Lemma sum_members l : Forall (Z.le 0) l -> 0 <= sum l /\ Forall (fun x => 0 <= x <= sum l) l.
Proof.
  induction 1 as [|x l Hx _ [IH1 IH2]]; [split; [reflexivity|constructor]|]. rewrite sum_cons.
  split; [lia|]. constructor; [lia|]. eapply Forall_impl; [exact IH2|]. cbn. lia.
Qed.

Lemma capacities_sum n : forall max rem,
  0 <= rem <= Z.of_nat n -> sum (ConnectionPool.capacities n max rem) = Z.of_nat n * max + rem.
Proof.
  induction n as [|n IH]; intros max rem H; [cbn; lia|]. cbn [ConnectionPool.capacities].
  destruct (Z.ltb_spec 0 rem); rewrite sum_cons, IH; lia.
Qed.

Lemma capacities_even n max rem :
  Forall (fun c => max <= c <= max + 1) (ConnectionPool.capacities n max rem).
Proof.
  revert rem. induction n as [|n IH]; intros rem; [constructor|].
  cbn [ConnectionPool.capacities]. destruct (0 <? rem); constructor; (lia || apply IH).
Qed.

Lemma length_capacities n max rem : length (ConnectionPool.capacities n max rem) = n.
Proof.
  revert rem. induction n as [|n IH]; intros rem; [reflexivity|].
  cbn [ConnectionPool.capacities]. destruct (0 <? rem); cbn [length]; rewrite IH; reflexivity.
Qed.

Lemma used_bounded h p caps rs :
  Forall (fun c => 0 <= c < 2 ^ 64) caps ->
  used ((fun c => with_capacity c h p) <$> caps) rs -> sum (existing <$> rs) <= sum caps.
Proof.
  revert rs. induction caps as [|c caps IH]; intros rs Hc Hu.
  - apply Forall2_nil_inv_l in Hu as ->. reflexivity.
  - apply Forall2_cons_inv_l in Hu as ([q n] & rs' & Hr & Hu & ->). apply Forall_cons in Hc as [H Hc].
    specialize (IH rs' Hc Hu). destruct (reachable_good c h p (q, n) H Hr) as [(Hcap & _) (Ho & _ & Hk)].
    unfold out in Ho. cbn [fst snd capacity with_capacity] in *. rewrite fmap_cons, !sum_cons.
    unfold existing at 1. cbn [fst snd]. lia.
Qed.

(** C27: the pool of a node has as many queues as the policy says, whose capacities
    differ by one at most and add up to the connections allowed per node; whatever
    threads do with the queues, the node never has more connections than that. *)
Theorem pool_bounded host policy store :
  let max := max_conns_per_node policy in
  let n := conn_pools_per_node policy in
  0 <= max < 2 ^ 64 -> 0 < n ->
  exists pool created,
    ConnectionPool.new host policy store = Some (pool, store ++ created) /\
    ConnectionPool.queues pool = seq (length store) (length created) /\
    len created = n /\
    sum (capacity <$> created) = max /\
    Forall (fun q => max / n <= capacity q <= max / n + 1) created /\
    forall rs, used created rs -> sum (existing <$> rs) <= max.
Proof.
  intros max n Hmax Hn.
  set (caps := ConnectionPool.capacities (Z.to_nat n) (max / n) (max mod n)).
  pose proof (Z.mod_pos_bound max n Hn). pose proof (Z.div_mod max n ltac:(lia)).
  assert (sum caps = max) as Hsum by (unfold caps; rewrite capacities_sum; lia).
  assert (Forall (fun c => max / n <= c <= max / n + 1) caps) as Heven by apply capacities_even.
  exists (ConnectionPool.mkConnectionPool n (seq (length store) (length caps)) 0).
  exists ((fun c => with_capacity c host policy) <$> caps). split; [|split; [|split; [|split; [|split]]]].
  - unfold ConnectionPool.new, ConnectionPool.initialize_queues. fold n max.
    rewrite (proj2 (Z.eqb_neq _ _)) by lia. cbn [mbind option_bind]. fold caps.
    rewrite length_fmap. reflexivity.
  - rewrite length_fmap. reflexivity.
  - unfold len, caps. rewrite length_fmap, length_capacities. lia.
  - rewrite <- list_fmap_compose. rewrite <- Hsum at 1. f_equal. apply list_fmap_id.
  - apply Forall_fmap. exact Heven.
  - intros rs Hu. rewrite <- Hsum. eapply used_bounded; [|exact Hu].
    destruct (sum_members caps) as [_ Hle].
    { eapply Forall_impl; [exact Heven|]. cbn. pose proof (Z.div_pos max n ltac:(lia) Hn). lia. }
    rewrite Hsum in Hle. eapply Forall_impl; [exact Hle|]. cbn. lia.
Qed.

End Queues.

(** A network that answers nothing. *)
Definition silent_dialer : Dialer unit :=
  {| connect _ net := Ret (Connection.mkTcpStream [] [] 0 false None, O) net |}.

Lemma pool_bounded_witness :
  exists pool created,
    ConnectionPool.new (mkHost (str "db") 3000) ClientPolicy_default [] = Some (pool, created) /\
    sum (capacity <$> created) = 256 /\
    (forall rs, used (BO := byteorder_model) (CL := clock_model) (DI := silent_dialer) created rs ->
       sum (existing <$> rs) <= 256).
Proof.
  destruct (pool_bounded (BO := byteorder_model) (CL := clock_model) (DI := silent_dialer)
    (mkHost (str "db") 3000) ClientPolicy_default []) as (pool & created & E & _ & _ & Hs & _ & Hu).
  - vm_compute. split; [discriminate|reflexivity].
  - reflexivity.
  - exists pool, created. split; [exact E|]. split; [exact Hs|exact Hu].
Defined.

(** A connection that is taken can be invalidated; if the queue is cleared before, it
    cannot, but it can be put back. *)
Lemma pool_invariant_witness :
  let h := mkHost (str "db") 3000 in
  let runs := rtc (lifetime (BO := byteorder_model) (CL := clock_model) (DI := silent_dialer))
                (with_capacity 2 h ClientPolicy_default, O, O) in
  exists q conn q1, runs (q, 1%nat, 0%nat) /\ num_conns q = 1 /\
    (exists q', drop_conn conn q = Ret tt q') /\
    runs (q1, 1%nat, 1%nat) /\ drop_conn conn q1 = Panic /\
    (exists q', put_back conn q1 = Ret tt q').
Proof.
  intros h runs.
  destruct (get (BO := byteorder_model) (CL := clock_model)
    (DI := silent_dialer) None (with_capacity 2 h ClientPolicy_default, tt))
    as [conn [q net]|e s| |] eqn:E; [|discriminate E..].
  set (q1 := set_num_conns 0 (set_connections [] q)).
  assert (runs (q, 1%nat, 0%nat)) as Hr by (eapply rtc_once, lifetime_step, step_get, E).
  assert (runs (q1, 1%nat, 1%nat)) as Hr1 by (eapply rtc_r; [exact Hr|apply lifetime_clear; reflexivity]).
  exists q, conn, q1. split; [exact Hr|].
  destruct (pool_invariant (BO := byteorder_model) (CL := clock_model)
    (DI := silent_dialer) 2 h ClientPolicy_default q 1 0 ltac:(lia) Hr)
    as (Hn & _ & _ & Hback & _).
  destruct (pool_invariant (BO := byteorder_model) (CL := clock_model)
    (DI := silent_dialer) 2 h ClientPolicy_default q1 1 1 ltac:(lia) Hr1)
    as (_ & _ & _ & _ & Hput & Hdrop).
  split; [|split; [apply Hback; lia|split; [exact Hr1|split; [apply Hdrop; reflexivity|apply Hput; lia]]]].
  rewrite Hn. vm_compute in E. injection E as _ <- _. reflexivity.
Defined.
