(* ===== verification/Nodes.v ===== *)
(** * Nodes ([src/cluster/node.rs], [node_validator.rs], [partition.rs])

    What the client knows of a node of the cluster, how it learns it, and how a
    record is assigned to a partition.  The atomics of a node are fields of a
    record; its connection pool works on the queues and the network, so the
    methods that talk to the server are computations on the three of them. *)

From stdpp Require Import base list strings gmap.
From Stdlib Require Import ZArith Lia.
From S2P Require Import Prelude ResultCodes Monad ByteOrder Slices Text Buffer Policy.
From S2P Require Import Connection Hosts ClientPolicy Info ConnectionPool.

(** [.chain_err(|| kind)]. *)
Definition chain_err {S A} (kind : ErrorKind) (m : M S A) : M S A :=
  fun s => match m s with Throw _ s' => Throw kind s' | o => o end.

#[export] Instance Host_countable : Countable Host.
Proof.
  refine (inj_countable' (fun h => (host_name h, host_port h))
            (fun p => mkHost p.1 p.2) _).
  intros []. reflexivity.
Defined.

(** ** Partitions *)

Definition PARTITIONS : Z := 4096.

(** [struct Partition]. *)
Record Partition : Type := mkPartition {
  part_namespace : bytes;
  partition_id : Z
}.

(** [Partition::new_by_key]; a digest of fewer than four bytes panics. *)
Definition new_by_key `{BO : ByteOrder} (key : Key) : option Partition :=
  d ← slice (digest key) 0 4;
  Some (mkPartition (namespace key) (Z.land (read_le d) (PARTITIONS - 1))).

(** ** Node validation *)

(** [to_socket_addrs], each address already printed. *)
Class Resolver (Net : Type) := { resolve : Host -> M Net (list Host) }.

Module NodeValidator.

(** [struct NodeValidator]. *)
Record NodeValidator : Type := mkNodeValidator {
  name : bytes;
  aliases : list Host;
  address : bytes;
  client_policy : ClientPolicy;
  supports_float : bool;
  supports_batch_index : bool;
  supports_replicas_all : bool;
  supports_geo : bool
}.

Definition new (policy : ClientPolicy) : NodeValidator :=
  mkNodeValidator [] [] [] policy false false false false.

Definition set_name (n : bytes) (v : NodeValidator) : NodeValidator :=
  mkNodeValidator n (aliases v) (address v) (client_policy v) (supports_float v)
    (supports_batch_index v) (supports_replicas_all v) (supports_geo v).

Definition set_aliases (l : list Host) (v : NodeValidator) : NodeValidator :=
  mkNodeValidator (name v) l (address v) (client_policy v) (supports_float v)
    (supports_batch_index v) (supports_replicas_all v) (supports_geo v).

Definition set_address (a : bytes) (v : NodeValidator) : NodeValidator :=
  mkNodeValidator (name v) (aliases v) a (client_policy v) (supports_float v)
    (supports_batch_index v) (supports_replicas_all v) (supports_geo v).

(** One feature of the list. *)
Definition set_feature (v : NodeValidator) (feature : bytes) : NodeValidator :=
  let has s := bool_decide (feature = str s) in
  mkNodeValidator (name v) (aliases v) (address v) (client_policy v)
    (supports_float v || has "float"%string)
    (supports_batch_index v || has "batch-index"%string)
    (supports_replicas_all v || has "replicas-all"%string)
    (supports_geo v || has "geo"%string).

Definition set_features (features : bytes) (v : NodeValidator) : NodeValidator :=
  foldl set_feature v (split (Z.eqb 59) features).

Section Validate.
Context `{BO : ByteOrder} `{CL : Clock} `{DI : Dialer Net} `{RE : Resolver Net}.

Definition modify (f : NodeValidator -> NodeValidator) : M (NodeValidator * Net) unit :=
  on_fst (fun v => Ret tt (f v)).

Definition resolve_aliases (host : Host) : M (NodeValidator * Net) unit :=
  let! l := on_snd (resolve host) in
  modify (set_aliases l) ;;;
  match l with
  | [] => throw (ConnectionError "Failed to find addresses for {}")
  | _ :: _ => ret tt
  end.

(** A request on a connection of its own. *)
Definition info_on (conn : Connection) (timeout : option Duration)
    (commands : list bytes) : M Net (gmap bytes bytes) :=
  match Connection.set_timeout timeout conn with
  | None => throw Io
  | Some conn =>
      fun net =>
        match Message.info commands conn with
        | Ret m _ => Ret m net
        | Throw e _ => Throw e net
        | Panic => Panic
        | NoFuel => NoFuel
        end
  end.

Definition validate_alias (cluster_name : option bytes) (alias : Host)
    : M (NodeValidator * Net) unit :=
  let! v := on_fst get in
  let! conn := on_snd (Connection_new alias (client_policy v)) in
  let! info_map :=
    on_snd (info_on conn (cp_timeout (client_policy v))
              [str "node"; str "cluster-name"; str "features"]) in
  match info_map !! str "node" with
  | None => throw (InvalidNode "Missing node name")
  | Some node_name => modify (set_name node_name)
  end ;;;
  match cluster_name with
  | None => ret tt
  | Some cluster_name =>
      match info_map !! str "cluster-name" with
      | None => throw (InvalidNode "Missing cluster name")
      | Some info_name =>
          if bool_decide (info_name = cluster_name) then ret tt
          else throw (InvalidNode "Cluster name mismatch: expected={}, got={}")
      end
  end ;;;
  modify (set_address (Hosts.address alias)) ;;;
  match info_map !! str "features" with
  | Some features => modify (set_features features)
  | None => ret tt
  end.

(** The first alias that validates; [unreachable!] without aliases. *)
Fixpoint validate_aliases (cluster_name : option bytes) (l : list Host)
    (last_err : option ErrorKind) : M (NodeValidator * Net) unit :=
  match l with
  | [] => match last_err with Some err => throw err | None => panic end
  | alias :: l' =>
      let! r := catch (validate_alias cluster_name alias) in
      match r with
      | inl _ => ret tt
      | inr err => validate_aliases cluster_name l' (Some err)
      end
  end.

Definition validate_node (cluster_name : option bytes) (host : Host)
    : M (NodeValidator * Net) unit :=
  chain_err (Msg "Failed to resolve host aliases") (resolve_aliases host) ;;;
  let! v := on_fst get in
  validate_aliases cluster_name (aliases v) None.

End Validate.

End NodeValidator.

Abbreviation NodeValidator := NodeValidator.NodeValidator.

(** ** Nodes *)

Module Node.

(** [struct Node]. *)
Record Node : Type := mkNode {
  client_policy : ClientPolicy;
  name : bytes;
  host : Host;
  aliases : list Host;
  address : bytes;
  connection_pool : ConnectionPool;
  failures : Z;
  partition_generation : Z;
  refresh_count : Z;
  reference_count : Z;
  responded : bool;
  active : bool;
  supports_float : bool;
  supports_geo : bool
}.

Definition set_aliases (x : list Host) (n : Node) : Node :=
  mkNode (client_policy n) (name n) (host n) x (address n) (connection_pool n)
    (failures n) (partition_generation n) (refresh_count n) (reference_count n)
    (responded n) (active n) (supports_float n) (supports_geo n).

Definition set_connection_pool (x : ConnectionPool) (n : Node) : Node :=
  mkNode (client_policy n) (name n) (host n) (aliases n) (address n) x
    (failures n) (partition_generation n) (refresh_count n) (reference_count n)
    (responded n) (active n) (supports_float n) (supports_geo n).

Definition set_failures (x : Z) (n : Node) : Node :=
  mkNode (client_policy n) (name n) (host n) (aliases n) (address n) (connection_pool n)
    x (partition_generation n) (refresh_count n) (reference_count n)
    (responded n) (active n) (supports_float n) (supports_geo n).

Definition set_partition_generation (x : Z) (n : Node) : Node :=
  mkNode (client_policy n) (name n) (host n) (aliases n) (address n) (connection_pool n)
    (failures n) x (refresh_count n) (reference_count n)
    (responded n) (active n) (supports_float n) (supports_geo n).

Definition set_refresh_count (x : Z) (n : Node) : Node :=
  mkNode (client_policy n) (name n) (host n) (aliases n) (address n) (connection_pool n)
    (failures n) (partition_generation n) x (reference_count n)
    (responded n) (active n) (supports_float n) (supports_geo n).

Definition set_reference_count (x : Z) (n : Node) : Node :=
  mkNode (client_policy n) (name n) (host n) (aliases n) (address n) (connection_pool n)
    (failures n) (partition_generation n) (refresh_count n) x
    (responded n) (active n) (supports_float n) (supports_geo n).

Definition set_responded (x : bool) (n : Node) : Node :=
  mkNode (client_policy n) (name n) (host n) (aliases n) (address n) (connection_pool n)
    (failures n) (partition_generation n) (refresh_count n) (reference_count n)
    x (active n) (supports_float n) (supports_geo n).

Definition set_active (x : bool) (n : Node) : Node :=
  mkNode (client_policy n) (name n) (host n) (aliases n) (address n) (connection_pool n)
    (failures n) (partition_generation n) (refresh_count n) (reference_count n)
    (responded n) x (supports_float n) (supports_geo n).

(** [Node::new]; [None] when the validator has no alias, or the pools cannot be
    made. *)
Definition new (policy : ClientPolicy) (nv : NodeValidator) (store : list Queue)
    : option (Node * list Queue) :=
  host ← head (NodeValidator.aliases nv);
  r ← ConnectionPool.new host policy store;
  Some (mkNode policy (NodeValidator.name nv) host (NodeValidator.aliases nv)
          (NodeValidator.address nv) (fst r) 0 (-1) 0 0 false true
          (NodeValidator.supports_float nv) (NodeValidator.supports_geo nv),
        snd r).

(** The queues and the network, which nodes share. *)
Definition Shared (Net : Type) : Type := (list Queue * Net)%type.

Section Methods.
Context `{BO : ByteOrder} `{CL : Clock} `{DI : Dialer Net}.

Definition modify (f : Node -> Node) : M (Node * Shared Net) unit :=
  on_fst (fun n => Ret tt (f n)).

(** A method of the connection pool. *)
Definition with_pool {A} (m : M (ConnectionPool.Pooled Net) A)
    : M (Node * Shared Net) A :=
  fun s =>
    let '(n, (queues, net)) := s in
    let back p :=
      (set_connection_pool (ConnectionPool.pool p) n,
       (ConnectionPool.store p, ConnectionPool.net p)) in
    match m (ConnectionPool.mkPooled (connection_pool n) queues net) with
    | Ret a p => Ret a (back p)
    | Throw e p => Throw e (back p)
    | Panic => Panic
    | NoFuel => NoFuel
    end.

Definition get_connection (timeout : option Duration)
    : M (Node * Shared Net) ConnectionPool.PooledConnection :=
  with_pool (ConnectionPool.get timeout).

(** A request on a pooled connection, which goes back to its queue or is
    invalidated. *)
Definition on_pooled {A} (m : M Connection A) (pc : ConnectionPool.PooledConnection)
    : M (Node * Shared Net) A :=
  match ConnectionPool.conn pc with
  | None => panic
  | Some conn =>
      let held conn := ConnectionPool.mkPooledConnection (ConnectionPool.queue pc) (Some conn) in
      match m conn with
      | Ret a conn => with_pool (ConnectionPool.drop (held conn)) ;;; ret a
      | Throw e conn => with_pool (ConnectionPool.invalidate (held conn)) ;;; throw e
      | Panic => panic
      | NoFuel => no_fuel
      end
  end.

Definition info (timeout : option Duration) (commands : list bytes)
    : M (Node * Shared Net) (gmap bytes bytes) :=
  let! conn := get_connection timeout in on_pooled (Message.info commands) conn.

Definition services_name (n : Node) : bytes :=
  if use_services_alternate (client_policy n) then str "services-alternate"
  else str "services".

Definition inactivate : M (Node * Shared Net) unit := modify (set_active false).

Definition verify_node_name (info_map : gmap bytes bytes) : M (Node * Shared Net) unit :=
  let! n := on_fst get in
  match info_map !! str "node" with
  | None => throw (InvalidNode "Missing node name")
  | Some info_name =>
      if bool_decide (info_name = name n) then ret tt
      else inactivate ;;; throw (InvalidNode "Node name has changed: '{}' => '{}'")
  end.

Definition verify_cluster_name (info_map : gmap bytes bytes) : M (Node * Shared Net) unit :=
  let! n := on_fst get in
  match cluster_name (client_policy n) with
  | None => ret tt
  | Some expected =>
      match info_map !! str "cluster-name" with
      | None => throw (InvalidNode "Missing cluster name")
      | Some info_name =>
          if bool_decide (info_name = expected) then ret tt
          else inactivate ;;; throw (InvalidNode "Cluster name mismatch: expected={}, got={}")
      end
  end.

Definition validate_node (info_map : gmap bytes bytes) : M (Node * Shared Net) unit :=
  verify_node_name info_map ;;; verify_cluster_name info_map.

(** A service as this client reaches it. *)
Definition alias_of (policy : ClientPolicy) (host : bytes) (port : Z) : Host :=
  match ip_map policy with
  | Some ip_map =>
      match ip_map !! host with
      | Some ip => Host_new ip port
      | None => Host_new host port
      end
  | None => Host_new host port
  end.

(** The services of the list; malformed ones are logged and skipped. *)
Fixpoint add_friends_loop (current_aliases : gset Host) (names : list bytes)
    (friends : list Host) : M (Node * Shared Net) (list Host) :=
  match names with
  | [] => ret friends
  | friend :: names' =>
      match split (Z.eqb 58) friend with
      | [host; port] =>
          match parse_u16 port with
          | None => throw ParseInt
          | Some port =>
              let! n := on_fst get in
              let alias := alias_of (client_policy n) host port in
              if bool_decide (alias ∈ current_aliases) then
                modify (fun n => set_reference_count (wrap_u 64 (reference_count n + 1)) n) ;;;
                add_friends_loop current_aliases names' friends
              else if bool_decide (alias ∈ friends) then
                add_friends_loop current_aliases names' friends
              else add_friends_loop current_aliases names' (friends ++ [alias])
          end
      | _ => add_friends_loop current_aliases names' friends
      end
  end.

Definition add_friends (current_aliases : gset Host) (info_map : gmap bytes bytes)
    : M (Node * Shared Net) (list Host) :=
  let! n := on_fst get in
  match info_map !! services_name n with
  | None => throw (BadResponse "Missing services list")
  | Some [] => ret []
  | Some friend_string => add_friends_loop current_aliases (split (Z.eqb 59) friend_string) []
  end.

Definition update_partitions (info_map : gmap bytes bytes) : M (Node * Shared Net) unit :=
  match info_map !! str "partition-generation" with
  | None => throw (BadResponse "Missing partition generation")
  | Some gen_string =>
      match parse_isize gen_string with
      | Some gen => modify (set_partition_generation gen)
      | None => throw ParseInt
      end
  end.

Definition reset_failures : M (Node * Shared Net) unit := modify (set_failures 0).

Definition increase_failures : M (Node * Shared Net) unit :=
  modify (fun n => set_failures (wrap_u 64 (failures n + 1)) n).

Definition add_alias (alias : Host) : M (Node * Shared Net) unit :=
  modify (fun n => set_aliases (aliases n ++ [alias]) n) ;;;
  modify (fun n => set_reference_count (wrap_u 64 (reference_count n + 1)) n).

(** [refresh]; of the current aliases it only asks which hosts have one. *)
Definition refresh (current_aliases : gset Host) : M (Node * Shared Net) (list Host) :=
  modify (set_reference_count 0) ;;;
  modify (set_responded false) ;;;
  modify (fun n => set_refresh_count (wrap_u 64 (refresh_count n + 1)) n) ;;;
  let! n := on_fst get in
  let commands :=
    [str "node"; str "cluster-name"; str "partition-generation"; services_name n] in
  let! info_map := chain_err (Msg "Info command failed") (info None commands) in
  chain_err (Msg "Failed to validate node") (validate_node info_map) ;;;
  modify (set_responded true) ;;;
  let! friends :=
    chain_err (Msg "Failed to add friends") (add_friends current_aliases info_map) in
  chain_err (Msg "Failed to update partitions") (update_partitions info_map) ;;;
  reset_failures ;;;
  ret friends.

Definition close : M (Node * Shared Net) unit :=
  inactivate ;;; with_pool ConnectionPool.close.

End Methods.

(** [PartialEq for Node]. *)
Definition eqb (n1 n2 : Node) : bool := bool_decide (name n1 = name n2).

End Node.

Abbreviation Node := Node.Node.
