(* ===== verification/Cluster.v ===== *)
(** * The cluster ([src/cluster/mod.rs], [partition_tokenizer.rs])

    The nodes of the cluster, the map from partitions to nodes, and the tending
    that keeps both up to date.  An [Arc<Node>] is the position of the node in a
    store of nodes: the list of nodes, the aliases and the partition map share
    them.  Only the tending thread changes the cluster; the model is of that
    thread. *)

From stdpp Require Import base list strings gmap.
From Stdlib Require Import ZArith Lia.
From S2P Require Import Prelude ResultCodes Monad ByteOrder Slices Text Buffer Policy.
From S2P Require Import Connection Hosts ClientPolicy Info ConnectionPool Nodes.

(** [base64::decode]; [None] is the error of the crate. *)
Class Base64 := { base64_decode : bytes -> option bytes }.

(** [Arc<Node>]. *)
Abbreviation NodeId := nat.

Abbreviation PartitionMap := (gmap bytes (list NodeId)).

Module PartitionTokenizer.

Definition REPLICAS_NAME : bytes := str "replicas-master".

(** [struct PartitionTokenizer]. *)
Record PartitionTokenizer : Type := mkPartitionTokenizer { buffer : bytes }.

Section Tokenizer.
Context `{BO : ByteOrder} `{CL : Clock} `{B64 : Base64}.

Definition new : M Connection PartitionTokenizer :=
  let! info_map := Message.info [REPLICAS_NAME] in
  match info_map !! REPLICAS_NAME with
  | Some buf => ret (mkPartitionTokenizer buf)
  | None => throw (BadResponse "Missing replicas info")
  end.

(** The bit of partition [idx]; a bitmap that is too short panics. *)
Definition owned (restore_buffer : bytes) (idx : nat) : option bool :=
  byte ← index restore_buffer (Z.shiftr (Z.of_nat idx) 3);
  Some (negb (Z.land byte (Z.shiftr 0x80 (Z.land (Z.of_nat idx) 7)) =? 0)).

(** The loop over the entries of a namespace, from [idx] on. *)
Fixpoint mark {S : Type} (restore_buffer : bytes) (node : NodeId) (idx : nat)
    (entry : list NodeId) : M S (list NodeId) :=
  match entry with
  | [] => ret []
  | item :: entry' =>
      let! mine := unwrap (owned restore_buffer idx) in
      let! rest := mark restore_buffer node (Datatypes.S idx) entry' in
      ret ((if mine : bool then node else item) :: rest)
  end.

(** The pieces in pairs, namespace and bitmap. *)
Fixpoint update_loop {S : Type} (node : NodeId) (parts : list bytes) (amap : PartitionMap)
    : M S PartitionMap :=
  match parts with
  | ns :: part :: parts' =>
      match base64_decode part with
      | None => throw Base64Error
      | Some restore_buffer =>
          match amap !! ns with
          | None =>
              update_loop node parts'
                (<[ns := replicate (Z.to_nat PARTITIONS) node]> amap)
          | Some entry =>
              let! entry := mark restore_buffer node 0 entry in
              update_loop node parts' (<[ns := entry]> amap)
          end
      end
  | [] => ret amap
  | [_] => throw (BadResponse "Error parsing partition info")
  end.

Definition update_partition {S : Type} (t : PartitionTokenizer) (nmap : PartitionMap)
    (node : NodeId) : M S PartitionMap :=
  if utf8_valid (buffer t) then
    update_loop node (split (fun c => (c =? 58) || (c =? 59)) (trim_end (buffer t))) nmap
  else throw InvalidUtf8.

End Tokenizer.

End PartitionTokenizer.

Module Cluster.

(** [struct Cluster]. *)
Record Cluster : Type := mkCluster {
  seeds : list Host;
  aliases : gmap Host NodeId;
  nodes : list NodeId;
  partition_write_map : PartitionMap;
  node_index : Z;
  client_policy : ClientPolicy;
  closed : bool
}.

(** The cluster, the nodes, their queues and the network, and the number of
    readings of the clock. *)
Record World (Net : Type) : Type := mkWorld {
  cluster : Cluster;
  heap : list Node;
  shared : Node.Shared Net;
  ticks : nat
}.

Arguments mkWorld {Net} _ _ _ _.
Arguments cluster {Net} _.
Arguments heap {Net} _.
Arguments shared {Net} _.
Arguments ticks {Net} _.

Definition set_aliases (x : gmap Host NodeId) (c : Cluster) : Cluster :=
  mkCluster (seeds c) x (nodes c) (partition_write_map c) (node_index c)
    (client_policy c) (closed c).

Definition with_nodes (x : list NodeId) (c : Cluster) : Cluster :=
  mkCluster (seeds c) (aliases c) x (partition_write_map c) (node_index c)
    (client_policy c) (closed c).

Definition with_partitions (x : PartitionMap) (c : Cluster) : Cluster :=
  mkCluster (seeds c) (aliases c) (nodes c) x (node_index c) (client_policy c) (closed c).

Definition with_node_index (x : Z) (c : Cluster) : Cluster :=
  mkCluster (seeds c) (aliases c) (nodes c) (partition_write_map c) x
    (client_policy c) (closed c).

Definition with_seeds (x : list Host) (c : Cluster) : Cluster :=
  mkCluster x (aliases c) (nodes c) (partition_write_map c) (node_index c)
    (client_policy c) (closed c).

Definition with_closed (x : bool) (c : Cluster) : Cluster :=
  mkCluster (seeds c) (aliases c) (nodes c) (partition_write_map c) (node_index c)
    (client_policy c) x.

(** The state [Cluster::new] starts from. *)
Definition initial (policy : ClientPolicy) (hosts : list Host) : Cluster :=
  mkCluster hosts ∅ [] ∅ 0 policy false.

Section Cluster.
Context `{BO : ByteOrder} `{CL : Clock} `{B64 : Base64} `{DI : Dialer Net}
  `{RE : !Resolver Net}.

Definition modify (f : Cluster -> Cluster) : M (World Net) unit :=
  fun w => Ret tt (mkWorld (f (cluster w)) (heap w) (shared w) (ticks w)).

Definition asks {A} (f : Cluster -> A) : M (World Net) A := fun w => Ret (f (cluster w)) w.

(** A method of a node. *)
Definition on_node {A} (id : NodeId) (m : M (Node * Node.Shared Net) A) : M (World Net) A :=
  fun w =>
    match heap w !! id with
    | Some n =>
        let back n := <[id := n]> (heap w) in
        match m (n, shared w) with
        | Ret a (n, sh) => Ret a (mkWorld (cluster w) (back n) sh (ticks w))
        | Throw e (n, sh) => Throw e (mkWorld (cluster w) (back n) sh (ticks w))
        | Panic => Panic
        | NoFuel => NoFuel
        end
    | None => Panic
    end.

(** A field of a node. *)
Definition node_field {A} (id : NodeId) (f : Node -> A) : M (World Net) A :=
  on_node id (let! n := on_fst get in ret (f n)).

Definition same_node (id1 id2 : NodeId) : M (World Net) bool :=
  let! n1 := node_field id1 Node.name in
  let! n2 := node_field id2 Node.name in
  ret (bool_decide (n1 = n2)).

(** [iter().any] and [iter().find] with a predicate that reads nodes. *)
Fixpoint find_m (p : NodeId -> M (World Net) bool) (l : list NodeId)
    : M (World Net) (option NodeId) :=
  match l with
  | [] => ret None
  | id :: l' => let! b := p id in if b : bool then ret (Some id) else find_m p l'
  end.

Definition any_m (p : NodeId -> M (World Net) bool) (l : list NodeId) : M (World Net) bool :=
  let! r := find_m p l in ret (bool_decide (r <> None)).

(** [retain]-like loops that collect the elements. *)
Fixpoint filter_m (p : NodeId -> M (World Net) bool) (l : list NodeId)
    : M (World Net) (list NodeId) :=
  match l with
  | [] => ret []
  | id :: l' =>
      let! b := p id in
      let! r := filter_m p l' in
      ret (if b : bool then id :: r else r)
  end.

Definition has_name (name : bytes) (id : NodeId) : M (World Net) bool :=
  let! n := node_field id Node.name in ret (bool_decide (n = name)).

(** *** Looking up nodes *)

Definition is_connected (c : Cluster) : bool :=
  bool_decide (nodes c <> []) && negb (closed c).

(** One try of [get_random_node]: the index is counted on [isize], whose
    increment is checked. *)
Definition random_index (length : Z) : M (World Net) Z :=
  let! i := asks node_index in
  modify (with_node_index (wrap_i 64 (i + 1))) ;;;
  if i + 1 <? 2 ^ 63 then ret (Z.abs (Z.rem (i + 1) length)) else panic.

Fixpoint random_loop (tries : nat) (node_array : list NodeId) : M (World Net) NodeId :=
  match tries with
  | O => throw (Msg "No active node")
  | S tries' =>
      let! index := random_index (len node_array) in
      match node_array !! Z.to_nat index with
      | Some node =>
          let! active := node_field node Node.active in
          if active : bool then ret node else random_loop tries' node_array
      | None => random_loop tries' node_array
      end
  end.

Definition get_random_node : M (World Net) NodeId :=
  let! node_array := asks nodes in random_loop (length node_array) node_array.

Definition get_node (partition : Partition) : M (World Net) NodeId :=
  let! partitions := asks partition_write_map in
  match partitions !! part_namespace partition with
  | Some node_array =>
      match node_array !! Z.to_nat (partition_id partition) with
      | Some node => ret node
      | None => get_random_node
      end
  | None => get_random_node
  end.

Definition get_node_by_name (node_name : bytes) : M (World Net) NodeId :=
  let! node_array := asks nodes in
  let! r := find_m (has_name node_name) node_array in
  match r with
  | Some node => ret node
  | None => throw (Msg "Requested node `{}` not found.")
  end.

(** The loop of [node_partitions]; the index is a [u16], whose increment is
    checked. *)
Fixpoint node_partitions_loop (node : NodeId) (i : Z) (node_array : list NodeId)
    : M (World Net) (list Z) :=
  match node_array with
  | [] => ret []
  | tnode :: node_array' =>
      let! mine := same_node node tnode in
      if i + 1 <? 2 ^ 16 then
        let! rest := node_partitions_loop node (i + 1) node_array' in
        ret (if mine : bool then i :: rest else rest)
      else panic
  end.

Definition node_partitions (node : NodeId) (namespace : bytes) : M (World Net) (list Z) :=
  let! partitions := asks partition_write_map in
  match partitions !! namespace with
  | Some node_array => node_partitions_loop node 0 node_array
  | None => ret []
  end.

(** *** Changing the cluster *)

Definition add_seeds (new_seeds : list Host) : M (World Net) unit :=
  modify (fun c => with_seeds (seeds c ++ new_seeds) c).

Definition alias_exists (host : Host) : M (World Net) bool :=
  asks (fun c => bool_decide (host ∈ dom (aliases c))).

Definition add_alias (host : Host) (node : NodeId) : M (World Net) unit :=
  on_node node (Node.add_alias host) ;;;
  modify (fun c => set_aliases (<[host := node]> (aliases c)) c).

Definition remove_alias (host : Host) : M (World Net) unit :=
  modify (fun c => set_aliases (delete host (aliases c)) c).

Definition add_aliases (node : NodeId) : M (World Net) unit :=
  let! l := node_field node Node.aliases in
  for_each l (fun alias => modify (fun c => set_aliases (<[alias := node]> (aliases c)) c)).

Definition add_nodes (friend_list : list NodeId) : M (World Net) unit :=
  match friend_list with
  | [] => ret tt
  | _ => modify (fun c => with_nodes (nodes c ++ friend_list) c)
  end.

Definition add_nodes_and_aliases (friend_list : list NodeId) : M (World Net) unit :=
  for_each friend_list add_aliases ;;; add_nodes friend_list.

(** [nodes_to_remove.contains(node)] compares names. *)
Definition remove_nodes (nodes_to_remove : list NodeId) : M (World Net) unit :=
  match nodes_to_remove with
  | [] => ret tt
  | _ =>
      let! l := asks nodes in
      let! node_array :=
        filter_m (fun node =>
          let! b := any_m (same_node node) nodes_to_remove in ret (negb b)) l in
      modify (with_nodes node_array)
  end.

(** [Arc::get_mut]: nothing else in the cluster refers to the node. *)
Definition unshared (c : Cluster) (id : NodeId) : bool :=
  negb (bool_decide (id ∈ nodes c))
  && negb (bool_decide (map_Exists (fun _ n => n = id) (aliases c)))
  && negb (bool_decide (map_Exists (fun _ l => id ∈ l) (partition_write_map c))).

Definition remove_nodes_and_aliases (nodes_to_remove : list NodeId) : M (World Net) unit :=
  for_each nodes_to_remove (fun node =>
    let! l := node_field node Node.aliases in
    for_each l remove_alias ;;;
    let! c := asks id in
    when (unshared c node) (on_node node Node.close)) ;;;
  remove_nodes nodes_to_remove.

(** [update_partitions]. *)
Definition update_partitions (node : NodeId) : M (World Net) unit :=
  let! policy := asks client_policy in
  let! tokens :=
    on_node node
      (let! conn := Node.get_connection (cp_timeout policy) in
       Node.on_pooled PartitionTokenizer.new conn) in
  let! partitions := asks partition_write_map in
  let! nmap := PartitionTokenizer.update_partition tokens partitions node in
  modify (with_partitions nmap).

(** *** Finding nodes *)

(** A validator run to its end; its network effects are the cluster's. *)
Definition validating (v : NodeValidator) (host : Host) : M (World Net) (NodeValidator + ErrorKind) :=
  fun w =>
    let '(queues, net) := shared w in
    let back net := mkWorld (cluster w) (heap w) (queues, net) (ticks w) in
    match NodeValidator.validate_node (cluster_name (client_policy (cluster w))) host (v, net) with
    | Ret _ (v, net) => Ret (inl v) (back net)
    | Throw e (_, net) => Ret (inr e) (back net)
    | Panic => Panic
    | NoFuel => NoFuel
    end.

Definition validator : M (World Net) NodeValidator :=
  asks (fun c => NodeValidator.new (client_policy c)).

(** [create_node] and [Arc::new]. *)
Definition create_node (nv : NodeValidator) : M (World Net) NodeId :=
  fun w =>
    let '(queues, net) := shared w in
    match Node.new (client_policy (cluster w)) nv queues with
    | Some (n, queues) =>
        Ret (length (heap w)) (mkWorld (cluster w) (heap w ++ [n]) (queues, net) (ticks w))
    | None => Panic
    end.

Definition find_node_name (l : list NodeId) (name : bytes) : M (World Net) bool :=
  any_m (has_name name) l.

(** The aliases of a seed; a failing one is skipped. *)
Fixpoint seed_aliases (seed : Host) (seed_node_validator : NodeValidator)
    (l : list Host) (list_ : list NodeId) : M (World Net) (list NodeId) :=
  match l with
  | [] => ret list_
  | alias :: l' =>
      let! nv :=
        if bool_decide (seed = alias) then ret (inl seed_node_validator)
        else let! nv2 := validator in validating nv2 seed in
      match nv with
      | inr _ => seed_aliases seed seed_node_validator l' list_
      | inl nv =>
          let! found := find_node_name list_ (NodeValidator.name nv) in
          if found : bool then seed_aliases seed seed_node_validator l' list_
          else
            let! node := create_node nv in
            add_aliases node ;;;
            seed_aliases seed seed_node_validator l' (list_ ++ [node])
      end
  end.

Fixpoint seed_loop (seed_array : list Host) (list_ : list NodeId)
    : M (World Net) (list NodeId) :=
  match seed_array with
  | [] => ret list_
  | seed :: seed_array' =>
      let! v := validator in
      let! r := validating v seed in
      match r with
      | inr _ => seed_loop seed_array' list_
      | inl v =>
          let! list_ := seed_aliases seed v (NodeValidator.aliases v) list_ in
          seed_loop seed_array' list_
      end
  end.

Definition seed_nodes : M (World Net) bool :=
  let! seed_array := asks seeds in
  let! list_ := seed_loop seed_array [] in
  add_nodes_and_aliases list_ ;;;
  ret (bool_decide (list_ <> [])).

(** A host that answers as a known node becomes its alias. *)
Fixpoint find_new_nodes_loop (hosts : list Host) (list_ : list NodeId)
    : M (World Net) (list NodeId) :=
  match hosts with
  | [] => ret list_
  | host :: hosts' =>
      let! nv := validator in
      let! r := validating nv host in
      match r with
      | inr _ => find_new_nodes_loop hosts' list_
      | inl nv =>
          let! known := catch (get_node_by_name (NodeValidator.name nv)) in
          let! dup :=
            match known with
            | inl node => ret (Some node)
            | inr _ => find_m (has_name (NodeValidator.name nv)) list_
            end in
          match dup with
          | Some node => add_alias host node ;;; find_new_nodes_loop hosts' list_
          | None =>
              let! node := create_node nv in
              find_new_nodes_loop hosts' (list_ ++ [node])
          end
      end
  end.

Definition find_new_nodes_to_add (hosts : list Host) : M (World Net) (list NodeId) :=
  find_new_nodes_loop hosts [].

Definition find_node_in_partition_map (filter : NodeId) : M (World Net) bool :=
  let! partitions := asks partition_write_map in
  any_m (same_node filter) (concat (snd <$> map_to_list partitions)).

(** Whether [find_nodes_to_remove] removes a node. *)
Definition must_remove (cluster_size refresh_count : Z) (node : NodeId)
    : M (World Net) bool :=
  let! active := node_field node Node.active in
  if negb active then ret true
  else
    let! failures := node_field node Node.failures in
    let! reference_count := node_field node Node.reference_count in
    if (cluster_size =? 1) && (5 <? failures) then seed_nodes
    else if (cluster_size =? 2) && (refresh_count =? 1) && (reference_count =? 0)
            && (0 <? failures) then ret true
    else if (2 <=? refresh_count) && (reference_count =? 0) then
      if failures =? 0 then
        let! mapped := find_node_in_partition_map node in ret (negb mapped)
      else ret true
    else ret false.

Definition find_nodes_to_remove (refresh_count : Z) : M (World Net) (list NodeId) :=
  let! l := asks nodes in filter_m (must_remove (len l) refresh_count) l.

(** *** Tending *)

(** The refresh of one node: the friends it has, if it was refreshed. *)
Definition refresh_node (node : NodeId) : M (World Net) (option (list Host)) :=
  let! old_gen := node_field node Node.partition_generation in
  let! active := node_field node Node.active in
  if active : bool then
    let! current := asks (fun c => dom (aliases c)) in
    let! r := catch (on_node node (Node.refresh current)) in
    match r with
    | inl friends =>
        let! new_gen := node_field node Node.partition_generation in
        when (negb (old_gen =? new_gen)) (update_partitions node) ;;;
        ret (Some friends)
    | inr _ => on_node node Node.increase_failures ;;; ret None
    end
  else ret None.

Fixpoint refresh_loop (l : list NodeId) (friend_list : list Host) (refresh_count : Z)
    : M (World Net) (list Host * Z) :=
  match l with
  | [] => ret (friend_list, refresh_count)
  | node :: l' =>
      let! r := refresh_node node in
      match r with
      | Some friends => refresh_loop l' (friend_list ++ friends) (refresh_count + 1)
      | None => refresh_loop l' friend_list refresh_count
      end
  end.

Definition tend : M (World Net) unit :=
  let! l := asks nodes in
  when (bool_decide (l = [])) (seed_nodes ;;; ret tt) ;;;
  let! l := asks nodes in
  let! (friend_list, refresh_count) := refresh_loop l [] 0 in
  let! add_list := find_new_nodes_to_add friend_list in
  add_nodes_and_aliases add_list ;;;
  let! remove_list := find_nodes_to_remove refresh_count in
  remove_nodes_and_aliases remove_list.

Definition world_now : M (World Net) Z :=
  fun w => Ret (instant (ticks w)) (mkWorld (cluster w) (heap w) (shared w) (S (ticks w))).

(** The thread of [wait_till_stabilized]: tending until the number of nodes stays
    the same, or until the deadline. *)
Fixpoint stabilize_loop (fuel : nat) (deadline count : Z) : M (World Net) unit :=
  match fuel with
  | O => no_fuel
  | S fuel' =>
      let! t := world_now in
      if deadline <? t then ret tt
      else
        discard tend ;;;
        let! n := asks (fun c => len (nodes c)) in
        if n =? count then ret tt else stabilize_loop fuel' deadline n
  end.

(** [spawn] and [join]: the panic of the thread is an error.  What it leaves behind is
    not known, and nobody sees it: [new] gives the cluster up. *)
Definition join {A} (thread : M (World Net) A) : M (World Net) A :=
  fun w =>
    match thread w with
    | Panic => Throw (Msg "Error during initial cluster tend: {:?}") w
    | o => o
    end.

Definition wait_till_stabilized (fuel : nat) : M (World Net) unit :=
  let! policy := asks client_policy in
  let timeout := default (mkDuration 3 0) (cp_timeout policy) in
  let! t := world_now in
  join (stabilize_loop fuel (t + nanos timeout) (-1)).

(** [Cluster::new], up to the start of the tending thread. *)
Definition new (fuel : nat) (policy : ClientPolicy) (hosts : list Host)
    : M (World Net) unit :=
  modify (fun _ => initial policy hosts) ;;;
  wait_till_stabilized fuel ;;;
  let! c := asks id in
  if fail_if_not_connected policy && negb (is_connected c) then
    throw (ConnectionError "Failed to connect to host(s).")
  else ret tt.

(** The turns of the tending thread until it finds the channel closed, and the
    end: all nodes are closed, if nothing else refers to them. *)
Definition tend_thread (turns : nat) : M (World Net) unit :=
  for_each (seq 0 turns) (fun _ => discard tend) ;;;
  let! l := asks nodes in
  for_each l (fun node =>
    let! c := asks id in
    when (unshared c node) (on_node node Node.close)) ;;;
  modify (with_nodes []).

(** [close]: dropping the guard of the channel does not close it; only the flag
    is set. *)
Definition close : M (World Net) unit :=
  modify (fun c => if closed c then c else with_closed true c).

End Cluster.

End Cluster.
