(* ===== verification/PartitionFacts.v ===== *)
(** * Partitions and their nodes

    [update_partition_spec]: the answer of a node moves exactly the partitions of
    its bitmaps to it.  [routing]: the partition map always has a node for every
    partition of a namespace it knows, so a key of the namespace is sent to the
    node of its partition. *)

From stdpp Require Import base list strings gmap.
From Stdlib Require Import ZArith Lia.
From S2P Require Import Prelude ResultCodes Monad ByteOrder Slices Text Buffer Policy.
From S2P Require Import Connection Hosts ClientPolicy Info ConnectionPool Nodes Cluster.
Import PartitionTokenizer.

(** ** Bitmaps *)

(** Partition [i] is bit [i] of the bitmap, the most significant bit first. *)
Definition bit (bitmap : bytes) (i : nat) : bool :=
  Z.testbit (nth (i / 8) bitmap 0) (7 - Z.of_nat (i mod 8)).

Lemma land_single_bit b k :
  0 <= k -> negb (Z.land b (2 ^ k) =? 0) = Z.testbit b k.
Proof.
  intros Hk. destruct (Z.testbit b k) eqn:Hb.
  - apply negb_true_iff, Z.eqb_neq. intros H.
    assert (Z.testbit (Z.land b (2 ^ k)) k = true) as Ht
      by (rewrite Z.land_spec, Hb, Z.pow2_bits_true by lia; reflexivity).
    rewrite H, Z.bits_0 in Ht. discriminate.
  - apply negb_false_iff, Z.eqb_eq. apply Z.bits_inj'. intros n Hn.
    rewrite Z.land_spec, Z.bits_0. destruct (Z.eq_dec n k) as [->|Hne].
    + rewrite Hb. reflexivity.
    + rewrite Z.pow2_bits_false by lia. apply andb_false_r.
Qed.

Lemma owned_bit bitmap i :
  Z.of_nat i < 8 * len bitmap -> owned bitmap i = Some (bit bitmap i).
Proof.
  intros Hi. unfold owned, bit.
  assert (Z.shiftr (Z.of_nat i) 3 = Z.of_nat (i / 8)) as ->.
  { rewrite Z.shiftr_div_pow2 by lia. rewrite Nat2Z.inj_div. reflexivity. }
  assert (Z.land (Z.of_nat i) 7 = Z.of_nat (i mod 8)) as ->.
  { rewrite (Z.land_ones _ 3) by lia. rewrite Nat2Z.inj_mod. reflexivity. }
  assert (i / 8 < length bitmap)%nat as Hlt.
  { apply Nat.Div0.div_lt_upper_bound. unfold len in Hi. lia. }
  unfold index. rewrite (proj2 (Z.ltb_ge _ 0)) by lia. rewrite Nat2Z.id.
  destruct (bitmap !! (i / 8)%nat) as [b|] eqn:Hb; [|apply lookup_ge_None in Hb; lia].
  cbn [mbind option_bind]. apply nth_lookup_Some with (d := 0) in Hb as ->. f_equal.
  pose proof (Nat.mod_upper_bound i 8 ltac:(lia)).
  rewrite <- land_single_bit by lia. do 3 f_equal.
  rewrite Z.shiftr_div_pow2 by lia.
  change 0x80 with (2 ^ 7). rewrite <- Z.pow_sub_r by lia. reflexivity.
Qed.

(** ** The answer of a node *)

(** What one namespace of the answer does to the map. *)
Definition take_over (node : NodeId) (amap : PartitionMap) (e : bytes * bytes) : PartitionMap :=
  match amap !! e.1 with
  | None => <[e.1 := replicate (Z.to_nat PARTITIONS) node]> amap
  | Some entry =>
      <[e.1 := imap (fun i item => if bit e.2 i then node else item) entry]> amap
  end.

Section Tokenizer.
Context `{B64 : Base64}.

Lemma mark_spec {S : Type} bitmap node entry : forall idx (s : S),
  Z.of_nat (idx + length entry) <= 8 * len bitmap ->
  mark bitmap node idx entry s
  = Ret (imap (fun i item => if bit bitmap (idx + i) then node else item) entry) s.
Proof.
  induction entry as [|item entry IH]; intros idx s Hl; [reflexivity|]. cbn [length] in Hl.
  cbn [mark imap]. unfold bind at 1. rewrite owned_bit by lia. cbn [unwrap ret].
  unfold bind. rewrite IH by lia. unfold ret. do 2 f_equal.
  - rewrite Nat.add_0_r. reflexivity.
  - apply imap_ext. intros i x _. cbn.
    replace (idx + Datatypes.S i)%nat with (Datatypes.S (idx + i)) by lia. reflexivity.
Qed.

(** A map all of whose entries cover every partition. *)
Definition complete (m : PartitionMap) : Prop :=
  map_Forall (fun _ l => len l = PARTITIONS) m.

Lemma take_over_complete node m e : complete m -> complete (take_over node m e).
Proof.
  intros Hm. unfold take_over. destruct (m !! e.1) as [entry|] eqn:He.
  - apply map_Forall_insert_2; [|exact Hm]. specialize (Hm _ _ He).
    unfold len in *. rewrite length_imap. exact Hm.
  - apply map_Forall_insert_2; [|exact Hm]. unfold len. rewrite length_replicate.
    reflexivity.
Qed.

Definition answers (encoded : bytes * bytes) (decoded : bytes * bytes) : Prop :=
  encoded.1 = decoded.1 /\ base64_decode encoded.2 = Some decoded.2
  /\ PARTITIONS <= 8 * len decoded.2.

Definition pair_pieces (e : bytes * bytes) : list bytes := [e.1; e.2].

Lemma update_loop_spec {S : Type} node encoded decoded : forall m (s : S),
  complete m -> Forall2 answers encoded decoded ->
  update_loop node (concat (pair_pieces <$> encoded)) m s
  = Ret (foldl (take_over node) m decoded) s.
Proof.
  intros m s Hm He. revert m Hm.
  induction He as [|[ns part] [ns' bitmap] encoded decoded (Hn & Hp & Hl) _ IH];
    intros m Hm; [reflexivity|]. cbn in Hn, Hp, Hl. subst ns'.
  cbn [fmap list_fmap concat pair_pieces app fst snd update_loop foldl]. rewrite Hp.
  pose proof (take_over_complete node m (ns, bitmap) Hm) as Hm'.
  unfold take_over at 2. cbn [fst snd].
  unfold take_over in Hm'. cbn [fst snd] in Hm'.
  destruct (m !! ns) as [entry|] eqn:Hns; [|apply IH, Hm'].
  unfold bind. rewrite mark_spec; [apply IH, Hm'|].
  specialize (Hm _ _ Hns). unfold len in Hm. cbn. lia.
Qed.

(** The text of an answer. *)
Definition part_separator (c : Z) : bool := (c =? 58) || (c =? 59).

Definition answer_text (encoded : list (bytes * bytes)) : bytes :=
  join 59 ((fun e => e.1 ++ 58 :: e.2) <$> encoded).

Lemma split_answer encoded :
  encoded <> [] ->
  Forall (fun e => Forall (fun c => part_separator c = false) e.1
                   /\ Forall (fun c => part_separator c = false) e.2) encoded ->
  split part_separator (answer_text encoded) = concat (pair_pieces <$> encoded).
Proof.
  intros Hne. induction 1 as [|e encoded [H1 H2] Hes IH]; [congruence|].
  unfold answer_text in *. destruct encoded as [|e' encoded].
  - cbn. rewrite split_sep by (assumption || reflexivity). rewrite split_piece by exact H2.
    reflexivity.
  - cbn [fmap list_fmap join] in *. rewrite <- (assoc_L (++)). cbn [app].
    rewrite split_sep by (assumption || reflexivity).
    rewrite split_sep by (assumption || reflexivity).
    rewrite IH by discriminate. reflexivity.
Qed.

(** From a complete partition map, the answer of a node leaves a complete
    map, in which exactly the partitions of the bitmaps now belong to the node,
    or all of them in a namespace that was not known. *)
Theorem update_partition_spec {S : Type} node encoded decoded m (s : S) :
  let text := answer_text encoded in
  complete m ->
  encoded <> [] ->
  Forall (fun e => Forall (fun c => part_separator c = false) e.1
                   /\ Forall (fun c => part_separator c = false) e.2) encoded ->
  Forall2 answers encoded decoded ->
  utf8_valid text = true -> trim_end text = text ->
  update_partition (mkPartitionTokenizer text) m node s
  = Ret (foldl (take_over node) m decoded) s
  /\ complete (foldl (take_over node) m decoded).
Proof.
  intros text Hm Hne Hes He Hutf Htrim. split.
  - unfold update_partition. cbn [buffer]. rewrite Hutf, Htrim.
    change (fun c => (c =? 58) || (c =? 59)) with part_separator. unfold text.
    rewrite split_answer by assumption. apply update_loop_spec; assumption.
  - clear - Hm. revert m Hm. induction decoded as [|e decoded IH]; intros m Hm; [exact Hm|].
    apply IH, take_over_complete, Hm.
Qed.

End Tokenizer.

Lemma update_partition_spec_witness :
  let B := {| base64_decode s := if bool_decide (s = str "/w==")
                                 then Some (255 :: replicate 511 0) else None |} in
  update_partition (B64 := B) (mkPartitionTokenizer (str "test:/w==")) 
    {[ str "test" := replicate 4096 1%nat ]} 2%nat tt
  = Ret {[ str "test" := replicate 8 2%nat ++ replicate 4088 1%nat ]} tt.
Proof.
  intros B.
  etransitivity.
  - refine (proj1 (update_partition_spec (B64 := B) 2%nat [(str "test", str "/w==")]
      [(str "test", 255 :: replicate 511 0)] {[ str "test" := replicate 4096 1%nat ]} tt
      _ _ _ _ _ _)).
    + apply map_Forall_singleton. vm_compute. reflexivity.
    + discriminate.
    + repeat constructor.
    + repeat constructor. vm_compute. discriminate.
    + vm_compute. reflexivity.
    + vm_compute. reflexivity.
  - vm_compute. reflexivity.
Defined.

(** ** Routing *)

(** The world with another node index. *)
Definition indexed {Net} (i : Z) (w : Cluster.World Net) : Cluster.World Net :=
  Cluster.mkWorld (Cluster.with_node_index i (Cluster.cluster w)) (Cluster.heap w)
    (Cluster.shared w) (Cluster.ticks w).

Section Routing.
Context {Net : Type}.
Implicit Types w : Cluster.World Net.

Lemma node_field_spec {A} id (f : Node -> A) n w :
  Cluster.heap w !! id = Some n -> Cluster.node_field id f w = Ret (f n) w.
Proof.
  intros Hn. unfold Cluster.node_field, Cluster.on_node, bind, on_fst, get. rewrite Hn. cbn.
  rewrite list_insert_id by exact Hn. destruct w as [c h s t]. reflexivity.
Qed.

Definition node_name w (id : NodeId) : option bytes := Node.name <$> Cluster.heap w !! id.

(** The nodes of the list are in the store. *)
Definition present w (l : list NodeId) : Prop :=
  Forall (fun id => is_Some (Cluster.heap w !! id)) l.

Definition is_active w (id : NodeId) : Prop :=
  exists n, Cluster.heap w !! id = Some n /\ Node.active n = true.

(** The position that the try after index [i] looks at. *)
Definition position (i : Z) (l : list NodeId) : nat := Z.to_nat ((i + 1) mod len l).

Lemma position_lt i l : l <> [] -> (position i l < length l)%nat.
Proof.
  intros Hl. unfold position, len. destruct l; [congruence|].
  pose proof (Z.mod_pos_bound (i + 1) (Z.of_nat (length (n :: l)))). cbn [length] in *. lia.
Qed.

Lemma random_index_spec i n w :
  0 <= i -> i + 1 < 2 ^ 63 -> 0 < n ->
  Cluster.random_index n (indexed i w) = Ret ((i + 1) mod n) (indexed (i + 1) w).
Proof.
  intros Hi Hmax Hn.
  unfold Cluster.random_index, Cluster.asks, Cluster.modify, bind. cbn.
  rewrite (proj2 (Z.ltb_lt _ _)) by lia. rewrite wrap_i_id by (unfold in_i; lia).
  rewrite Z.rem_mod_nonneg, Z.abs_eq by (try apply Z.mod_pos_bound; lia). reflexivity.
Qed.

Lemma random_loop_spec tries : forall i l w,
  l <> [] -> present w l -> 0 <= i -> i + Z.of_nat tries < 2 ^ 63 ->
  (exists id j, Cluster.random_loop tries l (indexed i w) = Ret id (indexed j w) /\
     id ∈ l /\ is_active w id) \/
  (exists j, Cluster.random_loop tries l (indexed i w)
     = Throw (Msg "No active node") (indexed j w) /\
   forall k, (k < tries)%nat ->
     exists id, l !! position (i + Z.of_nat k) l = Some id /\ ~ is_active w id).
Proof.
  induction tries as [|tries IH]; intros i l w Hne Hp Hi Hmax.
  - right. exists i. split; [reflexivity|]. intros k Hk. lia.
  - assert (0 < len l) by (destruct l; [congruence|unfold len; cbn; lia]).
    destruct (lookup_lt_is_Some_2 l (position i l)) as [id Hid]; [apply position_lt, Hne|].
    pose proof Hp as Hp'. unfold present in Hp'. rewrite Forall_lookup in Hp'.
    destruct (Hp' _ _ Hid) as [n Hn].
    assert (Cluster.random_loop (S tries) l (indexed i w)
      = if Node.active n then Ret id (indexed (i + 1) w)
        else Cluster.random_loop tries l (indexed (i + 1) w)) as ->.
    { cbn [Cluster.random_loop]. unfold bind at 1. rewrite random_index_spec by lia.
      fold (position i l). rewrite Hid.
      unfold bind. rewrite (node_field_spec id Node.active n) by exact Hn.
      destruct (Node.active n); reflexivity. }
    destruct (Node.active n) eqn:Ha.
    + left. exists id, (i + 1). split; [reflexivity|]. split; [|exists n; split; assumption].
      apply list_elem_of_lookup. eauto.
    + destruct (IH (i + 1) l w Hne Hp ltac:(lia) ltac:(lia)) as [(id' & j & E & H')|(j & E & Hk)].
      * left. exists id', j. split; [exact E|exact H'].
      * right. exists j. split; [exact E|]. intros [|k] Hlt.
        -- exists id. rewrite Z.add_0_r. split; [exact Hid|]. intros (n' & Hn' & Ha').
           congruence.
        -- specialize (Hk k ltac:(lia)).
           replace (i + Z.of_nat (S k)) with (i + 1 + Z.of_nat k) by lia. exact Hk.
Qed.

(** Enough tries look at every position. *)
Lemma position_onto l j i :
  (j < length l)%nat -> exists k, (k < length l)%nat /\ position (i + Z.of_nat k) l = j.
Proof.
  intros Hj. set (n := Z.of_nat (length l)).
  exists (Z.to_nat ((Z.of_nat j - (i + 1)) mod n)).
  pose proof (Z.mod_pos_bound (Z.of_nat j - (i + 1)) n ltac:(unfold n; lia)) as Hb.
  split; [unfold n in *; lia|]. unfold position, len. fold n.
  rewrite Z2Nat.id by lia.
  replace (i + (Z.of_nat j - (i + 1)) mod n + 1)
    with ((i + 1) + (Z.of_nat j - (i + 1)) mod n) by lia.
  rewrite Zplus_mod_idemp_r.
  replace (i + 1 + (Z.of_nat j - (i + 1))) with (Z.of_nat j) by lia.
  rewrite Z.mod_small by (unfold n; lia). lia.
Qed.

(** [get_random_node] gives an active node, or there is none. *)
Definition random_result w (o : outcome (Cluster.World Net) NodeId) : Prop :=
  let l := Cluster.nodes (Cluster.cluster w) in
  (exists id j, o = Ret id (indexed j w) /\ id ∈ l /\ is_active w id) \/
  (exists j, o = Throw (Msg "No active node") (indexed j w) /\
     forall id, id ∈ l -> ~ is_active w id).

Lemma random_node_spec w :
  let c := Cluster.cluster w in
  present w (Cluster.nodes c) ->
  0 <= Cluster.node_index c -> Cluster.node_index c + len (Cluster.nodes c) < 2 ^ 63 ->
  random_result w (Cluster.get_random_node w).
Proof.
  intros c Hp Hi Hmax. unfold Cluster.get_random_node, bind, Cluster.asks, random_result.
  fold c. set (l := Cluster.nodes c) in *. set (i := Cluster.node_index c) in *.
  assert (w = indexed i w) as Hw by (unfold i, c; destruct w as [[] ? ? ?]; reflexivity).
  destruct (decide (l = [])) as [Hl|Hl].
  - right. exists i. rewrite Hl. split; [rewrite <- Hw; reflexivity|].
    intros id Hid. apply not_elem_of_nil in Hid. contradiction.
  - pose proof (random_loop_spec (length l) i l w Hl Hp Hi Hmax) as H.
    rewrite <- Hw in H. destruct H as [H|(j & E & Hk)]; [left; exact H|].
    right. exists j. split; [exact E|]. intros id Hid.
    apply list_elem_of_lookup in Hid as [k Hk'].
    destruct (position_onto l k i) as (m & Hm & Hpos); [eapply lookup_lt_Some, Hk'|].
    destruct (Hk m Hm) as (id' & Hid' & Hna). rewrite Hpos in Hid'. congruence.
Qed.

(** C20: a key belongs to the partition of the low twelve bits of its digest; in
    a namespace that the partition map knows it is sent to the node of that
    partition, otherwise to an active node, unless there is none. *)
Theorem routing `{BO : ByteOrder} key w :
  let c := Cluster.cluster w in
  4 <= len (digest key) ->
  complete (Cluster.partition_write_map c) ->
  present w (Cluster.nodes c) ->
  0 <= Cluster.node_index c -> Cluster.node_index c + len (Cluster.nodes c) < 2 ^ 63 ->
  exists p, new_by_key key = Some p /\
    partition_id p = read_le (take 4 (digest key)) mod PARTITIONS /\
    match Cluster.partition_write_map c !! namespace key with
    | Some entry =>
        exists node, entry !! Z.to_nat (partition_id p) = Some node /\
          Cluster.get_node p w = Ret node w
    | None => random_result w (Cluster.get_node p w)
    end.
Proof.
  intros c Hd Hm Hp Hi Hmax.
  assert (slice (digest key) 0 4 = Some (take 4 (digest key))) as Hs.
  { unfold slice, slice_ok. rewrite (proj2 (Z.leb_le 4 _)) by exact Hd. cbn.
    rewrite drop_0. reflexivity. }
  unfold new_by_key. rewrite Hs. cbn [mbind option_bind]. eexists. split; [reflexivity|].
  cbn [partition_id]. change (PARTITIONS - 1) with (Z.ones 12).
  rewrite Z.land_ones by lia. split; [reflexivity|].
  unfold Cluster.get_node, bind, Cluster.asks. fold c. cbn [part_namespace partition_id].
  destruct (Cluster.partition_write_map c !! namespace key) as [entry|] eqn:He.
  - specialize (Hm _ _ He). cbn in Hm. unfold len, PARTITIONS in Hm.
    pose proof (Z.mod_pos_bound (read_le (take 4 (digest key))) (2 ^ 12) ltac:(lia)) as Hb.
    change (2 ^ 12) with 4096 in *.
    destruct (lookup_lt_is_Some_2 entry
      (Z.to_nat (read_le (take 4 (digest key)) mod 4096))) as [node Hn]; [lia|].
    exists node. rewrite Hn. split; reflexivity.
  - apply random_node_spec; assumption.
Qed.

End Routing.

Lemma routing_witness :
  let key := mkKey (str "test") [] None (1 :: 0x32 :: 0xff :: replicate 17 7) in
  let c := Cluster.mkCluster [] ∅ [] {[ str "test" := seq 0 4096 ]} 0 ClientPolicy_default false in
  let w := Cluster.mkWorld c [] ([], tt) 0 in
  exists p, new_by_key (BO := byteorder_model) key = Some p /\ partition_id p = 0x201.
Proof.
  intros key c w.
  destruct (routing (BO := byteorder_model) key w) as (p & Hp & Hid & _).
  - vm_compute. discriminate.
  - apply map_Forall_singleton. vm_compute. reflexivity.
  - constructor.
  - vm_compute. discriminate.
  - vm_compute. reflexivity.
  - exists p. split; [exact Hp|]. rewrite Hid. vm_compute. reflexivity.
Defined.
