(* ===== verification/Termination.v ===== *)
(** * The cluster always answers

    The only loop of connections, pools, nodes and cluster whose bound is not in
    its shape is the search of a queue for a connection that is not idle; it ends
    with the queue.  So a query of a node and a turn of the tending thread always
    end ([tend_terminates]), if opening a connection does. *)

From stdpp Require Import base list strings gmap.
From Stdlib Require Import ZArith Lia.
From S2P Require Import Prelude ResultCodes Monad Invariants ByteOrder Slices Text Buffer.
From S2P Require Import Policy Connection Hosts Admin Info ClientPolicy ConnectionPool PoolFacts.
From S2P Require Import Nodes Cluster.

(** ** Computations of the cluster *)

Section Calm.
Context {Net : Type}.

(** [m] ends, and does not read the clock of the tending thread. *)
Definition calm {A} (m : M (Cluster.World Net) A) : Prop :=
  terminates m /\ stays (agree Cluster.ticks) m.

Lemma calm_ret {A} (a : A) : calm (ret a).
Proof. split; [apply terminates_ret|apply stays_ret, _]. Qed.

Lemma calm_throw {A} e : calm (throw (A := A) e).
Proof. split; [apply terminates_throw|apply stays_throw, _]. Qed.

Lemma calm_panic {A} : calm (panic (A := A)).
Proof. split; [apply terminates_panic|apply stays_panic]. Qed.

Lemma calm_unwrap {A} (o : option A) : calm (unwrap o).
Proof. split; [apply terminates_unwrap|apply stays_unwrap, _]. Qed.

Lemma calm_bind {A B} (m : M (Cluster.World Net) A) (k : A -> M (Cluster.World Net) B) :
  calm m -> (forall a, calm (k a)) -> calm (bind m k).
Proof.
  intros [H1 H2] Hk. split; [apply terminates_bind|apply stays_bind]; try assumption;
    try exact _; intros a; apply Hk.
Qed.

Lemma calm_catch {A} (m : M (Cluster.World Net) A) : calm m -> calm (catch m).
Proof. intros [H1 H2]. split; [apply terminates_catch|apply stays_catch]; assumption. Qed.

Lemma calm_discard {A} (m : M (Cluster.World Net) A) : calm m -> calm (discard m).
Proof. intros [H1 H2]. split; [apply terminates_discard|apply stays_discard]; assumption. Qed.

Lemma calm_when b m : calm m -> calm (when b m).
Proof. destruct b; [auto|intros _; apply calm_ret]. Qed.

Lemma calm_for_each {A} (l : list A) f : (forall x, calm (f x)) -> calm (for_each l f).
Proof.
  intros Hf. induction l as [|x l IH]; [apply calm_ret|].
  apply calm_bind; [apply Hf|intros _; exact IH].
Qed.

Lemma calm_cluster_modify f : calm (Cluster.modify f).
Proof. split; intros w; [discriminate|reflexivity]. Qed.

Lemma calm_asks {A} (f : Cluster.Cluster -> A) : calm (Cluster.asks f).
Proof. split; intros w; [discriminate|reflexivity]. Qed.

Lemma calm_on_node {A} id (m : M (Node * Node.Shared Net) A) :
  terminates m -> calm (Cluster.on_node id m).
Proof.
  intros Hm. split; intros w; unfold Cluster.on_node;
    (destruct (Cluster.heap w !! id) as [n|]; [|discriminate || exact I]).
  - specialize (Hm (n, Cluster.shared w)). destruct (m _) as [a [n' sh]|e [n' sh]| |]; congruence.
  - destruct (m _) as [a [n' sh]|e [n' sh]| |]; reflexivity || exact I.
Qed.

End Calm.

Create HintDb calm.
#[export] Hint Resolve calm_ret calm_throw calm_panic calm_unwrap calm_bind calm_catch calm_discard calm_when
  calm_for_each calm_cluster_modify calm_asks calm_on_node : calm.

Ltac calm :=
  repeat first
    [ progress intros
    | solve [auto with calm terminates]
    | apply calm_bind | apply calm_catch | apply calm_discard | apply calm_when
    | apply calm_for_each | apply calm_on_node
    | case_match ].

Section Termination.
Context `{BO : ByteOrder} `{CL : Clock} `{B64 : Base64} `{DI : Dialer Net}
  `{RE : !Resolver Net}.

(** What the network owes. *)
Context (dial_terminates : forall host, terminates (connect (Net := Net) host)).
Context (resolve_terminates : forall host, terminates (resolve (Net := Net) host)).

(** ** Connections *)

Lemma terminates_lift {A} (m : M Buffer A) : terminates m -> terminates (Connection.lift m).
Proof.
  intros Hm c. specialize (Hm (Connection.buffer c)). unfold Connection.lift.
  destruct (m (Connection.buffer c)); congruence.
Qed.

Lemma terminates_modify f : terminates (Connection.modify f).
Proof. intros c. discriminate. Qed.

Lemma terminates_now : terminates Connection.now.
Proof. intros c. discriminate. Qed.

Hint Resolve terminates_lift terminates_modify terminates_now : terminates.

Lemma terminates_refresh : terminates Connection.refresh.
Proof. unfold Connection.refresh. terminates. Qed.

Lemma terminates_send bs : terminates (Connection.send bs).
Proof. intros c. unfold Connection.send. destruct (Connection.write_all _ _) as [[] ?]; discriminate. Qed.

Hint Resolve terminates_refresh terminates_send : terminates.

Lemma terminates_flush : terminates Connection.flush.
Proof. unfold Connection.flush. terminates. Qed.

Lemma terminates_receive n : terminates (Connection.receive n).
Proof.
  intros c. unfold Connection.receive.
  destruct (Connection.read_exact _ _) as [[[] ?] ?]; discriminate.
Qed.

Hint Resolve terminates_flush terminates_receive : terminates.

Lemma terminates_write bs : terminates (Connection.write bs).
Proof. unfold Connection.write. terminates. Qed.

Hint Resolve terminates_write : terminates.

Lemma terminates_parse_response {S} m : terminates (Message.parse_response (S := S) m).
Proof.
  unfold Message.parse_response. destruct (utf8_valid _); [|auto with terminates].
  generalize (split (Z.eqb 10) (trim_matches 10 (Message.buf m))) as l.
  assert (forall l acc, terminates acc -> terminates (fold_left
    (fun (acc : M S (gmap bytes bytes)) tuple =>
       let! result := acc in
       match Message.parse_tuple tuple with
       | Some (key, val) => ret (<[key := val]> result)
       | None => throw (Msg "Parsing Info command failed")
       end) l acc)) as H; [|intros l; apply H; auto with terminates].
  induction l as [|x l IH]; intros acc Ha; [exact Ha|]. apply IH. terminates.
Qed.

Hint Resolve terminates_parse_response : terminates.

Lemma terminates_info commands : terminates (Message.info commands).
Proof.
  unfold Message.info, Message.send, Message.data_len. terminates.
Qed.

Hint Resolve terminates_info : terminates.

(** *** Logging in *)

(** A primitive of the buffer. *)
Ltac primitive := let s := fresh "s" in intros s; repeat case_match; discriminate.

Lemma terminates_resize_buffer n : terminates (resize_buffer n).
Proof. unfold resize_buffer. primitive. Qed.

Lemma terminates_size_buffer : terminates size_buffer.
Proof. intros b. apply terminates_resize_buffer. Qed.

Lemma terminates_reset_offset : terminates reset_offset.
Proof. unfold reset_offset. primitive. Qed.

Lemma terminates_write_u8 v : terminates (write_u8 v).
Proof. unfold write_u8. primitive. Qed.

Lemma terminates_write_slice n v : terminates (write_slice n v).
Proof. unfold write_slice. primitive. Qed.

Lemma terminates_read_at n pos : terminates (read_at n pos).
Proof. unfold read_at. primitive. Qed.

Lemma terminates_add_offset n : terminates (add_offset n).
Proof. unfold add_offset. primitive. Qed.

Hint Resolve terminates_resize_buffer terminates_size_buffer terminates_reset_offset
  terminates_write_u8 terminates_write_slice terminates_read_at terminates_add_offset : terminates.

Lemma terminates_read_u8 pos : terminates (read_u8 pos).
Proof.
  intros b. unfold read_u8. destruct pos as [p|]; [apply terminates_unwrap|].
  apply (terminates_bind (unwrap (index (data_buffer b) (data_offset b)))); terminates.
Qed.

Lemma terminates_login user password : terminates (AdminCommand.login user password).
Proof.
  unfold AdminCommand.login, AdminCommand.room_for_message, AdminCommand.write_header,
    AdminCommand.start, AdminCommand.write_field_str, AdminCommand.write_field_bytes,
    AdminCommand.write_field_header, AdminCommand.seal, AdminCommand.write_size,
    write_str, write_bytes, write_u32, write_i64, write_u64.
  terminates; primitive.
Qed.

Hint Resolve terminates_read_u8 terminates_login : terminates.

Lemma terminates_fill_buffer : terminates Connection.fill_buffer.
Proof. unfold Connection.fill_buffer. primitive. Qed.

Hint Resolve terminates_fill_buffer : terminates.

Lemma terminates_authenticate user_password : terminates (authenticate user_password).
Proof.
  unfold authenticate. destruct user_password as [[user password]|]; [|auto with terminates].
  apply terminates_bind; [apply terminates_catch|unfold Connection.close; terminates].
  unfold AdminCommand.authenticate, Connection.read_buffer, read_u64. terminates.
Qed.

Hint Resolve terminates_authenticate : terminates.

(** ** Pools *)

Lemma terminates_with_local (m : M Connection unit) c :
  terminates m -> terminates (with_local (Net := Net) m c).
Proof. intros Hm net. specialize (Hm c). unfold with_local. destruct (m c); congruence. Qed.

Lemma terminates_connection_new addr policy : terminates (Connection_new (Net := Net) addr policy).
Proof.
  unfold Connection_new. apply terminates_bind; [apply dial_terminates|]. intros [stream tick].
  apply terminates_with_local. terminates.
Qed.

(** Every turn of the loop but the last takes a connection from the queue. *)
Lemma get_loop_ends fuel : forall q net,
  (length (Queue.connections q) < fuel)%nat -> Queue.get_loop (Net := Net) fuel (q, net) <> NoFuel.
Proof.
  induction fuel as [|fuel IH]; intros q net Hf; [lia|]. cbn [Queue.get_loop].
  unfold bind at 1, on_fst at 1, Queue.pop_front, bind at 1, get. cbn [fst snd].
  destruct (Queue.connections q) as [|conn conns] eqn:Hq; cbn [bind put ret].
  - apply terminates_bind; [apply terminates_on_fst, terminates_get|]. intros q'.
    destruct (_ <=? _); [apply terminates_throw|].
    apply terminates_bind; [apply terminates_on_snd, terminates_connection_new|].
    intros c. unfold Queue.incr_conns. terminates.
  - destruct (is_idle_total conn) as (idle & conn' & ->). destruct idle; [|discriminate].
    unfold bind at 1, on_fst at 1, Queue.decr_conns, bind at 1, get, usize_sub. cbn [fst snd].
    destruct (1 <=? _); [|discriminate]. cbn. apply IH. cbn in *. lia.
Qed.

Lemma terminates_queue_get timeout : terminates (Queue.get (Net := Net) timeout).
Proof.
  intros [q net]. unfold Queue.get. unfold bind at 1, on_fst, get. cbn [fst snd].
  unfold bind at 1. pose proof (get_loop_ends (S (length (Queue.connections q))) q net ltac:(lia)) as H.
  destruct (Queue.get_loop _ _) as [c s|e s| |]; try discriminate; [|congruence].
  destruct (Connection.set_timeout timeout c); [discriminate|].
  unfold Queue.decr_conns. clear H. revert s. change (terminates (on_fst (let! q := get in
    let! n := usize_sub (Queue.num_conns q) 1 in put (Queue.set_num_conns n q)) ;;;
    throw (A := Connection) Io : M (Queue.Queue * Net) Connection)). terminates.
Qed.

Lemma terminates_on_queue {A} i (m : M (Queue.Queue * Net) A) :
  terminates m -> terminates (ConnectionPool.on_queue i m).
Proof.
  intros Hm p. unfold ConnectionPool.on_queue. destruct (ConnectionPool.store p !! i) as [q|];
    [|discriminate]. specialize (Hm (q, ConnectionPool.net p)).
  destruct (m (q, ConnectionPool.net p)) as [a [q' n]|e [q' n]| |]; congruence.
Qed.

Hint Resolve terminates_on_queue terminates_queue_get : terminates.

Lemma terminates_pool_get timeout : terminates (ConnectionPool.get (Net := Net) timeout).
Proof.
  assert (forall attempts, terminates (ConnectionPool.get_loop (Net := Net) attempts timeout)) as Hl.
  { induction attempts as [|attempts IH]; cbn [ConnectionPool.get_loop].
    all: apply terminates_bind; [intros p; discriminate|intros i].
    all: apply terminates_bind; [apply terminates_get|intros p].
    all: apply terminates_bind;
      [unfold ConnectionPool.queue_at; auto with terminates|intros q].
    all: apply terminates_bind;
      [unfold ConnectionPool.queue_get; auto 6 with terminates|intros c].
    all: destruct c as [c|[]]; auto with terminates. destruct attempts; auto with terminates. }
  unfold ConnectionPool.get, ConnectionPool.queue_at, ConnectionPool.queue_get. terminates.
Qed.

Lemma terminates_queue_ops conn :
  terminates (Queue.put_back conn) /\ terminates (Queue.drop_conn conn) /\ terminates Queue.clear.
Proof.
  unfold Queue.put_back, Queue.drop_conn, Queue.decr_conns, Queue.clear.
  split; [terminates|split; terminates].
Qed.

Lemma terminates_pool_drop c : terminates (ConnectionPool.drop (Net := Net) c).
Proof.
  unfold ConnectionPool.drop. destruct (ConnectionPool.conn c) as [conn|]; [|apply terminates_ret].
  apply terminates_on_queue, terminates_on_fst, terminates_queue_ops.
Qed.

Lemma terminates_pool_invalidate c : terminates (ConnectionPool.invalidate (Net := Net) c).
Proof.
  apply terminates_bind; [apply terminates_unwrap|intros conn].
  apply terminates_on_queue, terminates_on_fst, terminates_queue_ops.
Qed.

Lemma terminates_pool_close : terminates (ConnectionPool.close (Net := Net)).
Proof.
  apply terminates_bind; [apply terminates_get|intros p].
  apply terminates_bind; [|intros _ q; discriminate]. apply terminates_for_each. intros i.
  apply terminates_on_queue, terminates_on_fst.
  apply (terminates_queue_ops (Connection.mkConnection None None (Connection.mkTcpStream [] [] 0 false None)
    0 (Buffer_new 0) 0)).
Qed.

Hint Resolve terminates_pool_get terminates_pool_drop terminates_pool_invalidate
  terminates_pool_close : terminates.

(** ** Nodes *)

Lemma terminates_on_node_state (f : Node -> Node) : terminates (Node.modify (Net := Net) f).
Proof. apply terminates_on_fst. intros n. discriminate. Qed.

Lemma terminates_with_pool {A} (m : M (ConnectionPool.Pooled Net) A) :
  terminates m -> terminates (Node.with_pool m).
Proof.
  intros Hm [n [queues net]]. unfold Node.with_pool. specialize (Hm (ConnectionPool.mkPooled
    (Node.connection_pool n) queues net)). destruct (m _); congruence.
Qed.

Lemma terminates_chain_err {S A} e (m : M S A) : terminates m -> terminates (chain_err e m).
Proof. intros Hm s. specialize (Hm s). unfold chain_err. destruct (m s); congruence. Qed.

Hint Resolve terminates_on_node_state terminates_with_pool terminates_chain_err : terminates.

Lemma terminates_on_pooled {A} (m : M Connection A) pc :
  terminates m -> terminates (Node.on_pooled (Net := Net) m pc).
Proof.
  intros Hm s. unfold Node.on_pooled. destruct (ConnectionPool.conn pc) as [conn|]; [|discriminate].
  specialize (Hm conn). destruct (m conn) as [a c|e c| |]; try (discriminate || congruence).
  - revert s. fold (terminates (Node.with_pool (ConnectionPool.drop (ConnectionPool.mkPooledConnection
      (ConnectionPool.queue pc) (Some c))) ;;; ret a : M (Node * Node.Shared Net) A)). terminates.
  - revert s. fold (terminates (Node.with_pool (ConnectionPool.invalidate (ConnectionPool.mkPooledConnection
      (ConnectionPool.queue pc) (Some c))) ;;; throw e : M (Node * Node.Shared Net) A)). terminates.
Qed.

Lemma terminates_get_connection timeout : terminates (Node.get_connection (Net := Net) timeout).
Proof. apply terminates_with_pool, terminates_pool_get. Qed.

Hint Resolve terminates_on_pooled terminates_get_connection : terminates.

Lemma terminates_node_info timeout commands : terminates (Node.info (Net := Net) timeout commands).
Proof. unfold Node.info. terminates. Qed.

Hint Resolve terminates_node_info : terminates.

Lemma terminates_add_friends current names : terminates (Node.add_friends (Net := Net) current names).
Proof.
  assert (forall l friends, terminates (Node.add_friends_loop (Net := Net) current l friends)) as Hl.
  { induction l as [|friend l IH]; intros friends; cbn [Node.add_friends_loop]; terminates. }
  unfold Node.add_friends. terminates.
Qed.

Lemma terminates_node_refresh current : terminates (Node.refresh (Net := Net) current).
Proof.
  pose proof terminates_add_friends.
  unfold Node.refresh, Node.validate_node, Node.verify_node_name, Node.verify_cluster_name,
    Node.inactivate, Node.update_partitions, Node.reset_failures. terminates.
  all: apply terminates_chain_err; terminates.
Qed.

(** *** Validation *)

Lemma terminates_info_on conn timeout commands :
  terminates (NodeValidator.info_on (Net := Net) conn timeout commands).
Proof.
  unfold NodeValidator.info_on. destruct (Connection.set_timeout timeout conn) as [c|];
    [|apply terminates_throw]. intros net. pose proof (terminates_info commands c).
  destruct (Message.info commands c); congruence.
Qed.

Lemma terminates_modify_validator f : terminates (NodeValidator.modify (Net := Net) f).
Proof. apply terminates_on_fst. intros v. discriminate. Qed.

Hint Resolve terminates_info_on terminates_modify_validator terminates_connection_new : terminates.

Lemma terminates_validate_node cluster_name host :
  terminates (NodeValidator.validate_node (Net := Net) cluster_name host).
Proof.
  assert (forall alias, terminates (NodeValidator.validate_alias (Net := Net) cluster_name alias)) as Ha
    by (intros alias; unfold NodeValidator.validate_alias; terminates).
  assert (forall l e, terminates (NodeValidator.validate_aliases (Net := Net) cluster_name l e)) as Hl.
  { induction l as [|alias l IH]; intros e; cbn [NodeValidator.validate_aliases]; terminates. }
  unfold NodeValidator.validate_node, NodeValidator.resolve_aliases.
  apply terminates_bind; [apply terminates_chain_err|]; terminates.
Qed.

(** ** The cluster *)

Lemma calm_node_field {A} id (f : Node -> A) : calm (Cluster.node_field (Net := Net) id f).
Proof. apply calm_on_node. terminates. Qed.

Hint Resolve calm_node_field : calm.

Lemma calm_find_m p l :
  (forall id, calm (p id)) -> calm (Cluster.find_m (Net := Net) p l).
Proof. intros Hp. induction l as [|id l IH]; cbn [Cluster.find_m]; calm. Qed.

Lemma calm_any_m p l :
  (forall id, calm (p id)) -> calm (Cluster.any_m (Net := Net) p l).
Proof. intros Hp. pose proof (calm_find_m p l Hp). unfold Cluster.any_m. calm. Qed.

Lemma calm_filter_m p l :
  (forall id, calm (p id)) -> calm (Cluster.filter_m (Net := Net) p l).
Proof. intros Hp. induction l as [|id l IH]; cbn [Cluster.filter_m]; calm. Qed.

Lemma calm_has_name n id : calm (Cluster.has_name (Net := Net) n id).
Proof. unfold Cluster.has_name. calm. Qed.

Lemma calm_same_node a b : calm (Cluster.same_node (Net := Net) a b).
Proof. unfold Cluster.same_node. calm. Qed.

Hint Resolve calm_find_m calm_any_m calm_filter_m calm_has_name
  calm_same_node : calm.

Lemma calm_get_node_by_name n : calm (Cluster.get_node_by_name (Net := Net) n).
Proof. unfold Cluster.get_node_by_name. calm. Qed.

Lemma calm_add_aliases id : calm (Cluster.add_aliases (Net := Net) id).
Proof. unfold Cluster.add_aliases. calm. Qed.

Lemma calm_add_alias h id : calm (Cluster.add_alias (Net := Net) h id).
Proof. unfold Cluster.add_alias, Node.add_alias. calm. Qed.

Lemma calm_validating v h : calm (Cluster.validating v h).
Proof.
  split; intros w; unfold Cluster.validating; destruct (Cluster.shared w) as [queues net];
    pose proof (terminates_validate_node (cluster_name (Cluster.client_policy (Cluster.cluster w)))
      h (v, net)) as H;
    destruct (NodeValidator.validate_node _ _ _) as [? [? ?]|? [? ?]| |];
    congruence || reflexivity || exact I.
Qed.

Lemma calm_create_node nv : calm (Cluster.create_node (Net := Net) nv).
Proof.
  split; intros w; unfold Cluster.create_node; destruct (Cluster.shared w) as [queues net];
    destruct (Node.new _ _ _) as [[? ?]|]; discriminate || reflexivity || exact I.
Qed.

Hint Resolve calm_get_node_by_name calm_add_aliases calm_add_alias
  calm_validating calm_create_node : calm.

Lemma calm_add_nodes_and_aliases l : calm (Cluster.add_nodes_and_aliases (Net := Net) l).
Proof. unfold Cluster.add_nodes_and_aliases, Cluster.add_nodes. calm. Qed.

Hint Resolve calm_add_nodes_and_aliases : calm.

Lemma calm_seed_nodes : calm (Cluster.seed_nodes (Net := Net)).
Proof.
  assert (forall seed v l list, calm (Cluster.seed_aliases (Net := Net) seed v l list)) as Ha.
  { induction l as [|alias l IH]; intros list; cbn [Cluster.seed_aliases];
      unfold Cluster.validator, Cluster.find_node_name; calm. }
  assert (forall l list, calm (Cluster.seed_loop (Net := Net) l list)) as Hl.
  { induction l as [|seed l IH]; intros list; cbn [Cluster.seed_loop];
      unfold Cluster.validator; calm. }
  unfold Cluster.seed_nodes. calm.
Qed.

Lemma calm_find_new_nodes l : calm (Cluster.find_new_nodes_to_add (Net := Net) l).
Proof.
  assert (forall l list, calm (Cluster.find_new_nodes_loop (Net := Net) l list)) as Hl.
  { induction l0 as [|host l0 IH]; intros list; cbn [Cluster.find_new_nodes_loop];
      unfold Cluster.validator; calm. }
  apply Hl.
Qed.

Lemma calm_update_partition t m node :
  calm (PartitionTokenizer.update_partition (S := Cluster.World Net) t m node).
Proof.
  assert (forall buf l idx, calm (PartitionTokenizer.mark (S := Cluster.World Net) buf node idx l)) as Hm.
  { intros buf. induction l as [|x l IH]; intros idx; cbn [PartitionTokenizer.mark]; calm. }
  assert (forall n parts amap, (length parts < n)%nat ->
    calm (PartitionTokenizer.update_loop (S := Cluster.World Net) node parts amap)) as Hl.
  { induction n as [|n IH]; intros parts amap Hn; [lia|].
    destruct parts as [|ns [|part parts]]; cbn [PartitionTokenizer.update_loop];
      [apply calm_ret|apply calm_throw|].
    cbn [length] in Hn. pose proof (fun a => IH parts a ltac:(lia)). calm. }
  unfold PartitionTokenizer.update_partition.
  destruct (utf8_valid _); [apply (Hl _ _ _ (Nat.lt_succ_diag_r _))|apply calm_throw].
Qed.

Lemma terminates_partition_tokens conn :
  terminates (Node.on_pooled (Net := Net) PartitionTokenizer.new conn).
Proof. apply terminates_on_pooled. unfold PartitionTokenizer.new. terminates. Qed.

Hint Resolve terminates_partition_tokens : terminates.
Hint Resolve calm_seed_nodes calm_find_new_nodes calm_update_partition : calm.

Lemma calm_refresh_loop l : forall friends n,
  calm (Cluster.refresh_loop (Net := Net) l friends n).
Proof.
  pose proof terminates_node_refresh as Hr.
  assert (forall node, calm (Cluster.refresh_node (Net := Net) node)) as Hn.
  { intros node. unfold Cluster.refresh_node, Cluster.update_partitions, Node.increase_failures.
    calm. }
  induction l as [|node l IH]; intros friends n; cbn [Cluster.refresh_loop]; calm.
Qed.

Lemma calm_remove l : calm (Cluster.remove_nodes_and_aliases (Net := Net) l).
Proof.
  unfold Cluster.remove_nodes_and_aliases, Cluster.remove_nodes, Cluster.remove_alias, Node.close,
    Node.inactivate. calm.
Qed.

Lemma calm_find_nodes_to_remove n : calm (Cluster.find_nodes_to_remove (Net := Net) n).
Proof.
  unfold Cluster.find_nodes_to_remove. apply calm_bind; [apply calm_asks|intros l].
  apply calm_filter_m. intros id. unfold Cluster.must_remove, Cluster.find_node_in_partition_map.
  calm.
Qed.

Hint Resolve calm_refresh_loop calm_remove calm_find_nodes_to_remove : calm.

Lemma calm_tend : calm (Cluster.tend (Net := Net)).
Proof. unfold Cluster.tend. calm. Qed.


(** ** Waiting for a stable cluster *)

Lemma stabilize_ends fuel deadline : forall count w,
  (exists k, (k < fuel)%nat /\ deadline < instant (Cluster.ticks w + k)) ->
  Cluster.stabilize_loop (Net := Net) fuel deadline count w <> NoFuel.
Proof.
  induction fuel as [|fuel IH]; intros count w (k & Hk & Hd); [lia|].
  cbn [Cluster.stabilize_loop]. unfold bind at 1, Cluster.world_now.
  destruct (Z.ltb_spec deadline (instant (Cluster.ticks w))) as [|Hnow]; [discriminate|].
  destruct k as [|k]; [rewrite Nat.add_0_r in Hd; lia|].
  set (w1 := Cluster.mkWorld _ _ _ _).
  destruct (calm_discard Cluster.tend calm_tend) as [H1 H2].
  unfold bind at 1. specialize (H1 w1). specialize (H2 w1).
  destruct (discard Cluster.tend w1) as [[] w2|e w2| |]; try congruence; try discriminate.
  unfold bind, Cluster.asks. destruct (_ =? count); [discriminate|].
  apply IH. exists k. split; [lia|]. unfold agree in H2. rewrite H2. cbn.
  replace (Cluster.ticks w + S k)%nat with (S (Cluster.ticks w) + k)%nat in Hd by lia. exact Hd.
Qed.

Lemma joined_ends {A} (m : M (Cluster.World Net) A) w : m w <> NoFuel -> Cluster.join m w <> NoFuel.
Proof. unfold Cluster.join. destruct (m w); congruence. Qed.

(** C21: a turn of the tending thread ends whatever the nodes answer, if opening a
    connection and resolving a name do; and the wait of [Cluster::new] for a
    stable cluster ends with the reading of the clock that passes its timeout. *)
Theorem tending_ends (w : Cluster.World Net) k fuel :
  let timeout := default (mkDuration 3 0) (cp_timeout (Cluster.client_policy (Cluster.cluster w))) in
  let reading n := instant (Cluster.ticks w + n) in
  reading 0%nat + nanos timeout < reading (S k) ->
  (k < fuel)%nat ->
  Cluster.tend w <> NoFuel /\ Cluster.wait_till_stabilized fuel w <> NoFuel.
Proof.
  intros timeout reading Hk Hf. split; [apply calm_tend|].
  unfold Cluster.wait_till_stabilized, bind, Cluster.asks, Cluster.world_now.
  apply joined_ends, stabilize_ends. exists k. split; [exact Hf|]. cbn [Cluster.ticks].
  fold timeout. unfold reading in Hk. rewrite Nat.add_0_r, <- Nat.add_succ_comm in Hk. exact Hk.
Qed.

End Termination.

(** *** A cluster that cannot be reached *)

(** Every name is an address. *)
Definition plain_resolver : Resolver unit := {| resolve host := ret [host] |}.

Definition no_base64 : Base64 := {| base64_decode _ := None |}.

(** A clock that advances ten seconds between two readings. *)
Definition slow_clock : Clock := {| instant n := Z.of_nat n * 10000000000 |}.

Lemma tending_ends_witness :
  let w := Cluster.mkWorld (Cluster.initial ClientPolicy_default [mkHost (str "db") 3000]) []
    ([], tt) 0 in
  Cluster.wait_till_stabilized (BO := byteorder_model) (CL := slow_clock) (B64 := no_base64)
    (DI := silent_dialer) (RE := plain_resolver) 4 w <> NoFuel.
Proof.
  intros w.
  apply (tending_ends (BO := byteorder_model) (CL := slow_clock) (B64 := no_base64)
    (DI := silent_dialer) (RE := plain_resolver) ltac:(discriminate) ltac:(discriminate) w 3 4);
    [vm_compute; reflexivity|lia].
Defined.
