(* ===== verification/ClusterFacts.v ===== *)
(** * The cluster stays well formed

    Whatever the nodes answer, tending leaves a cluster whose references are to
    nodes that exist, whose partition map is complete, and whose nodes have
    distinct names ([tend_well_formed]). *)

From stdpp Require Import base list strings gmap.
From Stdlib Require Import ZArith Lia.
From S2P Require Import Prelude ResultCodes Monad Invariants ByteOrder Slices Text Buffer.
From S2P Require Import Policy Connection Hosts Info ClientPolicy ConnectionPool Nodes Cluster.
From S2P Require Import PoolFacts PartitionFacts Termination.

Section ClusterFacts.
Context `{BO : ByteOrder} `{CL : Clock} `{B64 : Base64} `{DI : Dialer Net}
  `{RE : !Resolver Net}.
Implicit Types w : Cluster.World Net.

(** ** Methods of a node keep its name *)

Abbreviation keeps_name := (stays (agree (fun s : Node * Node.Shared Net => Node.name s.1))).

Lemma keeps_modify f : (forall n, Node.name (f n) = Node.name n) -> keeps_name (Node.modify f).
Proof. intros Hf [n sh]. apply Hf. Qed.

Lemma keeps_get : keeps_name (on_fst get).
Proof. intros [n sh]. reflexivity. Qed.

Lemma keeps_with_pool {A} (m : M (ConnectionPool.Pooled Net) A) : keeps_name (Node.with_pool m).
Proof.
  intros [n [queues net]]. unfold Node.with_pool. destruct (m _); reflexivity || exact I.
Qed.

Lemma keeps_chain_err {A} e (m : M (Node * Node.Shared Net) A) :
  keeps_name m -> keeps_name (chain_err e m).
Proof. intros Hm s. specialize (Hm s). unfold chain_err. destruct (m s); exact Hm. Qed.

Lemma keeps_on_pooled {A} (m : M Connection A) pc : keeps_name (Node.on_pooled m pc).
Proof.
  unfold Node.on_pooled. destruct (ConnectionPool.conn pc) as [conn|]; [|apply stays_panic].
  destruct (m conn); [| |apply stays_panic|apply stays_no_fuel];
    (apply stays_bind; [apply _|apply keeps_with_pool|intros _]);
    [apply stays_ret, _|apply stays_throw, _].
Qed.

Create HintDb keeps.
Hint Resolve keeps_get keeps_with_pool keeps_on_pooled : keeps.

(** Straight-line code of a node. *)
Ltac keeps :=
  repeat first
    [ progress intros
    | apply keeps_modify; reflexivity
    | apply stays_ret, _ | apply stays_throw, _ | apply stays_panic
    | solve [auto with keeps]
    | apply keeps_chain_err | (apply stays_bind; [apply _| |])
    | case_match ].

Lemma keeps_info timeout commands : keeps_name (Node.info timeout commands).
Proof. unfold Node.info, Node.get_connection. keeps. Qed.

Hint Resolve keeps_info : keeps.

Lemma keeps_refresh current : keeps_name (Node.refresh current).
Proof.
  assert (forall l friends, keeps_name (Node.add_friends_loop current l friends)) as Hl.
  { induction l as [|friend l IH]; intros friends; cbn [Node.add_friends_loop]; keeps; apply IH. }
  unfold Node.refresh, Node.validate_node, Node.verify_node_name, Node.verify_cluster_name,
    Node.inactivate, Node.add_friends, Node.update_partitions, Node.reset_failures. keeps.
Qed.

Lemma keeps_close : keeps_name Node.close.
Proof. unfold Node.close, Node.inactivate. keeps. Qed.

Lemma keeps_add_alias h : keeps_name (Node.add_alias h).
Proof. unfold Node.add_alias. keeps. Qed.

Lemma keeps_increase_failures : keeps_name Node.increase_failures.
Proof. unfold Node.increase_failures. keeps. Qed.

Hint Resolve keeps_refresh keeps_close keeps_add_alias keeps_increase_failures : keeps.

(** ** What tending never breaks *)

(** The store of nodes only grows, and its nodes keep their names. *)
Definition extends w w' : Prop :=
  forall id name, node_name w id = Some name -> node_name w' id = Some name.

Definition known w (l : list NodeId) : Prop := Forall (fun id => is_Some (node_name w id)) l.

Definition distinct w (l : list NodeId) : Prop := NoDup (node_name w <$> l).

(** Every reference is to a node of the store. *)
Record linked w : Prop := {
  linked_nodes : known w (Cluster.nodes (Cluster.cluster w));
  linked_aliases : map_Forall (fun _ id => is_Some (node_name w id))
                     (Cluster.aliases (Cluster.cluster w));
  linked_partitions : map_Forall (fun _ l => len l = PARTITIONS /\ known w l)
                        (Cluster.partition_write_map (Cluster.cluster w))
}.

Definition well_formed w : Prop :=
  linked w /\ distinct w (Cluster.nodes (Cluster.cluster w)).

(** What holds of all code but the one that changes the list of nodes. *)
Definition steady w w' : Prop :=
  (linked w -> linked w') /\ extends w w' /\
  Cluster.nodes (Cluster.cluster w') = Cluster.nodes (Cluster.cluster w).

#[export] Instance extends_preorder : PreOrder extends.
Proof. split; unfold extends; [intros w; auto|intros w1 w2 w3; auto]. Qed.

#[export] Instance steady_preorder : PreOrder steady.
Proof.
  split; unfold steady; [intros w; split; [auto|split; reflexivity]|].
  intros w1 w2 w3 (H1 & E1 & N1) (H2 & E2 & N2).
  split; [auto|]. split; [etransitivity; eassumption|congruence].
Qed.

Lemma known_extends w w' l : extends w w' -> known w l -> known w' l.
Proof. intros He Hl. eapply Forall_impl; [exact Hl|]. intros id [n Hn]. exists n. apply He, Hn. Qed.

Lemma names_extend w w' l :
  extends w w' -> known w l -> node_name w' <$> l = node_name w <$> l.
Proof.
  intros He Hl. induction Hl as [|id l [n Hn] _ IH]; [reflexivity|].
  cbn. rewrite IH, Hn, (He _ _ Hn). reflexivity.
Qed.

Lemma distinct_extends w w' l : extends w w' -> known w l -> distinct w l -> distinct w' l.
Proof. intros He Hl. unfold distinct. rewrite (names_extend _ _ _ He Hl). auto. Qed.

Lemma steady_well_formed w w' : steady w w' -> well_formed w -> well_formed w'.
Proof.
  intros (Hl & He & Hn) [Hk Hd]. split; [apply Hl, Hk|]. rewrite Hn.
  eapply distinct_extends; [exact He|apply Hk|exact Hd].
Qed.

(** A change of the cluster that keeps its nodes. *)
Lemma linked_same_heap w w' :
  Cluster.heap w' = Cluster.heap w -> Cluster.cluster w' = Cluster.cluster w -> steady w w'.
Proof.
  intros Hh Hc. assert (forall id, node_name w' id = node_name w id) as Hn
    by (intros id; unfold node_name; rewrite Hh; reflexivity).
  assert (extends w w') as He by (intros id n H; rewrite Hn; exact H).
  split; [|split; [exact He|rewrite Hc; reflexivity]].
  intros [H1 H2 H3]. split; rewrite Hc.
  - eapply known_extends; eassumption.
  - intros k id Hid. rewrite Hn. eapply H2, Hid.
  - intros k l Hl. destruct (H3 k l Hl) as [? ?]. split; [assumption|eapply known_extends; eassumption].
Qed.

(** ** Code that does not change the list of nodes *)

Lemma steady_heap w w' :
  extends w w' -> Cluster.cluster w' = Cluster.cluster w -> steady w w'.
Proof.
  intros He Hc. split; [|split; [exact He|rewrite Hc; reflexivity]].
  intros [H1 H2 H3]. split; rewrite Hc.
  - eapply known_extends; eassumption.
  - intros k id Hid. destruct (H2 k id Hid) as [n Hn]. exists n. apply He, Hn.
  - intros k l Hl. destruct (H3 k l Hl) as [? ?]. split; [assumption|eapply known_extends; eassumption].
Qed.

Lemma extends_set_node w id n n' sh ticks :
  Cluster.heap w !! id = Some n -> Node.name n' = Node.name n ->
  extends w (Cluster.mkWorld (Cluster.cluster w) (<[id := n']> (Cluster.heap w)) sh ticks).
Proof.
  intros Hn Hname i name. unfold node_name. cbn. destruct (decide (i = id)) as [->|Hi].
  - rewrite Hn. rewrite list_lookup_insert_eq by (eapply lookup_lt_Some, Hn). cbn. congruence.
  - rewrite list_lookup_insert_ne by congruence. auto.
Qed.

Lemma steady_on_node {A} id (m : M (Node * Node.Shared Net) A) :
  keeps_name m -> stays steady (Cluster.on_node id m).
Proof.
  intros Hm w. unfold Cluster.on_node. destruct (Cluster.heap w !! id) as [n|] eqn:Hn; [|exact I].
  specialize (Hm (n, Cluster.shared w)).
  destruct (m (n, Cluster.shared w)) as [a [n' sh]|e [n' sh]| |]; try exact I;
    (apply steady_heap; [|reflexivity]; eapply extends_set_node; [exact Hn|exact Hm]).
Qed.

Lemma steady_node_field {A} id (f : Node -> A) : stays steady (Cluster.node_field id f).
Proof. apply steady_on_node. keeps. Qed.

Lemma steady_asks {A} (f : Cluster.Cluster -> A) : stays steady (Cluster.asks f).
Proof. intros w. cbn. reflexivity. Qed.

Lemma steady_validating v host : stays steady (Cluster.validating v host).
Proof.
  intros w. unfold Cluster.validating. destruct (Cluster.shared w) as [queues net].
  destruct (NodeValidator.validate_node _ _ _) as [? [? ?]|? [? ?]| |]; try exact I;
    apply linked_same_heap; reflexivity.
Qed.

Lemma steady_create_node nv : stays steady (Cluster.create_node nv).
Proof.
  intros w. unfold Cluster.create_node. destruct (Cluster.shared w) as [queues net].
  destruct (Node.new _ _ _) as [[n queues']|]; [|exact I]. apply steady_heap; [|reflexivity].
  intros id name H. unfold node_name in *. cbn. apply fmap_Some in H as (x & Hx & ->).
  rewrite (lookup_app_l_Some _ _ _ _ Hx). reflexivity.
Qed.

Hint Resolve steady_node_field steady_asks steady_validating steady_create_node : keeps.

(** Straight-line code of the cluster. *)
Ltac steady :=
  repeat first
    [ progress intros
    | apply stays_ret, _ | apply stays_throw, _ | apply stays_panic | apply stays_unwrap, _
    | solve [auto with keeps]
    | apply stays_catch | apply stays_discard | (apply stays_when; [apply _|])
    | (apply stays_for_each; [apply _|])
    | (apply steady_on_node; keeps) | (apply stays_bind; [apply _| |])
    | case_match ].

Lemma steady_find_m p l : (forall id, stays steady (p id)) -> stays steady (Cluster.find_m p l).
Proof. intros Hp. induction l as [|id l IH]; cbn [Cluster.find_m]; steady. Qed.

Lemma steady_any_m p l : (forall id, stays steady (p id)) -> stays steady (Cluster.any_m p l).
Proof. intros Hp. pose proof (steady_find_m p l Hp). unfold Cluster.any_m. steady. Qed.

Lemma steady_filter_m p l :
  (forall id, stays steady (p id)) -> stays steady (Cluster.filter_m p l).
Proof. intros Hp. induction l as [|id l IH]; cbn [Cluster.filter_m]; steady. Qed.

Lemma steady_has_name n id : stays steady (Cluster.has_name n id).
Proof. unfold Cluster.has_name. steady. Qed.

Lemma steady_same_node a b : stays steady (Cluster.same_node a b).
Proof. unfold Cluster.same_node. steady. Qed.

Hint Resolve steady_find_m steady_any_m steady_filter_m steady_has_name steady_same_node : keeps.

(** *** Aliases *)

(** Steady, for a node that exists. *)
Definition steady_for (node : NodeId) w w' : Prop := is_Some (node_name w node) -> steady w w'.

#[export] Instance steady_for_preorder node : PreOrder (steady_for node).
Proof.
  split; unfold steady_for; [intros w _; reflexivity|].
  intros w1 w2 w3 H1 H2 [n Hn]. specialize (H1 (ex_intro _ n Hn)).
  etransitivity; [exact H1|apply H2]. exists n. apply H1, Hn.
Qed.

Lemma steady_set_alias host node :
  stays (steady_for node)
    (Cluster.modify (fun c => Cluster.set_aliases (<[host := node]> (Cluster.aliases c)) c)).
Proof.
  intros w Hnode. split; [|split; [intros i n Hi; exact Hi|reflexivity]]. intros [H1 H2 H3]. split; cbn; try assumption.
  apply map_Forall_insert_2; [exact Hnode|exact H2].
Qed.

(** A method of a node succeeds only if the node exists. *)
Lemma steady_after_node {A B} node (m : M (Node * Node.Shared Net) A)
    (k : A -> M (Cluster.World Net) B) :
  keeps_name m -> (forall a, stays (steady_for node) (k a)) ->
  stays steady (bind (Cluster.on_node node m) k).
Proof.
  intros Hm Hk w. pose proof (steady_on_node node m Hm w) as Hs. unfold bind.
  destruct (Cluster.on_node node m w) as [a w'|e w'| |] eqn:E; try exact I; [|exact Hs].
  specialize (Hk a w'). unfold steady_for in Hk.
  assert (is_Some (node_name w' node)) as Hn.
  { unfold Cluster.on_node in E. destruct (Cluster.heap w !! node) as [n|] eqn:Hn; [|discriminate].
    exists (Node.name n). apply Hs. unfold node_name. rewrite Hn. reflexivity. }
  destruct (k a w'); try exact I; (etransitivity; [exact Hs|apply Hk, Hn]).
Qed.

Lemma steady_add_aliases node : stays steady (Cluster.add_aliases node).
Proof.
  apply steady_after_node; [keeps|]. intros l.
  apply stays_for_each; [apply _|]. intros alias. apply steady_set_alias.
Qed.

Lemma steady_add_alias host node : stays steady (Cluster.add_alias host node).
Proof. apply steady_after_node; [keeps|]. intros _. apply steady_set_alias. Qed.

Lemma steady_remove_alias host : stays steady (Cluster.remove_alias host).
Proof.
  intros w. split; [|split; [intros i n Hi; exact Hi|reflexivity]]. intros [H1 H2 H3]. split; cbn; try assumption.
  apply map_Forall_delete, H2.
Qed.

Hint Resolve steady_add_aliases steady_add_alias steady_remove_alias : keeps.

(** *** The partition map *)

Definition good_map w (m : PartitionMap) : Prop :=
  map_Forall (fun _ l => len l = PARTITIONS /\ known w l) m.

(** Reading the answer changes nothing by itself. *)
Lemma mark_pure {S} buf node l : forall idx, stays (=@{S}) (PartitionTokenizer.mark buf node idx l).
Proof.
  induction l as [|x l IH]; intros idx; cbn [PartitionTokenizer.mark]; [apply stays_ret, _|].
  apply stays_bind; [apply _|apply stays_unwrap, _|]. intros b.
  apply stays_bind; [apply _|apply IH|]. intros r. apply stays_ret, _.
Qed.

Lemma update_loop_pure {S} node n : forall parts amap, (length parts < n)%nat ->
  stays (=@{S}) (PartitionTokenizer.update_loop node parts amap).
Proof.
  induction n as [|n IH]; intros parts amap Hn; [lia|].
  destruct parts as [|ns [|part parts]]; cbn [PartitionTokenizer.update_loop];
    [apply stays_ret, _|apply stays_throw, _|]. cbn [length] in Hn.
  destruct (base64_decode part) as [buf|]; [|apply stays_throw, _].
  destruct (amap !! ns) as [entry|]; [|apply IH; lia].
  apply stays_bind; [apply _|apply mark_pure|]. intros r. apply IH. lia.
Qed.

Lemma update_partition_pure {S} t amap node :
  stays (=@{S}) (PartitionTokenizer.update_partition t amap node).
Proof.
  unfold PartitionTokenizer.update_partition. destruct (utf8_valid _); [|apply stays_throw, _].
  eapply update_loop_pure, Nat.lt_succ_diag_r.
Qed.

(** What becomes of the entries. *)
Lemma mark_good {S} w buf node l : forall idx (s s' : S) r,
  is_Some (node_name w node) -> known w l ->
  PartitionTokenizer.mark buf node idx l s = Ret r s' -> len r = len l /\ known w r.
Proof.
  induction l as [|x l IH]; intros idx s s' r Hn Hl H; cbn [PartitionTokenizer.mark] in H.
  - injection H as <- _. split; [reflexivity|constructor].
  - apply Forall_cons in Hl as [Hx Hl]. apply bind_Ret_inv in H as (b & s1 & _ & H).
    apply bind_Ret_inv in H as (rest & s2 & Hr & H).
    apply IH in Hr as [Hlen Hk]; [|exact Hn|exact Hl]. injection H as <- _.
    rewrite !len_cons, Hlen. split; [reflexivity|]. constructor; [destruct b; assumption|exact Hk].
Qed.

Lemma update_loop_good {S} w node : is_Some (node_name w node) ->
  forall n parts amap (s s' : S) m, (length parts < n)%nat -> good_map w amap ->
  PartitionTokenizer.update_loop node parts amap s = Ret m s' -> good_map w m.
Proof.
  intros Hn. induction n as [|n IH]; intros parts amap s s' m Hlen Hm H; [lia|].
  destruct parts as [|ns [|part parts]]; cbn [PartitionTokenizer.update_loop] in H;
    [injection H as <- _; exact Hm|discriminate H|]. cbn [length] in Hlen.
  destruct (base64_decode part) as [buf|]; [|discriminate H].
  destruct (amap !! ns) as [entry|] eqn:He.
  - destruct (Hm _ _ He) as [Hc Hk]. apply bind_Ret_inv in H as (r & s1 & Hr & H).
    apply (mark_good w) in Hr as [Hl Hk']; [|exact Hn|exact Hk].
    eapply IH; [|apply map_Forall_insert_2; [split; [|exact Hk']|exact Hm]|exact H]; [lia|congruence].
  - eapply IH; [|apply map_Forall_insert_2; [|exact Hm]|exact H]; [lia|]. split; [reflexivity|].
    apply Forall_replicate, Hn.
Qed.

Lemma steady_set_partitions w m :
  (linked w -> good_map w m) -> steady w
    (Cluster.mkWorld (Cluster.with_partitions m (Cluster.cluster w)) (Cluster.heap w)
       (Cluster.shared w) (Cluster.ticks w)).
Proof.
  intros Hm. split; [|split; [intros i n Hi; exact Hi|reflexivity]]. intros H. pose proof (Hm H) as Hg.
  destruct H as [H1 H2 H3]. split; assumption.
Qed.

Lemma steady_update_partitions node : stays steady (Cluster.update_partitions node).
Proof.
  unfold Cluster.update_partitions. apply stays_bind; [apply _|apply steady_asks|]. intros policy.
  apply steady_after_node; [unfold Node.get_connection; keeps|]. intros tokens w.
  unfold bind, Cluster.asks.
  set (amap := Cluster.partition_write_map (Cluster.cluster w)).
  pose proof (update_partition_pure tokens amap node w) as Hp.
  destruct (PartitionTokenizer.update_partition tokens amap node w) as [m w1|e w1| |] eqn:E;
    try exact I; subst w1; [|reflexivity]. cbn. intros Hn.
  apply steady_set_partitions. intros [_ _ H3]. unfold PartitionTokenizer.update_partition in E.
  destruct (utf8_valid _); [|discriminate E].
  eapply update_loop_good; [exact Hn|apply Nat.lt_succ_diag_r|exact H3|exact E].
Qed.

Hint Resolve steady_update_partitions : keeps.

Lemma steady_refresh_loop l : forall friends n, stays steady (Cluster.refresh_loop l friends n).
Proof.
  assert (forall node, stays steady (Cluster.refresh_node node)) as Hn
    by (intros node; unfold Cluster.refresh_node; steady).
  induction l as [|node l IH]; intros friends n; cbn [Cluster.refresh_loop]; steady; apply IH.
Qed.

(** ** Finding nodes *)

Lemma node_field_name w id name :
  node_name w id = Some name -> Cluster.node_field id Node.name w = Ret name w.
Proof.
  intros (n & Hn & ->)%fmap_Some. apply node_field_spec, Hn.
Qed.

(** The search for a name in a list of nodes. *)
Lemma find_name_spec w name l :
  known w l ->
  exists r, Cluster.find_m (Cluster.has_name name) l w = Ret r w /\
    match r with
    | Some id => id ∈ l /\ node_name w id = Some name
    | None => Some name ∉ node_name w <$> l
    end.
Proof.
  induction 1 as [|id l [n Hn] _ IH]; cbn [Cluster.find_m].
  - exists None. split; [reflexivity|apply not_elem_of_nil].
  - unfold Cluster.has_name at 1. unfold bind. rewrite (node_field_name _ _ _ Hn). cbn [ret].
    case_bool_decide as Hname.
    + exists (Some id). split; [reflexivity|]. split; [left|congruence].
    + destruct IH as (r & E & Hr). exists r. split; [exact E|]. destruct r as [id'|].
      * split; [right; apply Hr|apply Hr].
      * cbn. rewrite Hn. apply not_elem_of_cons. split; [congruence|exact Hr].
Qed.

(** A created node has the name that was validated. *)
Lemma create_node_name nv w id w' :
  Cluster.create_node nv w = Ret id w' ->
  node_name w' id = Some (NodeValidator.name nv).
Proof.
  unfold Cluster.create_node. destruct (Cluster.shared w) as [queues net].
  destruct (Node.new _ nv queues) as [[n queues']|] eqn:E; [|discriminate].
  intros [= <- <-]. unfold node_name. cbn. rewrite lookup_app_r, Nat.sub_diag by lia. cbn.
  unfold Node.new in E. destruct (head _); [|discriminate]. cbn in E.
  destruct (ConnectionPool.new _ _ _); [|discriminate]. injection E as <- _. reflexivity.
Qed.

(** A new list of nodes, beside the [old] ones. *)
Definition fresh w (old l : list NodeId) : Prop := known w (old ++ l) /\ distinct w (old ++ l).

Lemma fresh_extends w w' old l : extends w w' -> fresh w old l -> fresh w' old l.
Proof. intros He [Hk Hd]. split; [eapply known_extends|eapply distinct_extends]; eassumption. Qed.

Lemma fresh_snoc w old l id name :
  fresh w old l -> node_name w id = Some name -> Some name ∉ node_name w <$> (old ++ l) ->
  fresh w old (l ++ [id]).
Proof.
  intros [Hk Hd] Hn Hf. unfold fresh, known, distinct in *. rewrite (assoc_L (++)). split.
  - apply Forall_app. split; [exact Hk|]. constructor; [exists name; exact Hn|constructor].
  - rewrite fmap_app. apply NoDup_app. split; [exact Hd|]. split; [|apply NoDup_singleton].
    cbn. rewrite Hn. intros x Hx ->%list_elem_of_singleton. contradiction.
Qed.

(** The state after a computation that is steady. *)
Lemma steady_step {A} (m : M (Cluster.World Net) A) w a w' :
  stays steady m -> m w = Ret a w' -> steady w w'.
Proof. intros Hm E. specialize (Hm w). rewrite E in Hm. exact Hm. Qed.

Lemma names_step w w' name l :
  extends w w' -> known w l -> Some name ∉ node_name w <$> l -> Some name ∉ node_name w' <$> l.
Proof. intros He Hk. rewrite (names_extend _ _ _ He Hk). auto. Qed.

Lemma fresh_create w w' nv old l id :
  fresh w old l -> Some (NodeValidator.name nv) ∉ node_name w <$> (old ++ l) ->
  Cluster.create_node nv w = Ret id w' -> fresh w' old (l ++ [id]).
Proof.
  intros Hf Hn E. pose proof (steady_step _ _ _ _ (steady_create_node nv) E) as (_ & He & _).
  eapply fresh_snoc; [eapply fresh_extends; eassumption|eapply create_node_name, E|].
  eapply names_step; [exact He|apply Hf|exact Hn].
Qed.

Hint Resolve steady_refresh_loop : keeps.

(** *** Seeding *)

Lemma steady_seed_aliases seed v l : forall list, stays steady (Cluster.seed_aliases seed v l list).
Proof.
  induction l as [|alias l IH]; intros list; cbn [Cluster.seed_aliases];
    unfold Cluster.validator, Cluster.find_node_name; steady; apply IH.
Qed.

Lemma seed_aliases_fresh seed v l : forall list w list' w',
  fresh w [] list -> Cluster.seed_aliases seed v l list w = Ret list' w' -> fresh w' [] list'.
Proof.
  induction l as [|alias l IH]; intros list w list' w' Hf H; cbn [Cluster.seed_aliases] in H.
  - injection H as <- <-. exact Hf.
  - apply bind_Ret_inv in H as (nv & w1 & E & H).
    apply steady_step in E as (_ & He & _); [|unfold Cluster.validator; steady].
    apply (fresh_extends _ _ _ _ He) in Hf. destruct nv as [nv|e]; [|eapply IH; eassumption].
    destruct (find_name_spec w1 (NodeValidator.name nv) list (proj1 Hf)) as (r & Er & Hr).
    unfold Cluster.find_node_name, Cluster.any_m in H. unfold bind at 1 in H.
    unfold bind at 1 in H. rewrite Er in H. cbn [ret] in H.
    destruct r as [id|]; cbn in H; [eapply IH; eassumption|].
    apply bind_Ret_inv in H as (node & w2 & Ec & H).
    apply bind_Ret_inv in H as ([] & w3 & Ea & H).
    apply steady_step in Ea as (_ & He3 & _); [|apply steady_add_aliases].
    eapply IH; [|exact H]. eapply fresh_extends; [exact He3|]. eapply fresh_create; eassumption.
Qed.

Lemma steady_seed_loop l : forall list, stays steady (Cluster.seed_loop l list).
Proof.
  induction l as [|seed l IH]; intros list; cbn [Cluster.seed_loop]; unfold Cluster.validator.
  - apply stays_ret, _.
  - apply stays_bind; [apply _|apply steady_asks|]. intros v.
    apply stays_bind; [apply _|apply steady_validating|]. intros [v'|e]; [|apply IH].
    apply stays_bind; [apply _|apply steady_seed_aliases|]. intros list'. apply IH.
Qed.

Lemma seed_loop_fresh l : forall list w list' w',
  fresh w [] list -> Cluster.seed_loop l list w = Ret list' w' -> fresh w' [] list'.
Proof.
  induction l as [|seed l IH]; intros list w list' w' Hf H; cbn [Cluster.seed_loop] in H.
  - injection H as <- <-. exact Hf.
  - apply bind_Ret_inv in H as (v & w1 & E1 & H).
    apply steady_step in E1 as (_ & He1 & _); [|apply steady_asks].
    apply bind_Ret_inv in H as (r & w2 & E2 & H).
    apply steady_step in E2 as (_ & He2 & _); [|apply steady_validating].
    apply (fresh_extends _ _ _ _ He1), (fresh_extends _ _ _ _ He2) in Hf.
    destruct r as [v'|e]; [|eapply IH; eassumption].
    apply bind_Ret_inv in H as (l2 & w3 & E3 & H).
    eapply IH; [|exact H]. eapply seed_aliases_fresh; eassumption.
Qed.

(** *** The nodes that are added *)

(** [w'] is [w] with the nodes [l], and what a steady step does. *)
Definition grown (l : list NodeId) w w' : Prop :=
  (linked w -> known w' l -> linked w') /\ extends w w' /\
  Cluster.nodes (Cluster.cluster w') = Cluster.nodes (Cluster.cluster w) ++ l.

Lemma add_nodes_grown l w w' :
  Cluster.add_nodes_and_aliases l w = Ret tt w' -> grown l w w'.
Proof.
  unfold Cluster.add_nodes_and_aliases. intros (u & w1 & E & H)%bind_Ret_inv.
  apply steady_step in E as (Hl & He & Hn);
    [|apply stays_for_each; [apply _|apply steady_add_aliases]].
  unfold Cluster.add_nodes in H. destruct l as [|id l].
  - injection H as <-. split; [auto|]. split; [exact He|]. rewrite app_nil_r. exact Hn.
  - unfold Cluster.modify in H. injection H as <-. split; [|split; [exact He|cbn; rewrite Hn; reflexivity]].
    intros Hw Hk. destruct (Hl Hw) as [H1 H2 H3]. split; cbn; try assumption.
    apply Forall_app. split; assumption.
Qed.

Lemma add_nodes_throws l w e w' :
  Cluster.add_nodes_and_aliases l w = Throw e w' -> steady w w'.
Proof.
  unfold Cluster.add_nodes_and_aliases, bind. intros H.
  pose proof (stays_for_each steady l Cluster.add_aliases steady_add_aliases w) as Hs.
  destruct (for_each l Cluster.add_aliases w) as [u w1|e1 w1| |]; try discriminate H.
  - unfold Cluster.add_nodes in H. destruct l; discriminate H.
  - injection H as _ <-. exact Hs.
Qed.

Lemma grown_well_formed l w w' :
  grown l w w' -> linked w -> fresh w' (Cluster.nodes (Cluster.cluster w)) l -> well_formed w'.
Proof.
  intros (Hl & He & Hn) Hw [Hk Hd]. apply Forall_app in Hk as Hk'. destruct Hk' as [_ Hk'].
  split; [apply Hl; assumption|]. rewrite Hn. exact Hd.
Qed.

Lemma seed_nodes_grown w b w' :
  Cluster.seed_nodes w = Ret b w' ->
  exists l, grown l w w' /\ fresh w' [] l /\ (b = false -> l = []).
Proof.
  unfold Cluster.seed_nodes. intros (seeds & w1 & E1 & H)%bind_Ret_inv.
  apply steady_step in E1 as S1; [|apply steady_asks].
  apply bind_Ret_inv in H as (l & w2 & E2 & H).
  apply steady_step in E2 as S2; [|apply steady_seed_loop].
  apply bind_Ret_inv in H as ([] & w3 & E3 & H). injection H as <- <-.
  assert (fresh w2 [] l) as Hf.
  { eapply seed_loop_fresh; [|exact E2]. split; constructor. }
  apply add_nodes_grown in E3 as G. exists l.
  assert (steady w w2) as (Hl & He & Hn) by (etransitivity; eassumption).
  destruct G as (Gl & Ge & Gn). split.
  - split; [auto|]. split; [etransitivity; eassumption|congruence].
  - split; [eapply fresh_extends; eassumption|]. intros Hb%bool_decide_eq_false.
    destruct l; [reflexivity|exfalso; apply Hb; discriminate].
Qed.

Lemma seed_nodes_throws w e w' : Cluster.seed_nodes w = Throw e w' -> steady w w'.
Proof.
  unfold Cluster.seed_nodes. intros H. unfold bind, Cluster.asks in H. cbn in H.
  pose proof (steady_seed_loop (Cluster.seeds (Cluster.cluster w)) [] w) as Hs.
  destruct (Cluster.seed_loop _ [] w) as [l w1|e1 w1| |]; try discriminate H;
    [|injection H as _ <-; exact Hs].
  destruct (Cluster.add_nodes_and_aliases l w1) as [[] w2|e2 w2| |] eqn:E; try discriminate H.
  injection H as _ <-. apply add_nodes_throws in E. etransitivity; eassumption.
Qed.

(** *** New nodes *)

Lemma steady_get_node_by_name name : stays steady (Cluster.get_node_by_name name).
Proof. unfold Cluster.get_node_by_name. steady. Qed.

Hint Resolve steady_get_node_by_name : keeps.

Lemma steady_find_new_nodes l : forall list, stays steady (Cluster.find_new_nodes_loop l list).
Proof.
  induction l as [|host l IH]; intros list; cbn [Cluster.find_new_nodes_loop];
    unfold Cluster.validator; steady; apply IH.
Qed.

(** Whether a name is that of a node, or of a new one. *)
Definition duplicate (name : bytes) (list : list NodeId) : M (Cluster.World Net) (option NodeId) :=
  let! known := catch (Cluster.get_node_by_name name) in
  match known with
  | inl node => ret (Some node)
  | inr _ => Cluster.find_m (Cluster.has_name name) list
  end.

Lemma duplicate_none name list w w' :
  fresh w (Cluster.nodes (Cluster.cluster w)) list ->
  duplicate name list w = Ret None w' ->
  w' = w /\ Some name ∉ node_name w <$> (Cluster.nodes (Cluster.cluster w) ++ list).
Proof.
  intros [Hk _] H. apply Forall_app in Hk as [Hk1 Hk2].
  destruct (find_name_spec w name _ Hk1) as (r & Er & Hr).
  destruct (find_name_spec w name _ Hk2) as (r2 & Er2 & Hr2).
  unfold duplicate, Cluster.get_node_by_name, catch, bind, Cluster.asks in H. rewrite Er in H.
  destruct r as [id|]; [discriminate H|]. cbn in H. rewrite Er2 in H.
  injection H as -> ->. split; [reflexivity|]. rewrite fmap_app. apply not_elem_of_app.
  split; assumption.
Qed.

Lemma find_new_nodes_fresh l : forall list w list' w',
  fresh w (Cluster.nodes (Cluster.cluster w)) list ->
  Cluster.find_new_nodes_loop l list w = Ret list' w' ->
  fresh w' (Cluster.nodes (Cluster.cluster w)) list'.
Proof.
  induction l as [|host l IH]; intros list w list' w' Hf H; cbn [Cluster.find_new_nodes_loop] in H.
  - injection H as <- <-. exact Hf.
  - apply bind_Ret_inv in H as (v & w1 & E1 & H). apply steady_step in E1 as S1; [|apply steady_asks].
    apply bind_Ret_inv in H as (r & w2 & E2 & H).
    apply steady_step in E2 as S2; [|apply steady_validating].
    assert (steady w w2) as (_ & He & Hn) by (etransitivity; eassumption).
    apply (fresh_extends _ _ _ _ He) in Hf. rewrite <- Hn in Hf |- *.
    destruct r as [nv|e]; [|eapply IH; eassumption].
    assert (bind (duplicate (NodeValidator.name nv) list)
      (fun dup => match dup with
        | Some node => Cluster.add_alias host node ;;; Cluster.find_new_nodes_loop l list
        | None => let! node := Cluster.create_node nv in
                  Cluster.find_new_nodes_loop l (list ++ [node])
        end) w2 = Ret list' w') as H'.
    { rewrite <- H. unfold duplicate. rewrite (bind_assoc _ _ _ w2). reflexivity. }
    clear H. apply bind_Ret_inv in H' as (dup & w3 & E3 & H).
    destruct dup as [node|].
    + apply steady_step in E3 as S3; [|unfold duplicate; steady].
      apply bind_Ret_inv in H as ([] & w4 & E4 & H).
      apply steady_step in E4 as S4; [|apply steady_add_alias].
      assert (steady w2 w4) as (_ & He4 & Hn4) by (etransitivity; eassumption).
      rewrite <- Hn4 in Hf |- *. eapply IH; [|exact H]. eapply fresh_extends; eassumption.
    + apply duplicate_none in E3 as [-> Hname]; [|exact Hf].
      apply bind_Ret_inv in H as (node & w4 & E4 & H).
      apply steady_step in E4 as S4; [|apply steady_create_node].
      destruct S4 as (_ & _ & Hn4). pose proof (fresh_create _ _ _ _ _ _ Hf Hname E4) as Hf4.
      rewrite <- Hn4 in Hf4 |- *. eapply IH; [exact Hf4|exact H].
Qed.

(** *** Removing nodes *)

Lemma filter_m_sublist p l : forall w r w',
  Cluster.filter_m p l w = Ret r w' -> r `sublist_of` l.
Proof.
  induction l as [|id l IH]; intros w r w' H; cbn [Cluster.filter_m] in H.
  - injection H as <- _. constructor.
  - apply bind_Ret_inv in H as (b & w1 & _ & H). apply bind_Ret_inv in H as (r' & w2 & E & H).
    apply IH in E. injection H as <- _. destruct b; constructor; exact E.
Qed.

(** The only node of a cluster can be replaced by what the seeds give. *)
Definition reseeded (l : list NodeId) (removed : list NodeId) w w' : Prop :=
  exists node new, l = [node] /\ removed = [node] /\ grown new w w' /\ fresh w' [] new.

Lemma steady_grown l w w1 w2 : steady w w1 -> grown l w1 w2 -> grown l w w2.
Proof.
  intros (Hl & He & Hn) (Gl & Ge & Gn). split; [auto|].
  split; [etransitivity; eassumption|congruence].
Qed.

(** Steady, or a seeding of new nodes. *)
Definition may_seed (m : M (Cluster.World Net) bool) : Prop :=
  forall w,
    match m w with
    | Ret b w' => steady w w' \/ (b = true /\ exists new, grown new w w' /\ fresh w' [] new)
    | Throw _ w' => steady w w'
    | _ => True
    end.

Lemma may_seed_steady m : stays steady m -> may_seed m.
Proof. intros Hm w. specialize (Hm w). destruct (m w); auto. Qed.

Lemma may_seed_bind {A} (m : M (Cluster.World Net) A) k :
  stays steady m -> (forall a, may_seed (k a)) -> may_seed (bind m k).
Proof.
  intros Hm Hk w. specialize (Hm w). unfold bind. destruct (m w) as [a w1|e w1| |]; auto.
  specialize (Hk a w1). destruct (k a w1) as [b w2|e w2| |]; auto; [|etransitivity; eassumption].
  destruct Hk as [H|(Hb & new & Hg & Hf)]; [left; etransitivity; eassumption|].
  right. split; [exact Hb|]. exists new. split; [eapply steady_grown; eassumption|exact Hf].
Qed.

Lemma may_seed_nodes : may_seed Cluster.seed_nodes.
Proof.
  intros w. destruct (Cluster.seed_nodes w) as [b w'|e w'| |] eqn:E; try exact I.
  - apply seed_nodes_grown in E as (l & Hg & Hf & Hb). destruct b; [right; eauto|left].
    specialize (Hb eq_refl) as ->. destruct Hg as (Hl & He & Hn). rewrite app_nil_r in Hn.
    split; [intros H; apply Hl; [exact H|constructor]|]. split; assumption.
  - apply seed_nodes_throws in E. exact E.
Qed.

Lemma must_remove_may_seed n refresh_count node :
  may_seed (Cluster.must_remove n refresh_count node) /\
  (n <> 1 -> stays steady (Cluster.must_remove n refresh_count node)).
Proof.
  unfold Cluster.must_remove, Cluster.find_node_in_partition_map.
  split; [|intros Hn; rewrite (proj2 (Z.eqb_neq n 1) Hn); cbn [andb]; steady].
  apply may_seed_bind; [apply steady_node_field|]. intros active.
  destruct (negb active); [apply may_seed_steady; steady|].
  apply may_seed_bind; [apply steady_node_field|]. intros failures.
  apply may_seed_bind; [apply steady_node_field|]. intros references.
  destruct (_ && _); [apply may_seed_nodes|]. apply may_seed_steady. steady.
Qed.

Lemma find_nodes_to_remove_result refresh_count w :
  match Cluster.find_nodes_to_remove refresh_count w with
  | Ret l w' => steady w w' \/ reseeded (Cluster.nodes (Cluster.cluster w)) l w w'
  | Throw _ w' => steady w w'
  | _ => True
  end.
Proof.
  unfold Cluster.find_nodes_to_remove, bind, Cluster.asks.
  set (l := Cluster.nodes (Cluster.cluster w)).
  destruct (decide (len l = 1)) as [Hl|Hl].
  - destruct l as [|node [|? ?]]; try (cbn in Hl; discriminate Hl);
      [|exfalso; rewrite !len_cons in Hl; pose proof (len_nonneg l); lia].
    cbn [Cluster.filter_m]. unfold bind, ret.
    pose proof (proj1 (must_remove_may_seed (len [node]) refresh_count node) w) as H.
    destruct (Cluster.must_remove _ _ _ w) as [b w'|e w'| |]; auto.
    destruct H as [H|(-> & new & Hg & Hf)]; [left; exact H|right].
    exists node, new. auto.
  - assert (stays steady (Cluster.filter_m (Cluster.must_remove (len l) refresh_count) l)) as H.
    { apply steady_filter_m. intros node. apply must_remove_may_seed, Hl. }
    specialize (H w). destruct (Cluster.filter_m _ l w); auto.
Qed.

(** Nothing that is done for the removed nodes fails. *)
Definition quiet {S A} (m : M S A) : Prop := forall s, match m s with Throw _ _ => False | _ => True end.

Lemma quiet_bind {S A B} (m : M S A) (k : A -> M S B) :
  quiet m -> (forall a, quiet (k a)) -> quiet (bind m k).
Proof.
  intros Hm Hk s. specialize (Hm s). unfold bind. destruct (m s); auto. apply Hk.
Qed.

Lemma quiet_for_each {S A} (l : list A) (f : A -> M S unit) :
  (forall x, quiet (f x)) -> quiet (for_each l f).
Proof.
  intros Hf. induction l as [|x l IH]; [intros s; exact I|].
  apply quiet_bind; [apply Hf|intros _; exact IH].
Qed.

Lemma quiet_on_node {A} id (m : M (Node * Node.Shared Net) A) :
  quiet m -> quiet (Cluster.on_node id m).
Proof.
  intros Hm w. unfold Cluster.on_node. destruct (Cluster.heap w !! id) as [n|]; [|exact I].
  specialize (Hm (n, Cluster.shared w)). destruct (m _) as [a [n' sh]|e [n' sh]| |]; exact Hm || exact I.
Qed.

Lemma quiet_node_close : quiet (Node.close (Net := Net)).
Proof.
  apply quiet_bind; [intros [n sh]; exact I|]. intros _ [n [queues net]].
  unfold Node.with_pool.
  assert (quiet (ConnectionPool.close (Net := Net))) as H.
  { apply quiet_bind; [intros p; exact I|]. intros p. apply quiet_bind; [|intros _ q; exact I].
    apply quiet_for_each. intros i q. unfold ConnectionPool.on_queue.
    destruct (ConnectionPool.store q !! i); exact I. }
  specialize (H (ConnectionPool.mkPooled (Node.connection_pool n) queues net)).
  destruct (ConnectionPool.close _); exact H || exact I.
Qed.

(** The part of [remove_nodes_and_aliases] before the list changes. *)
Definition forget (removed : list NodeId) : M (Cluster.World Net) unit :=
  for_each removed (fun node =>
    let! l := Cluster.node_field node Node.aliases in
    for_each l Cluster.remove_alias ;;;
    let! c := Cluster.asks id in
    when (Cluster.unshared c node) (Cluster.on_node node Node.close)).

Lemma steady_forget removed : stays steady (forget removed).
Proof. unfold forget. steady. Qed.

Lemma quiet_forget removed : quiet (forget removed).
Proof.
  apply quiet_for_each. intros node. apply quiet_bind.
  { apply quiet_on_node. intros [n sh]. exact I. }
  intros l. apply quiet_bind; [apply quiet_for_each; intros x w; exact I|]. intros _.
  apply quiet_bind; [intros w; exact I|]. intros c.
  destruct (Cluster.unshared c node); [apply quiet_on_node, quiet_node_close|intros w; exact I].
Qed.

(** The nodes that stay. *)
Definition stay (removed : list NodeId) (node : NodeId) : M (Cluster.World Net) bool :=
  let! b := Cluster.any_m (Cluster.same_node node) removed in ret (negb b).

Lemma steady_stay removed node : stays steady (stay removed node).
Proof. unfold stay. apply stays_bind; [apply _|apply steady_any_m; steady|steady]. Qed.

Lemma quiet_filter_stay removed l : quiet (Cluster.filter_m (stay removed) l).
Proof.
  assert (forall id (f : Node -> bytes), quiet (Cluster.node_field (Net := Net) id f)) as Hf
    by (intros id f; apply quiet_on_node; intros [n sh]; exact I).
  assert (forall node l, quiet (Cluster.find_m (Net := Net) (Cluster.same_node node) l)) as Hfind.
  { intros node. induction l0 as [|id l0 IH]; cbn [Cluster.find_m]; [intros w; exact I|].
    apply quiet_bind; [|intros [|]; [intros w; exact I|exact IH]].
    apply quiet_bind; [apply Hf|]. intros n1. apply quiet_bind; [apply Hf|]. intros n2 w. exact I. }
  induction l as [|id l IH]; cbn [Cluster.filter_m]; [intros w; exact I|].
  apply quiet_bind; [|intros b; apply quiet_bind; [exact IH|intros r w; exact I]].
  apply quiet_bind; [|intros b w; exact I]. apply quiet_bind; [apply Hfind|intros r w; exact I].
Qed.

(** The nodes are some of [l], and nothing else is lost. *)
Definition shrunk (l : list NodeId) w w' : Prop :=
  (linked w -> linked w') /\ extends w w' /\
  Cluster.nodes (Cluster.cluster w') `sublist_of` l.

Lemma known_sublist w l k : k `sublist_of` l -> known w l -> known w k.
Proof.
  unfold known. rewrite !Forall_forall. intros Hs Hl x Hx. apply Hl.
  eapply elem_of_submseteq; [exact Hx|apply sublist_submseteq, Hs].
Qed.

Lemma set_nodes_shrunk l w w1 :
  steady w w1 -> l `sublist_of` Cluster.nodes (Cluster.cluster w) ->
  shrunk l w (Cluster.mkWorld (Cluster.with_nodes l (Cluster.cluster w1)) (Cluster.heap w1)
    (Cluster.shared w1) (Cluster.ticks w1)).
Proof.
  intros (Hl & He & Hn) Hs. split; [|split; [exact He|reflexivity]]. intros H.
  destruct (Hl H) as [H1 H2 H3]. split; cbn; try assumption.
  eapply known_sublist; [exact Hs|]. rewrite <- Hn. exact H1.
Qed.

Lemma remove_nodes_shrunk removed w w' :
  Cluster.remove_nodes removed w = Ret tt w' ->
  shrunk (Cluster.nodes (Cluster.cluster w)) w w' /\
  (forall node new, removed = [node] -> Cluster.nodes (Cluster.cluster w) = node :: new ->
     is_Some (node_name w node) -> shrunk new w w').
Proof.
  set (l := Cluster.nodes (Cluster.cluster w)).
  unfold Cluster.remove_nodes. destruct removed as [|r removed].
  { intros [= <-]. split; [|discriminate]. split; [auto|]. split; [reflexivity|reflexivity]. }
  unfold bind at 1, Cluster.asks. fold l. fold (stay (r :: removed)).
  intros (arr & w1 & E & H)%bind_Ret_inv. unfold Cluster.modify in H. injection H as <-.
  apply steady_step in E as S1; [|apply steady_filter_m, steady_stay].
  pose proof (filter_m_sublist _ _ _ _ _ E) as Hs. split.
  - destruct (set_nodes_shrunk arr w w1 S1 Hs) as (Hl & He & _).
    split; [exact Hl|]. split; [exact He|exact Hs].
  - intros node new [= -> ->] Hnew [name Hname]. rewrite Hnew in E, Hs.
    assert (stay [node] node w = Ret false w) as Hstay.
    { unfold stay, Cluster.any_m. cbn [Cluster.find_m]. unfold bind.
      unfold Cluster.same_node, bind. rewrite !(node_field_name _ _ _ Hname). cbn.
      rewrite bool_decide_true by reflexivity. reflexivity. }
    cbn [Cluster.filter_m] in E. unfold bind at 1 in E. rewrite Hstay in E.
    apply bind_Ret_inv in E as (rest & w2 & E & H). injection H as -> ->.
    apply filter_m_sublist in E. 
    destruct (set_nodes_shrunk arr w w1 S1) as (Hl & He & _);
      [fold l; rewrite Hnew; constructor; exact E|].
    split; [exact Hl|]. split; [exact He|exact E].
Qed.

Lemma remove_nodes_quiet removed : quiet (Cluster.remove_nodes (Net := Net) removed).
Proof.
  unfold Cluster.remove_nodes. destruct removed as [|r removed]; [intros w; exact I|].
  apply quiet_bind; [intros w; exact I|]. intros l.
  apply quiet_bind; [apply (quiet_filter_stay (r :: removed))|intros arr w; exact I].
Qed.

Lemma shrunk_well_formed l w w' : shrunk l w w' -> linked w -> distinct w l -> known w l -> well_formed w'.
Proof.
  intros (Hl & He & Hs) Hw Hd Hk. split; [apply Hl, Hw|].
  eapply distinct_extends; [exact He|eapply known_sublist; eassumption|].
  unfold distinct in *. eapply sublist_NoDup; [exact Hd|]. apply fmap_sublist, Hs.
Qed.

(** Removing what was found to be removed. *)
Lemma remove_well_formed removed w w1 :
  well_formed w ->
  steady w w1 \/ reseeded (Cluster.nodes (Cluster.cluster w)) removed w w1 ->
  match Cluster.remove_nodes_and_aliases removed w1 with
  | Ret _ w' => well_formed w'
  | Throw _ _ => False
  | _ => True
  end.
Proof.
  intros Hw Hcase. unfold Cluster.remove_nodes_and_aliases. fold (forget removed). unfold bind.
  pose proof (steady_forget removed w1) as Hs. pose proof (quiet_forget removed w1) as Hq.
  destruct (forget removed w1) as [u w2|e w2| |]; try exact I; [|contradiction].
  pose proof (remove_nodes_quiet removed w2) as Hq2.
  destruct (Cluster.remove_nodes removed w2) as [[] w3|e w3| |] eqn:E; try exact I; [|contradiction].
  apply remove_nodes_shrunk in E as [Hall Hone].
  destruct Hcase as [H|(node & new & Hl & -> & Hg & Hf)].
  - assert (well_formed w2) as [Hk Hd]
      by exact (steady_well_formed _ _ (transitivity H Hs) Hw).
    eapply shrunk_well_formed; [exact Hall|exact Hk|exact Hd|apply Hk].
  - destruct Hw as [Hk Hd]. destruct Hg as (Gl & Ge & Gn). destruct Hs as (Sl & Se & Sn).
    destruct Hf as [Fk Fd]. cbn [app] in Fk, Fd. rewrite Hl in Gn.
    assert (linked w2) as Hk2 by (apply Sl, Gl; assumption).
    eapply shrunk_well_formed; [eapply (Hone node new); [reflexivity|rewrite Sn, Gn; reflexivity|]|exact Hk2| |].
    + pose proof (linked_nodes w Hk) as Hn. rewrite Hl in Hn. apply Forall_cons in Hn as [[n Hn] _].
      exists n. apply Se, Ge, Hn.
    + eapply distinct_extends; eassumption.
    + eapply known_extends; eassumption.
Qed.

(** ** Tending *)

Definition safe {A} (m : M (Cluster.World Net) A) : Prop :=
  stays (fun w w' => well_formed w -> well_formed w') m.

#[local] Instance safe_preorder : PreOrder (fun w w' => well_formed w -> well_formed w').
Proof. split; [intros w; auto|intros w1 w2 w3; auto]. Qed.

Lemma steady_safe {A} (m : M (Cluster.World Net) A) : stays steady m -> safe m.
Proof.
  intros Hm w. specialize (Hm w). destruct (m w); try exact I; apply steady_well_formed, Hm.
Qed.

(** The seeding of a cluster without nodes. *)
Lemma seed_empty_safe w :
  well_formed w -> Cluster.nodes (Cluster.cluster w) = [] ->
  match Cluster.seed_nodes w with Ret _ w' | Throw _ w' => well_formed w' | _ => True end.
Proof.
  intros Hw Hn. destruct (Cluster.seed_nodes w) as [b w'|e w'| |] eqn:E; try exact I.
  - apply seed_nodes_grown in E as (l & Hg & Hf & _). eapply grown_well_formed; [exact Hg|apply Hw|].
    rewrite Hn. exact Hf.
  - apply seed_nodes_throws in E. eapply steady_well_formed; eassumption.
Qed.

(** The part of a turn that adds the new nodes. *)
Lemma add_new_nodes_safe friends :
  safe (let! add_list := Cluster.find_new_nodes_to_add friends in
        Cluster.add_nodes_and_aliases add_list).
Proof.
  intros w. unfold bind. pose proof (steady_find_new_nodes friends [] w) as Hs.
  destruct (Cluster.find_new_nodes_to_add friends w) as [l w1|e w1| |] eqn:E; try exact I;
    unfold Cluster.find_new_nodes_to_add in E; rewrite E in Hs;
    [|apply steady_well_formed, Hs].
  destruct (Cluster.add_nodes_and_aliases l w1) as [[] w2|e w2| |] eqn:E2; try exact I; intros Hw.
  - apply add_nodes_grown in E2. pose proof Hs as (Hl & He & Hn). destruct Hw as [Hk Hd].
    eapply grown_well_formed; [exact E2|apply Hl, Hk|]. rewrite Hn.
    eapply fresh_extends; [apply E2|]. eapply find_new_nodes_fresh; [|exact E].
    unfold fresh. rewrite app_nil_r. split; [apply Hk|exact Hd].
  - apply add_nodes_throws in E2. eapply steady_well_formed; [|exact Hw].
    etransitivity; eassumption.
Qed.

(** The part that removes nodes. *)
Lemma remove_old_nodes_safe refresh_count :
  safe (let! remove_list := Cluster.find_nodes_to_remove refresh_count in
        Cluster.remove_nodes_and_aliases remove_list).
Proof.
  intros w. unfold bind. pose proof (find_nodes_to_remove_result refresh_count w) as H.
  destruct (Cluster.find_nodes_to_remove refresh_count w) as [l w1|e w1| |]; try exact I;
    [|apply steady_well_formed, H].
  destruct (Cluster.remove_nodes_and_aliases l w1) as [u w2|e w2| |] eqn:E; try exact I; intros Hw;
    pose proof (remove_well_formed l w w1 Hw H) as Hr; rewrite E in Hr; [exact Hr|contradiction].
Qed.

Lemma tend_safe : safe Cluster.tend.
Proof.
  intros w. unfold Cluster.tend. unfold bind at 1, Cluster.asks at 1.
  match goal with |- match (_ ;;; ?rest) w with _ => _ end => assert (safe rest) as Hrest end.
  { apply stays_bind; [apply _|apply steady_safe, steady_asks|]. intros l.
    apply stays_bind; [apply _|apply steady_safe, steady_refresh_loop|]. intros [friends n].
    eapply stays_proper; [apply bind_assoc|].
    apply stays_bind; [apply _|apply add_new_nodes_safe|]. intros _. apply remove_old_nodes_safe. }
  unfold bind at 1. case_bool_decide as Hn; cbn [when].
  - unfold bind at 1. pose proof (fun H => seed_empty_safe w H Hn) as Hs.
    destruct (Cluster.seed_nodes w) as [b w1|e w1| |]; try exact I; [|exact Hs]. cbn [ret].
    specialize (Hrest w1). match goal with |- match ?o with _ => _ end => destruct o end; auto.
  - cbn [ret]. apply Hrest.
Qed.

Lemma stabilize_safe fuel : forall deadline count, safe (Cluster.stabilize_loop fuel deadline count).
Proof.
  induction fuel as [|fuel IH]; intros deadline count; [intros w; exact I|].
  cbn [Cluster.stabilize_loop].
  apply stays_bind; [apply _|apply steady_safe; intros w; apply linked_same_heap; reflexivity|].
  intros t. destruct (deadline <? t); [apply stays_ret, _|].
  apply stays_bind; [apply _|apply stays_discard, tend_safe|]. intros _.
  apply stays_bind; [apply _|apply steady_safe, steady_asks|]. intros n.
  destruct (n =? count); [apply stays_ret, _|apply IH].
Qed.

Lemma initial_well_formed policy hosts w :
  well_formed (Cluster.mkWorld (Cluster.initial policy hosts) (Cluster.heap w) (Cluster.shared w)
    (Cluster.ticks w)).
Proof. split; [split; [constructor|intros k id H; discriminate H..]|constructor]. Qed.

Lemma join_safe {A} (m : M (Cluster.World Net) A) : safe m -> safe (Cluster.join m).
Proof.
  intros Hm w. specialize (Hm w). unfold Cluster.join. destruct (m w); exact Hm || exact id.
Qed.

(** C16: from [Cluster::new] on, after any number of turns of the tending thread
    and whatever the nodes answer, the nodes, aliases and partitions of the
    cluster refer to nodes that exist, the partition map has an owner for every
    partition of a namespace, and the nodes of the cluster have distinct names. *)
Theorem cluster_well_formed fuel policy hosts turns w :
  match (Cluster.new fuel policy hosts ;;;
         for_each (seq 0 turns) (fun _ => discard Cluster.tend)) w with
  | Ret _ w' | Throw _ w' => well_formed w'
  | _ => True
  end.
Proof.
  assert (safe ((Cluster.wait_till_stabilized fuel ;;;
    let! c := Cluster.asks id in
    if fail_if_not_connected policy && negb (Cluster.is_connected c) then
      throw (ConnectionError "Failed to connect to host(s).")
    else ret tt) ;;;
    for_each (seq 0 turns) (fun _ => discard Cluster.tend))) as Hsafe.
  { apply stays_bind; [apply _|apply stays_bind; [apply _| |]|].
    - unfold Cluster.wait_till_stabilized.
      apply stays_bind; [apply _|apply steady_safe, steady_asks|]. intros p.
      apply stays_bind; [apply _|apply steady_safe; intros v; apply linked_same_heap; reflexivity|].
      intros t. apply join_safe, stabilize_safe.
    - intros _. apply stays_bind; [apply _|apply steady_safe, steady_asks|]. intros c.
      destruct (_ && _); [apply stays_throw, _|apply stays_ret, _].
    - intros _. apply stays_for_each; [apply _|]. intros _. apply stays_discard, tend_safe. }
  unfold Cluster.new. rewrite (bind_assoc _ _ _ w). unfold bind at 1, Cluster.modify.
  match goal with |- match ?m ?w0 with _ => _ end => specialize (Hsafe w0); destruct (m w0) end;
    try exact I; apply Hsafe, initial_well_formed.
Qed.

End ClusterFacts.
