(* ===== verification/RemovalFacts.v ===== *)
(** * Which nodes leave the cluster

    [find_nodes_to_remove] and [remove_nodes_and_aliases], exactly: in a cluster that
    is well formed and has not just one node, a turn of the tending thread takes out
    the nodes that are [expendable], with their aliases, and touches nothing else. *)

From stdpp Require Import base list strings gmap.
From Stdlib Require Import ZArith Lia.
From S2P Require Import Prelude ResultCodes Monad Invariants ByteOrder Slices Text Buffer.
From S2P Require Import Policy Connection Hosts Info ClientPolicy ConnectionPool Nodes Cluster.
From S2P Require Import PoolFacts PartitionFacts Termination ClusterFacts.

#[local] Open Scope Z_scope.
#[local] Open Scope m_scope.

Section Removal.
Context `{BO : ByteOrder} `{CL : Clock} `{B64 : Base64} `{DI : Dialer Net}
  `{RE : !Resolver Net}.
Implicit Types w : Cluster.World Net.

(** ** Reading the nodes *)

(** [m] sees [a] at [w]. *)
Definition sees {A} (m : M (Cluster.World Net) A) w (a : A) : Prop := m w = Ret a w.

Lemma sees_bind {A B} (m : M (Cluster.World Net) A) (k : A -> M (Cluster.World Net) B) w a b :
  sees m w a -> sees (k a) w b -> sees (bind m k) w b.
Proof. unfold sees, bind. intros ->. auto. Qed.

Lemma sees_ret {A} w (a : A) : sees (ret a) w a.
Proof. reflexivity. Qed.

Lemma sees_field {A} w id n (f : Node -> A) :
  Cluster.heap w !! id = Some n -> sees (Cluster.node_field id f) w (f n).
Proof. apply node_field_spec. Qed.

Lemma find_m_sees p q w l :
  (forall id, id ∈ l -> sees (p id) w (q id)) -> sees (Cluster.find_m p l) w (List.find q l).
Proof.
  induction l as [|id l IH]; intros Hp; [reflexivity|]. cbn [Cluster.find_m List.find].
  eapply sees_bind; [apply Hp; left|]. destruct (q id); [reflexivity|].
  apply IH. intros id' Hin. apply Hp. right. exact Hin.
Qed.

Lemma any_m_sees p q w l :
  (forall id, id ∈ l -> sees (p id) w (q id)) -> sees (Cluster.any_m p l) w (existsb q l).
Proof.
  intros Hp. eapply sees_bind; [apply find_m_sees, Hp|].
  replace (existsb q l) with (bool_decide (List.find q l <> None)); [reflexivity|].
  clear Hp. induction l as [|id l IH]; [reflexivity|]. cbn. destruct (q id); [reflexivity|exact IH].
Qed.

Lemma filter_m_sees p q w l :
  (forall id, id ∈ l -> sees (p id) w (q id)) ->
  sees (Cluster.filter_m p l) w (List.filter q l).
Proof.
  induction l as [|id l IH]; intros Hp; [reflexivity|]. cbn [Cluster.filter_m List.filter].
  eapply sees_bind; [apply Hp; left|].
  eapply sees_bind; [apply IH; intros id' Hin; apply Hp; right; exact Hin|].
  destruct (q id); apply sees_ret.
Qed.

(** Nodes are compared by name. *)
Definition twins w (a b : NodeId) : bool := bool_decide (node_name w a = node_name w b).

Lemma same_node_sees w a b :
  is_Some (node_name w a) -> is_Some (node_name w b) ->
  sees (Cluster.same_node a b) w (twins w a b).
Proof.
  intros [n1 H1] [n2 H2]. unfold twins. rewrite H1, H2.
  eapply sees_bind; [apply node_field_name, H1|].
  eapply sees_bind; [apply node_field_name, H2|].
  replace (bool_decide (Some n1 = Some n2)) with (bool_decide (n1 = n2)); [reflexivity|].
  apply bool_decide_ext. split; congruence.
Qed.

(** ** The nodes to remove *)

(** A node of that name owns a partition. *)
Definition mapped w (id : NodeId) : bool :=
  existsb (twins w id)
    (concat (snd <$> map_to_list (Cluster.partition_write_map (Cluster.cluster w)))).

(** [refreshed] nodes answered in this turn.  A node that is inactive goes; an
    active one goes if no other node refers to it and either it failed, with
    enough others that did answer, or it has no partition. *)
Definition expendable w (refreshed : Z) (id : NodeId) : bool :=
  match Cluster.heap w !! id with
  | None => false
  | Some n =>
      negb (Node.active n)
      || (Node.reference_count n =? 0)
         && ((2 <=? refreshed) && (negb (Node.failures n =? 0) || negb (mapped w id))
             || (len (Cluster.nodes (Cluster.cluster w)) =? 2) && (refreshed =? 1)
                && (0 <? Node.failures n))
  end.

Lemma mapped_sees w id :
  linked w -> is_Some (node_name w id) ->
  sees (Cluster.find_node_in_partition_map id) w (mapped w id).
Proof.
  intros Hl Hid. eapply sees_bind; [reflexivity|]. apply any_m_sees. intros id' Hin.
  apply same_node_sees; [exact Hid|].
  apply list_elem_of_In, in_concat in Hin as (l & Hin%list_elem_of_In & Hid'%list_elem_of_In).
  apply list_elem_of_fmap in Hin as ([ns l'] & -> & Hin%elem_of_map_to_list).
  destruct (linked_partitions w Hl ns l' Hin) as [_ Hk]. unfold known in Hk.
  rewrite Forall_forall in Hk. apply Hk, Hid'.
Qed.

Lemma must_remove_sees w refreshed id :
  linked w -> len (Cluster.nodes (Cluster.cluster w)) <> 1 -> is_Some (node_name w id) ->
  sees (Cluster.must_remove (len (Cluster.nodes (Cluster.cluster w))) refreshed id) w
    (expendable w refreshed id).
Proof.
  intros Hl Hn Hid. pose proof Hid as [name (n & Hnode & _)%fmap_Some].
  unfold Cluster.must_remove, expendable. rewrite Hnode.
  eapply sees_bind; [apply (sees_field w id n _ Hnode)|].
  destruct (Node.active n); [|reflexivity]. cbn [negb orb].
  eapply sees_bind; [apply (sees_field w id n _ Hnode)|].
  eapply sees_bind; [apply (sees_field w id n _ Hnode)|].
  rewrite (proj2 (Z.eqb_neq _ 1) Hn). cbn [andb].
  destruct (Z.eqb_spec (Node.reference_count n) 0) as [_|]; [|rewrite !andb_false_r; reflexivity].
  rewrite !andb_true_r. cbn [andb].
  destruct (Z.leb_spec 2 refreshed).
  - rewrite (proj2 (Z.eqb_neq refreshed 1)) by lia. rewrite andb_false_r. cbn [andb].
    rewrite orb_false_r. destruct (Node.failures n =? 0); [|reflexivity]. cbn [negb orb andb].
    eapply sees_bind; [apply mapped_sees; assumption|]. reflexivity.
  - cbn [andb orb]. destruct (_ && _ && _); reflexivity.
Qed.

(** The nodes that go, and the hosts that are forgotten with them. *)
Definition leaving w (refreshed : Z) : list NodeId :=
  List.filter (expendable w refreshed) (Cluster.nodes (Cluster.cluster w)).

Definition aliases_of w (ids : list NodeId) : list Host :=
  concat ((fun id => match Cluster.heap w !! id with Some n => Node.aliases n | None => [] end) <$> ids).

(** ** Removing them *)

Definition with_cluster w (c : Cluster.Cluster) : Cluster.World Net :=
  Cluster.mkWorld c (Cluster.heap w) (Cluster.shared w) (Cluster.ticks w).

Definition deletes (hosts : list Host) (m : gmap Host NodeId) : gmap Host NodeId :=
  foldl (fun m h => delete h m) m hosts.

Definition forgetting (hosts : list Host) (c : Cluster.Cluster) : Cluster.Cluster :=
  Cluster.set_aliases (deletes hosts (Cluster.aliases c)) c.

Lemma forgetting_app h1 h2 c : forgetting h2 (forgetting h1 c) = forgetting (h1 ++ h2) c.
Proof. unfold forgetting, deletes. cbn. rewrite foldl_app. reflexivity. Qed.

Lemma remove_aliases_run hosts : forall w,
  for_each hosts (Cluster.remove_alias (Net := Net)) w
  = Ret tt (with_cluster w (forgetting hosts (Cluster.cluster w))).
Proof.
  induction hosts as [|h hosts IH]; intros w; [destruct w as [[] ? ? ?]; reflexivity|].
  cbn [for_each]. unfold bind at 1, Cluster.remove_alias at 1, Cluster.modify. rewrite IH. reflexivity.
Qed.

(** A node of the list is never closed: the list still refers to it. *)
Lemma unshared_listed (c : Cluster.Cluster) id : id ∈ Cluster.nodes c -> Cluster.unshared c id = false.
Proof. intros H. unfold Cluster.unshared. rewrite bool_decide_true by exact H. reflexivity. Qed.

Lemma forget_run removed : forall w,
  known w removed -> Forall (fun id => id ∈ Cluster.nodes (Cluster.cluster w)) removed ->
  forget removed w
  = Ret tt (with_cluster w (forgetting (aliases_of w removed) (Cluster.cluster w))).
Proof.
  induction removed as [|node removed IH]; intros w Hk Hin;
    [destruct w as [[] ? ? ?]; reflexivity|].
  inversion_clear Hin as [|? ? Hid Hrest]. inversion_clear Hk as [|? ? [name H] Hk'].
  apply fmap_Some in H as (n & Hn & _). unfold forget in IH |- *. cbn [for_each].
  unfold bind at 1. unfold bind at 1. rewrite (node_field_spec _ _ _ _ Hn).
  unfold bind at 1. rewrite remove_aliases_run. unfold bind at 1, Cluster.asks, id.
  cbn [Cluster.cluster with_cluster]. rewrite unshared_listed by exact Hid. cbn [when ret].
  rewrite IH by assumption. unfold with_cluster. cbn [Cluster.cluster Cluster.heap Cluster.shared Cluster.ticks].
  rewrite forgetting_app. unfold aliases_of. cbn [fmap list_fmap concat]. rewrite Hn. reflexivity.
Qed.

Lemma lookup_deletes hosts : forall m h,
  deletes hosts m !! h = if decide (h ∈ hosts) then None else m !! h.
Proof.
  induction hosts as [|h0 hosts IH]; intros m h; [reflexivity|].
  unfold deletes in *. cbn [foldl]. rewrite IH. destruct (decide (h = h0)) as [->|Hne].
  - rewrite lookup_delete_eq. rewrite (decide_True (P := h0 ∈ h0 :: hosts)) by left.
    destruct (decide _); reflexivity.
  - rewrite lookup_delete_ne by congruence.
    destruct (decide (h ∈ hosts)) as [Hin|Hin], (decide (h ∈ h0 :: hosts)) as [H|H]; try reflexivity.
    + exfalso. apply H. right. exact Hin.
    + exfalso. apply elem_of_cons in H as [?|?]; congruence.
Qed.

(** The others stay. *)
Definition staying w (refreshed : Z) : list NodeId :=
  List.filter (fun id => negb (expendable w refreshed id)) (Cluster.nodes (Cluster.cluster w)).

Lemma filter_ext_in (p q : NodeId -> bool) l :
  (forall id, id ∈ l -> p id = q id) -> List.filter p l = List.filter q l.
Proof.
  induction l as [|id l IH]; intros H; [reflexivity|]. cbn.
  rewrite (H id) by left. rewrite IH by (intros; apply H; right; assumption). reflexivity.
Qed.

Lemma distinct_twins w l a b :
  distinct w l -> a ∈ l -> b ∈ l -> twins w a b = true -> a = b.
Proof.
  unfold distinct, twins. intros Hd Ha Hb E%bool_decide_eq_true.
  apply list_elem_of_lookup in Ha as [i Hi], Hb as [j Hj].
  assert (i = j) as ->.
  { eapply NoDup_lookup; [exact Hd|rewrite list_lookup_fmap, Hi; reflexivity|].
    rewrite list_lookup_fmap, Hj. cbn. rewrite E. reflexivity. }
  congruence.
Qed.

(** What [remove_nodes] keeps, once the aliases are forgotten. *)
Lemma stay_sees w refreshed node w1 :
  well_formed w -> Cluster.heap w1 = Cluster.heap w ->
  node ∈ Cluster.nodes (Cluster.cluster w) ->
  sees (stay (leaving w refreshed) node) w1 (negb (expendable w refreshed node)).
Proof.
  intros [Hl Hd] Hh Hin. pose proof (linked_nodes w Hl) as Hk. unfold known in Hk.
  rewrite Forall_forall in Hk.
  assert (forall id, node_name w1 id = node_name w id) as Hname
    by (intros id; unfold node_name; rewrite Hh; reflexivity).
  unfold stay. eapply sees_bind; [|reflexivity].
  replace (expendable w refreshed node) with (existsb (twins w node) (leaving w refreshed)).
  - apply any_m_sees. intros id Hid. apply list_elem_of_In, filter_In in Hid as [Hid _].
    apply list_elem_of_In in Hid. unfold twins. rewrite <- !Hname.
    apply same_node_sees; rewrite Hname; apply Hk; assumption.
  - apply eq_true_iff_eq. rewrite existsb_exists. split.
    + intros (id & Hid%filter_In & Ht). destruct Hid as [Hid%list_elem_of_In He].
      rewrite (distinct_twins w _ _ _ Hd Hin Hid Ht). exact He.
    + intros He. exists node. split; [apply filter_In; split; [apply list_elem_of_In, Hin|exact He]|].
      apply bool_decide_eq_true. reflexivity.
Qed.

Lemma remove_nodes_run w refreshed w1 :
  well_formed w -> Cluster.heap w1 = Cluster.heap w ->
  Cluster.nodes (Cluster.cluster w1) = Cluster.nodes (Cluster.cluster w) ->
  Cluster.remove_nodes (leaving w refreshed) w1
  = Ret tt (with_cluster w1 (Cluster.with_nodes (staying w refreshed) (Cluster.cluster w1))).
Proof.
  intros Hw Hh Hn. destruct (leaving w refreshed) as [|node go] eqn:Hgo.
  - assert (staying w refreshed = Cluster.nodes (Cluster.cluster w)) as ->.
    { unfold staying. rewrite (filter_ext_in _ (fun _ => true));
        [clear; induction (Cluster.nodes (Cluster.cluster w)) as [|x l IH]; cbn; [|rewrite IH]; reflexivity|].
      intros id Hid. destruct (expendable w refreshed id) eqn:He; [|reflexivity]. exfalso.
      apply (not_elem_of_nil id). rewrite <- Hgo. apply list_elem_of_In, filter_In.
      split; [apply list_elem_of_In, Hid|exact He]. }
    rewrite <- Hn. destruct w1 as [[] ? ? ?]. reflexivity.
  - unfold Cluster.remove_nodes. rewrite <- Hgo. fold (stay (Net := Net) (leaving w refreshed)).
    unfold bind at 1, Cluster.asks. rewrite Hn. unfold bind.
    rewrite (filter_m_sees _ (fun id => negb (expendable w refreshed id))); [reflexivity|].
    intros id Hid. apply stay_sees; assumption.
Qed.

(** C17: in a well-formed cluster that has not just one node, the end of a turn of the
    tending thread takes exactly the expendable nodes off the list, in which the others
    keep their order, and exactly their aliases off the map.  It looks at the other
    nodes but changes nothing else: the partitions still name the nodes that left,
    and their connections are not closed. *)
Theorem nodes_removed refreshed w :
  well_formed w -> len (Cluster.nodes (Cluster.cluster w)) <> 1 ->
  exists c',
    (let! remove_list := Cluster.find_nodes_to_remove refreshed in
     Cluster.remove_nodes_and_aliases remove_list) w = Ret tt (with_cluster w c') /\
    Cluster.nodes c' = staying w refreshed /\
    (forall h, Cluster.aliases c' !! h
       = if decide (h ∈ aliases_of w (leaving w refreshed)) then None
         else Cluster.aliases (Cluster.cluster w) !! h) /\
    Cluster.partition_write_map c' = Cluster.partition_write_map (Cluster.cluster w) /\
    Cluster.seeds c' = Cluster.seeds (Cluster.cluster w).
Proof.
  intros Hw Hn. pose proof Hw as [Hl Hd]. pose proof (linked_nodes w Hl) as Hk.
  unfold known in Hk. rewrite Forall_forall in Hk.
  assert (sees (Cluster.find_nodes_to_remove refreshed) w (leaving w refreshed)) as E.
  { eapply sees_bind; [reflexivity|]. apply filter_m_sees. intros id Hid.
    apply must_remove_sees; [exact Hl|exact Hn|apply Hk, Hid]. }
  assert (Forall (fun id => id ∈ Cluster.nodes (Cluster.cluster w)) (leaving w refreshed)) as Hin.
  { apply Forall_forall. intros id Hid%list_elem_of_In. apply filter_In in Hid as [Hid _].
    apply list_elem_of_In, Hid. }
  eexists. split.
  - unfold bind. rewrite E. unfold Cluster.remove_nodes_and_aliases.
    fold (forget (Net := Net) (leaving w refreshed)). unfold bind.
    rewrite forget_run; [|eapply Forall_impl; [exact Hin|exact Hk]|exact Hin].
    rewrite (remove_nodes_run w refreshed) by (exact Hw || reflexivity). reflexivity.
  - cbn. split; [reflexivity|]. split; [intros h; apply lookup_deletes|]. split; reflexivity.
Qed.

End Removal.

(** ** Example: two nodes, one inactive *)

Section Example.
#[local] Existing Instance byteorder_model.
#[local] Existing Instance clock_model.
#[local] Existing Instance silent_dialer.
#[local] Existing Instance plain_resolver.

#[local] Instance no_base64 : Base64 := {| base64_decode _ := None |}.

Definition member (name : bytes) (port : Z) (active : bool) : Node :=
  let host := mkHost (str "10.0.0.1") port in
  Node.mkNode ClientPolicy_default name host [host] []
    (ConnectionPool.mkConnectionPool 1 [] 0) 0 0 0 0 true active true true.

Definition pair_world : Cluster.World unit :=
  Cluster.mkWorld
    (Cluster.mkCluster [] {[ mkHost (str "10.0.0.1") 3000 := 0%nat; mkHost (str "10.0.0.1") 3001 := 1%nat ]}
       [0; 1]%nat ∅ 0 ClientPolicy_default false)
    [member (str "A") 3000 true; member (str "B") 3001 false] ([], tt) 0.

Lemma pair_well_formed : well_formed pair_world.
Proof.
  split; [split|].
  - repeat constructor; eexists; reflexivity.
  - intros h id Hid. cbn in Hid. apply lookup_insert_Some in Hid as [[_ <-]|[_ Hid]].
    + eexists; reflexivity.
    + apply lookup_singleton_Some in Hid as [_ <-]. eexists; reflexivity.
  - intros ns l H. discriminate H.
  - apply (bool_decide_unpack (NoDup _)). vm_compute. reflexivity.
Qed.

Lemma nodes_removed_witness :
  exists c',
    (let! remove_list := Cluster.find_nodes_to_remove 1 in
     Cluster.remove_nodes_and_aliases remove_list) pair_world = Ret tt (with_cluster pair_world c') /\
    Cluster.nodes c' = [0%nat] /\
    Cluster.aliases c' !! mkHost (str "10.0.0.1") 3001 = None.
Proof.
  destruct (nodes_removed 1 pair_world pair_well_formed)
    as (c' & E & Hn & Ha & _); [discriminate|].
  exists c'. split; [exact E|]. split; [exact Hn|]. rewrite Ha. reflexivity.
Defined.

End Example.
