(* ===== verification/RefreshFacts.v ===== *)
(** * What a node tells of itself

    [Node::refresh] and [Cluster::update_partitions] on a node that answers.
    [node_refreshed]: the request is the four commands, the friends are the hosts of
    the list of services that have no alias yet, in their order and once each, and
    the counters are those of the answer.  [partitions_taken]: the partitions of the
    bitmaps are routed to the node from then on, and the others where they were. *)

From stdpp Require Import base list strings gmap.
From Stdlib Require Import ZArith Lia.
From S2P Require Import Prelude ResultCodes Monad ByteOrder Slices Text Buffer Policy.
From S2P Require Import Connection Hosts Info ClientPolicy ConnectionPool Nodes Cluster.
From S2P Require Import ConnectionFacts PoolFacts PartitionFacts.
Import Connection Message.

#[local] Open Scope Z_scope.
#[local] Open Scope m_scope.

(** ** An info exchange on a pooled connection *)

Section Refresh.
Context `{BO : ByteOrder} `{CL : Clock} `{DI : Dialer Net}.
Implicit Types s : Node * Node.Shared Net.

Definition held (queue : nat) (c : Connection) : ConnectionPool.PooledConnection :=
  ConnectionPool.mkPooledConnection queue (Some c).

(** The connection [c] is next in line at [s], and has the answer to read. *)
Record asked (timeout : option Duration) (commands : list bytes)
    (entries : list (bytes * bytes)) (rest : bytes) s s1 (queue : nat) (c : Connection) : Prop := {
  asked_connection : Node.get_connection timeout s = Ret (held queue c) s1;
  asked_answer : exists newlines v t,
    incoming (conn c) = info_message v t (response_text entries newlines) ++ rest /\
    utf8_valid (response_text entries newlines) = true /\
    len (response_text entries newlines) <= MAX_BUFFER_SIZE;
  asked_lines : entries <> [] /\ Forall (fun e => plain e.1 /\ plain e.2) entries;
  asked_room : 8 + len (join newline commands ++ [newline]) <= accepts (conn c);
  asked_length : len (join newline commands ++ [newline]) < 2 ^ 64
}.

(** [c'] is [c] after the exchange. *)
Definition exchanged (commands : list bytes) (rest : bytes) (c c' : Connection) : Prop :=
  incoming (conn c') = rest /\
  outgoing (conn c') = outgoing (conn c) ++ info_message 2 1 (join newline commands ++ [newline]).

Lemma pooled_info timeout commands entries rest s s1 queue c :
  asked timeout commands entries rest s s1 queue c ->
  exists c', exchanged commands rest c c' /\
    forall s2, Node.with_pool (ConnectionPool.drop (held queue c')) s1 = Ret tt s2 ->
      Node.info timeout commands s = Ret (entries_map entries) s2.
Proof.
  intros [Hc (newlines & v & t & Hi & Hu & Hl) [Hne Hp] Hroom Hlen].
  destruct (info_spec commands entries newlines v t rest c Hi Hne Hp Hu Hl Hlen Hroom)
    as (c' & E & Hi' & Ho').
  exists c'. split; [split; assumption|]. intros s2 Hd.
  unfold Node.info, bind. rewrite Hc. unfold Node.on_pooled, held. cbn [ConnectionPool.conn].
  rewrite E. unfold bind. cbn [ConnectionPool.queue].
  unfold held in Hd. rewrite Hd. reflexivity.
Qed.

(** The pool is all that an operation on it changes. *)
Lemma with_pool_node {A} (m : M (ConnectionPool.Pooled Net) A) s a s' :
  Node.with_pool m s = Ret a s' -> exists pool, s'.1 = Node.set_connection_pool pool s.1.
Proof.
  destruct s as [n [queues net]]. unfold Node.with_pool.
  destruct (m _) as [b p| | |]; try discriminate. intros [= <- <-]. eexists. reflexivity.
Qed.

(** ** The list of services *)

Definition service_text (h : bytes * Z) : bytes := h.1 ++ 58 :: str (dec_string h.2).

Definition services_text (hs : list (bytes * Z)) : bytes := join 59 (service_text <$> hs).

Definition service_ok (h : bytes * Z) : Prop :=
  Forall (fun c => (58 =? c) = false) h.1 /\ Forall (fun c => (59 =? c) = false) h.1 /\ in_u 16 h.2.

Definition service_alias (policy : ClientPolicy) (h : bytes * Z) : Host :=
  Node.alias_of policy h.1 h.2.

(** The hosts without an alias, each once. *)
Definition add_friend (friends : list Host) (alias : Host) : list Host :=
  if bool_decide (alias ∈ friends) then friends else friends ++ [alias].

Definition new_friends (current : gset Host) (hosts : list Host) : list Host :=
  foldl add_friend [] (filter (fun h => h ∉ current) hosts).

(** How many of the hosts have one. *)
Definition references (current : gset Host) (hosts : list Host) : Z :=
  len (filter (fun h => h ∈ current) hosts).

Definition referred (k : Z) (n : Node) : Node :=
  Node.set_reference_count (wrap_u 64 (Node.reference_count n + k)) n.

Lemma service_split h :
  service_ok h -> split (Z.eqb 58) (service_text h) = [h.1; str (dec_string h.2)].
Proof.
  intros (H1 & _ & Hp & _). unfold service_text.
  rewrite split_sep by (exact H1 || reflexivity).
  rewrite split_piece; [reflexivity|]. apply dec_string_free; [exact Hp|]. intros d Hd. lia.
Qed.

Lemma referred_more j k n : referred k (referred j n) = referred (j + k) n.
Proof.
  assert (forall r, wrap_u 64 (wrap_u 64 (r + j) + k) = wrap_u 64 (r + (j + k))) as E
    by (intros r; unfold wrap_u; rewrite Zplus_mod_idemp_l; f_equal; lia).
  unfold referred, Node.set_reference_count. cbn. rewrite E. reflexivity.
Qed.

Lemma add_friends_loop_spec current hs : forall friends (n : Node) (sh : Node.Shared Net),
  Forall service_ok hs -> in_u 64 (Node.reference_count n) ->
  Node.add_friends_loop current (service_text <$> hs) friends (n, sh)
  = let hosts := service_alias (Node.client_policy n) <$> hs in
    Ret (foldl add_friend friends (filter (fun h => h ∉ current) hosts))
      (referred (references current hosts) n, sh).
Proof.
  induction hs as [|h hs IH]; intros friends n sh Hs Hr; cbv zeta.
  - cbn. unfold ret, referred, references. cbn. rewrite Z.add_0_r, wrap_u_id by exact Hr.
    destruct n; reflexivity.
  - apply Forall_cons in Hs as [Hh Hs]. cbn [fmap list_fmap Node.add_friends_loop].
    rewrite service_split by exact Hh. destruct Hh as (_ & _ & Hp).
    rewrite parse_u16_dec by exact Hp. unfold bind at 1, on_fst, get. cbn [fst snd].
    fold (service_alias (Node.client_policy n) h).
    set (a := service_alias (Node.client_policy n) h).
    rewrite filter_cons. unfold references. rewrite filter_cons.
    case_bool_decide as Ha.
    + rewrite decide_False by (intros H; exact (H Ha)). rewrite decide_True by exact Ha.
      unfold bind, Node.modify, on_fst. cbn [fst snd].
      fold (referred 1 n). rewrite IH; [|exact Hs|apply (wrap_u_range 64); lia].
      cbn [Node.client_policy referred Node.set_reference_count].
      change (Node.set_reference_count _ n) with (referred 1 n).
      rewrite referred_more, len_cons. reflexivity.
    + rewrite (decide_True _ _ Ha). rewrite (decide_False _ _ Ha). cbn [foldl].
      unfold add_friend at 2. case_bool_decide; apply (IH _ n sh Hs Hr).
Qed.

Lemma services_split hs :
  hs <> [] -> Forall service_ok hs -> split (Z.eqb 59) (services_text hs) = service_text <$> hs.
Proof.
  intros Hne Hs. apply split_join; [destruct hs; [congruence|discriminate]|].
  apply Forall_fmap. eapply Forall_impl; [exact Hs|]. intros h (_ & H2 & Hp & _). unfold compose.
  unfold service_text. apply Forall_app. split; [exact H2|]. constructor; [reflexivity|].
  apply dec_string_free; [exact Hp|]. intros d Hd. lia.
Qed.

Lemma services_text_nil hs : hs <> [] -> services_text hs <> [].
Proof.
  destruct hs as [|h [|h' hs]]; [congruence|intros _ E..]; unfold services_text, service_text in E;
    cbn in E; destruct h.1; discriminate E.
Qed.

Lemma add_friends_spec (current : gset Host) (m : gmap bytes bytes) hs (n : Node) (sh : Node.Shared Net) :
  m !! Node.services_name n = Some (services_text hs) ->
  Forall service_ok hs -> in_u 64 (Node.reference_count n) ->
  Node.add_friends current m (n, sh)
  = let hosts := service_alias (Node.client_policy n) <$> hs in
    Ret (new_friends current hosts) (referred (references current hosts) n, sh).
Proof.
  intros Hm Hs Hr. unfold Node.add_friends, bind at 1, on_fst, get. cbn [fst snd]. rewrite Hm.
  destruct hs as [|h hs].
  - change (services_text []) with (@nil Z).
    pose proof (add_friends_loop_spec current [] [] n sh Hs Hr) as E. exact E.
  - destruct (services_text (h :: hs)) as [|c text] eqn:E;
      [destruct (services_text_nil (h :: hs) ltac:(discriminate) E)|].
    rewrite <- E, services_split by (discriminate || exact Hs).
    apply (add_friends_loop_spec current (h :: hs) [] n sh Hs Hr).
Qed.

(** ** The refresh of a node *)

(** The counters at the start of a refresh, and after it. *)
Definition refreshing (n : Node) : Node :=
  Node.set_refresh_count (wrap_u 64 (Node.refresh_count n + 1))
    (Node.set_responded false (Node.set_reference_count 0 n)).

Definition refreshed (refs gen : Z) (n : Node) : Node :=
  Node.set_failures 0
    (Node.set_partition_generation gen (referred refs (Node.set_responded true n))).

Definition refresh_commands (n : Node) : list bytes :=
  [str "node"; str "cluster-name"; str "partition-generation"; Node.services_name n].

(** What a node tells of itself that is the node it is known as. *)
Record tells_of (n : Node) (m : gmap bytes bytes) (hs : list (bytes * Z)) (gen : Z) : Prop := {
  tells_name : m !! str "node" = Some (Node.name n);
  tells_cluster :
    match cluster_name (Node.client_policy n) with
    | Some expected => m !! str "cluster-name" = Some expected
    | None => True
    end;
  tells_services : m !! Node.services_name n = Some (services_text hs);
  tells_hosts : Forall service_ok hs;
  tells_generation : m !! str "partition-generation" = Some (str (dec_string gen));
  tells_range : 0 <= gen < 2 ^ 63
}.

Lemma validate_told (m : gmap bytes bytes) (n : Node) (sh : Node.Shared Net) hs gen :
  tells_of n m hs gen -> Node.validate_node m (n, sh) = Ret tt (n, sh).
Proof.
  intros [Hn Hc _ _ _ _]. unfold Node.validate_node.
  unfold bind at 1, Node.verify_node_name, bind at 1, on_fst at 1, get. cbn [fst snd].
  rewrite Hn, bool_decide_eq_true_2 by reflexivity. cbn [ret].
  unfold Node.verify_cluster_name, bind, on_fst, get. cbn [fst snd].
  destruct (cluster_name (Node.client_policy n)); [|reflexivity].
  rewrite Hc, bool_decide_eq_true_2 by reflexivity. reflexivity.
Qed.

Lemma parse_isize_dec gen : 0 <= gen < 2 ^ 63 -> parse_isize (str (dec_string gen)) = Some gen.
Proof.
  intros [H1 H2]. destruct (dec_string_digits gen H1) as (ds & -> & Hne & Hds & Hv).
  unfold parse_isize. rewrite parse_int_digits by (assumption || lia). rewrite Hv. reflexivity.
Qed.

Lemma modify_then {A} f (m : M (Node * Node.Shared Net) A) (n : Node) sh :
  (Node.modify f ;;; m) (n, sh) = m (f n, sh).
Proof. reflexivity. Qed.

Lemma get_then {A} (k : Node -> M (Node * Node.Shared Net) A) (n : Node) sh :
  (let! n := on_fst get in k n) (n, sh) = k n (n, sh).
Proof. reflexivity. Qed.

Lemma chained {St A B} e (m : M St A) (k : A -> M St B) x a x' :
  m x = Ret a x' -> (let! r := chain_err e m in k r) x = k a x'.
Proof. intros H. unfold chain_err, bind. rewrite H. reflexivity. Qed.

(** C18: a node that answers as the node it is known as is sent the four commands
    on one connection, whose answer is taken exactly.  Once the connection is back,
    the friends are the hosts among its services, as the client reaches them, that
    no node has as an alias, in their order and each once; the node counts the
    others as references, has the generation of the answer and no failures. *)
Theorem node_refreshed (current : gset Host) (n : Node) (sh : Node.Shared Net)
    entries hs gen rest s1 queue c :
  let commands := refresh_commands n in
  asked None commands entries rest (refreshing n, sh) s1 queue c ->
  tells_of n (entries_map entries) hs gen ->
  exists c', exchanged commands rest c c' /\
    forall n2 sh2,
      Node.with_pool (ConnectionPool.drop (held queue c')) s1 = Ret tt (n2, sh2) ->
      let hosts := service_alias (Node.client_policy n) <$> hs in
      Node.refresh current (n, sh)
      = Ret (new_friends current hosts) (refreshed (references current hosts) gen n2, sh2).
Proof.
  intros commands Hasked Htold.
  destruct (pooled_info _ _ _ _ _ _ _ _ Hasked) as (c' & Hx & Hinfo).
  exists c'. split; [exact Hx|]. intros n2 sh2 Hd hosts. specialize (Hinfo _ Hd).
  destruct (with_pool_node _ _ _ _ (asked_connection _ _ _ _ _ _ _ _ Hasked)) as (p1 & E1).
  destruct (with_pool_node _ _ _ _ Hd) as (p2 & E2). cbn [fst] in E1, E2. rewrite E1 in E2.
  assert (tells_of n2 (entries_map entries) hs gen) as Htold2 by (rewrite E2; destruct Htold; split; assumption).
  assert (Node.client_policy n2 = Node.client_policy n) as Hpol by (rewrite E2; reflexivity).
  assert (Node.reference_count n2 = 0) as Href by (rewrite E2; reflexivity).
  unfold Node.refresh. rewrite !modify_then. fold (refreshing n). rewrite get_then.
  change (Node.services_name (refreshing n)) with (Node.services_name n).
  fold (refresh_commands n). fold commands.
  rewrite (chained _ _ _ _ _ _ Hinfo).
  rewrite (chained _ _ _ _ _ _ (validate_told _ n2 sh2 hs gen Htold2)), modify_then.
  destruct Htold2 as [_ _ Hserv Hs Hgen Hrange].
  rewrite (chained _ _ _ _ _ _ (add_friends_spec current (entries_map entries) hs
    (Node.set_responded true n2) sh2 Hserv Hs ltac:(cbn; rewrite Href; unfold in_u; lia))).
  assert (forall s : Node * Node.Shared Net, Node.update_partitions (entries_map entries) s
    = Node.modify (Node.set_partition_generation gen) s) as Hup
    by (intros s; unfold Node.update_partitions; rewrite Hgen, parse_isize_dec by exact Hrange; reflexivity).
  unfold chain_err. unfold bind at 1. rewrite Hup. cbn [Node.client_policy Node.set_responded].
  rewrite Hpol. reflexivity.
Qed.

(** ** The partitions of a node *)

Context `{B64 : Base64}.
Implicit Types w : Cluster.World Net.

(** Where the partition map sends a partition. *)
Definition routed w (namespace : bytes) (i : Z) : option NodeId :=
  Cluster.partition_write_map (Cluster.cluster w) !! namespace ≫= (fun l => l !! Z.to_nat i).

Lemma routed_get_node w namespace i node :
  routed w namespace i = Some node ->
  Cluster.get_node (mkPartition namespace i) w = Ret node w.
Proof.
  unfold routed, Cluster.get_node, bind, Cluster.asks. cbn [part_namespace partition_id].
  destruct (Cluster.partition_write_map _ !! namespace) as [l|]; [|discriminate]. cbn.
  destruct (l !! Z.to_nat i); [intros [= ->]; reflexivity|discriminate].
Qed.

Lemma take_over_all_other node decoded : forall m ns,
  ns ∉ decoded.*1 -> foldl (take_over node) m decoded !! ns = m !! ns.
Proof.
  induction decoded as [|e decoded IH]; intros m ns Hn; [reflexivity|].
  apply not_elem_of_cons in Hn as [He Hn]. cbn [foldl]. rewrite IH by exact Hn.
  unfold take_over. destruct (m !! e.1); apply lookup_insert_ne; congruence.
Qed.

Lemma take_over_all node decoded : forall m ns bitmap,
  NoDup decoded.*1 -> (ns, bitmap) ∈ decoded ->
  foldl (take_over node) m decoded !! ns = take_over node m (ns, bitmap) !! ns.
Proof.
  induction decoded as [|e decoded IH]; intros m ns bitmap Hnd Hin; [inversion Hin|].
  cbn [fmap list_fmap] in Hnd. apply NoDup_cons in Hnd as [Hn Hnd]. cbn [foldl].
  apply elem_of_cons in Hin as [<-|Hin].
  - apply take_over_all_other, Hn.
  - rewrite (IH _ ns bitmap Hnd Hin).
    assert (e.1 <> ns) as Hne
      by (intros <-; apply Hn; exact (list_elem_of_fmap_2 fst _ _ Hin)).
    assert (take_over node m e !! ns = m !! ns) as Hm
      by (unfold take_over; destruct (m !! e.1); apply lookup_insert_ne, Hne).
    unfold take_over at 1 3. cbn [fst snd]. rewrite Hm.
    destruct (m !! ns); rewrite !lookup_insert_eq; reflexivity.
Qed.

(** A partition after the answer of the node: its own if its bit is set or nobody's
    before, and where it was otherwise. *)
Lemma take_over_entry node m ns bitmap i :
  complete m -> 0 <= i < PARTITIONS ->
  take_over node m (ns, bitmap) !! ns ≫= (fun l => l !! Z.to_nat i)
  = Some (match m !! ns ≫= (fun l => l !! Z.to_nat i) with
          | Some old => if bit bitmap (Z.to_nat i) then node else old
          | None => node
          end).
Proof.
  intros Hm Hi. unfold take_over. cbn [fst snd].
  destruct (m !! ns) as [l|] eqn:Hl; rewrite lookup_insert_eq; cbn [mbind option_bind].
  - specialize (Hm _ _ Hl). cbn in Hm. unfold len in Hm.
    destruct (lookup_lt_is_Some_2 l (Z.to_nat i)) as [old Hold]; [lia|].
    rewrite list_lookup_imap, Hold. reflexivity.
  - apply lookup_replicate_2. lia.
Qed.

(** Namespaces and bitmaps, as the answer of a node has them. *)
Record partition_answer (encoded decoded : list (bytes * bytes)) : Prop := {
  pa_some : encoded <> [];
  pa_pieces : Forall (fun e => Forall (fun c => part_separator c = false) e.1
                               /\ Forall (fun c => part_separator c = false) e.2) encoded;
  pa_bitmaps : Forall2 PartitionFacts.answers encoded decoded;
  pa_names : NoDup decoded.*1;
  pa_text : utf8_valid (answer_text encoded) = true /\ trim_end (answer_text encoded) = answer_text encoded
}.

(** C19: a node that answers with its partitions is sent one command on one
    connection, whose answer is taken exactly.  Once the connection is back, the
    keys of the partitions whose bits are set are sent to the node, and so are all
    those of a namespace that was not known; those of the other partitions are
    sent where they were. *)
Theorem partitions_taken node (n : Node) w encoded decoded rest s1 queue c :
  let entries := [(PartitionTokenizer.REPLICAS_NAME, answer_text encoded)] in
  let commands := [PartitionTokenizer.REPLICAS_NAME] in
  let timeout := cp_timeout (Cluster.client_policy (Cluster.cluster w)) in
  Cluster.heap w !! node = Some n ->
  asked timeout commands entries rest (n, Cluster.shared w) s1 queue c ->
  partition_answer encoded decoded ->
  complete (Cluster.partition_write_map (Cluster.cluster w)) ->
  exists c', exchanged commands rest c c' /\
    forall n2 sh2,
      Node.with_pool (ConnectionPool.drop (held queue c')) s1 = Ret tt (n2, sh2) ->
      exists w',
        Cluster.update_partitions node w = Ret tt w' /\
        Cluster.heap w' = <[node := n2]> (Cluster.heap w) /\ Cluster.shared w' = sh2 /\
        complete (Cluster.partition_write_map (Cluster.cluster w')) /\
        forall namespace i, 0 <= i < PARTITIONS ->
          (forall bitmap, (namespace, bitmap) ∈ decoded ->
             let to := match routed w namespace i with
                       | Some old => if bit bitmap (Z.to_nat i) then node else old
                       | None => node
                       end in
             Cluster.get_node (mkPartition namespace i) w' = Ret to w') /\
          (namespace ∉ decoded.*1 -> routed w' namespace i = routed w namespace i).
Proof.
  intros entries commands timeout Hn Hasked [Hne Hp Hb Hnd [Hu Htrim]] Hm.
  destruct Hasked as [Hc (newlines & v & t & Hi & Hutf & Hl) [Hes Hplain] Hroom Hlen].
  destruct (info_spec commands entries newlines v t rest c Hi Hes Hplain Hutf Hl Hlen Hroom)
    as (c' & E & Hi' & Ho').
  exists c'. split; [split; assumption|]. intros n2 sh2 Hd.
  set (m := Cluster.partition_write_map (Cluster.cluster w)) in *.
  destruct (update_partition_spec node encoded decoded m
    (Cluster.mkWorld (Cluster.cluster w) (<[node := n2]> (Cluster.heap w)) sh2 (Cluster.ticks w))
    Hm Hne Hp Hb Hu Htrim) as [Hup Hm'].
  assert (PartitionTokenizer.new c
          = Ret (PartitionTokenizer.mkPartitionTokenizer (answer_text encoded)) c') as Hnew.
  { unfold PartitionTokenizer.new, bind. fold commands. rewrite E.
    change (entries_map entries)
      with (<[PartitionTokenizer.REPLICAS_NAME := answer_text encoded]> (∅ : gmap bytes bytes)).
    rewrite lookup_insert_eq. reflexivity. }
  exists (Cluster.mkWorld (Cluster.with_partitions (foldl (take_over node) m decoded) (Cluster.cluster w))
    (<[node := n2]> (Cluster.heap w)) sh2 (Cluster.ticks w)).
  split; [|split; [reflexivity|split; [reflexivity|split; [exact Hm'|]]]].
  - unfold Cluster.update_partitions, bind at 1, Cluster.asks. fold timeout.
    unfold bind at 1, Cluster.on_node. rewrite Hn. unfold bind at 1. rewrite Hc.
    unfold Node.on_pooled. cbn [ConnectionPool.conn held]. rewrite Hnew.
    unfold bind at 1. cbn [ConnectionPool.queue held]. fold (held queue c'). rewrite Hd. cbn [ret].
    unfold bind. cbn [Cluster.cluster]. fold m. rewrite Hup. reflexivity.
  - intros namespace i Hrange. split.
    + intros bitmap Hin. apply routed_get_node. unfold routed. cbn [Cluster.cluster].
      change (Cluster.partition_write_map (Cluster.with_partitions (foldl (take_over node) m decoded)
        (Cluster.cluster w))) with (foldl (take_over node) m decoded).
      rewrite (take_over_all node decoded m namespace bitmap Hnd Hin).
      apply take_over_entry; assumption.
    + intros Hout. unfold routed. cbn [Cluster.cluster].
      change (Cluster.partition_write_map (Cluster.with_partitions (foldl (take_over node) m decoded)
        (Cluster.cluster w))) with (foldl (take_over node) m decoded).
      rewrite take_over_all_other by exact Hout. reflexivity.
Qed.

End Refresh.

(** ** An example: a node with an idle connection *)

Section Example.
#[local] Existing Instance byteorder_model.
#[local] Existing Instance clock_model.
#[local] Existing Instance silent_dialer.

#[local] Instance two_bits : Base64 := {| base64_decode _ := Some (0xc0 :: replicate 511 0) |}.

Definition told_host : Host := mkHost (str "10.0.0.1") 3000.

Definition told_node : Node :=
  Node.mkNode ClientPolicy_default (str "BB9") told_host [told_host] []
    (ConnectionPool.mkConnectionPool 1 [0%nat] 0) 3 (-1) 0 0 false true true true.

Definition told_entries : list (bytes * bytes) :=
  [(str "node", str "BB9"); (str "cluster-name", str "null");
   (str "partition-generation", str "7");
   (str "services", str "10.0.0.1:3000;10.0.0.2:3000;10.0.0.2:3000")].

Definition told_conn (entries : list (bytes * bytes)) : Connection :=
  mkConnection None None
    (mkTcpStream (info_message 2 1 (response_text entries 1) ++ [9]) [] 1000 false None)
    0 (Buffer_new 0) 0.

Definition told_queues (idle : list Connection) : list Queue :=
  [Queue.mkQueue idle 1 2 told_host ClientPolicy_default].

(** The connection with its timeout set. *)
Definition told_ready (timeout : option Duration) (entries : list (bytes * bytes)) : Connection :=
  from_option id (told_conn entries) (set_timeout timeout (told_conn entries)).

Definition told_state (entries : list (bytes * bytes)) : Node.Shared () :=
  (told_queues [told_conn entries], tt).

(** The node refers to itself, and to a new host twice. *)
Lemma node_refreshed_witness :
  exists n', match Node.refresh {[told_host]} (told_node, told_state told_entries) with
             | Ret friends s => s.1 = n' /\ friends = [mkHost (str "10.0.0.2") 3000]
             | _ => False
             end /\ Node.reference_count n' = 1 /\ Node.partition_generation n' = 7
             /\ Node.failures n' = 0 /\ Node.responded n' = true.
Proof.
  destruct (node_refreshed {[told_host]} told_node (told_state told_entries) told_entries
    [(str "10.0.0.1", 3000); (str "10.0.0.2", 3000); (str "10.0.0.2", 3000)] 7 [9]
    (refreshing told_node, (told_queues [], tt)) 0%nat (told_ready None told_entries))
    as (c' & _ & H).
  - split.
    + vm_compute. reflexivity.
    + exists 1%nat, 2, 1. vm_compute. repeat split; reflexivity || discriminate.
    + split; [discriminate|].
      repeat constructor; vm_compute; reflexivity.
    + vm_compute. discriminate.
    + vm_compute. reflexivity.
  - split; try (vm_compute; reflexivity).
    + repeat constructor; vm_compute; reflexivity || discriminate.
    + lia.
  - rewrite (H _ _ eq_refl). eexists. split; [split; [reflexivity|vm_compute; reflexivity]|].
    vm_compute. repeat split.
Defined.

(** A node that has the first two partitions of a namespace. *)
Definition told_partitions : list (bytes * bytes) :=
  [(PartitionTokenizer.REPLICAS_NAME, answer_text [(str "test", str "wAAA")])].

(** Another node has had them all. *)
Definition told_world : Cluster.World () :=
  Cluster.mkWorld
    (Cluster.mkCluster [] ∅ [0; 1]%nat {[ str "test" := replicate 4096 1%nat ]} 0
       ClientPolicy_default false)
    [told_node; told_node] (told_state told_partitions) 0.

Lemma partitions_taken_witness :
  exists w', Cluster.update_partitions 0%nat told_world = Ret tt w'
    /\ Cluster.get_node (mkPartition (str "test") 1) w' = Ret 0%nat w'
    /\ Cluster.get_node (mkPartition (str "test") 2) w' = Ret 1%nat w'.
Proof.
  assert (decoded_in : ((str "test", 0xc0 :: replicate 511 0) : bytes * bytes)
            ∈ [(str "test", 0xc0 :: replicate 511 0)]) by (apply list_elem_of_singleton; reflexivity).
  destruct (partitions_taken 0%nat told_node told_world [(str "test", str "wAAA")]
    [(str "test", 0xc0 :: replicate 511 0)] [9]
    (told_node, (told_queues [], tt)) 0%nat
    (told_ready (cp_timeout ClientPolicy_default) told_partitions)) as (c' & _ & H).
  - reflexivity.
  - split.
    + vm_compute. reflexivity.
    + exists 1%nat, 2, 1. vm_compute. repeat split; reflexivity || discriminate.
    + split; [discriminate|]. repeat constructor; vm_compute; reflexivity.
    + vm_compute. discriminate.
    + vm_compute. reflexivity.
  - split; [discriminate|repeat constructor|repeat constructor; vm_compute; discriminate| |].
    + cbn. apply NoDup_singleton.
    + vm_compute. split; reflexivity.
  - apply map_Forall_singleton. vm_compute. reflexivity.
  - destruct (H _ _ eq_refl) as (w' & E & _ & _ & _ & Hr). exists w'. split; [exact E|].
    assert (forall i, 0 <= i < PARTITIONS -> routed told_world (str "test") i = Some 1%nat) as Hold.
    { intros i Hi. unfold routed, told_world. cbn [Cluster.cluster Cluster.partition_write_map].
      rewrite lookup_singleton_eq. apply lookup_replicate_2. unfold PARTITIONS in Hi. lia. }
    assert (forall i, 0 <= i < PARTITIONS -> Cluster.get_node (mkPartition (str "test") i) w'
      = Ret (if bit (0xc0 :: replicate 511 0) (Z.to_nat i) then 0%nat else 1%nat) w') as Hto.
    { intros i Hi. rewrite (proj1 (Hr _ i Hi) _ decoded_in), Hold by exact Hi. reflexivity. }
    split; rewrite Hto by (unfold PARTITIONS; lia); reflexivity.
Defined.

End Example.
