(* ===== verification/ClusterExecute.v ===== *)
(** * Commands on a cluster

    The cluster with its nodes, pools and network is an environment in which
    commands are executed ([Execute.Environment]), and its pools keep the promise
    that the retry loop relies on ([ExecuteFacts.Leasing]): they count the
    connections that are out. *)

From stdpp Require Import base list strings gmap.
From Stdlib Require Import ZArith Lia.
From S2P Require Import Prelude ResultCodes Monad ByteOrder Slices Buffer Policy.
From S2P Require Import Connection Hosts ClientPolicy ConnectionPool Nodes Cluster.
From S2P Require Import Execute PoolFacts ExecuteFacts.

Section Environment.
Context `{BO : ByteOrder} `{CL : Clock} `{DI : Dialer Net}.
Implicit Types w : Cluster.World Net.

(** A method of a [PooledConnection], which reaches its queue and nothing else of
    the pool. *)
Definition with_queues {A} (m : M (ConnectionPool.Pooled Net) A) : M (Cluster.World Net) A :=
  fun w =>
    let '(queues, net) := Cluster.shared w in
    let back p :=
      Cluster.mkWorld (Cluster.cluster w) (Cluster.heap w)
        (ConnectionPool.store p, ConnectionPool.net p) (Cluster.ticks w) in
    match m (ConnectionPool.mkPooled (ConnectionPool.mkConnectionPool 0 [] 0) queues net) with
    | Ret a p => Ret a (back p)
    | Throw e p => Throw e (back p)
    | Panic => Panic
    | NoFuel => NoFuel
    end.

(** [node.get_connection] of a command; the lease is the queue. *)
Definition node_connection (node : NodeId) (timeout : option Duration)
    : M (Cluster.World Net) (nat * Connection) :=
  let! pc := Cluster.on_node node (Node.get_connection timeout) in
  let! conn := unwrap (ConnectionPool.conn pc) in
  ret (ConnectionPool.queue pc, conn).

Definition leased (q : nat) (conn : Connection) : ConnectionPool.PooledConnection :=
  ConnectionPool.mkPooledConnection q (Some conn).

(** The environment of a command for a record: its node is the node of the
    partition ([SingleCommand::get_node]). *)
#[export] Instance cluster_environment (partition : Partition)
    : Environment (Cluster.World Net) NodeId nat := {|
  env_now := Cluster.world_now;
  sleep _ := ret tt;
  get_node := Cluster.get_node partition;
  get_connection := node_connection;
  invalidate q conn := with_queues (ConnectionPool.invalidate (leased q conn));
  put_back q conn := with_queues (ConnectionPool.drop (leased q conn))
|}.

(** ** Counting *)

(** How a result changes a count that is read off its state. *)
Definition shifts {S A} (count : S -> Z) (on_ret on_throw : Z) (m : M S A) : Prop :=
  forall s,
    match m s with
    | Ret _ s' => count s' = count s + on_ret
    | Throw _ s' => count s' = count s + on_throw
    | _ => True
    end.

Lemma shifts_ret {S A} count n (a : A) : shifts (S := S) count 0 n (ret a).
Proof. intros s. cbn. lia. Qed.

Lemma shifts_throw {S A} count n e : shifts (S := S) (A := A) count n 0 (throw e).
Proof. intros s. cbn. lia. Qed.

Lemma shifts_panic {S A} count n k : shifts (S := S) (A := A) count n k panic.
Proof. intros s. exact I. Qed.

Lemma shifts_unwrap {S A} count n (o : option A) : shifts (S := S) count 0 n (unwrap o).
Proof. destruct o; [apply shifts_ret|apply shifts_panic]. Qed.

Lemma shifts_asks {S} count n : shifts (S := S) count 0 n get.
Proof. intros s. cbn. lia. Qed.

Lemma shifts_bind {S A B} count r1 r2 t (m : M S A) (k : A -> M S B) :
  shifts count r1 t m -> (forall a, shifts count r2 (t - r1) (k a)) ->
  shifts count (r1 + r2) t (bind m k).
Proof.
  intros Hm Hk s. specialize (Hm s). unfold bind. destruct (m s) as [a s'|e s'| |]; auto.
  specialize (Hk a s'). destruct (k a s'); lia || exact I.
Qed.

(** What may be done before and after without changing the count. *)
Lemma shifts_before {S A B} count r (m : M S A) (k : A -> M S B) :
  shifts count 0 0 m -> (forall a, shifts count r 0 (k a)) -> shifts count r 0 (bind m k).
Proof. intros Hm Hk. apply (shifts_bind count 0 r 0); assumption. Qed.

Lemma shifts_after {S A B} count r t (m : M S A) (f : A -> B) :
  shifts count r t m -> shifts count r t (let! a := m in ret (f a)).
Proof.
  intros Hm. replace r with (r + 0) by lia. apply shifts_bind; [replace (r + 0) with r by lia|];
    [exact Hm|]. intros a. apply shifts_ret.
Qed.

(** *** Queues *)

Abbreviation queue_out := (fun s : Queue * Net => out s.1).

Lemma shifts_decr t : shifts queue_out (-1) t (on_fst Queue.decr_conns).
Proof.
  intros [q net]. unfold on_fst, Queue.decr_conns, bind, get, usize_sub. cbn.
  destruct (1 <=? Queue.num_conns q); cbn; [unfold out; cbn; lia|exact I].
Qed.

Lemma shifts_net {A} (m : M Net A) : shifts queue_out 0 0 (on_snd m).
Proof. intros [q net]. unfold on_snd. cbn. destruct (m net); cbn; lia || exact I. Qed.

Lemma shifts_incr : shifts queue_out 1 0 (on_fst Queue.incr_conns).
Proof.
  intros [q net]. unfold on_fst, Queue.incr_conns, bind, get, usize_checked. cbn.
  destruct (Queue.num_conns q + 1 <? 2 ^ 64); cbn; [unfold out; cbn; lia|exact I].
Qed.

Lemma shifts_get_loop fuel : shifts queue_out 1 0 (Queue.get_loop fuel).
Proof.
  induction fuel as [|fuel IH]; [intros s; exact I|]. intros [q net]. cbn [Queue.get_loop].
  unfold bind at 1, on_fst at 1, Queue.pop_front, bind at 1, get. cbn [fst snd].
  destruct (Queue.connections q) as [|conn conns] eqn:Hq.
  - refine (shifts_before queue_out 1 (on_fst get) _ _ _ (q, net)).
    + intros [? ?]. cbn. lia.
    + intros q'. destruct (Queue.capacity q' <=? Queue.num_conns q'); [apply shifts_throw|].
      apply shifts_before; [apply shifts_net|]. intros conn.
      apply (shifts_after _ _ _ _ (fun _ => conn)), shifts_incr.
  - cbn [bind put ret].
    set (q1 := Queue.set_connections conns q).
    assert (out q1 = out q + 1) as E
      by (unfold out, q1; cbn; rewrite Hq, len_cons; lia).
    destruct (is_idle_total conn) as (idle & conn' & ->). destruct idle.
    + pose proof (shifts_bind queue_out (-1) 1 (-1) _ (fun _ => Queue.get_loop fuel)
        (shifts_decr (-1)) (fun _ => IH) (q1, net)) as H.
      destruct (bind _ _ (q1, net)); cbn in *; lia || exact I.
    + cbn. lia.
Qed.

Lemma shifts_queue_get timeout : shifts queue_out 1 0 (Queue.get timeout).
Proof.
  unfold Queue.get. apply shifts_before; [intros [? ?]; cbn; lia|]. intros q.
  apply (shifts_bind queue_out 1 0 0); [apply shifts_get_loop|]. intros conn.
  destruct (Connection.set_timeout timeout conn); [apply shifts_ret|].
  apply (shifts_bind queue_out (-1) 1 (-1)); [apply shifts_decr|]. intros _ s. cbn. lia.
Qed.

(** *** The store of queues *)

Definition total_out (store : list Queue) : Z := foldr (fun q n => out q + n) 0 store.

Lemma total_out_insert store : forall i q q',
  store !! i = Some q -> total_out (<[i := q']> store) = total_out store + (out q' - out q).
Proof.
  induction store as [|x store IH]; intros [|i] q q' Hi; try discriminate.
  - injection Hi as ->. unfold total_out. cbn. lia.
  - change (out x + total_out (<[i := q']> store)
      = out x + total_out store + (out q' - out q)).
    rewrite (IH i q q' Hi). lia.
Qed.

#[local] Arguments total_out : simpl never.

Abbreviation pool_out := (fun p : ConnectionPool.Pooled Net => total_out (ConnectionPool.store p)).

Lemma shifts_on_queue {A} i r t (m : M (Queue * Net) A) :
  shifts queue_out r t m -> shifts pool_out r t (ConnectionPool.on_queue i m).
Proof.
  intros Hm [pool store net]. unfold ConnectionPool.on_queue. cbn.
  destruct (store !! i) as [q|] eqn:Hi; [|exact I]. specialize (Hm (q, net)).
  destruct (m (q, net)) as [a [q' net']|e [q' net']| |]; try exact I;
    cbn [ConnectionPool.store fst] in *; rewrite (total_out_insert store i q q' Hi); lia.
Qed.

Lemma shifts_pool_queue_get q timeout :
  shifts pool_out 1 0 (ConnectionPool.queue_get q timeout).
Proof.
  apply (shifts_after pool_out 1 0 _ (fun c => ConnectionPool.mkPooledConnection q (Some c))).
  apply shifts_on_queue, shifts_queue_get.
Qed.

Lemma shifts_queue_at i : shifts pool_out 0 0 (ConnectionPool.queue_at i).
Proof. apply shifts_before; [apply shifts_asks|]. intros p. apply shifts_unwrap. Qed.

Lemma shifts_fetch : shifts pool_out 0 0 ConnectionPool.fetch_add_counter.
Proof. intros p. cbn. lia. Qed.

(** A [match] on the result of a call that takes one connection. *)
Lemma shifts_caught {A B} r (m : M (ConnectionPool.Pooled Net) A) (k : A + ErrorKind -> _) :
  shifts pool_out r 0 m ->
  (forall a, shifts (A := B) pool_out 0 (- r) (k (inl a))) ->
  (forall e, shifts pool_out r 0 (k (inr e))) ->
  shifts pool_out r 0 (let! x := catch m in k x).
Proof.
  intros Hm Ha He p. specialize (Hm p). unfold bind, catch.
  destruct (m p) as [a p'|e p'| |]; try exact I.
  - specialize (Ha a p'). destruct (k (inl a) p'); lia || exact I.
  - specialize (He e p'). destruct (k (inr e) p'); lia || exact I.
Qed.

Lemma shifts_pool_loop timeout : forall attempts,
  shifts pool_out 1 0 (ConnectionPool.get_loop attempts timeout).
Proof.
  induction attempts as [|attempts IH]; cbn [ConnectionPool.get_loop];
    (apply shifts_before; [apply shifts_fetch|]; intros i);
    (apply shifts_before; [apply shifts_asks|]; intros p);
    (apply shifts_before; [apply shifts_queue_at|]; intros q);
    (apply shifts_caught; [apply shifts_pool_queue_get|intros c; apply shifts_ret|]);
    intros []; try apply shifts_throw.
  destruct attempts; [apply shifts_throw|apply IH].
Qed.

Lemma shifts_pool_get timeout : shifts pool_out 1 0 (ConnectionPool.get timeout).
Proof.
  unfold ConnectionPool.get. apply shifts_before; [apply shifts_asks|]. intros p.
  destruct (_ =? 1); [|apply shifts_pool_loop].
  apply shifts_before; [apply shifts_queue_at|]. intros q. apply shifts_pool_queue_get.
Qed.

(** *** The cluster *)

Definition world_out w : Z := total_out (Cluster.shared w).1.

Lemma shifts_on_node {A} id r t (m : M (Node * Node.Shared Net) A) :
  shifts (fun s => total_out s.2.1) r t m -> shifts world_out r t (Cluster.on_node id m).
Proof.
  intros Hm [c h s ti]. unfold Cluster.on_node, world_out. cbn.
  destruct (h !! id) as [n|]; [|exact I]. specialize (Hm (n, s)).
  destruct (m (n, s)) as [a [? ?]|e [? ?]| |]; cbn in *; exact Hm.
Qed.

Lemma shifts_with_pool {A} r t (m : M (ConnectionPool.Pooled Net) A) :
  shifts pool_out r t m -> shifts (fun s => total_out s.2.1) r t (Node.with_pool m).
Proof.
  intros Hm [n [queues net]]. unfold Node.with_pool.
  specialize (Hm (ConnectionPool.mkPooled (Node.connection_pool n) queues net)).
  destruct (m _); cbn in *; exact Hm.
Qed.

Lemma shifts_node_connection node timeout :
  shifts world_out 1 0 (node_connection node timeout).
Proof.
  unfold node_connection. replace 1 with (1 + 0) by lia. apply shifts_bind.
  - apply shifts_on_node, shifts_with_pool, shifts_pool_get.
  - intros pc. apply (shifts_bind _ 0 0 (-1)); [apply shifts_unwrap|]. intros conn s. cbn. lia.
Qed.

Lemma shifts_node_field {A} id (f : Node -> A) : shifts world_out 0 0 (Cluster.node_field id f).
Proof. apply shifts_on_node. intros [n s]. cbn. lia. Qed.

Lemma shifts_random_loop l : forall tries, shifts world_out 0 0 (Cluster.random_loop tries l).
Proof.
  induction tries as [|tries IH]; [apply shifts_throw|]. cbn [Cluster.random_loop].
  apply shifts_before.
  { intros w. unfold Cluster.random_index, Cluster.asks, Cluster.modify, bind. cbn.
    destruct (_ <? 2 ^ 63); cbn; [unfold world_out; cbn; lia|exact I]. }
  intros index. destruct (l !! Z.to_nat index) as [node|]; [|exact IH].
  apply shifts_before; [apply shifts_node_field|]. intros [|]; [apply shifts_ret|exact IH].
Qed.

Lemma shifts_get_node partition : shifts world_out 0 0 (Cluster.get_node partition).
Proof.
  assert (shifts world_out 0 0 Cluster.get_random_node) as Hr.
  { apply shifts_before; [intros w; cbn; lia|]. intros l. apply shifts_random_loop. }
  apply shifts_before; [intros w; cbn; lia|]. intros partitions.
  destruct (partitions !! _) as [l|]; [|exact Hr].
  destruct (l !! _); [apply shifts_ret|exact Hr].
Qed.

(** Returning a connection. *)
Definition returning (m : M (ConnectionPool.Pooled Net) unit) : Prop :=
  forall p,
    match m p with
    | Ret _ p' => pool_out p' = pool_out p - 1
    | Throw _ _ => False
    | _ => True
    end.

Lemma returning_on_queue i (m : M Queue unit) :
  (forall q, match m q with
             | Ret _ q' => out q' = out q - 1 | Throw _ _ => False | _ => True end) ->
  returning (ConnectionPool.on_queue i (on_fst m)).
Proof.
  intros Hm [pool store net]. unfold ConnectionPool.on_queue, on_fst. cbn.
  destruct (store !! i) as [q|] eqn:Hi; [|exact I]. specialize (Hm q).
  destruct (m q) as [a q'|e q'| |]; try tauto. cbn [ConnectionPool.store fst].
  rewrite (total_out_insert store i q q' Hi). lia.
Qed.

Lemma decr_out q :
  match Queue.decr_conns q with
  | Ret _ q' => out q' = out q - 1 | Throw _ _ => False | _ => True end.
Proof.
  unfold Queue.decr_conns, bind, get, usize_sub.
  destruct (1 <=? Queue.num_conns q); cbn; [unfold out; cbn; lia|exact I].
Qed.

Lemma put_back_out conn q :
  match Queue.put_back conn q with
  | Ret _ q' => out q' = out q - 1 | Throw _ _ => False | _ => True end.
Proof.
  unfold Queue.put_back, bind at 1, get.
  destruct (_ <? _); [|apply decr_out]. cbn. unfold out. cbn.
  rewrite len_app, len_cons, len_nil. lia.
Qed.

Lemma returning_with_queues (m : M (ConnectionPool.Pooled Net) unit) w :
  returning m ->
  match with_queues m w with
  | Ret _ w' => world_out w' = world_out w - 1
  | Throw _ _ => False
  | _ => True
  end.
Proof.
  intros Hm. unfold with_queues, world_out. destruct w as [c h [queues net] ti]. cbn.
  specialize (Hm (ConnectionPool.mkPooled (ConnectionPool.mkConnectionPool 0 [] 0) queues net)).
  destruct (m _); cbn in *; exact Hm.
Qed.

(** The cluster keeps the promise of the retry loop. *)
#[export, refine] Instance cluster_leasing (partition : Partition)
    : Leasing (EN := cluster_environment partition) (Cluster.World Net) NodeId nat :=
  {| leases := world_out |}.
Proof.
  - intros w. cbn. reflexivity.
  - intros d w. reflexivity.
  - intros w. pose proof (shifts_get_node partition w) as H. unfold get_node. cbv [cluster_environment].
    destruct (Cluster.get_node partition w); lia || exact I.
  - intros node timeout w. pose proof (shifts_node_connection node timeout w) as H.
    unfold get_connection. cbv [cluster_environment].
    destruct (node_connection node timeout w); lia || exact I.
  - intros q conn w. apply returning_with_queues, returning_on_queue, put_back_out.
  - intros q conn w. apply returning_with_queues, returning_on_queue, decr_out.
Defined.

End Environment.
