(* ===== verification/EndToEnd.v ===== *)
(** * Commands on a record, from call to answer

    The parts together.  [execute_response], [execute_answer]: a command whose node
    answers sends exactly the message that it builds, with the timeout in its header,
    in whatever turn of the loop the node is [reached].
    [read_end_to_end]: a read takes exactly the response, keeps the record and puts
    the connection back.  [write_end_to_end]: a write ends as the result code says.
    The environment is any implementation of [Environment]. *)

From stdpp Require Import base list strings gmap.
From Stdlib Require Import ZArith Lia Setoid Morphisms.
From S2P Require Import Prelude ResultCodes Monad ByteOrder Slices Wire Buffer BufferFacts.
From S2P Require Import Wire Values Cdt Encoder EncoderFacts Expressions Operations Policy Records.
From S2P Require Import Connection Commands CommandFacts RecordCommands.
From S2P Require Import Responses ConnectionFacts ResponseFacts Info Execute ExecuteFacts.
From S2P Require Import Hosts ClientPolicy ConnectionPool PoolFacts Nodes Cluster ClusterExecute.
Import Connection.

Section EndToEnd.
Context `{BO : ByteOrder} `{VF : ValueFmt} `{CL : Clock}.

(** ** The request *)

(** The four bytes of the timeout, in milliseconds. *)
Definition timeout_bytes (timeout : option Duration) : bytes :=
  match timeout with
  | Some d => write_be 4 (as_secs d * 1000 + subsec_nanos d / 1000000)
  | None => [0; 0; 0; 0]
  end.

Definition small_timeout (timeout : option Duration) : Prop :=
  match timeout with
  | Some d => 0 <= as_secs d /\ 0 <= subsec_nanos d < 1000000000 /\
      as_secs d * 1000 + subsec_nanos d / 1000000 < 2 ^ 31
  | None => True
  end.

(** A header whose timeout is not set yet, and with a timeout. *)
Definition untimed (hdr : bytes) : Prop :=
  len hdr = 22 /\ take 4 (drop 14 hdr) = [0; 0; 0; 0].

Definition timed (timeout : option Duration) (hdr : bytes) : bytes :=
  take 14 hdr ++ timeout_bytes timeout ++ drop 18 hdr.

Lemma header_untimed r w i g e f o : untimed (header r w i g e f o).
Proof.
  split; [apply len_header|].
  set (pre := [MSG_REMAINING_HEADER_SIZE; r; w; i; 0; 0] ++ write_be 4 g ++ write_be 4 e).
  replace (header r w i g e f o) with (pre ++ [0; 0; 0; 0] ++ write_be 2 f ++ write_be 2 o)
    by (unfold pre, header; rewrite <- !(assoc_L (++)); reflexivity).
  assert (len pre = 14) as Hpre by (unfold pre; rewrite !len_app, !len_write_be; reflexivity).
  rewrite drop_app_length' by (unfold len in Hpre; lia). reflexivity.
Qed.

Lemma policy_header_untimed p r w f o : untimed (policy_header p r w f o).
Proof.
  unfold policy_header. destruct (exists_flags p w 0). destruct (generation_flags p _).
  apply header_untimed.
Qed.

Lemma untimed_split hdr :
  untimed hdr -> len (take 14 hdr) = 14 /\ hdr = take 14 hdr ++ [0; 0; 0; 0] ++ drop 18 hdr.
Proof.
  intros [Hl Hz]. unfold len in *. split; [rewrite length_take; lia|].
  rewrite <- Hz. change (drop 18 hdr) with (drop (14 + 4) hdr). rewrite <- drop_drop, take_drop.
  symmetry. apply take_drop.
Qed.

(** Writing the timeout into a message. *)
Lemma write_timeout_message timeout hdr body rt :
  small_timeout timeout -> untimed hdr ->
  Buffer.write_timeout timeout (mkBuffer (message hdr body) 8 rt)
  = Ret tt (mkBuffer (message (timed timeout hdr) body) 8 rt).
Proof.
  unfold message, timed. intros Ht [Hl E]%untimed_split. rewrite E at 1. clear E.
  revert Hl. generalize (take 14 hdr) as pre, (drop 18 hdr) as post. intros pre post Hl.
  destruct timeout as [d|]; [|reflexivity]. destruct Ht as (Hs & Hn & Hmax).
  pose proof (Z.div_pos (subsec_nanos d) 1000000 ltac:(lia) ltac:(lia)).
  pose proof (Z.div_lt_upper_bound (subsec_nanos d) 1000000 1000 ltac:(lia) ltac:(lia)).
  change (2 ^ 31) with 2147483648 in Hmax.
  unfold Buffer.write_timeout, bind, usize_checked.
  rewrite (proj2 (Z.ltb_lt _ _)) by (change (2 ^ 64) with 18446744073709551616; lia).
  cbn [ret]. unfold as_i32.
  rewrite !wrap_i_id by (unfold in_i; cbn; lia). change (2 ^ 31) with 2147483648.
  rewrite (proj2 (Z.ltb_ge _ _)) by lia. rewrite (proj2 (Z.leb_gt _ _)) by lia.
  cbn [orb data_buffer].
  set (front := protocol_header (MSG_REMAINING_HEADER_SIZE + len body) ++ pre).
  assert (len front = 22) as Hf
    by (unfold front, protocol_header; rewrite !len_app, !len_write_be, Hl; reflexivity).
  assert (forall mid, protocol_header (MSG_REMAINING_HEADER_SIZE + len body)
    ++ (pre ++ mid ++ post) ++ body = front ++ mid ++ post ++ body) as E
    by (intros mid; unfold front; rewrite <- !(assoc_L (++)); reflexivity).
  rewrite !E.
  rewrite <- Hf at 1. rewrite slice_ok_app by (rewrite Hf; reflexivity).
  rewrite <- Hf at 1.
  rewrite (splice_app front [0; 0; 0; 0]) by (rewrite len_write_be; reflexivity).
  unfold as_u32. rewrite wrap_u_id by (unfold in_u; cbn; lia). reflexivity.
Qed.

(** Flushing the buffer. *)
Lemma flush_spec c :
  len (data_buffer (buffer c)) <= accepts (conn c) ->
  exists c', flush c = Ret tt c' /\ incoming (conn c') = incoming (conn c) /\
    outgoing (conn c') = outgoing (conn c) ++ data_buffer (buffer c).
Proof. intros H. apply (write_spec (data_buffer (buffer c)) c H). Qed.

(** ** The attempt *)

Context `{EN : Environment W Place Lease}.

Section Exchange.
Context `{CM : Command C}.

(** The connection after [prepare_buffer], [write_timeout] and [write_buffer] of a
    command that [builds] its message. *)
Lemma send_built (m : M Buffer unit) hdr body timeout (x : C) (c : Connection) :
  (forall c, prepare_buffer (x, c) = on_snd (lift m) (x, c)) ->
  (forall c, write_timeout timeout (x, c) = conn_write_timeout timeout (x, c)) ->
  (forall c, write_buffer (x, c) = conn_write_buffer (x, c)) ->
  builds m hdr body -> untimed hdr -> total_size body <= MAX_BUFFER_SIZE ->
  small_timeout timeout ->
  len (message (timed timeout hdr) body) <= accepts (conn c) ->
  exists c1 c2 c3,
    prepare_buffer (x, c) = Ret tt (x, c1) /\
    write_timeout timeout (x, c1) = Ret tt (x, c2) /\
    write_buffer (x, c2) = Ret tt (x, c3) /\
    incoming (conn c3) = incoming (conn c) /\
    outgoing (conn c3) = outgoing (conn c) ++ message (timed timeout hdr) body.
Proof.
  intros Hp Ht Hw Hb Hu Hl Hs Ha. specialize (Hb (buffer c)).
  rewrite (proj2 (Z.leb_le _ _) Hl) in Hb.
  set (b2 := mkBuffer (message (timed timeout hdr) body) 8 (reclaim_threshold (buffer c))).
  destruct (flush_spec (set_buffer b2 c) Ha) as (c3 & Hfl & Hi & Ho).
  match type of Hb with
  | _ = Ret tt ?b1 => exists (set_buffer b1 c), (set_buffer b2 c), c3
  end.
  split; [|split; [|split; [|split; [exact Hi|exact Ho]]]].
  - rewrite Hp. unfold on_snd, lift. cbn [fst snd]. rewrite Hb. reflexivity.
  - rewrite Ht. unfold conn_write_timeout, on_snd, lift. cbn [fst snd buffer set_buffer].
    rewrite write_timeout_message by assumption. reflexivity.
  - rewrite Hw. unfold conn_write_buffer, on_snd. cbn [fst snd]. rewrite Hfl. reflexivity.
Qed.

(** What becomes of the connection after an answer. *)
Definition settle (r : unit + ErrorKind) (lease : Lease) (c : Connection) : M W unit :=
  match r with
  | inl _ => put_back lease c
  | inr err => if keep_connection err then put_back lease c else invalidate lease c
  end.

(** The end of a turn whose response was read, with outcome [o]. *)
Definition settled (lease : Lease) (o : outcome (C * Connection) unit) (w : W)
    : outcome (C * W) (unit + ErrorKind) :=
  match o with
  | Ret _ (x', c') => (on_snd (settle (inl tt) lease c') ;;; ret (inl tt)) (x', w)
  | Throw e (x', c') => (on_snd (settle (inr e) lease c') ;;; ret (inr e)) (x', w)
  | Panic => Panic
  | NoFuel => NoFuel
  end.

Lemma settled_ends lease (r : unit + ErrorKind) (x' : C) c' w :
  settled lease (ends r (x', c')) w = (on_snd (settle r lease c') ;;; ret r) (x', w).
Proof. destruct r as [[]|e]; reflexivity. Qed.

(** A turn of the loop in which the request is sent. *)
Lemma attempt_answer timeout (x : C) w1 w2 w3 node lease c c1 c2 c3 :
  get_node w1 = Ret node w2 ->
  get_connection node timeout w2 = Ret (lease, c) w3 ->
  prepare_buffer (x, c) = Ret tt (x, c1) ->
  write_timeout timeout (x, c1) = Ret tt (x, c2) ->
  write_buffer (x, c2) = Ret tt (x, c3) ->
  attempt timeout (x, w1)
  = match settled lease (parse_result (x, c3)) w3 with
    | Ret r s => Ret (Finished r) s
    | Throw e s => Throw e s
    | Panic => Panic
    | NoFuel => NoFuel
    end.
Proof.
  intros Hn Hc Hp Ht Hw. unfold attempt.
  unfold bind at 1, on_snd at 1, catch at 1. cbn [fst snd]. rewrite Hn.
  unfold bind at 1, on_snd at 1, catch at 1. cbn [fst snd]. rewrite Hc.
  unfold bind at 1, on_connection at 1. cbn [fst snd]. rewrite Hp.
  unfold bind at 1, on_connection at 1. cbn [fst snd]. rewrite Ht.
  unfold bind at 1, on_connection at 1. cbn [fst snd]. rewrite Hw.
  unfold bind at 1, on_connection at 1. cbn [fst snd].
  destruct (parse_result (x, c3)) as [[] [x' c4]|e [x' c4]| |]; try reflexivity.
  - cbn [settled]. unfold bind, on_snd. cbn [fst snd settle].
    destruct (put_back lease c4 w3); reflexivity.
  - cbn [settled]. unfold bind, on_snd. cbn [fst snd settle].
    destruct (keep_connection e); [destruct (put_back _ _ _)|destruct (invalidate _ _ _)]; reflexivity.
Qed.

(** What a turn of the loop does before its attempt, [n] turns having failed: a
    pause, and a look at the clock. *)
Definition turn_starts (policy : BasePolicy) (deadline : option Z) (n : nat) : M (C * W) bool :=
  when (1 <? Z.of_nat n + 1)
    match base_sleep_between_retries policy with
    | Some d => on_snd (sleep d)
    | None => ret tt
    end ;;;
  past deadline.

(** [n] turns in time that failed to send the request: no node, no connection, or
    one on which the request could not be written. *)
Inductive failed_turns (policy : BasePolicy) (deadline : option Z) (x : C) : nat -> W -> W -> Prop :=
| no_turn w : failed_turns policy deadline x 0 w w
| failed_turn n w w1 w2 w3 :
    failed_turns policy deadline x n w w1 ->
    turn_starts policy deadline n (x, w1) = Ret false (x, w2) ->
    attempt (base_timeout policy) (x, w2) = Ret Again (x, w3) ->
    failed_turns policy deadline x (S n) w w3.

(** The retries that the policy allows. *)
Definition retries_allow (policy : BasePolicy) (n : nat) : Prop :=
  Z.of_nat n < 2 ^ 64 - 1 /\
  match base_max_retries policy with
  | Some most => Z.of_nat n <= most < 2 ^ 64 - 1
  | None => True
  end.

(** A turn that is allowed and in time makes its attempt. *)
Lemma loop_turn fuel policy deadline n (x : C) w w1 :
  retries_allow policy n ->
  turn_starts policy deadline n (x, w) = Ret false (x, w1) ->
  execute_loop (S fuel) policy deadline (Z.of_nat n) (x, w)
  = (let! t := attempt (base_timeout policy) in
     match t with
     | Again => execute_loop fuel policy deadline (Z.of_nat n + 1)
     | Finished r => finish r
     end) (x, w1).
Proof.
  intros [Hn Hmax] Hs. cbn [execute_loop].
  unfold bind at 1. rewrite usize_checked_ret by lia. cbn [ret].
  assert ((match base_max_retries policy with
    | Some most => let! m := usize_checked (most + 1) in ret (m <? Z.of_nat n + 1)
    | None => ret false
    end) (x, w) = Ret false (x, w)) as E.
  { destruct (base_max_retries policy) as [most|]; [|reflexivity].
    unfold bind. rewrite usize_checked_ret by lia. cbn [ret].
    rewrite (proj2 (Z.ltb_ge _ _)) by lia. reflexivity. }
  unfold bind at 1. rewrite E.
  unfold turn_starts, bind at 1 in Hs. unfold bind at 1.
  destruct (when _ _ (x, w)) as [u s'| | |]; try discriminate Hs.
  unfold bind at 1. rewrite Hs. reflexivity.
Qed.

Lemma retries_allow_less policy n m : retries_allow policy n -> (m <= n)%nat -> retries_allow policy m.
Proof. intros [H1 H2] H. split; [lia|]. destruct (base_max_retries policy); [lia|exact I]. Qed.

(** The loop gets past the failed turns. *)
Lemma loop_failed policy deadline (x : C) n w w' :
  failed_turns policy deadline x n w w' -> retries_allow policy n ->
  forall fuel, execute_loop (n + fuel) policy deadline 0 (x, w)
               = execute_loop fuel policy deadline (Z.of_nat n) (x, w').
Proof.
  induction 1 as [w|n w w1 w2 w3 _ IH Hs Ha]; intros Hr fuel; [reflexivity|].
  assert (retries_allow policy n) as Hn by (apply (retries_allow_less _ (S n)); [exact Hr|lia]).
  rewrite Nat.add_succ_comm, (IH Hn (S fuel)), (loop_turn _ _ _ _ _ _ _ Hn Hs).
  unfold bind at 1. rewrite Ha. f_equal. lia.
Qed.

(** What there is to take a connection: within [S fuel] turns the loop comes, in
    time and in the retries that are allowed, to one in which the node of the
    command has the connection [c]; the turns before it failed. *)
Record reached (fuel : nat) (policy : BasePolicy) (x : C) (w w3 : W) (lease : Lease)
    (c : Connection) : Prop := {
  reached_connection : exists n deadline w0 w0' w1 w2 node,
    (n <= fuel)%nat /\ retries_allow policy n /\
    policy_deadline (base_timeout policy) (x, w) = Ret deadline (x, w0) /\
    failed_turns policy deadline x n w0 w0' /\
    turn_starts policy deadline n (x, w0') = Ret false (x, w1) /\
    get_node w1 = Ret node w2 /\
    get_connection node (base_timeout policy) w2 = Ret (lease, c) w3
}.

(** The first turn may do. *)
Lemma reached_first fuel policy (x : C) deadline w w0 w1 w2 w3 node lease c :
  match base_max_retries policy with Some n => 0 <= n < 2 ^ 64 - 1 | None => True end ->
  policy_deadline (base_timeout policy) (x, w) = Ret deadline (x, w0) ->
  past deadline (x, w0) = Ret false (x, w1) ->
  get_node w1 = Ret node w2 ->
  get_connection node (base_timeout policy) w2 = Ret (lease, c) w3 ->
  reached fuel policy x w w3 lease c.
Proof.
  intros Hm Hd Hp Hn Hc. split. exists 0%nat, deadline, w0, w0, w1, w2, node.
  repeat split; try assumption; try lia. constructor.
Qed.

(** A command whose request reaches its node: the response is read from the
    connection [c3], whatever it is. *)
Lemma execute_response (m : M Buffer unit) hdr body fuel policy (x : C) w w3 lease c :
  (forall c, prepare_buffer (x, c) = on_snd (lift m) (x, c)) ->
  (forall t c, write_timeout t (x, c) = conn_write_timeout t (x, c)) ->
  (forall c, write_buffer (x, c) = conn_write_buffer (x, c)) ->
  builds m hdr body -> untimed hdr -> total_size body <= MAX_BUFFER_SIZE ->
  small_timeout (base_timeout policy) ->
  reached fuel policy x w w3 lease c ->
  len (message (timed (base_timeout policy) hdr) body) <= accepts (conn c) ->
  exists c3,
    incoming (conn c3) = incoming (conn c) /\
    outgoing (conn c3) = outgoing (conn c) ++ message (timed (base_timeout policy) hdr) body /\
    execute (S fuel) policy (x, w)
    = match settled lease (parse_result (x, c3)) w3 with
      | Ret r s => finish r s
      | Throw e s => Throw e s
      | Panic => Panic
      | NoFuel => NoFuel
      end.
Proof.
  intros Hp Ht Hw Hb Hu Hl Hs
    [(n & deadline & w0 & w0' & w1 & w2 & node & Hle & Hr & Hd & Hf & Hst & Hn & Hc)] Ha.
  destruct (send_built m hdr body (base_timeout policy) x c Hp (Ht _) Hw Hb Hu Hl Hs Ha)
    as (c1 & c2 & c3 & H1 & H2 & H3 & Hi3 & Ho3).
  exists c3. split; [exact Hi3|]. split; [exact Ho3|].
  unfold execute. unfold bind at 1. rewrite Hd.
  replace (S fuel) with (n + S (fuel - n))%nat by lia.
  rewrite (loop_failed _ _ _ _ _ _ Hf Hr), (loop_turn _ _ _ _ _ _ _ Hr Hst).
  unfold bind at 1. rewrite (attempt_answer _ x w1 w2 w3 node lease c c1 c2 c3 Hn Hc H1 H2 H3).
  destruct (settled lease (parse_result (x, c3)) w3); reflexivity.
Qed.

(** A command whose node gives an answer of known outcome. *)
Lemma execute_answer (m : M Buffer unit) hdr body fuel policy (x x' : C) w w3 lease c inc r :
  (forall c, prepare_buffer (x, c) = on_snd (lift m) (x, c)) ->
  (forall t c, write_timeout t (x, c) = conn_write_timeout t (x, c)) ->
  (forall c, write_buffer (x, c) = conn_write_buffer (x, c)) ->
  builds m hdr body -> untimed hdr -> total_size body <= MAX_BUFFER_SIZE ->
  small_timeout (base_timeout policy) ->
  reached fuel policy x w w3 lease c ->
  len (message (timed (base_timeout policy) hdr) body) <= accepts (conn c) ->
  (forall c3, incoming (conn c3) = incoming (conn c) ->
     exists c4, parse_result (x, c3) = ends r (x', c4) /\
       incoming (conn c4) = inc /\ quiet c3 c4) ->
  exists c',
    incoming (conn c') = inc /\
    outgoing (conn c') = outgoing (conn c) ++ message (timed (base_timeout policy) hdr) body /\
    execute (S fuel) policy (x, w) = (on_snd (settle r lease c') ;;; finish r) (x', w3).
Proof.
  intros Hp Ht Hw Hb Hu Hl Hs Hre Ha Hr.
  destruct (execute_response m hdr body fuel policy x w w3 lease c Hp Ht Hw Hb Hu Hl Hs Hre Ha)
    as (c3 & Hi3 & Ho3 & E).
  destruct (Hr c3 Hi3) as (c4 & H4 & Hi4 & Hq).
  exists c4. split; [exact Hi4|]. split; [rewrite (proj1 Hq); exact Ho3|].
  rewrite E, H4, settled_ends. unfold bind, on_snd. cbn [fst snd].
  destruct (settle r lease c4 w3) as [[] w4|e w4| |]; reflexivity.
Qed.

End Exchange.

(** ** A read *)

(** What a read sends. *)
Definition read_request (policy : BasePolicy) (key : Key) (bins : Bins) (fields : bytes) : bytes :=
  message
    (timed (base_timeout policy)
       (header (consistency_attr policy (read_attr_of bins)) 0 0 0 0
          (record_field_count key false (base_filter_expression policy))
          (as_u16 (len (read_ops bins)))))
    (fields ++ concat (enc_bin_name <$> read_ops bins)).

(** C2: a read of a record whose node is [reached], after any allowed number of failed
    attempts, and answers well sends exactly the request, with the timeout in its
    header, takes exactly the response from the stream,
    keeps the record of the response, and ends as putting the connection back
    ends. *)
Theorem read_end_to_end policy key bins fields fuel w w3 lease (c : Connection) v t h bs rest :
  let cmd := ReadCommand.new policy key bins in
  let body := concat (bin_bytes <$> bs) in
  let request := read_request policy key bins fields in
  let record :=
    Record.new None (if Bins.is_none bins then empty else foldl add_bin empty bs)
      (h_generation h) (h_expiration h) in
  key_ok key ->
  record_fields key false (base_filter_expression policy) = Some fields ->
  total_size (fields ++ concat (enc_bin_name <$> read_ops bins)) <= MAX_BUFFER_SIZE ->
  small_timeout (base_timeout policy) ->
  reached fuel policy cmd w w3 lease c ->
  len request <= accepts (conn c) ->
  header_ok h -> h_result h = 0 -> h_fields h = 0 -> h_ops h = len bs ->
  forallb bin_ok bs = true -> len body <= MAX_BUFFER_SIZE ->
  incoming (conn c) = response v t h body ++ rest ->
  exists c',
    incoming (conn c') = rest /\ outgoing (conn c') = outgoing (conn c) ++ request /\
    execute (S fuel) policy (cmd, w)
    = (on_snd (put_back lease c') ;;; ret tt) (ReadCommand.set_record (Some record) cmd, w3).
Proof.
  intros cmd body request record Hk Hf Hl Ht Hre Ha Hh Hr Hf0 Ho Hok Hlb Hi.
  apply (execute_answer (CM := read_command) (set_read policy key bins) _ _ fuel policy cmd _ w w3
    lease c rest (inl tt) ltac:(reflexivity) ltac:(reflexivity) ltac:(reflexivity)
    (set_read_builds policy key bins fields Hk Hf) (header_untimed _ _ _ _ _ _ _) Hl Ht Hre Ha).
  intros c3 Hi3.
  destruct (parse_response_body cmd c3 v t h bs rest Hh Hr Hf0 Ho Hok Hlb) as (c4 & H4 & Hi4 & Hq);
    [rewrite Hi3; exact Hi|].
  exists c4. auto.
Qed.

(** ** A write *)

(** What a write sends. *)
Definition write_request (policy : WritePolicy) (key : Key) (bins : list Bin)
    (fields ops : bytes) : bytes :=
  message
    (timed (base_timeout (wp_base_policy policy))
       (policy_header policy 0 INFO2_WRITE
          (record_field_count key (send_key policy) (wp_filter_expression policy))
          (as_u16 (len bins))))
    (fields ++ ops).

(** C3: a write of bins whose node is [reached] and answers sends exactly the request, and ends
    as the result code says: [Ok] takes the whole answer and puts the connection
    back; another code is the error, and leaves the body of the answer on the
    stream of the connection, which goes back to its pool all the same when the
    code is [KeyNotFoundError]. *)
Theorem write_end_to_end policy operation key bins fields ops fuel w w3 lease (c : Connection)
    v t h body rest :
  let cmd := mkWriteCommand policy key bins operation in
  let request := write_request policy key bins fields ops in
  let rc := ResultCode.from_u8 (h_result h) in
  let ok := bool_decide (rc = ResultCode.Ok) in
  let result := if ok then inl tt else inr (ServerError rc) in
  key_ok key ->
  record_fields key (send_key policy) (wp_filter_expression policy) = Some fields ->
  opt_concat (enc_bin operation <$> bins) = Some ops ->
  total_size (fields ++ ops) <= MAX_BUFFER_SIZE ->
  small_timeout (base_timeout (wp_base_policy policy)) ->
  reached fuel (wp_base_policy policy) cmd w w3 lease c ->
  len request <= accepts (conn c) ->
  len body <= MAX_BUFFER_SIZE ->
  incoming (conn c) = response v t h body ++ rest ->
  exists c',
    incoming (conn c') = (if ok then rest else body ++ rest) /\
    outgoing (conn c') = outgoing (conn c) ++ request /\
    execute (S fuel) (wp_base_policy policy) (cmd, w)
    = (on_snd (settle result lease c') ;;; finish result) (cmd, w3).
Proof.
  intros cmd request rc ok result Hk Hf Ho Hl Ht Hre Ha Hlb Hi.
  apply (execute_answer (CM := write_command) (set_write policy operation key bins) _ _ fuel
    (wp_base_policy policy) cmd cmd w w3 lease c _ result ltac:(reflexivity) ltac:(reflexivity) ltac:(reflexivity)
    (set_write_builds policy operation key bins fields ops Hk Hf Ho)
    (policy_header_untimed _ _ _ _ _) Hl Ht Hre Ha).
  intros c3 Hi3. destruct (write_response c3 v t h body rest Hlb) as (c4 & Hq & H4);
    [rewrite Hi3; exact Hi|].
  exists c4. subst result ok. fold rc in H4. unfold cmd. cbn [parse_result write_command].
  unfold on_snd. cbn [fst snd]. case_bool_decide; destruct H4 as [-> Hi4]; auto.
Qed.

End EndToEnd.

(** ** An example: a cluster of one node with an idle connection *)

Section Example.

#[local] Existing Instance valuefmt_model.
#[local] Existing Instance clock_model.

Definition sample_host : Host := mkHost (str "10.0.0.1") 3000.

Definition sample_node : Node :=
  Node.mkNode ClientPolicy_default (str "BB9") sample_host [sample_host] []
    (ConnectionPool.mkConnectionPool 1 [0%nat] 0) 0 0 0 0 true true true true.

(** The queue of the node has the connections [idle], of [num] that exist. *)
Definition pool_world (index : Z) (ticks : nat) (idle : list Connection) (num : Z)
    : Cluster.World unit :=
  Cluster.mkWorld
    (Cluster.mkCluster [] ∅ [0%nat] ∅ index ClientPolicy_default false)
    [sample_node] ([Queue.mkQueue idle num 2 sample_host ClientPolicy_default], tt) ticks.

Definition sample_world (index : Z) (ticks : nat) (idle : list Connection)
    : Cluster.World unit := pool_world index ticks idle 1.

(** A connection whose peer does not take anything. *)
Definition stale_conn : Connection :=
  mkConnection None None (mkTcpStream [] [] 0 false None) 0 (Buffer_new 0) 0.

#[local] Existing Instance silent_dialer.

(** The first connection does not take the request; the retry has another. *)
Lemma read_end_to_end_witness :
  let policy := BasePolicy_default in
  let cmd := ReadCommand.new policy sample_key Bins.All in
  let h := sample_header 0 0 3 in
  let record := Record.new None (foldl add_bin empty sample_bins) 3 77 in
  let idle := sample_conn (response 2 3 h (concat (bin_bytes <$> sample_bins)) ++ [9]) in
  let E := cluster_environment (mkPartition (str "test") 1) in
  exists c',
    incoming (conn c') = [9] /\
    execute (EN := E) 2 policy (cmd, pool_world 0 0 [stale_conn; idle] 2)
    = (on_snd (put_back (Environment := E) 0%nat c') ;;; ret tt)
        (ReadCommand.set_record (Some record) cmd, pool_world 2 3 [] 1).
Proof.
  intros policy cmd h record idle E.
  set (c := default idle (set_timeout (base_timeout policy) idle)).
  destruct (read_end_to_end (EN := E) policy sample_key Bins.All
    (default [] (record_fields sample_key false (base_filter_expression policy))) 1
    (pool_world 0 0 [stale_conn; idle] 2) (pool_world 2 3 [] 1) 0%nat c 2 3 h sample_bins [9])
    as (c' & Hi & _ & Hx).
  - apply sample_key_ok.
  - vm_compute. reflexivity.
  - vm_compute. discriminate.
  - vm_compute. repeat split; discriminate.
  - split. exists 1%nat, (Some 30000000000), (pool_world 0 1 [stale_conn; idle] 2),
      (pool_world 1 2 [idle] 1), (pool_world 1 3 [idle] 1), (pool_world 2 3 [idle] 1), 0%nat.
    split; [lia|]. split; [vm_compute; repeat split; discriminate|].
    split; [vm_compute; reflexivity|]. split; [|repeat split; vm_compute; reflexivity].
    apply (failed_turn (EN := E) _ _ _ 0 _ (pool_world 0 1 [stale_conn; idle] 2)
      (pool_world 0 2 [stale_conn; idle] 2)); [constructor|vm_compute; reflexivity..].
  - vm_compute. discriminate.
  - apply sample_header_ok; unfold in_u; lia.
  - reflexivity.
  - reflexivity.
  - reflexivity.
  - vm_compute. reflexivity.
  - vm_compute. discriminate.
  - vm_compute. reflexivity.
  - exists c'. split; [exact Hi|exact Hx].
Defined.

(** A write of a record that is not there puts a connection with an unread body
    back. *)
Lemma write_end_to_end_witness :
  let policy := WritePolicy_default in
  let bins := [mkBin (str "a") (Value.Int 1)] in
  let cmd := mkWriteCommand policy sample_key bins OperationType.Write in
  let idle := sample_conn (response 2 3 (sample_header 2 0 0) [7; 7] ++ [9]) in
  let E := cluster_environment (mkPartition (str "test") 1) in
  exists c',
    incoming (conn c') = [7; 7; 9] /\
    execute (EN := E) 1 (wp_base_policy policy) (cmd, sample_world 0 0 [idle])
    = (on_snd (put_back (Environment := E) 0%nat c') ;;;
       throw (ServerError ResultCode.KeyNotFoundError)) (cmd, sample_world 1 2 []).
Proof.
  intros policy bins cmd idle E.
  set (c := default idle (set_timeout (base_timeout (wp_base_policy policy)) idle)).
  destruct (write_end_to_end (EN := E) policy OperationType.Write sample_key bins
    (default [] (record_fields sample_key (send_key policy) (wp_filter_expression policy)))
    (default [] (opt_concat (enc_bin OperationType.Write <$> bins))) 0
    (sample_world 0 0 [idle]) (sample_world 1 2 []) 0%nat c 2 3 (sample_header 2 0 0) [7; 7] [9])
    as (c' & Hi & _ & Hx).
  - apply sample_key_ok.
  - vm_compute. reflexivity.
  - vm_compute. reflexivity.
  - vm_compute. discriminate.
  - vm_compute. repeat split; discriminate.
  - apply (reached_first (EN := E) _ _ _ (Some 30000000000) _ (sample_world 0 1 [idle])
      (sample_world 0 2 [idle]) (sample_world 1 2 [idle]) _ 0%nat);
      vm_compute; [split; [discriminate|reflexivity]|reflexivity..].
  - vm_compute. discriminate.
  - vm_compute. discriminate.
  - vm_compute. reflexivity.
  - exists c'. split; [exact Hi|exact Hx].
Defined.

Lemma execute_attempts_witness :
  let policy := BasePolicy_default in
  let E := cluster_environment (mkPartition (str "test") 1) in
  let s := (ReadCommand.new policy sample_key Bins.All, sample_world 0 0 []) in
  execute (EN := E) 4 policy s
  = (let! deadline := policy_deadline (base_timeout policy) in
     attempts policy deadline true 3) s.
Proof.
  intros policy E s.
  apply (execute_attempts (EN := E) policy 2 4); [reflexivity|reflexivity|lia].
Defined.

Lemma execute_returns_connections_witness :
  let policy := BasePolicy_default in
  let p := mkPartition (str "test") 1 in
  let s := (ReadCommand.new policy sample_key Bins.All, sample_world 0 0 [sample_conn []]) in
  match execute (EN := cluster_environment p) 4 policy s with
  | Throw _ s' => world_out s'.2 = 0
  | _ => False
  end.
Proof.
  intros policy p s.
  pose proof (execute_returns_connections (LE := cluster_leasing p) 4 policy s) as H.
  destruct (execute 4 policy s) as [? s'|e s'| |] eqn:E;
    [vm_compute in E; discriminate|exact H|vm_compute in E; discriminate..].
Defined.

End Example.
