(* ===== verification/Tasks.v ===== *)
(** * Tasks ([src/task/*.rs])

    Waiting for work that goes on at the server: the loop of
    [Task::wait_till_complete] ([task.rs]), and the two tasks, the creation of an
    index ([index_task.rs]) and the registration of a module
    ([register_task.rs]), which ask every node of the cluster.

    [wait_ends]: with a timeout, [wait_till_complete] ends, after at most one
    query per second of it; a task it reports is complete.
    [index_response_status]: what a node's answer about an index means.
    [complete_everywhere]: a task is complete when every node says so. *)

From stdpp Require Import base list strings gmap.
From Stdlib Require Import ZArith Lia.
From S2P Require Import Prelude ResultCodes Monad ByteOrder Slices Text Buffer Policy.
From S2P Require Import Connection Hosts ClientPolicy Info ConnectionPool Nodes Cluster.
From S2P Require Import Invariants ConnectionFacts ResponseFacts PoolFacts Termination EndToEnd.

(** [enum Status]. *)
Inductive Status : Type :=
| NotFound
| InProgress
| Complete.

#[export] Instance Status_eq_dec : EqDecision Status.
Proof. solve_decision. Defined.

Definition POLL_INTERVAL : Duration := mkDuration 1 0.

(** [trait Task], with the clock and the timer of its world. *)
Class Task (T W : Type) := {
  query_status : T -> M W Status;
  task_now : M W Z;
  task_sleep : Duration -> M W unit
}.

Section Wait.
Context `{TK : Task T W}.

(** [timeout.map_or(false, timeout_elapsed)]. *)
Definition timeout_reached (start : Z) (timeout : option Duration) : M W bool :=
  match timeout with
  | None => ret false
  | Some deadline =>
      let! t := task_now in
      ret (nanos deadline <? t - start + nanos POLL_INTERVAL)
  end.

Fixpoint wait_loop (fuel : nat) (task : T) (start : Z) (timeout : option Duration)
    : M W Status :=
  match fuel with
  | O => no_fuel
  | S fuel' =>
      task_sleep POLL_INTERVAL ;;;
      let! status := query_status task in
      match status with
      | NotFound => throw (BadResponse "task status not found")
      | Complete => ret Complete
      | InProgress =>
          let! late := timeout_reached start timeout in
          if late : bool then throw (TimeoutError "Task timeout reached")
          else wait_loop fuel' task start timeout
      end
  end.

Definition wait_till_complete (fuel : nat) (task : T) (timeout : option Duration)
    : M W Status :=
  let! now := task_now in wait_loop fuel task now timeout.

End Wait.

(** The reading of the clock that follows a sleep after the [k]th one. *)
Class Timer := { slept : nat -> Duration -> nat }.

Section ClusterTasks.
Context `{BO : ByteOrder} `{CL : Clock} `{TI : Timer} `{DI : Dialer Net}.

Definition world_sleep (d : Duration) : M (Cluster.World Net) unit :=
  fun w =>
    Ret tt (Cluster.mkWorld (Cluster.cluster w) (Cluster.heap w) (Cluster.shared w)
              (slept (Cluster.ticks w) d)).

(** [node.info(Some(client_policy.timeout.unwrap()), &[command])]. *)
Definition ask_node (node : NodeId) (command : bytes)
    : M (Cluster.World Net) (gmap bytes bytes) :=
  let! policy := Cluster.asks Cluster.client_policy in
  let! timeout := unwrap (cp_timeout policy) in
  Cluster.on_node node (Node.info (Some timeout) [command]).

(** The loop over the nodes: [ask] gives the status at one of them, and the
    first that is not complete is the result. *)
Fixpoint first_incomplete (ask : NodeId -> M (Cluster.World Net) Status)
    (nodes : list NodeId) : M (Cluster.World Net) Status :=
  match nodes with
  | [] => ret Complete
  | node :: nodes' =>
      let! status := ask node in
      match status with
      | Complete => first_incomplete ask nodes'
      | other => ret other
      end
  end.

Definition on_all_nodes (ask : NodeId -> M (Cluster.World Net) Status)
    : M (Cluster.World Net) Status :=
  let! nodes := Cluster.asks Cluster.nodes in
  if bool_decide (nodes = []) then throw (ConnectionError "No connected node")
  else first_incomplete ask nodes.

(** ** Index creation *)

(** [struct IndexTask], but for the cluster. *)
Record IndexTask : Type := mkIndexTask {
  it_namespace : bytes;
  it_index_name : bytes
}.

Definition SUCCESS_PATTERN : bytes := str "load_pct=".
Definition FAIL_PATTERN_201 : bytes := str "FAIL:201".
Definition FAIL_PATTERN_203 : bytes := str "FAIL:203".
Definition DELMITER : bytes := str ";".

Definition index_command (namespace index_name : bytes) : bytes :=
  str "sindex/" ++ namespace ++ str "/" ++ index_name.

(** [IndexTask::parse_response]; the patterns are ASCII, so the slices are at
    character boundaries. *)
Definition parse_index_response {S} (response : bytes) : M S Status :=
  match find SUCCESS_PATTERN response with
  | None =>
      if contains FAIL_PATTERN_201 response || contains FAIL_PATTERN_203 response
      then ret NotFound
      else throw (BadResponse "Code 201 and 203 missing. Response: {}")
  | Some pattern_index =>
      let percent_begin := pattern_index + len SUCCESS_PATTERN in
      let! tail := unwrap (slice response percent_begin (len response)) in
      match find DELMITER tail with
      | None => throw (BadResponse "delimiter missing in response. Response: {}")
      | Some percent_end =>
          let! percent_str :=
            unwrap (slice response percent_begin (percent_begin + percent_end)) in
          match parse_isize percent_str with
          | Some percent => ret (if percent =? 100 then Complete else InProgress)
          | None => throw (BadResponse "Unexpected load_pct value from server")
          end
      end
  end.

Definition index_status_at (task : IndexTask) (node : NodeId)
    : M (Cluster.World Net) Status :=
  let command := index_command (it_namespace task) (it_index_name task) in
  let! response := ask_node node command in
  match response !! command with
  | None => ret NotFound
  | Some r => parse_index_response r
  end.

#[export] Instance index_task : Task IndexTask (Cluster.World Net) := {|
  query_status task := on_all_nodes (index_status_at task);
  task_now := Cluster.world_now;
  task_sleep := world_sleep
|}.

(** ** Registration of a module *)

(** [struct RegisterTask], but for the cluster. *)
Record RegisterTask : Type := mkRegisterTask { rt_package_name : bytes }.

Definition COMMAND : bytes := str "udf-list".
Definition RESPONSE_PATTERN : bytes := str "filename=".

Definition register_status_at (task : RegisterTask) (node : NodeId)
    : M (Cluster.World Net) Status :=
  let! response := ask_node node COMMAND in
  match response !! COMMAND with
  | None => ret NotFound
  | Some r =>
      ret (if contains (RESPONSE_PATTERN ++ rt_package_name task) r
           then Complete else InProgress)
  end.

#[export] Instance register_task : Task RegisterTask (Cluster.World Net) := {|
  query_status task := on_all_nodes (register_status_at task);
  task_now := Cluster.world_now;
  task_sleep := world_sleep
|}.

End ClusterTasks.

Section Wait.
Context `{TK : Task T W} (task : T).

(** A time that the clock shows, that sleeping lets pass and that never goes
    back. *)
Context (time : W -> Z).
Hypothesis now_time : forall w,
  match task_now w with Ret t w' => time w <= t <= time w' | _ => False end.
Hypothesis sleep_time : forall d w,
  match task_sleep d w with Ret _ w' => time w + nanos d <= time w' | _ => False end.
Hypothesis query_time : forall w,
  match query_status task w with
  | Ret _ w' | Throw _ w' => time w <= time w' | Panic => True | NoFuel => False end.

Definition ended (o : outcome W Status) : Prop :=
  match o with
  | Ret s _ => s = Complete
  | Throw _ _ | Panic => True
  | NoFuel => False
  end.

Lemma wait_loop_ends t fuel : forall start w k,
  0 <= k -> start + k * nanos POLL_INTERVAL <= time w ->
  nanos t < (k + Z.of_nat fuel) * nanos POLL_INTERVAL -> (0 < fuel)%nat ->
  ended (wait_loop fuel task start (Some t) w).
Proof.
  change (nanos POLL_INTERVAL) with 1000000000.
  induction fuel as [|fuel IH]; intros start w k Hk Hw Ht Hf; [lia|]. cbn [wait_loop].
  unfold bind at 1. pose proof (sleep_time POLL_INTERVAL w) as H1.
  change (nanos POLL_INTERVAL) with 1000000000 in H1.
  destruct (task_sleep POLL_INTERVAL w) as [[] w1| | |]; try contradiction.
  unfold bind at 1. pose proof (query_time w1) as H2.
  destruct (query_status task w1) as [[] w2| | |]; try exact I; try contradiction; try reflexivity.
  unfold timeout_reached, bind. pose proof (now_time w2) as H3.
  destruct (task_now w2) as [t3 w3| | |]; try contradiction. cbn [ret].
  change (nanos POLL_INTERVAL) with 1000000000.
  destruct (Z.ltb_spec (nanos t) (t3 - start + 1000000000)); [exact I|].
  apply (IH start w3 (k + 1)); lia.
Qed.

(** C31: waiting for a task with a timeout ends with the task complete, or with an
    error; a query per second of the timeout, and one more, are enough. *)
Theorem wait_ends timeout fuel w :
  nanos timeout / nanos POLL_INTERVAL < Z.of_nat fuel -> 0 <= nanos timeout ->
  match wait_till_complete fuel task (Some timeout) w with
  | Ret status _ => status = Complete
  | Throw _ _ | Panic => True
  | NoFuel => False
  end.
Proof.
  change (nanos POLL_INTERVAL) with 1000000000. intros Hf Ht.
  unfold wait_till_complete, bind. pose proof (now_time w) as H.
  destruct (task_now w) as [start w1| | |]; try contradiction.
  pose proof (Z.div_mod (nanos timeout) 1000000000 ltac:(lia)).
  pose proof (Z.mod_pos_bound (nanos timeout) 1000000000 ltac:(lia)).
  pose proof (Z.div_pos (nanos timeout) 1000000000 Ht ltac:(lia)).
  apply (wait_loop_ends timeout fuel start w1 0); change (nanos POLL_INTERVAL) with 1000000000; lia.
Qed.

End Wait.

(** ** What the answers mean *)

Lemma slice_mid pre mid post : slice (pre ++ mid ++ post) (len pre) (len pre + len mid) = Some mid.
Proof.
  unfold slice, slice_ok. rewrite !len_app.
  pose proof (len_nonneg pre). pose proof (len_nonneg mid). pose proof (len_nonneg post).
  rewrite !(proj2 (Z.leb_le _ _)) by lia. cbn [andb]. f_equal. unfold len. rewrite Nat2Z.id.
  rewrite drop_app_length. replace (Z.to_nat _) with (length mid) by lia. apply take_app_length.
Qed.

(** [pat] occurs after [pre], and not before. *)
Definition first_at (pat pre s : bytes) : Prop :=
  (exists post, s = pre ++ pat ++ post) /\
  forall pre' post', s = pre' ++ pat ++ post' -> len pre <= len pre'.

Lemma find_first pat pre s : first_at pat pre s -> find pat s = Some (len pre).
Proof.
  intros [[post Hs] Hmin]. pose proof (find_spec pat s) as H.
  destruct (find pat s) as [i|]; [|apply H in Hs; contradiction].
  destruct H as (pre' & post' & Hs' & -> & Hmin').
  specialize (Hmin _ _ Hs'). specialize (Hmin' _ _ Hs). f_equal. lia.
Qed.

Lemma find_none pat s : find pat s = None <-> forall pre post, s <> pre ++ pat ++ post.
Proof.
  pose proof (find_spec pat s) as H. destruct (find pat s) as [i|]; [|tauto].
  destruct H as (pre & post & Hs & _). split; [discriminate|]. intros Hn. now apply Hn in Hs.
Qed.

(** An index is complete at a node whose answer says [load_pct=100], up to a
    semicolon, and in progress at any other number; without a percentage it is
    not found if one of two codes is in the answer.  Other answers are errors. *)
Theorem index_response_status {S} response (s : S) :
  (forall pre pct post,
     response = pre ++ SUCCESS_PATTERN ++ pct ++ DELMITER ++ post ->
     first_at SUCCESS_PATTERN pre response ->
     first_at DELMITER pct (pct ++ DELMITER ++ post) ->
     parse_index_response response s
     = match parse_isize pct with
       | Some percent => Ret (if percent =? 100 then Complete else InProgress) s
       | None => Throw (BadResponse "Unexpected load_pct value from server") s
       end) /\
  (forall pre tail,
     response = pre ++ SUCCESS_PATTERN ++ tail ->
     first_at SUCCESS_PATTERN pre response -> find DELMITER tail = None ->
     parse_index_response response s
     = Throw (BadResponse "delimiter missing in response. Response: {}") s) /\
  (find SUCCESS_PATTERN response = None ->
   parse_index_response response s
   = if contains FAIL_PATTERN_201 response || contains FAIL_PATTERN_203 response
     then Ret NotFound s
     else Throw (BadResponse "Code 201 and 203 missing. Response: {}") s).
Proof.
  assert (forall pre tail,
    response = pre ++ SUCCESS_PATTERN ++ tail -> first_at SUCCESS_PATTERN pre response ->
    find SUCCESS_PATTERN response = Some (len pre) /\
    slice response (len pre + len SUCCESS_PATTERN) (len response) = Some tail) as Htail.
  { intros pre tail Hr Hf. split; [apply find_first, Hf|].
    pose proof (slice_mid (pre ++ SUCCESS_PATTERN) tail []) as H.
    rewrite app_nil_r, <- (assoc_L (++)), <- Hr in H. rewrite <- H. f_equal.
    - rewrite len_app. reflexivity.
    - rewrite Hr, !len_app. lia. }
  unfold parse_index_response. split; [|split].
  - intros pre pct post Hr Hf Hd. destruct (Htail _ _ Hr Hf) as [-> Hs].
    rewrite Hs. cbn [unwrap]. unfold bind at 1, ret at 1. rewrite (find_first _ _ _ Hd).
    pose proof (slice_mid (pre ++ SUCCESS_PATTERN) pct (DELMITER ++ post)) as H.
    rewrite <- (assoc_L (++)), <- Hr, len_app in H. rewrite H. cbn [unwrap].
    unfold bind, ret. destruct (parse_isize pct); reflexivity.
  - intros pre tail Hr Hf Hd. destruct (Htail _ _ Hr Hf) as [-> Hs].
    rewrite Hs. cbn [unwrap]. unfold bind, ret. rewrite Hd. reflexivity.
  - intros ->. destruct (_ || _); reflexivity.
Qed.

(** ** All nodes *)

Section Nodes.
Context {Net : Type} (ask : NodeId -> M (Cluster.World Net) Status).

Inductive all_complete : list NodeId -> Cluster.World Net -> Cluster.World Net -> Prop :=
| all_complete_nil w : all_complete [] w w
| all_complete_cons node nodes w w1 w2 :
    ask node w = Ret Complete w1 -> all_complete nodes w1 w2 -> all_complete (node :: nodes) w w2.

Lemma complete_everywhere w w' :
  on_all_nodes ask w = Ret Complete w' <->
  Cluster.nodes (Cluster.cluster w) <> [] /\ all_complete (Cluster.nodes (Cluster.cluster w)) w w'.
Proof.
  unfold on_all_nodes, bind, Cluster.asks.
  set (l := Cluster.nodes (Cluster.cluster w)). clearbody l.
  case_bool_decide as Hl; [split; [discriminate|intros []; contradiction]|].
  split; [intros H; split; [exact Hl|]|intros [_ H]]; clear Hl; revert w H.
  - induction l as [|node l IH]; intros w H; cbn [first_incomplete] in H.
    + injection H as <-. constructor.
    + unfold bind in H. destruct (ask node w) as [[] w1| | |] eqn:E; try discriminate H.
      econstructor; [exact E|apply IH, H].
  - intros w H. induction H as [w|node nodes w w1 w2 E _ IH]; [reflexivity|].
    cbn [first_incomplete]. unfold bind. rewrite E. exact IH.
Qed.

End Nodes.

(** ** The tasks of the cluster *)

(** The clock never goes back, and runs while a thread sleeps. *)
Class Passing `{CL : Clock} `{TI : Timer} := {
  instant_mono k j : (k <= j)%nat -> instant k <= instant j;
  slept_long k d : instant k + nanos d <= instant (slept k d)
}.

Section ClusterTasks.
Context `{BO : ByteOrder} `{CL : Clock} `{TI : Timer} `{PA : !Passing} `{DI : Dialer Net}.
Context (dial_terminates : forall host, terminates (connect (Net := Net) host)).

(** The clock of a state of the cluster. *)
Definition world_time (w : Cluster.World Net) : Z := instant (Cluster.ticks w).

Lemma calm_all_nodes (ask : NodeId -> M (Cluster.World Net) Status) :
  (forall node, calm (ask node)) -> calm (on_all_nodes ask).
Proof.
  intros Ha.
  assert (forall l, calm (first_incomplete ask l)) as Hl
    by (induction l as [|node l IH]; cbn [first_incomplete]; calm).
  unfold on_all_nodes. calm.
Qed.

Lemma calm_ask_node node command : calm (ask_node (Net := Net) node command).
Proof.
  unfold ask_node. pose proof (terminates_node_info dial_terminates). calm.
Qed.

Lemma calm_index_status task : calm (query_status (T := IndexTask) (W := Cluster.World Net) task).
Proof.
  apply calm_all_nodes. intros node. unfold index_status_at.
  apply calm_bind; [apply calm_ask_node|intros response]. unfold parse_index_response. calm.
Qed.

Lemma calm_register_status task : calm (query_status (T := RegisterTask) (W := Cluster.World Net) task).
Proof.
  apply calm_all_nodes. intros node. unfold register_status_at.
  apply calm_bind; [apply calm_ask_node|intros response]. calm.
Qed.

(** What [wait_ends] asks of a task, for a query that does not read the clock. *)
Lemma calm_time {A} (m : M (Cluster.World Net) A) w :
  calm m ->
  match m w with
  | Ret _ w' | Throw _ w' => world_time w <= world_time w'
  | Panic => True
  | NoFuel => False
  end.
Proof.
  intros [H1 H2]. specialize (H1 w). specialize (H2 w). unfold agree, world_time in *.
  destruct (m w); try (rewrite H2; lia); congruence || exact I.
Qed.

Lemma now_passes w :
  match Cluster.world_now w with
  | Ret t w' => world_time w <= t <= world_time w' | _ => False end.
Proof. unfold world_time. cbn. split; [lia|]. apply instant_mono. lia. Qed.

Lemma sleep_passes d w :
  match world_sleep (Net := Net) d w with
  | Ret _ w' => world_time w + nanos d <= world_time w' | _ => False end.
Proof. apply slept_long. Qed.

End ClusterTasks.

(** *** Concrete tasks *)

(** A clock in seconds. *)
Definition second_clock : Clock := {| instant n := Z.of_nat n * 1000000000 |}.

Definition second_timer : Timer := {| slept n d := (n + Z.to_nat (nanos d / 1000000000) + 1)%nat |}.

Section Example.
#[local] Existing Instance byteorder_model.
#[local] Existing Instance second_clock.
#[local] Existing Instance second_timer.
#[local] Existing Instance silent_dialer.

(** A node that answers twice about an index. *)
Definition answering (pct : string) : Connection :=
  let answer := str "sindex/test/idx" ++ [9] ++ str "load_pct=" ++ str pct ++ str ";" ++ [10] in
  sample_conn (info_message 2 1 answer ++ info_message 2 1 answer).

#[local] Instance passing : Passing.
Proof.
  split; [intros k j H; cbn; lia|]. intros k d. cbn.
  pose proof (Z.div_mod (nanos d) 1000000000 ltac:(lia)).
  pose proof (Z.mod_pos_bound (nanos d) 1000000000 ltac:(lia)). lia.
Qed.

Lemma wait_ends_witness :
  let task := mkIndexTask (str "test") (str "idx") in
  let w := sample_world 0 0 [answering "100"] in
  match wait_till_complete 4 task (Some (mkDuration 3 0)) w with
  | Ret status _ => status = Complete
  | _ => False
  end.
Proof.
  intros task w.
  assert (forall host, terminates (connect (Net := unit) host)) as Hd by discriminate.
  pose proof (wait_ends task world_time now_passes sleep_passes
    (fun w => calm_time _ w (calm_index_status Hd task)) (mkDuration 3 0) 4 w
    ltac:(vm_compute; reflexivity) ltac:(vm_compute; discriminate)) as H.
  destruct (wait_till_complete 4 task (Some (mkDuration 3 0)) w) eqn:E;
    [exact H|vm_compute in E; discriminate E..].
Defined.

Lemma index_response_status_witness :
  parse_index_response (S := unit) (str "load_pct=42;rest") tt = Ret InProgress tt.
Proof.
  destruct (index_response_status (str "load_pct=42;rest") tt) as (H & _).
  rewrite (H [] (str "42") (str "rest")); [vm_compute; reflexivity|reflexivity| |].
  - split; [exists (str "42;rest"); reflexivity|]. intros. apply len_nonneg.
  - split; [exists (str "rest"); reflexivity|]. intros pre post E.
    destruct pre as [|c [|d pre]]; [discriminate E|discriminate E|].
    unfold len. cbn. lia.
Defined.

End Example.
