(* ===== verification/BatchExecutor.v ===== *)
(** * Batch reads on several nodes ([src/batch/batch_executor.rs])

    The keys of a batch are grouped by the node they belong to; every group
    becomes a [BatchReadCommand], and the threads of a pool take the commands
    from a shared iterator.  All commands write their records into one
    [SharedSlice], each at the positions of its own group.

    The threads are the workers of a step relation: every lock of a mutex and
    every execution of a command is a step, and between two steps the cluster,
    its pools and the network may have changed in any way.  [run_jobs] is the
    program of a single thread; [execute_batch_read] is a relation, with all the
    interleavings of the threads that the policy asks for. *)

From stdpp Require Import base list strings gmap relations.
From Stdlib Require Import ZArith Lia.
From S2P Require Import Prelude ResultCodes Monad ByteOrder Slices Buffer Values Policy.
From S2P Require Import Records Connection Statements Commands Queries Responses Recordset.
From S2P Require Import Streams Execute.
From S2P Require Import Hosts ClientPolicy ConnectionPool Nodes Cluster ClusterExecute.

Section NodeCommands.
Context `{BO : ByteOrder} `{CL : Clock} `{DI : Dialer Net}.

(** The environment of a command that is bound to a node ([get_node] of
    [StreamCommand] and of [BatchReadCommand]). *)
#[export] Instance node_environment (node : NodeId)
    : Environment (Cluster.World Net) NodeId nat := {|
  env_now := Cluster.world_now;
  sleep _ := ret tt;
  get_node := ret node;
  get_connection := node_connection;
  invalidate q conn := with_queues (ConnectionPool.invalidate (leased q conn));
  put_back q conn := with_queues (ConnectionPool.drop (leased q conn))
|}.

End NodeCommands.

Module BatchExecutor.

(** [HashMap<Arc<Node>, Vec<usize>>]; nodes are compared by their names. *)
Definition BatchNodes : Type := list (NodeId * list Z).

Section Grouping.
Context `{BO : ByteOrder} {Net : Type}.
Implicit Types w : Cluster.World Net.

Definition node_for_key (key : Key) : M (Cluster.World Net) NodeId :=
  let! partition := unwrap (new_by_key key) in Cluster.get_node partition.

(** [map.entry(node).or_insert_with(Vec::new).push(idx)]. *)
Fixpoint entry_push (node : NodeId) (idx : Z) (map : BatchNodes)
    : M (Cluster.World Net) BatchNodes :=
  match map with
  | [] => ret [(node, [idx])]
  | (n, offsets) :: map' =>
      let! same := Cluster.same_node n node in
      if same : bool then ret ((n, offsets ++ [idx]) :: map')
      else let! map' := entry_push node idx map' in ret ((n, offsets) :: map')
  end.

(** The loop over the keys, from position [idx] on. *)
Fixpoint batch_nodes_loop (idx : Z) (batch_reads : list BatchRead) (map : BatchNodes)
    : M (Cluster.World Net) BatchNodes :=
  match batch_reads with
  | [] => ret map
  | batch_read :: batch_reads' =>
      let! node := node_for_key (br_key batch_read) in
      let! map := entry_push node idx map in
      batch_nodes_loop (idx + 1) batch_reads' map
  end.

Definition get_batch_nodes (batch_reads : list BatchRead)
    : M (Cluster.World Net) BatchNodes :=
  batch_nodes_loop 0 batch_reads [].

End Grouping.

(** The number of threads for [n] jobs. *)
Definition threads (concurrency : Concurrency) (n : Z) : Z :=
  match concurrency with
  | Sequential => 1
  | Parallel => n
  | MaxThreads max => Z.min max n
  end.

(** A [BatchReadCommand] without the policy and the slice it shares with the
    others. *)
Definition Job : Type := (NodeId * list Z)%type.

Section Jobs.
Context `{BO : ByteOrder} `{VF : ValueFmt} `{CL : Clock} `{DI : Dialer Net}.
Context (fuel : nat) (policy : BatchPolicy).

(** [BatchReadCommand::execute] has the loop of [SingleCommand::execute], with the
    node of the command for the one of the key. *)
Definition batch_execute (node : NodeId)
    : M (BatchReadCommand.BatchReadCommand * Cluster.World Net) unit :=
  execute (CM := batch_read_command fuel) (EN := node_environment node)
    fuel (bp_base_policy policy).

(** [cmd.execute()] on the shared slice. *)
Definition run_job (job : Job) : M (list BatchRead * Cluster.World Net) unit :=
  fun s =>
    match batch_execute job.1
            (BatchReadCommand.mkBatchReadCommand policy s.1 job.2, s.2) with
    | Ret a (cmd, w) => Ret a (BatchReadCommand.batch_reads cmd, w)
    | Throw e (cmd, w) => Throw e (BatchReadCommand.batch_reads cmd, w)
    | Panic => Panic
    | NoFuel => NoFuel
    end.

(** *** The threads *)

(** Where a thread is: before [next_job()], in [cmd.execute()], with an error
    to store, before consuming the remaining jobs, or at its end. *)
Inductive worker : Type :=
| Ready
| Running (job : Job)
| Failing (e : ErrorKind)
| Draining
| Stopped.

(** What the threads share; [ended] is a history variable, the jobs that were
    executed with their results. *)
Record pool : Type := mkPool {
  jobs : list Job;
  batch_reads : list BatchRead;
  last_err : option ErrorKind;
  workers : list worker;
  ended : list (Job * (unit + ErrorKind))
}.

Definition start (batch_jobs : list Job) (reads : list BatchRead) : pool :=
  mkPool batch_jobs reads None
    (replicate (Z.to_nat (threads (concurrency policy) (len batch_jobs))) Ready) [].

Definition set_worker (i : nat) (x : worker) (p : pool) : pool :=
  mkPool (jobs p) (batch_reads p) (last_err p) (<[i := x]> (workers p)) (ended p).

Definition set_jobs (l : list Job) (p : pool) : pool :=
  mkPool l (batch_reads p) (last_err p) (workers p) (ended p).

Definition set_last_err (e : ErrorKind) (p : pool) : pool :=
  mkPool (jobs p) (batch_reads p) (Some e) (workers p) (ended p).

Definition job_ended (job : Job) (r : unit + ErrorKind) (reads : list BatchRead) (p : pool)
    : pool :=
  mkPool (jobs p) reads (last_err p) (workers p) (ended p ++ [(job, r)]).

Inductive step : pool -> pool -> Prop :=
| step_take i job rest p :
    workers p !! i = Some Ready -> jobs p = job :: rest ->
    step p (set_worker i (Running job) (set_jobs rest p))
| step_stop i p :
    workers p !! i = Some Ready -> jobs p = [] ->
    step p (set_worker i Stopped p)
| step_ok i job reads w w' p :
    workers p !! i = Some (Running job) ->
    run_job job (batch_reads p, w) = Ret tt (reads, w') ->
    step p (set_worker i Ready (job_ended job (inl tt) reads p))
| step_err i job e reads w w' p :
    workers p !! i = Some (Running job) ->
    run_job job (batch_reads p, w) = Throw e (reads, w') ->
    step p (set_worker i (Failing e) (job_ended job (inr e) reads p))
| step_store i e p :
    workers p !! i = Some (Failing e) ->
    step p (set_worker i Draining (set_last_err e p))
| step_drain i p :
    workers p !! i = Some Draining ->
    step p (set_worker i Ready (set_jobs [] p)).

(** The scope ends when every thread has stopped. *)
Definition joined (p : pool) : Prop := Forall (eq Stopped) (workers p).

(** [execute_batch_jobs] after the scope. *)
Definition jobs_result (p : pool) : unit + ErrorKind :=
  match last_err p with None => inl tt | Some err => inr err end.

(** *** A single thread *)

(** The loop of a thread that has no competitor: the error of a job leaves
    nothing to do. *)
Fixpoint run_jobs (l : list Job)
    : M (list BatchRead * Cluster.World Net) (option ErrorKind) :=
  match l with
  | [] => ret None
  | job :: l' =>
      let! r := catch (run_job job) in
      match r with
      | inl _ => run_jobs l'
      | inr err => ret (Some err)
      end
  end.

(** *** A batch *)

(** [execute_batch_jobs], in some interleaving of its threads. *)
Inductive execute_batch_jobs (batch_jobs : list Job) (reads : list BatchRead)
    : list BatchRead -> unit + ErrorKind -> Prop :=
| threads_joined p :
    rtc step (start batch_jobs reads) p -> joined p ->
    execute_batch_jobs batch_jobs reads (batch_reads p) (jobs_result p).

(** [execute_batch_read]: the map gives up its entries in any order. *)
Inductive execute_batch_read (reads : list BatchRead) (w : Cluster.World Net)
    : list BatchRead + ErrorKind -> Prop :=
| batch_unroutable e w' :
    get_batch_nodes reads w = Throw e w' -> execute_batch_read reads w (inr e)
| batch_ok nodes batch_jobs reads' w' :
    get_batch_nodes reads w = Ret nodes w' -> batch_jobs ≡ₚ nodes ->
    execute_batch_jobs batch_jobs reads reads' (inl tt) ->
    execute_batch_read reads w (inl reads')
| batch_err nodes batch_jobs reads' e w' :
    get_batch_nodes reads w = Ret nodes w' -> batch_jobs ≡ₚ nodes ->
    execute_batch_jobs batch_jobs reads reads' (inr e) ->
    execute_batch_read reads w (inr e).

(** The program of a single thread, with the entries in their own order. *)
Definition execute_sequential (reads : list BatchRead)
    : M (Cluster.World Net) (list BatchRead) :=
  let! nodes := get_batch_nodes reads in
  fun w =>
    match run_jobs nodes (reads, w) with
    | Ret None (reads', w') => Ret reads' w'
    | Ret (Some err) (_, w') => Throw err w'
    | Throw e (_, w') => Throw e w'
    | Panic => Panic
    | NoFuel => NoFuel
    end.

End Jobs.

End BatchExecutor.
