(* ===== verification/BatchExecutorFacts.v ===== *)
(** * The threads of a batch read

    [batch_groups]: the grouping of a batch gives every node exactly the
    positions of its keys.  [batch_jobs_joined]: in every interleaving of the
    threads every command is executed once, unless one fails, whose error is then
    the result; the run is bounded, and the slice keeps its keys.
    [sequential_refines]: the program of one thread is such an interleaving.
    [batch_read_result]: what a whole batch returns. *)

From stdpp Require Import base list strings gmap numbers relations.
From Stdlib Require Import ZArith Lia.
From S2P Require Import Prelude ResultCodes Monad Invariants ByteOrder Slices Buffer Values Policy.
From S2P Require Import Records Connection Statements Commands Queries Responses Recordset.
From S2P Require Import Streams Execute ExecuteFacts.
From S2P Require Import Hosts ClientPolicy ConnectionPool Nodes Cluster PartitionFacts.
From S2P Require Import PoolFacts ResponseFacts StreamFacts BatchResponseFacts.
From S2P Require Import ClusterExecute EndToEnd BatchExecutor.

Import BatchExecutor.

(** ** Grouping *)

(** The positions of a name in a list, counted from [i]. *)
Fixpoint positions (i : Z) (name : bytes) (names : list bytes) : list Z :=
  match names with
  | [] => []
  | x :: names' =>
      (if bool_decide (x = name) then [i] else []) ++ positions (i + 1) name names'
  end.

Lemma positions_snoc name x names : forall i,
  positions i name (names ++ [x])
  = positions i name names ++ (if bool_decide (x = name) then [i + len names] else []).
Proof.
  induction names as [|y names IH]; intros i; cbn [positions app].
  - rewrite len_nil, Z.add_0_r, app_nil_r. reflexivity.
  - rewrite IH, len_cons, <- (assoc_L (++)).
    replace (i + 1 + len names) with (i + (1 + len names)) by lia. reflexivity.
Qed.

(** The groups of a list of names, as [entry_push] makes them. *)
Fixpoint push_name (name : bytes) (idx : Z) (gs : list (bytes * list Z))
    : list (bytes * list Z) :=
  match gs with
  | [] => [(name, [idx])]
  | (n, offsets) :: gs' =>
      if bool_decide (n = name) then (n, offsets ++ [idx]) :: gs'
      else (n, offsets) :: push_name name idx gs'
  end.

Definition grouped (names : list bytes) (gs : list (bytes * list Z)) : Prop :=
  NoDup gs.*1 /\
  (forall name offsets, (name, offsets) ∈ gs ->
     offsets = positions 0 name names /\ name ∈ names) /\
  (forall name, name ∈ names -> name ∈ gs.*1) /\
  concat gs.*2 ≡ₚ seqZ 0 (len names).

Lemma push_name_names name idx gs :
  (name ∈ gs.*1 -> (push_name name idx gs).*1 = gs.*1) /\
  (name ∉ gs.*1 -> (push_name name idx gs).*1 = gs.*1 ++ [name]).
Proof.
  induction gs as [|[n l] gs [IH1 IH2]]; cbn; [split; [intros []%not_elem_of_nil|reflexivity]|].
  case_bool_decide as Hn; cbn.
  - split; [reflexivity|]. intros H. exfalso. apply H. subst. left.
  - split.
    + intros [?|H]%elem_of_cons; [congruence|]. rewrite IH1 by exact H. reflexivity.
    + intros [_ H]%not_elem_of_cons. rewrite IH2 by exact H. reflexivity.
Qed.

Lemma push_name_entries name idx gs n l :
  (n, l) ∈ push_name name idx gs -> NoDup gs.*1 ->
  (n <> name /\ (n, l) ∈ gs) \/
  (n = name /\ exists l', l = l' ++ [idx] /\ (name ∈ gs.*1 -> (name, l') ∈ gs) /\
     (name ∉ gs.*1 -> l' = [])).
Proof.
  induction gs as [|[m k] gs IH]; cbn.
  - intros [= -> ->]%list_elem_of_singleton _. right. split; [reflexivity|]. exists [].
    split; [reflexivity|]. split; [intros []%not_elem_of_nil|reflexivity].
  - intros Hin [Hm Hd]%NoDup_cons. case_bool_decide as Hmn.
    + apply elem_of_cons in Hin as [[= -> ->]|Hin].
      * right. split; [exact Hmn|]. exists k. split; [reflexivity|]. subst.
        split; [left|]. intros H. exfalso. apply H. left.
      * left. split; [|right; exact Hin]. intros ->. subst. apply Hm.
        apply list_elem_of_fmap. exists (name, l). split; [reflexivity|exact Hin].
    + apply elem_of_cons in Hin as [[= -> ->]|Hin].
      * left. split; [exact Hmn|left].
      * destruct (IH Hin Hd) as [[? ?]|(-> & l' & -> & H1 & H2)].
        { left. split; [assumption|]. right. assumption. }
        right. split; [reflexivity|]. exists l'. split; [reflexivity|]. split.
        { intros [?|H]%elem_of_cons; [congruence|]. right. apply H1, H. }
        intros [_ H]%not_elem_of_cons. apply H2, H.
Qed.

Lemma push_name_concat name idx gs :
  concat (push_name name idx gs).*2 ≡ₚ idx :: concat gs.*2.
Proof.
  induction gs as [|[n l] gs IH]; cbn; [reflexivity|]. case_bool_decide; cbn.
  - rewrite <- (assoc_L (++)). cbn. symmetry. apply Permutation_middle.
  - rewrite IH. symmetry. apply Permutation_middle.
Qed.

Lemma positions_absent name names i : name ∉ names -> positions i name names = [].
Proof.
  revert i. induction names as [|x names IH]; intros i H; [reflexivity|].
  apply not_elem_of_cons in H as [H1 H2]. cbn. rewrite bool_decide_false by congruence.
  apply IH, H2.
Qed.

Lemma grouped_nil : grouped [] [].
Proof.
  repeat split; try (constructor || reflexivity); intros; exfalso;
    eapply not_elem_of_nil; eassumption.
Qed.

Lemma push_name_grouped name names gs :
  grouped names gs -> grouped (names ++ [name]) (push_name name (len names) gs).
Proof.
  intros (Hd & Hpos & Hall & Hcat). destruct (push_name_names name (len names) gs) as [Hin Hout].
  repeat split.
  - destruct (decide (name ∈ gs.*1)) as [H|H]; [rewrite Hin by exact H; exact Hd|].
    rewrite Hout by exact H. apply NoDup_app. split; [exact Hd|]. split; [|apply NoDup_singleton].
    intros x Hx ->%list_elem_of_singleton. contradiction.
  - rewrite positions_snoc, Z.add_0_l.
    destruct (push_name_entries _ _ _ _ _ H Hd) as [[Hne Hgs]|(-> & l' & -> & H1 & H2)].
    + rewrite bool_decide_false, app_nil_r by congruence. apply Hpos, Hgs.
    + rewrite bool_decide_true by reflexivity. f_equal.
      destruct (decide (name ∈ gs.*1)) as [Hn|Hn]; [apply Hpos, H1, Hn|].
      rewrite (H2 Hn), positions_absent; [reflexivity|]. intros Hx. apply Hn, Hall, Hx.
  - apply elem_of_app.
    destruct (push_name_entries _ _ _ _ _ H Hd) as [[Hne Hgs]|(-> & _)].
    + left. eapply Hpos, Hgs.
    + right. apply list_elem_of_singleton. reflexivity.
  - intros x Hx. destruct (decide (name ∈ gs.*1)) as [Hn|Hn].
    + rewrite Hin by exact Hn. apply elem_of_app in Hx as [Hx| ->%list_elem_of_singleton];
        [apply Hall, Hx|exact Hn].
    + rewrite Hout by exact Hn. apply elem_of_app.
      apply elem_of_app in Hx as [Hx|Hx]; [left; apply Hall, Hx|right; exact Hx].
  - rewrite push_name_concat, len_app, Hcat. change (len [name]) with 1.
    unfold len. rewrite seqZ_app by lia. rewrite Permutation_app_comm. reflexivity.
Qed.

Section Grouping.
Context `{BO : ByteOrder} {Net : Type}.
Implicit Types w : Cluster.World Net.

(** The node that the partition map names for a key. *)
Definition home w (key : Key) : option NodeId :=
  p ← new_by_key key;
  entry ← Cluster.partition_write_map (Cluster.cluster w) !! part_namespace p;
  entry !! Z.to_nat (partition_id p).

Definition home_name w (key : Key) : option bytes := id ← home w key; node_name w id.

(** The groups with the names of their nodes. *)
Definition named w (map : BatchNodes) (gs : list (bytes * list Z)) : Prop :=
  Forall2 (fun g g' => node_name w g.1 = Some g'.1 /\ g.2 = g'.2) map gs.

Lemma node_for_key_home w key id : home w key = Some id -> node_for_key key w = Ret id w.
Proof.
  unfold home, node_for_key. destruct (new_by_key key) as [p|]; [|discriminate]. cbn.
  unfold Cluster.get_node, bind, Cluster.asks. cbn.
  destruct (Cluster.partition_write_map (Cluster.cluster w) !! part_namespace p) as [e|];
    [|discriminate]. cbn. intros ->. reflexivity.
Qed.

Lemma same_node_names w id1 id2 n1 n2 :
  node_name w id1 = Some n1 -> node_name w id2 = Some n2 ->
  Cluster.same_node id1 id2 w = Ret (bool_decide (n1 = n2)) w.
Proof.
  unfold node_name. intros (x1 & H1 & ->)%fmap_Some (x2 & H2 & ->)%fmap_Some.
  unfold Cluster.same_node, bind. rewrite (node_field_spec _ _ _ _ H1).
  rewrite (node_field_spec _ _ _ _ H2). reflexivity.
Qed.

Lemma entry_push_named w node name idx map : forall gs,
  node_name w node = Some name -> named w map gs ->
  exists map', entry_push node idx map w = Ret map' w /\ named w map' (push_name name idx gs).
Proof.
  induction map as [|[id l] map IH]; intros gs Hn Hm; cbn [entry_push].
  - apply Forall2_nil_inv_l in Hm as ->. exists [(node, [idx])]. split; [reflexivity|].
    constructor; [split; [exact Hn|reflexivity]|constructor].
  - apply Forall2_cons_inv_l in Hm as ([n k] & gs' & [Hid Hk] & Hm & ->). cbn in Hid, Hk. subst k.
    rewrite (bind_Ret _ _ _ _ _ (same_node_names _ _ _ _ _ Hid Hn)). cbn [push_name].
    case_bool_decide as Heq.
    + eexists. split; [reflexivity|]. constructor; [split; [exact Hid|reflexivity]|exact Hm].
    + destruct (IH gs' Hn Hm) as (map' & E & Hm'). rewrite (bind_Ret _ _ _ _ _ E).
      eexists. split; [reflexivity|]. constructor; [split; [exact Hid|reflexivity]|exact Hm'].
Qed.

Lemma batch_nodes_loop_grouped w reads : forall names before map gs,
  Forall2 (fun r name => home_name w (br_key r) = Some name) reads names ->
  named w map gs -> grouped before gs ->
  exists map' gs', batch_nodes_loop (len before) reads map w = Ret map' w /\
    named w map' gs' /\ grouped (before ++ names) gs'.
Proof.
  induction reads as [|r reads IH]; intros names before map gs Hr Hm Hg.
  - apply Forall2_nil_inv_l in Hr as ->. exists map, gs. rewrite app_nil_r. auto.
  - apply Forall2_cons_inv_l in Hr as (name & names' & Hname & Hr & ->).
    unfold home_name in Hname. destruct (home w (br_key r)) as [id|] eqn:Hid; [|discriminate].
    cbn in Hname. destruct (entry_push_named w id name (len before) map gs Hname Hm)
      as (map1 & E & Hm1).
    cbn [batch_nodes_loop]. rewrite (bind_Ret _ _ _ _ _ (node_for_key_home _ _ _ Hid)).
    rewrite (bind_Ret _ _ _ _ _ E).
    destruct (IH names' (before ++ [name]) map1 _ Hr Hm1 (push_name_grouped name before gs Hg))
      as (map' & gs' & E' & Hm' & Hg').
    exists map', gs'. replace (len before + 1) with (len (before ++ [name]))
      by (rewrite len_app; reflexivity).
    rewrite <- (assoc_L (++)) in Hg'. auto.
Qed.

Lemma get_batch_nodes_grouped w reads names :
  Forall2 (fun r name => home_name w (br_key r) = Some name) reads names ->
  exists groups gs, get_batch_nodes reads w = Ret groups w /\
    named w groups gs /\ grouped names gs.
Proof.
  intros Hr. apply (batch_nodes_loop_grouped w reads names [] [] [] Hr);
    [constructor|apply grouped_nil].
Qed.

Lemma named_projections w groups gs :
  named w groups gs ->
  ((fun g => node_name w g.1) <$> groups) = Some <$> gs.*1 /\ groups.*2 = gs.*2.
Proof.
  unfold named. induction 1 as [|[id l] [n k] map gs [H1 H2] _ [IH1 IH2]];
    [split; reflexivity|]. cbn in *. subst. rewrite IH1, IH2, H1. split; reflexivity.
Qed.

(** The batch is split among the nodes that the partition map names for its
    keys: a node is one group, whose positions are those of its keys, in their
    order; every position is in one group, and nothing else changes. *)
Theorem batch_groups w reads names :
  Forall2 (fun r name => home_name w (br_key r) = Some name) reads names ->
  exists groups, get_batch_nodes reads w = Ret groups w /\
    concat groups.*2 ≡ₚ seqZ 0 (len reads) /\
    NoDup ((fun g => node_name w g.1) <$> groups) /\
    Forall (fun g => exists name, name ∈ names /\
              node_name w g.1 = Some name /\ g.2 = positions 0 name names) groups.
Proof.
  intros Hr.
  destruct (get_batch_nodes_grouped w reads names Hr) as (groups & gs & E & Hm & Hd & Hpos & _ & Hcat).
  exists groups. split; [exact E|]. destruct (named_projections _ _ _ Hm) as [E1 E2].
  rewrite E1, E2. unfold len in *. rewrite (Forall2_length _ _ _ Hr). split; [exact Hcat|].
  split; [apply NoDup_fmap_2; [apply _|exact Hd]|].
  rewrite Forall_lookup. intros i [id l] Hi.
  destruct (Forall2_lookup_l _ _ _ _ _ Hm Hi) as ([n k] & Hk & [H1 H2]). cbn in *. subst k.
  destruct (Hpos n l) as [-> Hn]; [eapply list_elem_of_lookup_2, Hk|]. exists n. auto.
Qed.

End Grouping.

(** ** What a job leaves as it was *)

(** The keys and bins of a batch, without the records. *)
Definition asked (reads : list BatchRead) : list (Key * Bins) :=
  (fun r => (br_key r, br_bins r)) <$> reads.

Section JobKeeps.
Context `{BO : ByteOrder} `{VF : ValueFmt} `{CL : Clock}.

Abbreviation skeleton :=
  (fun s : BatchReadCommand * Connection => asked (BatchReadCommand.batch_reads s.1)).

Lemma skeleton_snd {A} (m : M Connection A) : stays (agree skeleton) (on_snd m).
Proof. apply stays_on_snd. intros cmd c. destruct (m c); reflexivity || exact I. Qed.

Lemma skeleton_set_record i r : stays (agree skeleton) (on_fst (BatchReadCommand.set_record i r)).
Proof.
  apply stays_on_fst. intros c cmd. unfold BatchReadCommand.set_record.
  destruct (BatchReadCommand.batch_reads cmd !! Z.to_nat i) as [br|] eqn:Hbr; [|exact I].
  unfold agree. cbn. unfold asked. rewrite list_fmap_insert, list_insert_id; [reflexivity|].
  rewrite list_lookup_fmap, Hbr. reflexivity.
Qed.

Lemma skeleton_group fuel : forall size,
  stays (agree skeleton) (BatchReadCommand.parse_group fuel size).
Proof.
  induction fuel as [|fuel IH]; intros size; [intros s; exact I|].
  cbn [BatchReadCommand.parse_group].
  apply stays_bind; [apply _|apply skeleton_snd|]. intros c.
  destruct (_ <? size); [|apply stays_ret, _].
  apply stays_bind; [apply _|apply skeleton_snd|]. intros _.
  apply stays_bind; [apply _|apply skeleton_snd|]. intros [r|]; [|apply stays_ret, _].
  apply stays_bind; [apply _|apply skeleton_set_record|]. intros _. apply IH.
Qed.

Lemma skeleton_parse fuel : stays (agree skeleton) (BatchReadCommand.parse_result fuel).
Proof.
  induction fuel as [|fuel IH]; [intros s; exact I|]. cbn [BatchReadCommand.parse_result].
  do 3 (apply stays_bind; [apply _|apply skeleton_snd|]; intros ?).
  apply stays_bind; [apply _|destruct (_ <? _); [apply skeleton_group|apply stays_ret, _]|].
  intros [|]; [apply IH|apply stays_ret, _].
Qed.

(** A job changes nothing but the records of the slice. *)
Lemma run_job_asked `{DI : Dialer Net} fuel policy job (s : list BatchRead * Cluster.World Net) :
  match run_job fuel policy job s with
  | Ret _ s' | Throw _ s' => asked s'.1 = asked s.1
  | _ => True
  end.
Proof.
  unfold run_job, batch_execute.
  pose proof (execute_keeps (CM := batch_read_command fuel) (EN := node_environment job.1)
    (fun cmd => asked (BatchReadCommand.batch_reads cmd))) as H.
  specialize (H ltac:(apply stays_bind; [apply _|intros ?; reflexivity|intros ?; apply skeleton_snd])
    ltac:(intros; apply skeleton_snd) ltac:(apply skeleton_snd) (skeleton_parse fuel)
    fuel (bp_base_policy policy)
    (BatchReadCommand.mkBatchReadCommand policy s.1 job.2, s.2)).
  destruct (execute _ _ _) as [a [cmd w]|e [cmd w]| |]; exact H.
Qed.

End JobKeeps.

(** ** The threads *)

Section Threads.
Context `{BO : ByteOrder} `{VF : ValueFmt} `{CL : Clock} `{DI : Dialer Net}.
Context (fuel : nat) (policy : BatchPolicy).

Abbreviation pool_step := (step (Net := Net) fuel policy).

(** The job a thread holds. *)
Definition held (x : worker) : list Job := match x with Running job => [job] | _ => [] end.

(** How many steps a thread can still make without taking a job. *)
Definition weight (x : worker) : nat :=
  match x with Ready => 1 | Running _ => 4 | Failing _ => 3 | Draining => 2 | Stopped => 0 end.

Definition total_weight (p : pool) : nat :=
  (4 * length (jobs p) + sum_list (weight <$> workers p))%nat.

Lemma sum_list_insert (l : list nat) i x y :
  l !! i = Some x -> (sum_list (<[i := y]> l) + x = sum_list l + y)%nat.
Proof.
  intros H. rewrite <- (take_drop_middle l i x H) at 2.
  rewrite insert_take_drop by (eapply lookup_lt_Some, H). rewrite !sum_list_with_app. cbn. lia.
Qed.

Lemma weight_set_worker i x y p :
  workers p !! i = Some x ->
  (total_weight (set_worker i y p) + weight x = total_weight p + weight y)%nat.
Proof.
  intros H. unfold total_weight. cbn. rewrite list_fmap_insert.
  pose proof (sum_list_insert (weight <$> workers p) i (weight x) (weight y)) as Hs.
  rewrite list_lookup_fmap, H in Hs. specialize (Hs eq_refl). lia.
Qed.

Ltac weigh :=
  unfold total_weight in *;
  cbn [jobs workers set_worker set_jobs job_ended set_last_err weight] in *.

(** Every step uses up some weight. *)
Lemma step_weight p p' : pool_step p p' -> (total_weight p' < total_weight p)%nat.
Proof.
  intros Hs. destruct Hs as
    [i job rest p Hi Hj|i p Hi Hj|i job reads w w' p Hi Hr|i job e reads w w' p Hi Hr|i e p Hi|i p Hi].
  - pose proof (weight_set_worker i Ready (Running job) (set_jobs rest p) Hi) as H.
    weigh. rewrite Hj. cbn [length]. lia.
  - pose proof (weight_set_worker i Ready Stopped p Hi). weigh. lia.
  - pose proof (weight_set_worker i _ Ready (job_ended job (inl tt) reads p) Hi). weigh. lia.
  - pose proof (weight_set_worker i _ (Failing e) (job_ended job (inr e) reads p) Hi). weigh. lia.
  - pose proof (weight_set_worker i _ Draining (set_last_err e p) Hi). weigh. lia.
  - pose proof (weight_set_worker i _ Ready (set_jobs [] p) Hi). weigh.
    cbn [length] in *. lia.
Qed.

Lemma steps_weight k p p' : nsteps pool_step k p p' -> (k + total_weight p' <= total_weight p)%nat.
Proof.
  induction 1 as [p|k p p1 p' Hs _ IH]; [lia|]. pose proof (step_weight _ _ Hs). lia.
Qed.

(** The errors of the executed jobs. *)
Definition errors (p : pool) : list ErrorKind :=
  omap (fun r => match r.2 with inr e => Some e | inl _ => None end) (ended p).

(** Where the jobs are: executed, held by a thread, still in the list, or dropped
    after an error. *)
Definition accounted (batch_jobs : list Job) (p : pool) : Prop :=
  exists dropped,
    (ended p).*1 ++ (workers p ≫= held) ++ jobs p ++ dropped ≡ₚ batch_jobs /\
    (dropped <> [] -> last_err p <> None).

(** How the states of the threads fit what they share. *)
Record consistent (p : pool) : Prop := {
  run_failing : forall e, Failing e ∈ workers p -> e ∈ errors p;
  run_stored : forall e, last_err p = Some e -> e ∈ errors p;
  run_draining : Draining ∈ workers p -> last_err p <> None;
  run_errors : errors p <> [] -> last_err p <> None \/ exists e, Failing e ∈ workers p;
  run_stopped : Stopped ∈ workers p -> jobs p = []
}.

Lemma elem_of_set (l : list worker) i x y : x ∈ <[i := y]> l -> x = y \/ x ∈ l.
Proof.
  intros [j Hj]%list_elem_of_lookup. destruct (decide (i = j)) as [<-|Hn].
  - apply list_lookup_insert_Some in Hj as [(_ & <- & _)|[? _]]; [left; reflexivity|congruence].
  - rewrite list_lookup_insert_ne in Hj by exact Hn. right. eapply list_elem_of_lookup_2, Hj.
Qed.

Lemma elem_of_unset (l : list worker) i x y z :
  l !! i = Some x -> z ∈ l -> z <> x -> z ∈ <[i := y]> l.
Proof.
  intros Hi [j Hj]%list_elem_of_lookup Hn. apply list_elem_of_lookup. exists j.
  rewrite list_lookup_insert_ne; [exact Hj|]. intros ->. congruence.
Qed.

Lemma held_set (l : list worker) i x y :
  l !! i = Some x -> held x ++ (<[i := y]> l ≫= held) ≡ₚ held y ++ (l ≫= held).
Proof.
  intros H. rewrite <- (take_drop_middle l i x H) at 2.
  rewrite insert_take_drop by (eapply lookup_lt_Some, H).
  rewrite !bind_app. cbn [mbind list_bind]. solve_Permutation.
Qed.
Lemma errors_snoc job r p reads :
  errors (job_ended job r reads p)
  = errors p ++ match r with inr e => [e] | inl _ => [] end.
Proof. unfold errors. cbn. rewrite omap_app. destruct r; reflexivity. Qed.

(** A thread goes from [x] to [y]. *)
Lemma consistent_move p i x y :
  consistent p -> workers p !! i = Some x ->
  (forall e, y = Failing e -> e ∈ errors p) ->
  (y = Draining -> last_err p <> None) ->
  (y = Stopped -> jobs p = []) ->
  (forall e, x = Failing e -> last_err p <> None) ->
  consistent (set_worker i y p).
Proof.
  intros [Hfail Hstore Hdrain Herr Hstop] Hi Hy1 Hy2 Hy3 Hx. split; cbn.
  - intros e [?|H]%elem_of_set; [apply Hy1; congruence|apply Hfail, H].
  - exact Hstore.
  - intros [?|H]%elem_of_set; [apply Hy2; congruence|apply Hdrain, H].
  - intros H. destruct (Herr H) as [?|[e He]]; [left; assumption|].
    destruct (decide (last_err p = None)) as [Hn|]; [|left; assumption]. right. exists e.
    eapply elem_of_unset; [exact Hi|exact He|]. intros <-. eapply Hx; [reflexivity|exact Hn].
  - intros [?|H]%elem_of_set; [apply Hy3; congruence|apply Hstop, H].
Qed.

Lemma consistent_error p i job e reads :
  consistent p -> workers p !! i = Some (Running job) ->
  consistent (set_worker i (Failing e) (job_ended job (inr e) reads p)).
Proof.
  intros [Hfail Hstore Hdrain Herr Hstop] Hi.
  assert (errors (set_worker i (Failing e) (job_ended job (inr e) reads p)) = errors p ++ [e])
    as He by apply errors_snoc.
  split; rewrite ?He; cbn [workers set_worker job_ended last_err jobs].
  - intros e' [[= <-]|H]%elem_of_set; apply elem_of_app;
      [right; left|left; apply Hfail, H].
  - intros e' H. apply elem_of_app. left. apply Hstore, H.
  - intros [?|H]%elem_of_set; [discriminate|apply Hdrain, H].
  - intros _. right. exists e. apply list_elem_of_insert. eapply lookup_lt_Some, Hi.
  - intros [?|H]%elem_of_set; [discriminate|apply Hstop, H].
Qed.

Lemma step_consistent p p' : consistent p -> pool_step p p' -> consistent p'.
Proof.
  intros Hp Hs. destruct Hs as
    [i job rest p Hi Hj|i p Hi Hj|i job r w w' p Hi Hr|i job e r w w' p Hi Hr|i e p Hi|i p Hi].
  - eapply consistent_move; [|exact Hi|discriminate..]. destruct Hp. split; cbn; auto.
    intros H. rewrite run_stopped0 in Hj by exact H. discriminate.
  - eapply consistent_move; [exact Hp|exact Hi|discriminate|discriminate|auto|discriminate].
  - eapply consistent_move; [|exact Hi|discriminate..]. destruct Hp.
    split; rewrite ?errors_snoc, ?app_nil_r; assumption.
  - apply consistent_error; assumption.
  - eapply consistent_move; [|exact Hi|discriminate|discriminate|discriminate|discriminate].
    destruct Hp. split; cbn; auto; try discriminate.
    + intros e' [= <-]. apply run_failing0. eapply list_elem_of_lookup_2, Hi.
  - eapply consistent_move; [|exact Hi|discriminate..]. destruct Hp. split; cbn; auto.
Qed.

Lemma step_accounted batch_jobs p p' :
  consistent p -> accounted batch_jobs p -> pool_step p p' -> accounted batch_jobs p'.
Proof.
  intros Hc (dropped & Hp & Hd) Hs. destruct Hs as
    [i job rest p Hi Hj|i p Hi Hj|i job r w w' p Hi Hr|i job e r w w' p Hi Hr|i e p Hi|i p Hi].
  - exists dropped. split; [|exact Hd]. rewrite <- Hp, Hj.
    pose proof (held_set _ _ _ (Running job) Hi) as Hh. cbn in *. rewrite Hh. solve_Permutation.
  - exists dropped. split; [|exact Hd]. rewrite <- Hp.
    pose proof (held_set _ _ _ Stopped Hi) as Hh. cbn in *. rewrite Hh. reflexivity.
  - exists dropped. split; [|exact Hd]. rewrite <- Hp.
    pose proof (held_set _ _ _ Ready Hi) as Hh. cbn in *. rewrite fmap_app, <- Hh. solve_Permutation.
  - exists dropped. split; [|exact Hd]. rewrite <- Hp.
    pose proof (held_set _ _ _ (Failing e) Hi) as Hh. cbn in *. rewrite fmap_app, <- Hh.
    solve_Permutation.
  - exists dropped. split; [|discriminate]. rewrite <- Hp.
    pose proof (held_set _ _ _ Draining Hi) as Hh. cbn in *. rewrite Hh. reflexivity.
  - exists (jobs p ++ dropped). split; [rewrite <- Hp|].
    + pose proof (held_set _ _ _ Ready Hi) as Hh. cbn in *. rewrite Hh. reflexivity.
    + intros _. apply Hc, list_elem_of_lookup_2 with (i := i), Hi.
Qed.

Lemma step_asked p p' : pool_step p p' -> asked (batch_reads p') = asked (batch_reads p).
Proof.
  intros Hs. destruct Hs as [| |i job r w w' p Hi Hr|i job e r w w' p Hi Hr| |];
    try reflexivity; pose proof (run_job_asked fuel policy job (batch_reads p, w)) as H;
    rewrite Hr in H; exact H.
Qed.

Lemma start_consistent batch_jobs reads : consistent (start policy batch_jobs reads).
Proof.
  assert (forall x, x ∈ workers (start policy batch_jobs reads) -> x = Ready) as Hw
    by (intros x [-> _]%elem_of_replicate; reflexivity).
  split; cbn; try discriminate; try (intros H; now specialize (Hw _ H)); [|intros []; reflexivity].
  intros e H. now specialize (Hw _ H).
Qed.

Lemma start_accounted batch_jobs reads : accounted batch_jobs (start policy batch_jobs reads).
Proof.
  exists []. split; [|congruence]. cbn. rewrite app_nil_r.
  set (n := Z.to_nat _). replace (replicate n Ready ≫= held) with (@nil Job); [reflexivity|].
  induction n; [reflexivity|assumption].
Qed.

(** What holds at the start and is kept by the steps. *)
Lemma run_preserves (P : pool -> Prop) p0 :
  P p0 -> (forall p p', pool_step p p' -> P p -> P p') -> forall p, rtc pool_step p0 p -> P p.
Proof. intros H0 Hs p. induction 1; eauto. Qed.

Lemma run_invariant batch_jobs reads p :
  rtc pool_step (start policy batch_jobs reads) p ->
  consistent p /\ accounted batch_jobs p /\ asked (batch_reads p) = asked reads.
Proof.
  revert p. apply run_preserves.
  - split; [apply start_consistent|]. split; [apply start_accounted|reflexivity].
  - intros p p' Hs (Hc & Ha & E). split; [eapply step_consistent; eassumption|].
    split; [eapply step_accounted; eassumption|]. rewrite (step_asked _ _ Hs). exact E.
Qed.

Lemma step_workers p p' : pool_step p p' -> length (workers p') = length (workers p).
Proof. intros Hs. destruct Hs; cbn; apply length_insert. Qed.

Lemma run_workers p p' : rtc pool_step p p' -> length (workers p') = length (workers p).
Proof. induction 1 as [|p p1 p' Hs _ IH]; [reflexivity|]. rewrite IH. apply step_workers, Hs. Qed.

(** A thread that cannot go on. *)
Definition blocked (p : pool) (x : worker) : Prop :=
  x = Stopped \/
  exists job, x = Running job /\
    forall w : Cluster.World Net, match run_job fuel policy job (batch_reads p, w) with
                                  | Ret _ _ | Throw _ _ => False | _ => True end.

Lemma stuck_blocked p : ~ (exists p', pool_step p p') -> Forall (blocked p) (workers p).
Proof.
  intros Hn. apply Forall_lookup. intros i x Hi. destruct x as [|job|e| |].
  - exfalso. apply Hn. destruct (jobs p) as [|job rest] eqn:Hj; eexists;
      [eapply step_stop|eapply step_take]; eassumption.
  - right. exists job. split; [reflexivity|]. intros w.
    destruct (run_job fuel policy job (batch_reads p, w)) as [[] [r w']|e [r w']| |] eqn:Hr;
      try exact I; apply Hn; eexists; [eapply step_ok|eapply step_err]; eassumption.
  - exfalso. apply Hn. eexists. eapply step_store, Hi.
  - exfalso. apply Hn. eexists. eapply step_drain, Hi.
  - left. reflexivity.
Qed.

Lemma no_errors p : errors p = [] -> Forall (fun r => r.2 = inl tt) (ended p).
Proof.
  unfold errors. intros H. apply Forall_lookup. intros i [job [[]|e]] Hi; [reflexivity|].
  exfalso. apply (not_elem_of_nil e). rewrite <- H. apply list_elem_of_omap.
  exists (job, inr e). split; [eapply list_elem_of_lookup_2, Hi|reflexivity].
Qed.

Lemma stopped_hold_nothing p : joined p -> workers p ≫= held = [].
Proof.
  unfold joined. intros Hj. induction Hj as [|x l <- _ IH]; [reflexivity|exact IH].
Qed.

(** With a thread and without an error, every job was executed. *)
Lemma joined_executed batch_jobs p :
  consistent p -> accounted batch_jobs p -> joined p -> workers p <> [] -> last_err p = None ->
  (ended p).*1 ≡ₚ batch_jobs /\ Forall (fun r => r.2 = inl tt) (ended p).
Proof.
  intros Hc (dropped & Hp & Hd) Hj Hw He. pose proof (stopped_hold_nothing p Hj) as E.
  unfold joined in Hj. rewrite Forall_forall in Hj.
  assert (Stopped ∈ workers p) as Hs.
  { destruct (workers p) as [|x l]; [congruence|]. rewrite (Hj x); left. }
  assert (dropped = []) as -> by (destruct dropped; [reflexivity|exfalso; apply Hd; [discriminate|exact He]]).
  rewrite (run_stopped p Hc Hs), E, !app_nil_r in Hp. split; [exact Hp|].
  apply no_errors. destruct (errors p) eqn:Hes; [reflexivity|]. exfalso.
  destruct (run_errors p Hc) as [?|[e' Hf]]; [congruence|contradiction|].
  specialize (Hj _ Hf). discriminate.
Qed.

(** Without a thread nothing happens. *)
Lemma no_threads k p q : workers p = [] -> nsteps pool_step k p q -> q = p.
Proof.
  intros Hw Hk. destruct Hk as [|m p p1 q Hs _]; [reflexivity|]. exfalso.
  destruct Hs; rewrite Hw in *; discriminate.
Qed.

(** What the end of the threads says. *)
Lemma joined_result batch_jobs reads p :
  rtc pool_step (start policy batch_jobs reads) p -> joined p ->
  asked (batch_reads p) = asked reads /\
  match jobs_result p with
  | inr e => exists job, (job, inr e) ∈ ended p
  | inl _ =>
      if 0 <? threads (concurrency policy) (len batch_jobs)
      then (ended p).*1 ≡ₚ batch_jobs /\ Forall (fun r => r.2 = inl tt) (ended p)
      else p = start policy batch_jobs reads
  end.
Proof.
  intros Hr Hj. destruct (run_invariant _ _ _ Hr) as (Hc & Ha & Hask). split; [exact Hask|].
  unfold jobs_result. destruct (last_err p) as [e|] eqn:He.
  - apply (run_stored p Hc) in He. unfold errors in He.
    apply list_elem_of_omap in He as ([job [[]|e']] & Hin & [= <-]). exists job. exact Hin.
  - assert (length (workers p) = Z.to_nat (threads (concurrency policy) (len batch_jobs))) as Hw
      by (rewrite (run_workers _ _ Hr); apply length_replicate).
    destruct (Z.ltb_spec 0 (threads (concurrency policy) (len batch_jobs))).
    + eapply joined_executed; try assumption. intros E. rewrite E in Hw. cbn in Hw. lia.
    + apply rtc_nsteps in Hr as [k Hk]. eapply no_threads; [|exact Hk]. unfold start. cbn.
      replace (Z.to_nat _) with O by lia. reflexivity.
Qed.

(** C22: in every interleaving, the threads of a batch make a bounded number of
    steps, and can make one as long as a thread is not at its end or in a command
    that never returns.  When all have ended, the slice has its keys and bins;
    the result is the error of an executed command, or every command was executed
    once and succeeded.  With no thread ([MaxThreads(0)]) nothing is executed, and
    the result is a success. *)
Theorem batch_jobs_joined batch_jobs reads k p :
  nsteps pool_step k (start policy batch_jobs reads) p ->
  (k <= 4 * length batch_jobs + Z.to_nat (threads (concurrency policy) (len batch_jobs)))%nat /\
  (~ (exists p', pool_step p p') -> Forall (blocked p) (workers p)) /\
  (joined p ->
   asked (batch_reads p) = asked reads /\
   match jobs_result p with
   | inr e => exists job, (job, inr e) ∈ ended p
   | inl _ =>
       if 0 <? threads (concurrency policy) (len batch_jobs)
       then (ended p).*1 ≡ₚ batch_jobs /\ Forall (fun r => r.2 = inl tt) (ended p)
       else p = start policy batch_jobs reads
   end).
Proof.
  intros Hk. pose proof (steps_weight _ _ _ Hk) as H. unfold total_weight at 2 in H.
  cbn [start jobs workers] in H. rewrite fmap_replicate, sum_list_replicate in H.
  cbn [weight] in H. split; [lia|]. split; [apply stuck_blocked|].
  apply joined_result, (rtc_nsteps_2 _ _ _ Hk).
Qed.

(** ** A single thread *)

(** The pool of one thread that is about to take a job. *)
Definition alone (l : list Job) (reads : list BatchRead) ended : pool :=
  mkPool l reads None [Ready] ended.

Lemma run_jobs_steps l : forall reads w done err reads' w',
  run_jobs fuel policy l (reads, w) = Ret err (reads', w') ->
  exists q, rtc pool_step (alone l reads done) q /\ joined q /\ batch_reads q = reads' /\
            last_err q = err.
Proof.
  induction l as [|job l IH]; intros reads w done err reads' w' H; cbn [run_jobs] in H.
  - injection H as <- <- <-. exists (set_worker 0 Stopped (alone [] reads done)).
    split; [|split; [repeat constructor|split; reflexivity]].
    apply rtc_once, (step_stop _ _ 0%nat); reflexivity.
  - unfold bind, catch in H.
    assert (pool_step (alone (job :: l) reads done)
              (mkPool l reads None [Running job] done)) as Htake
      by (apply (step_take _ _ 0%nat job); reflexivity).
    destruct (run_job fuel policy job (reads, w)) as [[] [r1 w1]|e [r1 w1]| |] eqn:E;
      try discriminate.
    + destruct (IH _ _ (done ++ [(job, inl tt)]) _ _ _ H) as (q & Hq & Hj & Hrs & He).
      exists q. split; [|auto].
      eapply rtc_l; [exact Htake|]. eapply rtc_l; [|exact Hq].
      eapply (step_ok _ _ 0%nat job _ _ _ (mkPool l reads None [Running job] done));
        [reflexivity|exact E].
    + injection H as <- <- <-.
      exists (mkPool [] r1 (Some e) [Stopped] (done ++ [(job, inr e)])).
      split; [|split; [repeat constructor|split; reflexivity]].
      eapply rtc_l; [exact Htake|].
      eapply rtc_l; [eapply (step_err _ _ 0%nat job _ _ _ _ (mkPool l reads None [Running job] done));
        [reflexivity|exact E]|].
      eapply rtc_l; [eapply (step_store _ _ 0%nat e); reflexivity|].
      eapply rtc_l; [eapply (step_drain _ _ 0%nat); reflexivity|].
      apply rtc_once, (step_stop _ _ 0%nat); reflexivity.
Qed.

Lemma run_jobs_throws l : forall s e s', run_jobs (Net := Net) fuel policy l s <> Throw e s'.
Proof.
  induction l as [|job l IH]; intros s e s'; [discriminate|]. cbn [run_jobs].
  unfold bind, catch. destruct (run_job fuel policy job s) as [a s1|a s1| |]; try discriminate.
  apply IH.
Qed.

(** The sequential execution is one of the executions of the threads: what it
    returns, and the error it raises, are results of the batch. *)
Theorem sequential_refines reads w :
  concurrency policy = Sequential ->
  match execute_sequential fuel policy reads w with
  | Ret reads' _ => execute_batch_read fuel policy reads w (inl reads')
  | Throw e _ => execute_batch_read fuel policy reads w (inr e)
  | _ => True
  end.
Proof.
  intros Hc. unfold execute_sequential, bind.
  destruct (get_batch_nodes reads w) as [nodes w1|e w1| |] eqn:E; try exact I;
    [|eapply batch_unroutable, E].
  destruct (run_jobs fuel policy nodes (reads, w1)) as [r [reads' w2]|e [r1 w2]| |] eqn:Hr;
    try exact I; [|exfalso; eapply run_jobs_throws, Hr].
  destruct (run_jobs_steps _ _ _ [] _ _ _ Hr) as (q & Hq & Hj & <- & <-).
  assert (execute_batch_jobs fuel policy nodes reads (batch_reads q) (jobs_result q)) as Hx.
  { apply threads_joined; [|exact Hj]. unfold start. rewrite Hc. exact Hq. }
  unfold jobs_result in Hx. destruct (last_err q).
  - eapply batch_err; [exact E|reflexivity|exact Hx].
  - eapply batch_ok; [exact E|reflexivity|exact Hx].
Qed.

(** ** A whole batch *)

(** A history of executions, each on a slice that asks for the same. *)
Definition ran (reads : list BatchRead) (r : Job * (unit + ErrorKind)) : Prop :=
  exists s s', asked s.1 = asked reads /\
    run_job (Net := Net) fuel policy r.1 s
    = match r.2 with inl _ => Ret tt s' | inr e => Throw e s' end.

Lemma step_ran reads p p' :
  pool_step p p' -> asked (batch_reads p) = asked reads ->
  Forall (ran reads) (ended p) -> Forall (ran reads) (ended p').
Proof.
  intros Hs Hp He. destruct Hs as [| |i job r w w' p Hi Hr|i job e r w w' p Hi Hr| |]; try exact He;
    apply Forall_app; (split; [exact He|]); constructor; try constructor;
    exists (batch_reads p, w), (r, w'); (split; [exact Hp|exact Hr]).
Qed.

Lemma ended_ran batch_jobs reads p :
  rtc pool_step (start policy batch_jobs reads) p -> Forall (ran reads) (ended p).
Proof.
  intros Hr.
  assert (asked (batch_reads p) = asked reads /\ Forall (ran reads) (ended p)) as [_ H]; [|exact H].
  revert p Hr. apply run_preserves; [split; [reflexivity|constructor]|].
  intros p1 p2 Hs [Ha Hf]. split; [rewrite (step_asked _ _ Hs); exact Ha|].
  eapply step_ran; eassumption.
Qed.

Lemma joined_ok batch_jobs reads p :
  (forall n, 0 < n -> 0 < threads (concurrency policy) n) ->
  rtc pool_step (start policy batch_jobs reads) p -> joined p -> jobs_result p = inl tt ->
  (ended p).*1 ≡ₚ batch_jobs /\ Forall (fun r => r.2 = inl tt) (ended p).
Proof.
  intros Ht Hr Hj E. destruct (joined_result _ _ _ Hr Hj) as [_ Hres]. rewrite E in Hres.
  destruct (Z.ltb_spec 0 (threads (concurrency policy) (len batch_jobs))) as [|Hz]; [exact Hres|].
  rewrite Hres. destruct batch_jobs as [|job l]; [split; [reflexivity|constructor]|].
  exfalso. pose proof (len_nonneg l). pose proof (Ht (len (job :: l))) as H0.
  rewrite len_cons in *. lia.
Qed.

(** A batch whose keys have nodes and that has a thread returns its keys and
    bins in their order, after commands that all succeeded and that asked for
    every position exactly once; otherwise it returns the error of one of its
    commands. *)
Theorem batch_read_result reads w names result :
  Forall2 (fun r name => home_name w (br_key r) = Some name) reads names ->
  (forall n, 0 < n -> 0 < threads (concurrency policy) n) ->
  execute_batch_read fuel policy reads w result ->
  match result with
  | inl reads' =>
      asked reads' = asked reads /\
      exists executed : list Job,
        concat executed.*2 ≡ₚ seqZ 0 (len reads) /\
        Forall (fun job => ran reads (job, inl tt)) executed
  | inr e => exists job, ran reads (job, inr e)
  end.
Proof.
  intros Hn Ht Hx. destruct (get_batch_nodes_grouped w reads names Hn)
    as (groups & gs & E & Hm & _ & _ & _ & Hcat).
  rewrite <- (proj2 (named_projections _ _ _ Hm)) in Hcat.
  unfold len in Hcat. rewrite <- (Forall2_length _ _ _ Hn) in Hcat.
  destruct Hx as [e w' E'|nodes batch_jobs reads' w' E' Hp Hj|nodes batch_jobs reads' e w' E' Hp Hj];
    rewrite E in E'; [discriminate|injection E' as <- <-..].
  - inversion Hj as [p Hr Hjoin E1 E2]. rewrite E2.
    destruct (joined_result _ _ _ Hr Hjoin) as [Ha _]. split; [exact Ha|]. exists batch_jobs.
    split; [rewrite Hp; exact Hcat|]. apply ended_ran in Hr as Hran.
    destruct (joined_ok _ _ _ Ht Hr Hjoin E2) as [Hall Hok].
    rewrite <- Hall. apply Forall_fmap, Forall_forall. intros r Hin. rewrite Forall_forall in Hran, Hok.
    specialize (Hran r Hin). specialize (Hok r Hin). destruct r as [job x]. cbn in Hok |- *.
    rewrite Hok in Hran. exact Hran.
  - inversion Hj as [p Hr Hjoin E1 E2]. destruct (joined_result _ _ _ Hr Hjoin) as [_ Hres].
    rewrite E2 in Hres. destruct Hres as [job Hin]. exists job.
    apply ended_ran in Hr as Hran. rewrite Forall_forall in Hran. rewrite E2. apply Hran, Hin.
Qed.
End Threads.

(** ** Concrete runs *)

Section Example.
#[local] Existing Instance byteorder_model.
#[local] Existing Instance valuefmt_model.
#[local] Existing Instance clock_model.
#[local] Existing Instance silent_dialer.

(** Two nodes share the partitions of a namespace. *)
Lemma batch_groups_witness :
  let key d := mkKey (str "test") [] None (d :: 0 :: 0 :: replicate 17 7) in
  let named name := Node.mkNode ClientPolicy_default name sample_host [] []
    (ConnectionPool.mkConnectionPool 1 [] 0) 0 0 0 0 true true true true in
  let w := Cluster.mkWorld
    (Cluster.mkCluster [] ∅ [0; 1]%nat {[ str "test" := [0; 1; 0]%nat ]} 0
       ClientPolicy_default false)
    [named (str "A"); named (str "B")] ([], tt) 0 in
  exists groups,
    get_batch_nodes ((fun d => BatchRead_new (key d) Bins.All) <$> [2; 1; 0]) w = Ret groups w /\
    concat groups.*2 ≡ₚ [0; 1; 2].
Proof.
  intros key named w.
  destruct (batch_groups w ((fun d => BatchRead_new (key d) Bins.All) <$> [2; 1; 0])
    [str "A"; str "B"; str "A"]) as (groups & E & Hp & _).
  - repeat constructor; vm_compute; reflexivity.
  - exists groups. split; [exact E|exact Hp].
Defined.

(** One node has all keys of a batch, and answers. *)
Definition batch_reads_sample : list BatchRead := BatchReadCommand.batch_reads sample_batch.

Definition batch_world : Cluster.World unit :=
  let last := concat (message_bytes <$> sample_answers) ++ header_bytes sample_last in
  let idle := sample_conn (group_bytes (2, 3, sample_answers) ++ proto 2 3 (len last) ++ last) in
  Cluster.mkWorld
    (Cluster.mkCluster [] ∅ [0%nat] {[ str "test" := replicate 4096 0%nat ]} 0
       ClientPolicy_default false)
    [sample_node] ([Queue.mkQueue [idle] 1 2 sample_host ClientPolicy_default], tt) 0.

Lemma batch_world_run :
  exists r w', run_job 20 BatchPolicy_default (0%nat, [0; 1]) (batch_reads_sample, batch_world)
               = Ret tt (r, w') /\ (br_record <$> r) !! 1%nat <> Some None.
Proof.
  destruct (run_job 20 BatchPolicy_default (0%nat, [0; 1]) (batch_reads_sample, batch_world))
    as [[] [r w']|e s| |] eqn:E; [|vm_compute in E; discriminate E..].
  exists r, w'. split; [reflexivity|]. vm_compute in E. injection E as <- _. vm_compute. discriminate.
Qed.

(** One thread executes one command. *)
Lemma batch_jobs_joined_witness :
  let job := (0%nat, [0; 1]) in
  exists p,
    nsteps (step 20 BatchPolicy_default) 3 (start BatchPolicy_default [job] batch_reads_sample) p /\
    joined p /\ (ended p).*1 ≡ₚ [job] /\
    (br_record <$> batch_reads p) !! 1%nat <> Some None.
Proof.
  intros job. destruct batch_world_run as (r & w' & E & Hrec).
  set (p := set_worker 0 Stopped (set_worker 0 Ready (job_ended job (inl tt) r
    (set_worker 0 (Running job) (set_jobs [] (start BatchPolicy_default [job] batch_reads_sample)))))).
  assert (nsteps (step 20 BatchPolicy_default) 3
            (start BatchPolicy_default [job] batch_reads_sample) p) as Hk.
  { eapply nsteps_l; [apply (step_take _ _ 0%nat job); reflexivity|].
    eapply nsteps_l; [eapply (step_ok _ _ 0%nat job); [reflexivity|exact E]|].
    eapply nsteps_l; [apply (step_stop _ _ 0%nat); reflexivity|]. apply nsteps_O. }
  assert (joined p) as Hj by (repeat constructor).
  exists p. split; [exact Hk|]. split; [exact Hj|].
  destruct (batch_jobs_joined 20 BatchPolicy_default [job] batch_reads_sample 3 p Hk) as (_ & _ & Hres).
  destruct (Hres Hj) as [_ [Hp _]]. split; [exact Hp|exact Hrec].
Defined.

Lemma batch_world_homes :
  Forall2 (fun r name => home_name batch_world (br_key r) = Some name) batch_reads_sample
    [str "BB9"; str "BB9"].
Proof. repeat constructor; vm_compute; reflexivity. Qed.

(** The sequential execution of the batch. *)
Lemma sequential_refines_witness :
  exists reads', execute_batch_read 20 BatchPolicy_default batch_reads_sample batch_world (inl reads').
Proof.
  pose proof (sequential_refines 20 BatchPolicy_default batch_reads_sample batch_world eq_refl) as H.
  destruct (execute_sequential 20 BatchPolicy_default batch_reads_sample batch_world)
    as [reads' w'|e s| |] eqn:E; [|vm_compute in E; discriminate E..].
  exists reads'. exact H.
Defined.

Lemma batch_read_result_witness :
  exists reads', asked reads' = asked batch_reads_sample /\
    execute_batch_read 20 BatchPolicy_default batch_reads_sample batch_world (inl reads').
Proof.
  destruct batch_world_run as (r & w' & E & _).
  assert (execute_batch_jobs 20 BatchPolicy_default [(0%nat, [0; 1])] batch_reads_sample r (inl tt))
    as Hx.
  { destruct (run_jobs_steps 20 BatchPolicy_default [(0%nat, [0; 1])] batch_reads_sample batch_world
      [] None r w') as (q & Hq & Hj & <- & He).
    - cbn [run_jobs]. unfold bind, catch. rewrite E. reflexivity.
    - replace (inl tt) with (jobs_result q) by (unfold jobs_result; rewrite He; reflexivity).
      apply threads_joined; [exact Hq|exact Hj]. }
  assert (execute_batch_read 20 BatchPolicy_default batch_reads_sample batch_world (inl r)) as H.
  { eapply batch_ok; [vm_compute; reflexivity|reflexivity|exact Hx]. }
  exists r. split; [|exact H].
  apply (batch_read_result 20 BatchPolicy_default batch_reads_sample batch_world
    [str "BB9"; str "BB9"] (inl r) batch_world_homes); [intros; cbn; lia|exact H].
Defined.

End Example.
