(* ===== verification/BatchEndToEnd.v ===== *)
(** * Batches, from call to answer

    [batch_job_end_to_end]: what the job of a batch sends to its node and what the
    answer of the node does to the shared rows.  [batch_database]: when the nodes
    answer from a database, every interleaving of the threads ends with the rows
    that the database has for their keys. *)

From stdpp Require Import base list strings gmap relations.
From Stdlib Require Import ZArith Lia.
From S2P Require Import Prelude ResultCodes Monad ByteOrder Slices Wire Buffer Values.
From S2P Require Import Expressions Policy Records Connection Statements Commands Queries Responses.
From S2P Require Import Recordset Streams Execute CommandFacts QueryFacts BatchFacts.
From S2P Require Import ConnectionFacts ResponseFacts StreamFacts BatchResponseFacts ExecuteFacts.
From S2P Require Import Hosts ClientPolicy ConnectionPool PoolFacts Nodes Cluster ClusterExecute.
From S2P Require Import EndToEnd BatchExecutor BatchExecutorFacts.
Import Connection BatchExecutor.

#[local] Open Scope Z_scope.
#[local] Open Scope m_scope.

(** ** The rows of an answer *)

(** The record of a message goes to the row of its index. *)
Definition store_row `{ValueFmt} (reads : list BatchRead) (m : StreamMessage) : list BatchRead :=
  alter (fun br => mkBatchRead (br_key br) (br_bins br) (answer m))
    (Z.to_nat (answer_index m)) reads.

Definition store_rows `{ValueFmt} : list BatchRead -> list StreamMessage -> list BatchRead :=
  foldl store_row.

Section Job.
Context `{BO : ByteOrder} `{VF : ValueFmt} `{CL : Clock} `{DI : Dialer Net}.

Lemma assigned_rows ms : forall cmd,
  foldl assign cmd ms
  = BatchReadCommand.mkBatchReadCommand (BatchReadCommand.policy cmd)
      (store_rows (BatchReadCommand.batch_reads cmd) ms) (BatchReadCommand.offsets cmd).
Proof. induction ms as [|m ms IH]; intros cmd; [destruct cmd; reflexivity|]. cbn. apply IH. Qed.

(** What a job sends; [rows] are its [batch_rows]. *)
Definition batch_request (policy : BatchPolicy) (offsets : list Z) (fb rows : bytes) : bytes :=
  message
    (timed (base_timeout (bp_base_policy policy))
       (header (consistency_attr (bp_base_policy policy) (Z.lor INFO1_READ INFO1_BATCH)) 0 0 0 0
          (1 + filter_field_count (bp_filter_expression policy)) 0))
    (batch_body policy offsets fb rows).

(** Groups of answers for a batch of [n] rows, and their last group. *)
Definition batch_answers (n fuel : nat) (c : Connection) (ms : list StreamMessage) (rest : bytes)
    : Prop :=
  exists gs v t ms' h,
    let last := concat (message_bytes <$> ms') ++ header_bytes h in
    Forall (batch_group_ok n) gs /\ Forall (answer_ok n) ms' /\ last_header h /\
    len last < 2 ^ 48 /\ (sum_list (group_fuel <$> gs) + length ms' + 2 <= fuel)%nat /\
    incoming (conn c) = concat (group_bytes <$> gs) ++ proto v t (len last) ++ last ++ rest /\
    ms = group_answers gs ++ ms'.

(** The job of a batch on a node that answers well sends exactly the request of
    its keys, stores the answer of every message in the row of its index, leaves
    the other rows of the batch alone, takes exactly the response, and ends as
    putting the connection back ends. *)
Theorem batch_job_end_to_end fuel policy node offsets reads (w w3 : Cluster.World Net) lease
    (c : Connection) fb rows ms rest :
  let cmd := BatchReadCommand.mkBatchReadCommand policy reads offsets in
  let E := node_environment node in
  let request := batch_request policy offsets fb rows in
  enc_filter (bp_filter_expression policy) = Some fb ->
  batch_rows policy reads None offsets = Some rows ->
  total_size (batch_body policy offsets fb rows) <= MAX_BUFFER_SIZE ->
  small_timeout (base_timeout (bp_base_policy policy)) ->
  reached (CM := batch_read_command (S fuel)) (EN := E) fuel (bp_base_policy policy) cmd w w3 lease c ->
  len request <= accepts (conn c) ->
  batch_answers (length reads) (S fuel) c ms rest ->
  exists c',
    incoming (conn c') = rest /\ outgoing (conn c') = outgoing (conn c) ++ request /\
    run_job (S fuel) policy (node, offsets) (reads, w)
    = (on_snd (put_back lease c') ;;; ret tt) (store_rows reads ms, w3).
Proof.
  intros cmd E request Hfb Hrows Hl Ht Hre Ha
    (gs & v & t & ms' & h & Hgs & Hms & Hh & Hlast & Hf & Hi & ->).
  pose proof (set_batch_read_message policy reads offsets fb rows Hfb Hrows) as Hb.
  destruct (execute_answer (EN := E) (CM := batch_read_command (S fuel)) _ _ _ fuel
    (bp_base_policy policy) cmd (foldl assign cmd (group_answers gs ++ ms')) w w3 lease c rest
    (inl tt) (fun _ => eq_refl) (fun _ _ => eq_refl) (fun _ => eq_refl)
    Hb (header_untimed _ _ _ _ _ _ _) Hl Ht Hre Ha) as (c' & Hi' & Ho' & Hx).
  - intros c3 Hi3. rewrite <- Hi3 in Hi.
    destruct (batch_response (S fuel) cmd c3 gs v t ms' h rest Hgs Hms Hh Hlast Hf Hi)
      as (c4 & H4 & Hi4 & Hq).
    exists c4. auto.
  - exists c'. split; [exact Hi'|]. split; [exact Ho'|].
    unfold run_job, batch_execute. cbn [fst snd]. fold cmd E. rewrite Hx, assigned_rows.
    unfold bind, on_snd. cbn [fst snd settle].
    destruct (put_back lease c' w3) as [[] w4|e w4| |]; reflexivity.
Qed.

End Job.

(** ** Nodes that answer from a database *)

Section Database.
Context `{BO : ByteOrder} `{VF : ValueFmt} `{CL : Clock} `{DI : Dialer Net}.
Context (db : Key -> Bins -> option Record_) (fuel : nat) (policy : BatchPolicy).

Abbreviation pool_step := (step (Net := Net) (S fuel) policy).

(** The row has what the database has for its key. *)
Definition answered (reads : list BatchRead) (i : Z) : Prop :=
  exists k b, reads !! Z.to_nat i = Some (mkBatchRead k b (db k b)).

(** A message tells what the database has for the row of its index. *)
Definition tells (questions : list (Key * Bins)) (m : StreamMessage) : Prop :=
  exists k b, questions !! Z.to_nat (answer_index m) = Some (k, b) /\ answer m = db k b.

(** The messages tell of every position, and nothing but what is in the database. *)
Definition faithful (questions : list (Key * Bins)) (offsets : list Z)
    (ms : list StreamMessage) : Prop :=
  Forall (tells questions) ms /\ Forall (fun i => i ∈ answer_index <$> ms) offsets.

(** The node of a job is reached at [w] and answers from the database. *)
Definition served (job : Job) (reads : list BatchRead) (w : Cluster.World Net) : Prop :=
  exists w3 lease c fb rows ms rest,
    enc_filter (bp_filter_expression policy) = Some fb /\
    batch_rows policy reads None job.2 = Some rows /\
    total_size (batch_body policy job.2 fb rows) <= MAX_BUFFER_SIZE /\
    small_timeout (base_timeout (bp_base_policy policy)) /\
    reached (CM := batch_read_command (S fuel)) (EN := node_environment job.1) fuel (bp_base_policy policy)
      (BatchReadCommand.mkBatchReadCommand policy reads job.2) w w3 lease c /\
    len (batch_request policy job.2 fb rows) <= accepts (conn c) /\
    batch_answers (length reads) (S fuel) c ms rest /\
    faithful (asked reads) job.2 ms.

(** The steps of the threads, when every command finds its node well. *)
Inductive served_step : pool -> pool -> Prop :=
| served_ok i job reads w w' p :
    workers p !! i = Some (Running job) -> served job (batch_reads p) w ->
    run_job (S fuel) policy job (batch_reads p, w) = Ret tt (reads, w') ->
    served_step p (set_worker i Ready (job_ended job (inl tt) reads p))
| served_err i job e reads w w' p :
    workers p !! i = Some (Running job) -> served job (batch_reads p) w ->
    run_job (S fuel) policy job (batch_reads p, w) = Throw e (reads, w') ->
    served_step p (set_worker i (Failing e) (job_ended job (inr e) reads p))
| served_other p p' :
    pool_step p p' -> batch_reads p' = batch_reads p -> ended p' = ended p -> served_step p p'.

Lemma served_step_step p p' : served_step p p' -> pool_step p p'.
Proof. intros []; [eapply step_ok|eapply step_err|]; eassumption. Qed.

(** *** Rows *)

Lemma asked_store reads m : asked (store_row reads m) = asked reads.
Proof.
  unfold asked, store_row. apply list_eq. intros i. rewrite !list_lookup_fmap.
  destruct (decide (i = Z.to_nat (answer_index m))) as [->|Hi].
  - rewrite list_lookup_alter_eq. destruct (reads !! _); reflexivity.
  - rewrite list_lookup_alter_ne by congruence. reflexivity.
Qed.

Lemma store_told reads m : tells (asked reads) m -> answered (store_row reads m) (answer_index m).
Proof.
  intros (k & b & Hq & Ha). unfold asked in Hq. rewrite list_lookup_fmap in Hq.
  destruct (reads !! _) as [br|] eqn:Hr; [|discriminate]. injection Hq as <- <-.
  do 2 eexists. unfold store_row. rewrite list_lookup_alter_eq, Hr. cbn. rewrite Ha. reflexivity.
Qed.

Lemma store_keeps reads m i :
  tells (asked reads) m -> answered reads i -> answered (store_row reads m) i.
Proof.
  intros Hm (k & b & Hi). destruct (decide (Z.to_nat i = Z.to_nat (answer_index m))) as [E|Hne].
  - destruct (store_told reads m Hm) as (k' & b' & H'). exists k', b'. rewrite E. exact H'.
  - exists k, b. unfold store_row. rewrite list_lookup_alter_ne by congruence. exact Hi.
Qed.

Lemma store_rows_answers ms : forall reads,
  Forall (tells (asked reads)) ms ->
  (forall i, answered reads i -> answered (store_rows reads ms) i) /\
  Forall (answered (store_rows reads ms)) (answer_index <$> ms).
Proof.
  induction ms as [|m ms IH]; intros reads Hms; [split; [auto|constructor]|].
  inversion_clear Hms as [|? ? Hm Hms']. rewrite <- (asked_store reads m) in Hms'.
  destruct (IH _ Hms') as [Hkeep Hall]. cbn [store_rows foldl fmap list_fmap].
  split; [intros i Hi; apply Hkeep, store_keeps; assumption|].
  constructor; [apply Hkeep, store_told, Hm|exact Hall].
Qed.

(** *** A job *)

(** A connection that is put back is no error. *)
Lemma put_back_succeeds node lease conn (w : Cluster.World Net) :
  match put_back (Environment := node_environment node) lease conn w with
  | Ret _ _ | Panic => True
  | _ => False
  end.
Proof.
  cbn. unfold with_queues. destruct (Cluster.shared w) as [queues net].
  unfold ConnectionPool.drop, leased, ConnectionPool.on_queue. cbn.
  destruct (queues !! lease) as [q|]; [|exact I].
  unfold on_fst, Queue.put_back, Queue.decr_conns, bind, Monad.get, usize_sub. cbn.
  destruct (_ <? _); [exact I|]. cbn. destruct (1 <=? _); exact I.
Qed.

Lemma served_job job reads w :
  served job reads w ->
  match run_job (S fuel) policy job (reads, w) with
  | Ret _ (reads', _) =>
      (forall i, answered reads i -> answered reads' i) /\ Forall (answered reads') job.2
  | Panic => True
  | _ => False
  end.
Proof.
  destruct job as [node offsets].
  intros (w3 & lease & c & fb & rows & ms & rest & Hfb & Hrows & Hl & Ht & Hre & Ha & Hans & Hms & Hin).
  destruct (batch_job_end_to_end fuel policy node offsets reads w w3 lease c fb rows ms rest
    Hfb Hrows Hl Ht Hre Ha Hans) as (c' & _ & _ & ->).
  pose proof (put_back_succeeds node lease c' w3) as Hp. unfold bind, on_snd. cbn [fst snd].
  destruct (put_back lease c' w3) as [u w4|e w4| |]; try exact Hp. cbn [ret].
  destruct (store_rows_answers ms reads Hms) as [Hkeep Hall]. split; [exact Hkeep|].
  rewrite Forall_forall in Hall. eapply Forall_impl; [exact Hin|]. intros i Hi. apply Hall, Hi.
Qed.

(** *** All threads *)

(** Every job that has ended succeeded, and its rows are answered. *)
Definition served_well (p : pool) : Prop :=
  Forall (fun r => r.2 = inl tt /\ Forall (answered (batch_reads p)) r.1.2) (ended p).

Lemma served_step_well p p' : served_step p p' -> served_well p -> served_well p'.
Proof.
  intros Hs Hp. destruct Hs as
    [i job reads w w' p Hi Hw Hr|i job e reads w w' p Hi Hw Hr|p p' _ Hreads Hended];
    [| |unfold served_well; rewrite Hreads, Hended; exact Hp];
    pose proof (served_job job (batch_reads p) w Hw) as Hj; rewrite Hr in Hj; [|contradiction].
  destruct Hj as [Hkeep Hall]. apply Forall_app. split; [|constructor; [split; [reflexivity|exact Hall]|constructor]].
  eapply Forall_impl; [exact Hp|]. intros r [Hr2 Hrows]. split; [exact Hr2|].
  eapply Forall_impl; [exact Hrows|exact Hkeep].
Qed.

(** The rows of the database. *)
Definition looked_up (reads : list BatchRead) : list BatchRead :=
  (fun br => mkBatchRead (br_key br) (br_bins br) (db (br_key br) (br_bins br))) <$> reads.

Lemma answered_everywhere reads reads' :
  asked reads' = asked reads -> Forall (answered reads') (seqZ 0 (len reads)) ->
  reads' = looked_up reads.
Proof.
  intros Ha Hall. rewrite Forall_forall in Hall. apply list_eq. intros i.
  apply (f_equal (lookup i)) in Ha. unfold asked in Ha. unfold looked_up.
  rewrite !list_lookup_fmap in *. destruct (reads !! i) as [br|] eqn:Hi;
    [|destruct (reads' !! i); [discriminate|reflexivity]].
  destruct (Hall (Z.of_nat i)) as (k & b & H').
  { apply elem_of_seqZ. apply lookup_lt_Some in Hi. unfold len. lia. }
  rewrite Nat2Z.id in H'. rewrite H' in Ha |- *. injection Ha as -> ->. reflexivity.
Qed.

(** C4: a batch whose nodes answer from a database, in any interleaving of at least
    one thread: when the threads have ended the batch is a success, and its rows
    are those of the database for its keys and bins, in their order. *)
Theorem batch_database reads (w : Cluster.World Net) names nodes w' batch_jobs p :
  Forall2 (fun r name => home_name w (br_key r) = Some name) reads names ->
  (forall n, 0 < n -> 0 < threads (concurrency policy) n) ->
  get_batch_nodes reads w = Ret nodes w' -> batch_jobs ≡ₚ nodes ->
  rtc served_step (start policy batch_jobs reads) p -> joined p ->
  jobs_result p = inl tt /\ batch_reads p = looked_up reads.
Proof.
  intros Hn Ht E Hperm Hr Hj.
  destruct (get_batch_nodes_grouped w reads names Hn) as (groups & gs & E' & Hm & _ & _ & _ & Hcat).
  rewrite E in E'. injection E' as <- _. rewrite <- (proj2 (named_projections _ _ _ Hm)) in Hcat.
  unfold len in Hcat. rewrite <- (Forall2_length _ _ _ Hn) in Hcat.
  assert (served_well p) as Hwell.
  { assert (served_well (start policy batch_jobs reads)) as H0 by constructor.
    clear - Hr H0. induction Hr as [|p p1 p2 Hs _ IH]; [exact H0|].
    apply IH. eapply served_step_well; eassumption. }
  assert (rtc pool_step (start policy batch_jobs reads) p) as Hr'.
  { eapply rtc_subrel; [|exact Hr]. intros p1 p2. apply served_step_step. }
  destruct (joined_result _ _ _ _ _ Hr' Hj) as [Hask Hres].
  unfold served_well in Hwell. rewrite Forall_forall in Hwell.
  destruct (jobs_result p) as [[]|e] eqn:Hok;
    [|destruct Hres as [job Hin]; destruct (Hwell _ Hin); discriminate].
  split; [reflexivity|]. apply answered_everywhere; [exact Hask|].
  destruct (joined_ok _ _ _ _ _ Ht Hr' Hj Hok) as [Hall _].
  apply Forall_forall. intros i Hi. rewrite <- Hcat, <- Hperm, <- Hall in Hi.
  apply list_elem_of_In, in_concat in Hi as (l & Hl%list_elem_of_In & Hi%list_elem_of_In).
  apply list_elem_of_fmap in Hl as (job & -> & Hjob).
  apply list_elem_of_fmap in Hjob as (r & -> & Hin).
  destruct (Hwell _ Hin) as [_ Hrows]. rewrite Forall_forall in Hrows. apply Hrows, Hi.
Qed.

End Database.

(** ** An example: one node has all keys of a batch, and answers *)

Section Example.
#[local] Existing Instance byteorder_model.
#[local] Existing Instance valuefmt_model.
#[local] Existing Instance clock_model.
#[local] Existing Instance silent_dialer.

Definition other_key : Key := mkKey (str "test") [] None (replicate 20 7).

(** The other key has no record. *)
Definition two_reads : list BatchRead :=
  [BatchRead_new other_key Bins.All; BatchRead_new sample_key Bins.All].

Definition sample_db (k : Key) (_ : Bins) : option Record_ :=
  if decide (digest k = digest sample_key)
  then sample_answers !! 0%nat ≫= answer else None.

Definition leased_connection : Connection :=
  let last := concat (message_bytes <$> sample_answers) ++ header_bytes sample_last in
  let idle := sample_conn (group_bytes (2, 3, sample_answers) ++ proto 2 3 (len last) ++ last) in
  default idle (set_timeout (base_timeout (bp_base_policy BatchPolicy_default)) idle).

(** [batch_world], some clock ticks later. *)
Definition batch_world_at (ticks : nat) : Cluster.World unit :=
  Cluster.mkWorld (Cluster.cluster batch_world) (Cluster.heap batch_world)
    (Cluster.shared batch_world) ticks.

(** Without its idle connection, two clock ticks later. *)
Definition leased_world : Cluster.World unit :=
  Cluster.mkWorld (Cluster.cluster batch_world) (Cluster.heap batch_world)
    ([Queue.mkQueue [] 1 2 sample_host ClientPolicy_default], tt) 2.

Definition two_rows : bytes :=
  default [] (batch_rows BatchPolicy_default two_reads None [0; 1]).

Lemma batch_world_reached `{CM : Command C} fuel (x : C) :
  reached (EN := node_environment 0%nat) fuel (bp_base_policy BatchPolicy_default) x batch_world
    leased_world 0%nat leased_connection.
Proof.
  apply (reached_first (EN := node_environment 0%nat) _ _ _ (Some 30000000000) _
    (batch_world_at 1) (batch_world_at 2) (batch_world_at 2) _ 0%nat);
    vm_compute; [split; [discriminate|reflexivity]|reflexivity..].
Qed.

Lemma batch_world_answers :
  batch_answers 2 20 leased_connection (sample_answers ++ sample_answers) [].
Proof.
  assert (Forall (answer_ok 2) sample_answers) as Hms.
  { repeat constructor; try (vm_compute; congruence); try (unfold in_u; cbn; lia);
      try (vm_compute; lia); right; split; reflexivity. }
  exists [(2, 3, sample_answers)], 2, 3, sample_answers, sample_last. cbv zeta.
  split; [constructor; [|constructor]; split; [exact Hms|]; split; [discriminate|vm_compute; reflexivity]|].
  split; [exact Hms|]. split; [split; reflexivity|]. split; [vm_compute; reflexivity|].
  split; [vm_compute; lia|]. split; vm_compute; reflexivity.
Qed.

Lemma batch_job_end_to_end_witness :
  exists c',
    incoming (conn c') = [] /\
    run_job 20 BatchPolicy_default (0%nat, [0; 1]) (two_reads, batch_world)
    = (on_snd (put_back (Environment := node_environment 0%nat) 0%nat c') ;;; ret tt)
        (looked_up sample_db two_reads, leased_world).
Proof.
  destruct (batch_job_end_to_end 19 BatchPolicy_default 0%nat [0; 1] two_reads batch_world
    leased_world 0%nat leased_connection [] two_rows (sample_answers ++ sample_answers) [])
    as (c' & Hi & _ & E).
  - reflexivity.
  - vm_compute. reflexivity.
  - vm_compute. discriminate.
  - vm_compute. repeat split; discriminate.
  - apply batch_world_reached.
  - vm_compute. discriminate.
  - apply batch_world_answers.
  - exists c'. split; [exact Hi|exact E].
Defined.

(** The node answers from the database: the answers tell what it has. *)
Lemma batch_world_served :
  served sample_db 19 BatchPolicy_default (0%nat, [0; 1]) two_reads batch_world.
Proof.
  exists leased_world, 0%nat, leased_connection, [], two_rows,
    (sample_answers ++ sample_answers), [].
  split; [reflexivity|]. split; [vm_compute; reflexivity|]. split; [vm_compute; discriminate|].
  split; [vm_compute; repeat split; discriminate|]. split; [apply batch_world_reached|].
  split; [vm_compute; discriminate|]. split; [apply batch_world_answers|]. split.
  - repeat constructor; do 2 eexists; (split; [reflexivity|vm_compute; reflexivity]).
  - constructor; [|constructor; [|constructor]]; apply list_elem_of_lookup;
      [exists 1%nat|exists 0%nat]; reflexivity.
Qed.

Lemma batch_database_witness :
  let job := (0%nat, [0; 1]) in
  exists p,
    rtc (served_step sample_db 19 BatchPolicy_default) (start BatchPolicy_default [job] two_reads) p /\
    jobs_result p = inl tt /\ batch_reads p = looked_up sample_db two_reads.
Proof.
  intros job.
  destruct (run_job 20 BatchPolicy_default job (two_reads, batch_world)) as [[] [r w']|e s| |] eqn:E;
    [|vm_compute in E; discriminate E..].
  set (p := set_worker 0 Stopped (set_worker 0 Ready (job_ended job (inl tt) r
    (set_worker 0 (Running job) (set_jobs [] (start BatchPolicy_default [job] two_reads)))))).
  exists p.
  assert (rtc (served_step sample_db 19 BatchPolicy_default)
    (start BatchPolicy_default [job] two_reads) p) as Hp.
  { eapply rtc_l; [apply served_other; [apply (step_take _ _ 0%nat job)|..]; reflexivity|].
    eapply rtc_l; [eapply (served_ok _ _ _ 0%nat job); [reflexivity|apply batch_world_served|exact E]|].
    eapply rtc_l; [apply served_other; [apply (step_stop _ _ 0%nat)|..]; reflexivity|]. constructor. }
  split; [exact Hp|].
  apply (batch_database sample_db 19 BatchPolicy_default two_reads batch_world
    [str "BB9"; str "BB9"] [job] batch_world [job]).
  - repeat constructor; vm_compute; reflexivity.
  - intros. cbn. lia.
  - vm_compute. reflexivity.
  - reflexivity.
  - exact Hp.
  - repeat constructor.
Defined.

End Example.
