(* ===== verification/Client.v ===== *)
(** * The client ([src/client.rs])

    The operations of the API: each makes a command, executes it on the cluster
    and hands over what the command keeps; scans and queries make one command per
    node and a record set for all of them; the management of indexes and modules
    is done with info commands.  [src/query/index_types.rs] and
    [src/query/udf.rs] give the names that these commands use. *)

From stdpp Require Import base list strings gmap.
From Stdlib Require Import ZArith Lia.
From S2P Require Import Prelude ResultCodes Monad ByteOrder Slices Text Wire Buffer.
From S2P Require Import Values Expressions Operations Policy Records Connection Statements.
From S2P Require Import Commands Queries Responses Recordset Streams Execute.
From S2P Require Import Hosts ClientPolicy ConnectionPool Nodes Cluster ClusterExecute.
From S2P Require Import BatchExecutor Tasks.

(** [base64::encode]. *)
Class Base64Encode := { base64_encode : bytes -> bytes }.

(** The files of the client's machine. *)
Class Files := { read_to_end : bytes -> option bytes }.

(** The order in which a [HashMap] gives up its entries. *)
Class HashOrder := { entries : forall {V}, gmap bytes V -> list (bytes * V) }.

(** [enum IndexType], with its [Display]. *)
Inductive IndexType : Type :=
| Numeric
| StringIndex
| Geo2DSphere.

Definition index_type_name (t : IndexType) : bytes :=
  match t with
  | Numeric => str "NUMERIC"
  | StringIndex => str "STRING"
  | Geo2DSphere => str "GEO2DSPHERE"
  end.

(** [Display for CollectionIndexType]; [None] is the panic. *)
Definition collection_index_type_name (t : CollectionIndexType) : option bytes :=
  match t with
  | CollectionIndexType.Default => None
  | CollectionIndexType.List => Some (str "LIST")
  | CollectionIndexType.MapKeys => Some (str "MAPKEYS")
  | CollectionIndexType.MapValues => Some (str "MAPVALUES")
  end.

(** [enum UDFLang]. *)
Inductive UDFLang : Type :=
| Lua.

Definition udf_lang_name (l : UDFLang) : bytes := match l with Lua => str "LUA" end.

(** [v.to_uppercase() == "OK"]: no other characters have these upper cases. *)
Definition is_ok (v : bytes) : bool :=
  match v with
  | [o; k] => ((o =? 79) || (o =? 111)) && ((k =? 75) || (k =? 107))
  | _ => false
  end.

Definition parse_u8 : bytes -> option Z := parse_int false 0 255.

(** What [send_info_cmd] makes of the first value of the response. *)
Definition info_verdict (v : option bytes) : unit + ErrorKind :=
  let unexpected := BadResponse "Unexpected sindex info command response" in
  match v with
  | None => inr unexpected
  | Some v =>
      if is_ok v then inl tt
      else if starts_with (str "FAIL:") v then
        match split (Z.eqb 58) v !! 1%nat with
        | Some code =>
            match parse_u8 code with
            | Some result => inr (ServerError (ResultCode.from_u8 result))
            | None => inr ParseInt
            end
        | None => inr unexpected
        end
      else inr unexpected
  end.

(** *** The text of the info commands *)

Definition truncate_command (namespace set_name : bytes) (before_nanos : Z) : bytes :=
  str "truncate:namespace=" ++ namespace
  ++ (if bool_decide (set_name = []) then [] else str ";set=" ++ set_name)
  ++ (if 0 <? before_nanos then str ";lut=" ++ str (dec_string before_nanos) else []).

Definition create_index_command (namespace set_name bin_name index_name : bytes)
    (index_type : IndexType) (collection_index_type : CollectionIndexType) : option bytes :=
  cit_str ← match collection_index_type with
            | CollectionIndexType.Default => Some []
            | t => name ← collection_index_type_name t;
                   Some (str "indextype=" ++ name ++ str ";")
            end;
  Some (str "sindex-create:ns=" ++ namespace ++ str ";set=" ++ set_name
        ++ str ";indexname=" ++ index_name ++ str ";numbins=1;" ++ cit_str
        ++ str "indexdata=" ++ bin_name ++ str "," ++ index_type_name index_type
        ++ str ";priority=normal").

Definition drop_index_command (namespace set_name index_name : bytes) : bytes :=
  str "sindex-delete:ns=" ++ namespace ++ str ";"
  ++ (if bool_decide (set_name = []) then [] else str "set=" ++ set_name ++ str ";")
  ++ str "indexname=" ++ index_name.

Definition register_udf_command (udf_name udf_body : bytes) (language : UDFLang) : bytes :=
  str "udf-put:filename=" ++ udf_name ++ str ";content=" ++ udf_body
  ++ str ";content-len=" ++ str (dec_string (len udf_body))
  ++ str ";udf-type=" ++ udf_lang_name language ++ str ";".

Definition remove_udf_command (udf_name : bytes) (language : UDFLang) : bytes :=
  str "udf-remove:filename=" ++ udf_name ++ str "." ++ udf_lang_name language ++ str ";".

Module Client.

Section Client.
Context `{BO : ByteOrder} `{VF : ValueFmt} `{CL : Clock} `{DI : Dialer Net}.
Implicit Types w : Cluster.World Net.

(** Executing a local command; on an error it is dropped. *)
Definition run `{CM : Command C} (EN : Environment (Cluster.World Net) NodeId nat)
    (fuel : nat) (policy : BasePolicy) (command : C) : M (Cluster.World Net) C :=
  fun w =>
    match execute fuel policy (command, w) with
    | Ret _ (command, w) => Ret command w
    | Throw e (_, w) => Throw e w
    | Panic => Panic
    | NoFuel => NoFuel
    end.

(** A command on one record: [SingleCommand::new] finds its partition. *)
Definition single `{CM : Command C} (fuel : nat) (policy : BasePolicy) (key : Key)
    (command : C) : M (Cluster.World Net) C :=
  let! partition := unwrap (new_by_key key) in
  run (cluster_environment partition) fuel policy command.

(** ** Records *)

Section Records.
Context (fuel : nat).

Definition get (policy : BasePolicy) (key : Key) (bins : Bins)
    : M (Cluster.World Net) Record_ :=
  let! command := single fuel policy key (ReadCommand.new policy key bins) in
  unwrap (ReadCommand.record command).

Definition write (operation : OperationType) (policy : WritePolicy) (key : Key)
    (bins : list Bin) : M (Cluster.World Net) unit :=
  single fuel (wp_base_policy policy) key (mkWriteCommand policy key bins operation) ;;; ret tt.

Definition put := write OperationType.Write.

Definition add := write OperationType.Incr.

Definition append := write OperationType.Append.

Definition prepend := write OperationType.Prepend.

Definition delete (policy : WritePolicy) (key : Key) : M (Cluster.World Net) bool :=
  let! command := single fuel (wp_base_policy policy) key (mkDeleteParams policy key, false) in
  ret command.2.

Definition touch (policy : WritePolicy) (key : Key) : M (Cluster.World Net) unit :=
  single fuel (wp_base_policy policy) key (mkTouchCommand policy key) ;;; ret tt.

Definition exists_ (policy : WritePolicy) (key : Key) : M (Cluster.World Net) bool :=
  let! command := single fuel (wp_base_policy policy) key (mkExistsParams policy key, false) in
  ret command.2.

Definition operate (policy : WritePolicy) (key : Key) (ops : list Operation)
    : M (Cluster.World Net) Record_ :=
  let! command := single fuel (wp_base_policy policy) key (OperateCommand_new policy key ops) in
  unwrap (ReadCommand.record command.2).

(** What a module returned: the first bin that says so. *)
Fixpoint udf_result (bins : list (bytes * Value)) : option Value + ErrorKind :=
  match bins with
  | [] => inr (Msg "Invalid UDF return value")
  | (key, value) :: bins' =>
      if contains (str "SUCCESS") key then inl (Some value)
      else if contains (str "FAILURE") key then inr (Msg "{:?}")
      else udf_result bins'
  end.

Definition execute_udf `{HO : HashOrder} (policy : WritePolicy) (key : Key)
    (udf_name function_name : bytes) (args : option (list Value))
    : M (Cluster.World Net) (option Value) :=
  let! command :=
    single fuel (wp_base_policy policy) key
      (ExecuteUDFCommand_new policy key udf_name function_name args) in
  let! record := unwrap (ReadCommand.record command.2) in
  if bool_decide (Record.bins record = empty) then ret None
  else
    match udf_result (entries (Record.bins record)) with
    | inl v => ret v
    | inr e => throw e
    end.

(** The results that [batch_get] can have. *)
Definition batch_get (policy : BatchPolicy) (reads : list BatchRead)
    : Cluster.World Net -> list BatchRead + ErrorKind -> Prop :=
  BatchExecutor.execute_batch_read fuel policy reads.

End Records.

(** ** Scans and queries

    A scan or a query is the record set that is returned, and the commands of the
    threads that it starts. *)

(** The command of a node's thread. *)
Definition scan_of (policy : ScanPolicy) (namespace set_name : bytes) (bins : Bins)
    (node : NodeId) : M (Cluster.World Net) (NodeId * ScanParams) :=
  let! partitions := Cluster.node_partitions node namespace in
  ret (node, mkScanParams policy namespace set_name bins partitions).

Definition query_of (policy : QueryPolicy) (statement : Statement) (node : NodeId)
    : M (Cluster.World Net) (NodeId * QueryParams) :=
  let! partitions := Cluster.node_partitions node (Statement.namespace statement) in
  ret (node, mkQueryParams policy statement partitions).

Fixpoint map_m {A} (f : NodeId -> M (Cluster.World Net) A) (nodes : list NodeId)
    : M (Cluster.World Net) (list A) :=
  match nodes with
  | [] => ret []
  | node :: nodes' =>
      let! a := f node in
      let! l := map_m f nodes' in
      ret (a :: l)
  end.

(** [random] is the task id. *)
Definition scan (policy : ScanPolicy) (namespace set_name : bytes) (bins : Bins)
    (random : Z) : M (Cluster.World Net) (Recordset * list (NodeId * ScanParams)) :=
  let! nodes := Cluster.asks Cluster.nodes in
  let recordset := Recordset.new (sp_record_queue_size policy) (len nodes) random in
  let! commands := map_m (scan_of policy namespace set_name bins) nodes in
  ret (recordset, commands).

Definition scan_node (policy : ScanPolicy) (node : NodeId) (namespace set_name : bytes)
    (bins : Bins) (random : Z)
    : M (Cluster.World Net) (Recordset * list (NodeId * ScanParams)) :=
  let! command := scan_of policy namespace set_name bins node in
  ret (Recordset.new (sp_record_queue_size policy) 1 random, [command]).

Definition validated (statement : Statement) : M (Cluster.World Net) unit :=
  match Statement.validate statement with Some e => throw e | None => ret tt end.

Definition query (policy : QueryPolicy) (statement : Statement) (random : Z)
    : M (Cluster.World Net) (Recordset * list (NodeId * QueryParams)) :=
  validated statement ;;;
  let! nodes := Cluster.asks Cluster.nodes in
  let recordset := Recordset.new (qp_record_queue_size policy) (len nodes) random in
  let! commands := map_m (query_of policy statement) nodes in
  ret (recordset, commands).

Definition query_node (policy : QueryPolicy) (node : NodeId) (statement : Statement)
    (random : Z) : M (Cluster.World Net) (Recordset * list (NodeId * QueryParams)) :=
  validated statement ;;;
  let! command := query_of policy statement node in
  ret (Recordset.new (qp_record_queue_size policy) 1 random, [command]).

(** The thread of a node: [command.execute().unwrap()], and the [Drop] of the
    command, which the unwinding of a panic runs too. *)
Definition thread `{IN : Interference} {P} (fuel : nat) (policy : BasePolicy) (node : NodeId)
    (CM : Command (P * StreamCommand)) (params : P) (recordset : Recordset)
    : M (Cluster.World Net) Recordset :=
  fun w =>
    let dropped s w :=
      match StreamCommand.drop s with
      | Ret _ s => Ret (StreamCommand.recordset s) w
      | _ => Panic
      end in
    match execute (EN := node_environment node) fuel policy
            ((params, StreamCommand.new recordset), w) with
    | Ret _ ((_, s), w) | Throw _ ((_, s), w) => dropped s w
    | Panic => Panic
    | NoFuel => NoFuel
    end.

Definition scan_thread `{IN : Interference} (fuel : nat) (command : NodeId * ScanParams)
    : Recordset -> M (Cluster.World Net) Recordset :=
  thread fuel (sp_base_policy (sc_policy command.2)) command.1 (scan_command fuel) command.2.

Definition query_thread `{IN : Interference} (fuel : nat) (command : NodeId * QueryParams)
    : Recordset -> M (Cluster.World Net) Recordset :=
  thread fuel (qp_base_policy (qc_policy command.2)) command.1 (query_command fuel) command.2.

(** ** Info commands *)

(** An info command to any node. *)
Definition ask_random_node (policy : WritePolicy) (cmd : bytes)
    : M (Cluster.World Net) (gmap bytes bytes) :=
  let! node := Cluster.get_random_node in
  Cluster.on_node node (Node.info (base_timeout (wp_base_policy policy)) [cmd]).

Section Info.
Context `{HO : HashOrder} `{B64 : Base64} `{B64E : Base64Encode}.

(** [response.values().next()]. *)
Definition first_value (response : gmap bytes bytes) : option bytes :=
  snd <$> head (entries response).

Definition send_info_cmd (cmd : bytes) (policy : WritePolicy) : M (Cluster.World Net) unit :=
  let! response := ask_random_node policy cmd in
  match info_verdict (first_value response) with
  | inl _ => ret tt
  | inr e => throw e
  end.

Definition truncate (policy : WritePolicy) (namespace set_name : bytes) (before_nanos : Z)
    : M (Cluster.World Net) unit :=
  chain_err (Msg "Error truncating ns/set")
    (send_info_cmd (truncate_command namespace set_name before_nanos) policy).

Definition create_complex_index (policy : WritePolicy)
    (namespace set_name bin_name index_name : bytes) (index_type : IndexType)
    (collection_index_type : CollectionIndexType) : M (Cluster.World Net) unit :=
  let! cmd :=
    unwrap (create_index_command namespace set_name bin_name index_name index_type
              collection_index_type) in
  chain_err (Msg "Error creating index") (send_info_cmd cmd policy).

Definition create_index (policy : WritePolicy)
    (namespace set_name bin_name index_name : bytes) (index_type : IndexType)
    : M (Cluster.World Net) IndexTask :=
  create_complex_index policy namespace set_name bin_name index_name index_type
    CollectionIndexType.Default ;;;
  ret (mkIndexTask namespace index_name).

Definition drop_index (policy : WritePolicy) (namespace set_name index_name : bytes)
    : M (Cluster.World Net) unit :=
  chain_err (Msg "Error dropping index")
    (send_info_cmd (drop_index_command namespace set_name index_name) policy).

Definition register_udf (policy : WritePolicy) (udf_body udf_name : bytes)
    (language : UDFLang) : M (Cluster.World Net) RegisterTask :=
  let udf_body := base64_encode udf_body in
  let! response := ask_random_node policy (register_udf_command udf_name udf_body language) in
  match response !! str "error" with
  | Some msg =>
      match base64_decode msg with
      | None => throw Base64Error
      | Some msg =>
          if utf8_valid msg
          then throw (Msg "UDF Registration failed: {}, file: {}, line: {}, message: {}")
          else throw InvalidUtf8
      end
  | None => ret (mkRegisterTask udf_name)
  end.

(** [register_udf_from_file]: [None] is a file that cannot be opened or read. *)
Definition register_udf_from_file `{FS : Files} (policy : WritePolicy)
    (client_path udf_name : bytes) (language : UDFLang) : M (Cluster.World Net) RegisterTask :=
  match read_to_end client_path with
  | Some udf_body => register_udf policy udf_body udf_name language
  | None => throw Io
  end.

Definition remove_udf (policy : WritePolicy) (udf_name : bytes) (language : UDFLang)
    : M (Cluster.World Net) unit :=
  let cmd := remove_udf_command udf_name language in
  let! response := ask_random_node policy cmd in
  if bool_decide (response !! cmd = Some (str "ok")) then ret tt
  else throw (Msg "UDF Remove failed: {:?}").

End Info.

(** ** The cluster *)

Section Cluster.
Context `{B64 : Base64} `{RE : !Resolver Net}.

(** [Client::new]; [hosts] is what [to_hosts] gives. *)
Definition new (fuel : nat) (policy : ClientPolicy) (hosts : list Host + ErrorKind)
    : M (Cluster.World Net) unit :=
  match hosts with
  | inl hosts => Cluster.new fuel policy hosts
  | inr e => throw e
  end.

Definition close : M (Cluster.World Net) unit := Cluster.close.

Definition is_connected : M (Cluster.World Net) bool := Cluster.asks Cluster.is_connected.

Definition node_names : M (Cluster.World Net) (list bytes) :=
  let! nodes := Cluster.asks Cluster.nodes in map_m (fun node => Cluster.node_field node Node.name) nodes.

Definition get_node (name : bytes) : M (Cluster.World Net) NodeId := Cluster.get_node_by_name name.

Definition nodes : M (Cluster.World Net) (list NodeId) := Cluster.asks Cluster.nodes.

End Cluster.

End Client.

End Client.
