(* ===== verification/ClientEndToEnd.v ===== *)
(** * The client's operations on a record, from call to answer

    [EndToEnd] has a read and a write; here are the operations of the client whose
    command embeds another: [operate] and [execute_udf] ([ReadCommand]), [delete]
    and [exists] (a flag). *)

From stdpp Require Import base list strings gmap.
From Stdlib Require Import ZArith Lia.
From S2P Require Import Prelude ResultCodes Monad ByteOrder Slices Wire Buffer Values Encoder.
From S2P Require Import Expressions Operations Policy Records Connection Statements Commands.
From S2P Require Import Cdt EncoderFacts CommandFacts RecordCommands Responses ConnectionFacts ResponseFacts.
From S2P Require Import Recordset Streams Execute ExecuteFacts.
From S2P Require Import Hosts ClientPolicy ConnectionPool PoolFacts Nodes Cluster ClusterExecute.
From S2P Require Import EndToEnd BatchExecutor Client.
Import Connection.

#[local] Open Scope Z_scope.
#[local] Open Scope m_scope.

Section Client.
Context `{BO : ByteOrder} `{VF : ValueFmt} `{CL : Clock} `{DI : Dialer Net}.

(** A command on the record of a key whose node gives an answer of known outcome;
    [p] is the partition of the key. *)
Lemma single_answer {C} (CM : Command C) (m : M Buffer unit) hdr body fuel policy key p (x x' : C)
    (w w3 : Cluster.World Net) lease c inc r :
  new_by_key key = Some p ->
  (forall c, prepare_buffer (x, c) = on_snd (lift m) (x, c)) ->
  (forall t c, write_timeout t (x, c) = conn_write_timeout t (x, c)) ->
  (forall c, write_buffer (x, c) = conn_write_buffer (x, c)) ->
  builds m hdr body -> untimed hdr -> total_size body <= MAX_BUFFER_SIZE ->
  small_timeout (base_timeout policy) ->
  reached (EN := cluster_environment p) fuel policy x w w3 lease c ->
  len (message (timed (base_timeout policy) hdr) body) <= accepts (conn c) ->
  (forall c3, incoming (conn c3) = incoming (conn c) ->
     exists c4, parse_result (x, c3) = ends r (x', c4) /\
       incoming (conn c4) = inc /\ quiet c3 c4) ->
  exists c',
    incoming (conn c') = inc /\
    outgoing (conn c') = outgoing (conn c) ++ message (timed (base_timeout policy) hdr) body /\
    Client.single (S fuel) policy key x w
    = (settle (EN := cluster_environment p) r lease c' ;;;
       match r with inl _ => ret x' | inr e => throw e end) w3.
Proof.
  intros Hk Hp Ht Hw Hb Hu Hl Hs Hre Ha Hr.
  destruct (execute_answer (EN := cluster_environment p) m hdr body fuel policy x x' w w3 lease c
    inc r Hp Ht Hw Hb Hu Hl Hs Hre Ha Hr) as (c' & Hi & Ho & E).
  exists c'. split; [exact Hi|]. split; [exact Ho|].
  unfold Client.single. rewrite Hk. unfold unwrap, Client.run. unfold bind at 1. cbn [ret].
  rewrite E. unfold bind, on_snd. cbn [fst snd].
  destruct (settle r lease c' w3) as [u w4|e w4| |]; try reflexivity.
  destruct r as [u'|e]; reflexivity.
Qed.

(** ** Operations and functions *)

(** What is left to read on [c]: a response that has the record with the header [h]
    and the bins [bs], then [rest]. *)
Record brings (c : Connection) (h : Header) (bs : list ResponseBin) (rest : bytes) : Prop := {
  brings_header : header_ok h /\ h_result h = 0 /\ h_fields h = 0 /\ h_ops h = len bs;
  brings_bins : forallb bin_ok bs = true;
  brings_length : len (concat (bin_bytes <$> bs)) <= MAX_BUFFER_SIZE;
  brings_incoming : exists v t,
    incoming (conn c) = response v t h (concat (bin_bytes <$> bs)) ++ rest
}.

(** The record of that response, all bins asked for. *)
Definition brought (h : Header) (bs : list ResponseBin) : Record_ :=
  Record.new None (foldl add_bin empty bs) (h_generation h) (h_expiration h).

(** A command that embeds a read of all bins takes it. *)
Lemma embedded_read {P} (params : P) policy key (c : Connection) h bs rest :
  let cmd := ReadCommand.new policy key Bins.All in
  brings c h bs rest ->
  forall c3, incoming (conn c3) = incoming (conn c) ->
  exists c4,
    on_embedded ReadCommand.parse_result ((params, cmd), c3)
    = ends (inl tt) ((params, ReadCommand.set_record (Some (brought h bs)) cmd), c4) /\
    incoming (conn c4) = rest /\ quiet c3 c4.
Proof.
  intros cmd [(Hh & Hr & Hf & Ho) Hok Hl (v & t & Hi)] c3 Hi3. rewrite <- Hi3 in Hi.
  destruct (parse_response_body cmd c3 v t h bs rest Hh Hr Hf Ho Hok Hl Hi)
    as (c4 & H4 & Hi4 & Hq).
  exists c4. split; [|auto]. unfold on_embedded. rewrite H4. reflexivity.
Qed.

Lemma operate_header_untimed policy r a f o : untimed (operate_header policy r a f o).
Proof. unfold operate_header. destruct (a =? 0); [apply header_untimed|apply policy_header_untimed]. Qed.

(** What [operate] sends; [r] and [a] are the attributes of its operations. *)
Definition operate_request (policy : WritePolicy) (key : Key) (operations : list Operation)
    (r a : Z) (fields ops : bytes) : bytes :=
  message
    (timed (base_timeout (wp_base_policy policy))
       (operate_header policy r a
          (record_field_count key (send_key policy && negb (a =? 0)) (wp_filter_expression policy))
          (as_u16 (len operations))))
    (fields ++ ops).

(** C12: [Client::operate] on a node that answers well sends exactly the operations in
    their order, and returns the record of the response once the connection is
    back in its pool. *)
Theorem operate_end_to_end fuel policy key operations r a fields ops p
    (w w3 : Cluster.World Net) lease (c : Connection) h bs rest :
  let base := wp_base_policy policy in
  let request := operate_request policy key operations r a fields ops in
  key_ok key -> new_by_key key = Some p ->
  all_attrs policy operations = (r, a) ->
  record_fields key (send_key policy && negb (a =? 0)) (wp_filter_expression policy) = Some fields ->
  opt_concat (enc_op <$> operations) = Some ops ->
  total_size (fields ++ ops) <= MAX_BUFFER_SIZE ->
  small_timeout (base_timeout base) ->
  reached (EN := cluster_environment p) fuel base (OperateCommand_new policy key operations) w w3 lease c ->
  len request <= accepts (conn c) ->
  brings c h bs rest ->
  exists c',
    incoming (conn c') = rest /\ outgoing (conn c') = outgoing (conn c) ++ request /\
    Client.operate (S fuel) policy key operations w
    = (put_back (Environment := cluster_environment p) lease c' ;;; ret (brought h bs)) w3.
Proof.
  intros base request Hk Hp Hat Hf Ho Hl Ht Hre Ha Hbr.
  pose proof (set_operate_message policy key operations r a fields ops Hk Hat Hf Ho) as Hb.
  destruct (single_answer operate_command (set_operate policy key operations) _ _
    fuel base key p (OperateCommand_new policy key operations)
    (mkOperateParams policy operations, ReadCommand.set_record (Some (brought h bs))
       (ReadCommand.new base key Bins.All)) w w3 lease c rest (inl tt)
    Hp (fun _ => eq_refl) (fun _ _ => eq_refl) (fun _ => eq_refl)
    Hb (operate_header_untimed _ _ _ _ _) Hl Ht Hre Ha (embedded_read _ base key c h bs rest Hbr))
    as (c' & Hi & Hout & E).
  exists c'. split; [exact Hi|]. split; [exact Hout|].
  unfold Client.operate. unfold bind at 1. fold base. rewrite E.
  unfold bind. cbn [settle]. destruct (put_back lease c' w3); reflexivity.
Qed.

(** What [execute_udf] sends. *)
Definition udf_request (policy : WritePolicy) (key : Key) (fields udf : bytes) : bytes :=
  message
    (timed (base_timeout (wp_base_policy policy))
       (header (consistency_attr (wp_base_policy policy) 0) INFO2_WRITE 0 0 0
          (record_field_count key (send_key policy) (wp_filter_expression policy) + 3) 0))
    (fields ++ udf).

(** C26: [Client::execute_udf] on a node that answers well sends exactly the call,
    and returns what the first bin that names a success or a failure says: its
    value or an error; a response without bins is no value. *)
Theorem udf_end_to_end `{HO : HashOrder} fuel policy key package function args fields udf p
    (w w3 : Cluster.World Net) lease (c : Connection) h bs rest :
  let base := wp_base_policy policy in
  let request := udf_request policy key fields udf in
  let bins := Record.bins (brought h bs) in
  key_ok key -> new_by_key key = Some p ->
  record_fields key (send_key policy) (wp_filter_expression policy) = Some fields ->
  udf_fields package function args = Some udf ->
  total_size (fields ++ udf) <= MAX_BUFFER_SIZE ->
  small_timeout (base_timeout base) ->
  reached (EN := cluster_environment p) fuel base
    (ExecuteUDFCommand_new policy key package function args) w w3 lease c ->
  len request <= accepts (conn c) ->
  brings c h bs rest ->
  exists c',
    incoming (conn c') = rest /\ outgoing (conn c') = outgoing (conn c) ++ request /\
    Client.execute_udf (S fuel) policy key package function args w
    = (put_back (Environment := cluster_environment p) lease c' ;;;
       if bool_decide (bins = empty) then ret None
       else match Client.udf_result (entries bins) with
            | inl v => ret v
            | inr e => throw e
            end) w3.
Proof.
  intros base request bins Hk Hp Hf Hu Hl Ht Hre Ha Hbr.
  pose proof (set_udf_message policy key package function args fields udf Hk Hf Hu) as Hb.
  destruct (single_answer udf_command (set_udf policy key package function args) _ _
    fuel base key p (ExecuteUDFCommand_new policy key package function args)
    (mkUDFParams policy package function args, ReadCommand.set_record (Some (brought h bs))
       (ReadCommand.new base key Bins.All)) w w3 lease c rest (inl tt)
    Hp (fun _ => eq_refl) (fun _ _ => eq_refl) (fun _ => eq_refl)
    Hb (header_untimed _ _ _ _ _ _ _) Hl Ht Hre Ha (embedded_read _ base key c h bs rest Hbr))
    as (c' & Hi & Hout & E).
  exists c'. split; [exact Hi|]. split; [exact Hout|].
  unfold Client.execute_udf. unfold bind at 1. fold base. rewrite E.
  unfold bind at 1. unfold bind at 2. cbn [settle]. destruct (put_back lease c' w3); reflexivity.
Qed.

(** ** Flags *)

(** What a result code says of the record. *)
Definition flag_result (rc : ResultCode) : bool + ErrorKind :=
  match rc with
  | ResultCode.Ok => inl true
  | ResultCode.KeyNotFoundError => inl false
  | _ => inr (ServerError rc)
  end.

(** The end of a command with a flag: a flag takes the whole answer, an error leaves
    the body of the answer on the stream. *)
Definition flag_rest (result : bool + ErrorKind) (body rest : bytes) : bytes :=
  match result with inl _ => rest | inr _ => body ++ rest end.

Definition flag_end (E : Environment (Cluster.World Net) NodeId nat) (lease : nat)
    (c : Connection) (result : bool + ErrorKind) : M (Cluster.World Net) bool :=
  match result with
  | inl b => settle (inl tt) lease c ;;; ret b
  | inr e => settle (inr e) lease c ;;; throw e
  end.

Lemma embedded_flag {P} (params : P) (c : Connection) v t h body rest :
  let result := flag_result (ResultCode.from_u8 (h_result h)) in
  len body <= MAX_BUFFER_SIZE ->
  incoming (conn c) = response v t h body ++ rest ->
  forall c3, incoming (conn c3) = incoming (conn c) ->
  exists c4,
    on_embedded exists_parse_result ((params, false), c3)
    = ends (match result with inl _ => inl tt | inr e => inr e end)
        ((params, match result with inl b => b | inr _ => false end), c4) /\
    incoming (conn c4) = flag_rest result body rest /\ quiet c3 c4.
Proof.
  intros result Hl Hi c3 Hi3. rewrite <- Hi3 in Hi.
  destruct (exists_response false c3 v t h body rest Hl Hi) as (c4 & Hq & H4).
  exists c4. subst result. unfold on_embedded.
  destruct (ResultCode.from_u8 (h_result h)); destruct H4 as [-> H4]; auto.
Qed.

(** What [delete] and [exists] send. *)
Definition delete_request (policy : WritePolicy) (key : Key) (fields : bytes) : bytes :=
  message
    (timed (base_timeout (wp_base_policy policy))
       (policy_header policy 0 (Z.lor INFO2_WRITE INFO2_DELETE)
          (record_field_count key false (wp_filter_expression policy)) 0)) fields.

Definition exists_request (policy : WritePolicy) (key : Key) (fields : bytes) : bytes :=
  message
    (timed (base_timeout (wp_base_policy policy))
       (header (consistency_attr (wp_base_policy policy) (Z.lor INFO1_READ INFO1_NOBINDATA))
          0 0 0 0 (record_field_count key false (wp_filter_expression policy)) 0)) fields.

Lemma flag_answer {P} (CM : Command (P * bool)) (params : P) (m : M Buffer unit) hdr fields fuel
    policy key p (w w3 : Cluster.World Net) lease (c : Connection) v t h body rest :
  let x := (params, false) in
  let result := flag_result (ResultCode.from_u8 (h_result h)) in
  let request := message (timed (base_timeout policy) hdr) fields in
  new_by_key key = Some p ->
  (forall c, prepare_buffer (x, c) = on_snd (lift m) (x, c)) ->
  (forall t c, write_timeout t (x, c) = conn_write_timeout t (x, c)) ->
  (forall c, write_buffer (x, c) = conn_write_buffer (x, c)) ->
  (forall s, parse_result s = on_embedded exists_parse_result s) ->
  builds m hdr fields -> untimed hdr -> total_size fields <= MAX_BUFFER_SIZE ->
  small_timeout (base_timeout policy) ->
  reached (EN := cluster_environment p) fuel policy x w w3 lease c ->
  len request <= accepts (conn c) ->
  len body <= MAX_BUFFER_SIZE -> incoming (conn c) = response v t h body ++ rest ->
  exists c',
    incoming (conn c') = flag_rest result body rest /\
    outgoing (conn c') = outgoing (conn c) ++ request /\
    (let! command := Client.single (S fuel) policy key x in ret command.2) w
    = flag_end (cluster_environment p) lease c' result w3.
Proof.
  intros x result request Hp Hpb Hwt Hwb Hpr Hb Hu Hl Ht Hre Ha Hlb Hi.
  destruct (single_answer CM m hdr fields fuel policy key p x _ w w3 lease c _ _ Hp Hpb Hwt Hwb
    Hb Hu Hl Ht Hre Ha (fun c3 Hc3 =>
      match embedded_flag params c v t h body rest Hlb Hi c3 Hc3 with
      | ex_intro _ c4 H4 => ex_intro _ c4 (conj (eq_trans (Hpr _) (proj1 H4)) (proj2 H4))
      end)) as (c' & Hi' & Ho' & E).
  exists c'. split; [exact Hi'|]. split; [exact Ho'|]. unfold bind at 1. rewrite E. fold result.
  unfold flag_end. destruct result as [b|e]; unfold bind; cbn [settle].
  - destruct (put_back lease c' w3); reflexivity.
  - destruct (keep_connection e); [destruct (put_back lease c' w3)|destruct (invalidate lease c' w3)];
      reflexivity.
Qed.

(** C25: [Client::delete] and [Client::exists] on a node that answers send exactly
    their requests and return whether the record was there: [true] on the result
    code [Ok], [false] on [KeyNotFoundError]; both take the whole answer and put
    the connection back.  Another code is the error, the body of the answer stays
    on the stream, and the connection is dropped or kept as the code says. *)
Theorem flags_end_to_end fuel policy key fields p (w w3 : Cluster.World Net) lease
    (c : Connection) v t h body rest :
  let base := wp_base_policy policy in
  let result := flag_result (ResultCode.from_u8 (h_result h)) in
  let answers request method :=
    len request <= accepts (conn c) ->
    exists c',
      incoming (conn c') = flag_rest result body rest /\
      outgoing (conn c') = outgoing (conn c) ++ request /\
      method w = flag_end (cluster_environment p) lease c' result w3 in
  key_ok key -> new_by_key key = Some p ->
  record_fields key false (wp_filter_expression policy) = Some fields ->
  total_size fields <= MAX_BUFFER_SIZE -> small_timeout (base_timeout base) ->
  len body <= MAX_BUFFER_SIZE -> incoming (conn c) = response v t h body ++ rest ->
  (reached (EN := cluster_environment p) fuel base (mkDeleteParams policy key, false) w w3 lease c ->
   answers (delete_request policy key fields) (Client.delete (S fuel) policy key)) /\
  (reached (EN := cluster_environment p) fuel base (mkExistsParams policy key, false) w w3 lease c ->
   answers (exists_request policy key fields) (Client.exists_ (S fuel) policy key)).
Proof.
  intros base result answers Hk Hp Hf Hl Ht Hlb Hi.
  destruct (proj1 (simple_command_messages policy key Hk) fields Hf) as [Hd He].
  split; intros Hre Ha.
  - exact (flag_answer delete_command (mkDeleteParams policy key) (set_delete policy key) _ fields
      fuel base key p w w3 lease c v t h body rest Hp (fun _ => eq_refl) (fun _ _ => eq_refl)
      (fun _ => eq_refl) (fun _ => eq_refl) Hd (policy_header_untimed _ _ _ _ _) Hl Ht Hre Ha Hlb Hi).
  - exact (flag_answer exists_command (mkExistsParams policy key) (set_exists policy key) _ fields
      fuel base key p w w3 lease c v t h body rest Hp (fun _ => eq_refl) (fun _ _ => eq_refl)
      (fun _ => eq_refl) (fun _ => eq_refl) He (header_untimed _ _ _ _ _ _ _) Hl Ht Hre Ha Hlb Hi).
Qed.

End Client.

(** ** Examples: the cluster of one node with an idle connection *)

Section Example.
#[local] Existing Instance byteorder_model.
#[local] Existing Instance valuefmt_model.
#[local] Existing Instance clock_model.
#[local] Existing Instance silent_dialer.

Definition sample_partition : Partition :=
  default (mkPartition [] 0) (new_by_key sample_key).

Abbreviation sample_environment := (cluster_environment (Net := unit) sample_partition).

(** The idle connection, taken with the default timeout. *)
Definition taken (input : bytes) : Connection :=
  default (sample_conn input) (set_timeout (base_timeout BasePolicy_default) (sample_conn input)).

Lemma taken_reached `{CM : Command C} fuel (x : C) input :
  reached (EN := sample_environment) fuel BasePolicy_default x (sample_world 0 0 [sample_conn input])
    (sample_world 1 2 []) 0%nat (taken input).
Proof.
  apply (reached_first (EN := sample_environment) _ _ _ (Some 30000000000) _
    (sample_world 0 1 [sample_conn input]) (sample_world 0 2 [sample_conn input])
    (sample_world 1 2 [sample_conn input]) _ 0%nat); [|reflexivity..].
  vm_compute. split; [discriminate|reflexivity].
Qed.

Definition answer_with (bs : list ResponseBin) : bytes :=
  response 2 3 (sample_header 0 0 (len bs)) (concat (bin_bytes <$> bs)) ++ [9].

Lemma taken_brings bs :
  forallb bin_ok bs = true -> in_u 16 (len bs) ->
  len (concat (bin_bytes <$> bs)) <= MAX_BUFFER_SIZE ->
  brings (taken (answer_with bs)) (sample_header 0 0 (len bs)) bs [9].
Proof.
  intros Hok Hn Hl. split; [|exact Hok|exact Hl|exists 2, 3; reflexivity].
  split; [apply sample_header_ok; [unfold in_u; lia..|exact Hn]|]. repeat split.
Qed.

Lemma operate_end_to_end_witness :
  let operations := [Scalar.add (mkBin (str "a") (Value.Int 1)); Scalar.get_bin (str "a")] in
  exists c',
    incoming (conn c') = [9] /\
    Client.operate 1 WritePolicy_default sample_key operations
      (sample_world 0 0 [sample_conn (answer_with sample_bins)])
    = (put_back (Environment := sample_environment) 0%nat c' ;;;
       ret (brought (sample_header 0 0 3) sample_bins)) (sample_world 1 2 []).
Proof.
  intros operations.
  destruct (operate_end_to_end 0 WritePolicy_default sample_key operations INFO1_READ INFO2_WRITE
    (default [] (record_fields sample_key false None))
    (default [] (opt_concat (enc_op <$> operations))) sample_partition
    (sample_world 0 0 [sample_conn (answer_with sample_bins)]) (sample_world 1 2 []) 0%nat
    (taken (answer_with sample_bins)) (sample_header 0 0 3) sample_bins [9])
    as (c' & Hi & _ & E).
  - apply sample_key_ok.
  - vm_compute. reflexivity.
  - vm_compute. reflexivity.
  - vm_compute. reflexivity.
  - vm_compute. reflexivity.
  - vm_compute. discriminate.
  - vm_compute. repeat split; discriminate.
  - apply taken_reached.
  - vm_compute. discriminate.
  - apply (taken_brings sample_bins); [vm_compute; reflexivity|vm_compute; split; congruence|vm_compute; discriminate].
  - exists c'. split; [exact Hi|exact E].
Defined.

(** A function that returned 5. *)
Lemma udf_end_to_end_witness :
  let bs := [mkResponseBin 1 (str "SUCCESS") (Value.Int 5)] in
  let HO := Build_HashOrder (fun V m => map_to_list m) in
  exists c',
    incoming (conn c') = [9] /\
    Client.execute_udf 1 WritePolicy_default sample_key (str "pkg") (str "fn") None
      (sample_world 0 0 [sample_conn (answer_with bs)])
    = (put_back (Environment := sample_environment) 0%nat c' ;;; ret (Some (Value.Int 5)))
        (sample_world 1 2 []).
Proof.
  intros bs HO.
  destruct (udf_end_to_end 0 WritePolicy_default sample_key (str "pkg") (str "fn") None
    (default [] (record_fields sample_key false None))
    (default [] (udf_fields (str "pkg") (str "fn") None)) sample_partition
    (sample_world 0 0 [sample_conn (answer_with bs)]) (sample_world 1 2 []) 0%nat
    (taken (answer_with bs)) (sample_header 0 0 1) bs [9])
    as (c' & Hi & _ & E).
  - apply sample_key_ok.
  - vm_compute. reflexivity.
  - vm_compute. reflexivity.
  - vm_compute. reflexivity.
  - vm_compute. discriminate.
  - vm_compute. repeat split; discriminate.
  - apply taken_reached.
  - vm_compute. discriminate.
  - apply (taken_brings bs); [vm_compute; reflexivity|vm_compute; split; congruence|vm_compute; discriminate].
  - exists c'. split; [exact Hi|exact E].
Defined.

(** A record that is not there. *)
Lemma flags_end_to_end_witness :
  let input := response 2 3 (sample_header 2 0 0) [7; 7] ++ [9] in
  exists c',
    incoming (conn c') = [9] /\
    Client.delete 1 WritePolicy_default sample_key (sample_world 0 0 [sample_conn input])
    = (put_back (Environment := sample_environment) 0%nat c' ;;; ret false) (sample_world 1 2 []).
Proof.
  intros input.
  destruct (flags_end_to_end 0 WritePolicy_default sample_key
    (default [] (record_fields sample_key false None)) sample_partition
    (sample_world 0 0 [sample_conn input]) (sample_world 1 2 []) 0%nat (taken input) 2 3
    (sample_header 2 0 0) [7; 7] [9]) as [Hd _].
  - apply sample_key_ok.
  - vm_compute. reflexivity.
  - vm_compute. reflexivity.
  - vm_compute. discriminate.
  - vm_compute. repeat split; discriminate.
  - vm_compute. discriminate.
  - vm_compute. reflexivity.
  - destruct Hd as (c' & Hi & _ & E); [apply taken_reached|vm_compute; discriminate|].
    exists c'. split; [exact Hi|exact E].
Defined.

End Example.
