(* ===== verification/PutGet.v ===== *)
(** * What is put is what is got

    [ClientEndToEnd] relates one operation of the client to the bytes it sends and
    reads.  Here are two of them, one after the other, on a server that stores
    bytes: the rows of its answer to [get] are the operations that [put] sent, but
    for the byte that says which operation a row is, among rows of other bins and
    in any order.  [put_get]: the record of [get] has the values that were put. *)

From stdpp Require Import base list strings gmap.
From Stdlib Require Import ZArith Lia.
From S2P Require Import Prelude ResultCodes Monad ByteOrder Slices Wire Buffer Values Encoder.
From S2P Require Import Particle Expressions Operations Policy Records Connection Commands.
From S2P Require Import EncoderFacts CommandFacts RecordCommands Responses ConnectionFacts ResponseFacts.
From S2P Require Import Execute PoolFacts Hosts ClientPolicy ConnectionPool Nodes Cluster ClusterExecute.
From S2P Require Import EndToEnd Client ClientEndToEnd.
Import Connection.

#[local] Open Scope Z_scope.
#[local] Open Scope m_scope.

(** ** The bins of a response, in any order *)

(** What [get] makes of a value. *)
Definition got (v : Value) : option Value := if Value.is_nil v then None else Some (norm_bin v).

Lemma add_bin_other m b name :
  rb_name b <> name -> add_bin m b !! name = m !! name.
Proof.
  intros Hn. unfold add_bin. destruct (Value.is_nil _); [reflexivity|].
  unfold ReadCommand.insert_bin.
  destruct (m !! rb_name b) as [[]|]; apply lookup_insert_ne, Hn.
Qed.

Lemma add_bin_fresh m b :
  m !! rb_name b = None -> add_bin m b !! rb_name b = got (rb_value b).
Proof.
  intros Hm. unfold add_bin, got.
  assert (Value.is_nil (norm_bin (rb_value b)) = Value.is_nil (rb_value b)) as ->
    by (destruct (rb_value b) as [| | |?|[]| | | | | | |]; cbn; repeat case_match; reflexivity).
  destruct (Value.is_nil _); [exact Hm|].
  unfold ReadCommand.insert_bin. rewrite Hm. apply lookup_insert_eq.
Qed.

Lemma add_bins_other bs : forall m name,
  name ∉ rb_name <$> bs -> foldl add_bin m bs !! name = m !! name.
Proof.
  induction bs as [|b bs IH]; intros m name Hn; [reflexivity|].
  apply not_elem_of_cons in Hn as [Hb Hn]. cbn [foldl].
  rewrite IH by exact Hn. apply add_bin_other. congruence.
Qed.

(** Bins of different names keep out of each other's way. *)
Lemma add_bins_lookup bs : forall m b,
  NoDup (rb_name <$> bs) -> b ∈ bs -> m !! rb_name b = None ->
  foldl add_bin m bs !! rb_name b = got (rb_value b).
Proof.
  induction bs as [|b' bs IH]; intros m b Hnd Hb Hm; [inversion Hb|].
  apply NoDup_cons in Hnd as [Hn Hnd]. cbn [foldl].
  apply elem_of_cons in Hb as [->|Hb].
  - rewrite add_bins_other by exact Hn. apply add_bin_fresh, Hm.
  - apply IH; [exact Hnd|exact Hb|]. rewrite add_bin_other; [exact Hm|].
    intros E. apply Hn. rewrite E. apply (list_elem_of_fmap_2 rb_name _ _ Hb).
Qed.

(** ** A server that stores bytes *)

Section Echo.
Context `{BO : ByteOrder}.

(** A row of a response that has the bytes of an operation, under the code of some
    operation. *)
Definition echoes (sent row : bytes) : Prop :=
  exists o, row = take 4 sent ++ [o] ++ drop 5 sent.

(** A bin that the client can store, and that fits into a response. *)
Definition storable (b : Bin) : Prop :=
  bin_ok (mkResponseBin 0 (bin_name b) (bin_value b)) = true.

Definition bin_of (b : Bin) (r : ResponseBin) : Prop :=
  rb_name r = bin_name b /\ rb_value r = bin_value b /\ bin_ok r = true.

(** An operation that comes back as a row is the bin. *)
Lemma echo_row b sent row :
  storable b -> enc_bin OperationType.Write b = Some sent -> echoes sent row ->
  exists r, row = bin_bytes r /\ bin_of b r.
Proof.
  intros Hs He [o ->]. exists (mkResponseBin o (bin_name b) (bin_value b)).
  split; [|split; [reflexivity|split; [reflexivity|exact Hs]]].
  unfold storable, bin_ok in Hs. rewrite !andb_true_iff in Hs.
  destruct Hs as [[[[_ Hn] _] _] _]. apply Z.ltb_lt in Hn. cbn [rb_name] in Hn.
  unfold enc_bin in He.
  destruct (Value.particle_type (bin_value b)) as [t|] eqn:Ht; [|discriminate].
  destruct (particle_bytes (bin_value b)) as [bs|] eqn:Hb; [|discriminate].
  injection He as <-. unfold bin_bytes, bin_size, bin_type, bin_payload, op_bytes.
  cbn [rb_op rb_name rb_value]. rewrite Ht, Hb. cbn [default].
  pose proof (len_nonneg (bin_name b)).
  rewrite (as_u8_id (len (bin_name b))) by (unfold is_byte; lia).
  replace (len (bin_name b) + len bs + 4) with (4 + len (bin_name b) + len bs) by lia.
  assert (forall v, length (write_be 4 v) = 4%nat) as Hw
    by (intros v; pose proof (len_write_be 4 v) as H'; unfold len in H'; lia).
  rewrite take_app_length' by (symmetry; apply Hw).
  rewrite drop_app_ge by (rewrite Hw; lia). rewrite Hw. reflexivity.
Qed.

(** A row that has the bytes that [put] sends for the bin. *)
Definition row_of (b : Bin) (row : bytes) : Prop :=
  exists sent, enc_bin OperationType.Write b = Some sent /\ echoes sent row.

Lemma echo_rows bins rows :
  Forall storable bins -> Forall2 row_of bins rows ->
  exists rs, rows = bin_bytes <$> rs /\ Forall2 bin_of bins rs.
Proof.
  intros Hs Hr. induction Hr as [|b row bins rows (sent & He & Hrow) _ IH].
  - exists []. split; [reflexivity|constructor].
  - apply Forall_cons in Hs as [Hsb Hs]. destruct (IH Hs) as (rs & -> & Hrs).
    destruct (echo_row b sent row Hsb He Hrow) as (r & -> & Hbr).
    exists (r :: rs). split; [reflexivity|constructor; assumption].
Qed.

(** The bins that [put] leaves in the record: a nil removes its bin. *)
Definition stored (bins : list Bin) : list Bin :=
  filter (fun b => Value.is_nil (bin_value b) = false) bins.

(** What is left to read on [c] is the answer to [get] of a server that has stored
    the bins: their rows and those of the other bins of the record, in any order;
    then [rest]. *)
Record returns (c : Connection) (bins : list Bin) (others : list ResponseBin) (h : Header)
    (rest : bytes) : Prop := {
  returns_names : NoDup ((bin_name <$> bins) ++ (rb_name <$> others));
  returns_others : forallb bin_ok others = true;
  returns_rows : exists rows mine v t,
    Forall2 row_of (stored bins) mine /\ rows ≡ₚ mine ++ (bin_bytes <$> others) /\
    header_ok h /\ h_result h = 0 /\ h_fields h = 0 /\ h_ops h = len rows /\
    len (concat rows) <= MAX_BUFFER_SIZE /\
    incoming (conn c) = response v t h (concat rows) ++ rest
}.

Lemma bin_of_names bins rs : Forall2 bin_of bins rs -> rb_name <$> rs = bin_name <$> bins.
Proof. induction 1 as [|b r bins rs (Hn & _) _ IH]; cbn; congruence. Qed.

Lemma bin_of_ok bins rs : Forall2 bin_of bins rs -> forallb bin_ok rs = true.
Proof. induction 1 as [|b r bins rs (_ & _ & Hok) _ IH]; cbn; [reflexivity|]. rewrite Hok. exact IH. Qed.

(** Such an answer brings a record with the bins. *)
Lemma returns_brings c bins others h rest :
  Forall storable bins -> returns c bins others h rest ->
  exists rs bs, brings c h bs rest /\ Forall2 bin_of (stored bins) rs /\ bs ≡ₚ rs ++ others.
Proof.
  intros Hs [_ Hok (rows & mine & v & t & Hm & Hp & Hh & Hr & Hf & Ho & Hl & Hi)].
  destruct (echo_rows (stored bins) mine) as (rs & -> & Hrs);
    [|exact Hm|].
  { apply Forall_forall. intros b [_ Hb]%list_elem_of_filter. revert b Hb. apply Forall_forall, Hs. }
  rewrite <- fmap_app in Hp.
  apply Permutation_map_inv in Hp as (bs & -> & Hbs).
  exists rs, bs. split; [|split; [exact Hrs|symmetry; exact Hbs]].
  assert (forallb bin_ok bs = true) as Hall.
  { apply forallb_forall. intros b Hb. apply (Permutation_in _ (Permutation_sym Hbs)) in Hb.
    apply in_app_or in Hb. pose proof (bin_of_ok _ _ Hrs) as Hok'.
    rewrite forallb_forall in Hok, Hok'. destruct Hb as [Hb|Hb]; auto. }
  split; [|exact Hall|exact Hl|exists v, t; exact Hi].
  split; [exact Hh|]. split; [exact Hr|]. split; [exact Hf|].
  rewrite Ho. apply (len_map bin_bytes).
Qed.

(** The record has what was put in the bins, and what the others have. *)
Definition holds (r : Record_) (bins : list Bin) (others : list ResponseBin) : Prop :=
  (forall b, b ∈ bins -> Record.bins r !! bin_name b = got (bin_value b)) /\
  (forall b, b ∈ others -> Record.bins r !! rb_name b = got (rb_value b)) /\
  (forall name, name ∉ bin_name <$> bins -> name ∉ rb_name <$> others ->
     Record.bins r !! name = None).

Lemma stored_names bins : (bin_name <$> stored bins) ⊆ (bin_name <$> bins).
Proof.
  intros name Hn. apply list_elem_of_fmap in Hn as (b & -> & Hb).
  apply list_elem_of_filter in Hb as [_ Hb]. apply list_elem_of_fmap_2, Hb.
Qed.

Lemma same_name bins b b' :
  NoDup (bin_name <$> bins) -> b ∈ bins -> b' ∈ bins -> bin_name b = bin_name b' -> b = b'.
Proof.
  intros Hnd [i Hi]%list_elem_of_lookup [j Hj]%list_elem_of_lookup E.
  assert (i = j) as ->; [|congruence].
  apply (NoDup_lookup (bin_name <$> bins) i j (bin_name b) Hnd);
    rewrite list_lookup_fmap; [rewrite Hi|rewrite Hj, E]; reflexivity.
Qed.

Lemma bin_of_elem bins rs b :
  Forall2 bin_of bins rs -> b ∈ bins -> exists r, r ∈ rs /\ bin_of b r.
Proof.
  intros H [i Hi]%list_elem_of_lookup.
  destruct (Forall2_lookup_l _ _ _ _ _ H Hi) as (r & Hr & Hb).
  exists r. split; [apply (list_elem_of_lookup_2 _ _ _ Hr)|exact Hb].
Qed.

Lemma brought_holds h bins others rs bs :
  NoDup ((bin_name <$> bins) ++ (rb_name <$> others)) ->
  Forall2 bin_of (stored bins) rs -> bs ≡ₚ rs ++ others ->
  holds (brought h bs) bins others.
Proof.
  intros Hnd Hrs Hbs. pose proof (bin_of_names _ _ Hrs) as Hnames.
  apply NoDup_app in Hnd as (Hnd1 & Hdis & Hnd2).
  assert (rb_name <$> bs ≡ₚ (bin_name <$> stored bins) ++ (rb_name <$> others)) as Hall
    by (rewrite Hbs, fmap_app, Hnames; reflexivity).
  assert (NoDup (rb_name <$> bs)) as Hnd.
  { rewrite Hall. apply NoDup_app. split; [|split; [|exact Hnd2]].
    - apply (sublist_NoDup _ _ Hnd1). apply fmap_sublist, sublist_filter.
    - intros name Hn. apply Hdis, stored_names, Hn. }
  assert (forall r, r ∈ rs ++ others -> Record.bins (brought h bs) !! rb_name r = got (rb_value r)) as Hget.
  { intros r Hr. apply add_bins_lookup; [exact Hnd| |apply lookup_empty]. rewrite Hbs. exact Hr. }
  assert (forall name, name ∉ (bin_name <$> stored bins) ++ (rb_name <$> others) ->
    Record.bins (brought h bs) !! name = None) as Hnone.
  { intros name Hn. rewrite <- Hall in Hn. etrans; [apply add_bins_other, Hn|apply lookup_empty]. }
  split; [|split].
  - intros b Hb. destruct (Value.is_nil (bin_value b)) eqn:Hnil.
    + unfold got. rewrite Hnil. apply Hnone. intros [Hn|Hn]%elem_of_app.
      * apply list_elem_of_fmap in Hn as (b' & E & [Hnil' Hb']%list_elem_of_filter).
        rewrite (same_name bins b b' Hnd1 Hb Hb' E) in Hnil. congruence.
      * apply (Hdis (bin_name b)); [apply list_elem_of_fmap_2, Hb|exact Hn].
    + destruct (bin_of_elem (stored bins) rs b Hrs) as (r & Hr & En & Ev & _);
        [apply list_elem_of_filter; auto|].
      rewrite <- En, <- Ev. apply Hget, elem_of_app. left. exact Hr.
  - intros r Hr. apply Hget, elem_of_app. right. exact Hr.
  - intros name Hb Ho. apply Hnone. intros [Hn|Hn]%elem_of_app; [|exact (Ho Hn)].
    apply Hb, stored_names, Hn.
Qed.

End Echo.

(** ** A put and a get *)

Section PutGet.
Context `{BO : ByteOrder} `{VF : ValueFmt} `{CL : Clock} `{DI : Dialer Net}.

(** [Client::put] on a node that accepts it. *)
Lemma put_accepted fuel policy key bins fields ops p (w w1 : Cluster.World Net) lease
    (c : Connection) v t h body rest :
  let base := wp_base_policy policy in
  let request := write_request policy key bins fields ops in
  key_ok key -> new_by_key key = Some p ->
  record_fields key (send_key policy) (wp_filter_expression policy) = Some fields ->
  opt_concat (enc_bin OperationType.Write <$> bins) = Some ops ->
  total_size (fields ++ ops) <= MAX_BUFFER_SIZE -> small_timeout (base_timeout base) ->
  reached (EN := cluster_environment p) fuel base
    (mkWriteCommand policy key bins OperationType.Write) w w1 lease c ->
  len request <= accepts (conn c) ->
  h_result h = 0 -> len body <= MAX_BUFFER_SIZE ->
  incoming (conn c) = response v t h body ++ rest ->
  exists c1,
    incoming (conn c1) = rest /\ outgoing (conn c1) = outgoing (conn c) ++ request /\
    Client.put (S fuel) policy key bins w
    = put_back (Environment := cluster_environment p) lease c1 w1.
Proof.
  intros base request Hk Hp Hf Ho Hl Ht Hre Ha Hr Hlb Hi.
  set (cmd := mkWriteCommand policy key bins OperationType.Write).
  destruct (single_answer write_command (set_write policy OperationType.Write key bins) _ _ fuel
    base key p cmd cmd w w1 lease c rest (inl tt) Hp (fun _ => eq_refl) (fun _ _ => eq_refl)
    (fun _ => eq_refl) (set_write_builds policy OperationType.Write key bins fields ops Hk Hf Ho)
    (policy_header_untimed _ _ _ _ _) Hl Ht Hre Ha) as (c1 & Hi1 & Ho1 & E).
  - intros c3 Hi3. rewrite <- Hi3 in Hi.
    destruct (write_response c3 v t h body rest Hlb Hi) as (c4 & Hq & H4). rewrite Hr in H4.
    destruct H4 as [H4 Hi4]. exists c4. split; [|auto].
    unfold cmd. cbn [parse_result write_command]. unfold on_snd. cbn [fst snd]. rewrite H4. reflexivity.
  - exists c1. split; [exact Hi1|]. split; [exact Ho1|].
    unfold Client.put, Client.write. unfold bind at 1. fold base cmd. rewrite E. unfold bind. cbn [settle].
    destruct (put_back lease c1 w1) as [[]| | |]; reflexivity.
Qed.

(** [Client::get] of all bins on a node that answers well. *)
Lemma get_answered fuel policy key fields p (w w3 : Cluster.World Net) lease (c : Connection)
    h bs rest :
  let request := read_request policy key Bins.All fields in
  key_ok key -> new_by_key key = Some p ->
  record_fields key false (base_filter_expression policy) = Some fields ->
  total_size fields <= MAX_BUFFER_SIZE -> small_timeout (base_timeout policy) ->
  reached (EN := cluster_environment p) fuel policy (ReadCommand.new policy key Bins.All) w w3 lease c ->
  len request <= accepts (conn c) -> brings c h bs rest ->
  exists c',
    incoming (conn c') = rest /\ outgoing (conn c') = outgoing (conn c) ++ request /\
    Client.get (S fuel) policy key Bins.All w
    = (put_back (Environment := cluster_environment p) lease c' ;;; ret (brought h bs)) w3.
Proof.
  intros request Hk Hp Hf Hl Ht Hre Ha [(Hh & Hr & Hf0 & Ho) Hok Hlb (v & t & Hi)].
  set (cmd := ReadCommand.new policy key Bins.All).
  destruct (single_answer read_command (set_read policy key Bins.All) _ _ fuel policy key p
    cmd (ReadCommand.set_record (Some (brought h bs)) cmd) w w3 lease c rest (inl tt) Hp
    (fun _ => eq_refl) (fun _ _ => eq_refl) (fun _ => eq_refl)
    (set_read_builds policy key Bins.All fields Hk Hf) (header_untimed _ _ _ _ _ _ _)
    ltac:(cbn; rewrite app_nil_r; exact Hl) Ht Hre Ha) as (c' & Hi' & Ho' & E).
  - intros c3 Hi3. rewrite <- Hi3 in Hi.
    destruct (parse_response_body cmd c3 v t h bs rest Hh Hr Hf0 Ho Hok Hlb Hi)
      as (c4 & H4 & Hi4 & Hq). exists c4. auto.
  - exists c'. split; [exact Hi'|]. split; [exact Ho'|].
    unfold Client.get. unfold bind at 1. fold cmd. rewrite E. unfold bind. cbn [settle].
    destruct (put_back lease c' w3); reflexivity.
Qed.

(** C1: [Client::put] and then [Client::get] of the same key, on a server that
    accepts the bins and answers with the bytes it has been sent, in any order and
    among those of [others], after any failed attempts and on any connections: both
    requests are sent exactly, and the record has in every bin that was put what
    was put ([got]: a nil removes the bin), in the other bins what they had, and no
    other bin. *)
Theorem put_get fuel policy reads key bins others fields rfields ops p
    (w w1 : Cluster.World Net) lease (c : Connection) v t h body rest :
  let base := wp_base_policy policy in
  let request := write_request policy key bins fields ops in
  let query := read_request reads key Bins.All rfields in
  let put := Client.put (S fuel) policy key bins in
  let get := Client.get (S fuel) reads key Bins.All in
  let E := cluster_environment p in
  key_ok key -> new_by_key key = Some p -> Forall storable bins ->
  record_fields key (send_key policy) (wp_filter_expression policy) = Some fields ->
  record_fields key false (base_filter_expression reads) = Some rfields ->
  opt_concat (enc_bin OperationType.Write <$> bins) = Some ops ->
  total_size (fields ++ ops) <= MAX_BUFFER_SIZE -> total_size rfields <= MAX_BUFFER_SIZE ->
  small_timeout (base_timeout base) -> small_timeout (base_timeout reads) ->
  reached (EN := E) fuel base (mkWriteCommand policy key bins OperationType.Write) w w1 lease c ->
  len request <= accepts (conn c) ->
  h_result h = 0 -> len body <= MAX_BUFFER_SIZE ->
  incoming (conn c) = response v t h body ++ rest ->
  exists c1,
    incoming (conn c1) = rest /\ outgoing (conn c1) = outgoing (conn c) ++ request /\
    put w = put_back (Environment := E) lease c1 w1 /\
    forall w2 w3 lease2 c2 h2 rest2,
      put_back (Environment := E) lease c1 w1 = Ret tt w2 ->
      reached (EN := E) fuel reads (ReadCommand.new reads key Bins.All) w2 w3 lease2 c2 ->
      len query <= accepts (conn c2) ->
      returns c2 bins others h2 rest2 ->
      exists c3 record,
        incoming (conn c3) = rest2 /\ outgoing (conn c3) = outgoing (conn c2) ++ query /\
        (put ;;; get) w = (put_back (Environment := E) lease2 c3 ;;; ret record) w3 /\
        holds record bins others.
Proof.
  intros base request query put get E Hk Hp Hs Hf Hrf Ho Hl Hrl Ht Hrt Hre Ha Hr Hlb Hi.
  destruct (put_accepted fuel policy key bins fields ops p w w1 lease c v t h body rest
    Hk Hp Hf Ho Hl Ht Hre Ha Hr Hlb Hi) as (c1 & Hi1 & Ho1 & E1).
  exists c1. split; [exact Hi1|]. split; [exact Ho1|]. split; [exact E1|].
  intros w2 w3 lease2 c2 h2 rest2 Hback Hre2 Ha2 Hans.
  destruct (returns_brings c2 bins others h2 rest2 Hs Hans) as (rs & bs & Hbr & Hrs & Hbs).
  destruct (get_answered fuel reads key rfields p w2 w3 lease2 c2 h2 bs rest2
    Hk Hp Hrf Hrl Hrt Hre2 Ha2 Hbr) as (c3 & Hi3 & Ho3 & E3).
  exists c3, (brought h2 bs). split; [exact Hi3|]. split; [exact Ho3|]. split.
  - subst put get E. unfold bind at 1. rewrite E1, Hback. exact E3.
  - exact (brought_holds h2 bins others rs bs (returns_names _ _ _ _ _ Hans) Hrs Hbs).
Qed.

End PutGet.

(** ** An example *)

Section Example.
#[local] Existing Instance byteorder_model.
#[local] Existing Instance valuefmt_model.
#[local] Existing Instance clock_model.
#[local] Existing Instance silent_dialer.

Abbreviation sample_environment := (cluster_environment (Net := unit) sample_partition).

Definition put_bins : list Bin :=
  [mkBin (str "a") (Value.Int 1); mkBin (str "b") Value.Nil;
   mkBin (str "c") (Value.List [Value.String (str "x")])].

Definition other_bins : list ResponseBin := [mkResponseBin 1 (str "z") (Value.Bool true)].

(** A server that answers with the operations it has been sent, in the reverse
    order, each under the code 1. *)
Definition echo_rows_of (bins : list Bin) (others : list ResponseBin) : list bytes :=
  reverse ((fun b => <[4%nat := 1]> (default [] (enc_bin OperationType.Write b))) <$> stored bins)
  ++ (bin_bytes <$> others).

Definition echo_answer : bytes :=
  response 2 3 (sample_header 0 0 3) (concat (echo_rows_of put_bins other_bins)) ++ [9].

Lemma echo_answer_returns (c : Connection) :
  incoming (conn c) = echo_answer -> returns c put_bins other_bins (sample_header 0 0 3) [9].
Proof.
  intros Hi. split.
  - apply (bool_decide_unpack _). vm_compute. exact I.
  - vm_compute. reflexivity.
  - exists (echo_rows_of put_bins other_bins),
      ((fun b => <[4%nat := 1]> (default [] (enc_bin OperationType.Write b))) <$> stored put_bins), 2, 3.
    split; [|split; [|split; [|repeat split]]].
    + repeat constructor; eexists; (split; [vm_compute; reflexivity|exists 1; vm_compute; reflexivity]).
    + unfold echo_rows_of. rewrite reverse_Permutation. reflexivity.
    + apply sample_header_ok; unfold in_u; lia.
    + vm_compute. discriminate.
    + exact Hi.
Qed.

(** The put takes the first of two connections, which the full pool then does not
    keep, and the get takes the second. *)
Lemma put_get_witness :
  let first := sample_conn (response 2 3 (sample_header 0 0 0) []) in
  let second := sample_conn echo_answer in
  exists c3 record,
    (Client.put 1 WritePolicy_default sample_key put_bins ;;;
     Client.get 1 BasePolicy_default sample_key Bins.All) (pool_world 0 0 [first; second] 2)
    = (put_back (Environment := sample_environment) 0%nat c3 ;;; ret record)
        (pool_world 2 4 [] 1) /\
    Record.bins record !! str "a" = Some (Value.Int 1) /\
    Record.bins record !! str "b" = None.
Proof.
  intros first second.
  destruct (put_get 0 WritePolicy_default BasePolicy_default sample_key put_bins other_bins
    (default [] (record_fields sample_key false None))
    (default [] (record_fields sample_key false None))
    (default [] (opt_concat (enc_bin OperationType.Write <$> put_bins))) sample_partition
    (pool_world 0 0 [first; second] 2) (pool_world 1 2 [second] 2) 0%nat
    (taken (response 2 3 (sample_header 0 0 0) [])) 2 3 (sample_header 0 0 0) [] [])
    as (c1 & _ & _ & _ & H).
  - apply sample_key_ok.
  - vm_compute. reflexivity.
  - repeat constructor.
  - vm_compute. reflexivity.
  - vm_compute. reflexivity.
  - vm_compute. reflexivity.
  - vm_compute. discriminate.
  - vm_compute. discriminate.
  - vm_compute. repeat split; discriminate.
  - vm_compute. repeat split; discriminate.
  - apply (reached_first (EN := sample_environment) _ _ _ (Some 30000000000) _
      (pool_world 0 1 [first; second] 2) (pool_world 0 2 [first; second] 2)
      (pool_world 1 2 [first; second] 2) _ 0%nat);
      vm_compute; [split; [discriminate|reflexivity]|reflexivity..].
  - vm_compute. discriminate.
  - reflexivity.
  - vm_compute. discriminate.
  - vm_compute. reflexivity.
  - destruct (H (pool_world 1 2 [second] 1) (pool_world 2 4 [] 1) 0%nat
      (taken echo_answer) (sample_header 0 0 3) [9])
      as (c3 & record & _ & _ & E & Hb & _).
    + reflexivity.
    + apply (reached_first (EN := sample_environment) _ _ _ (Some 30000000002) _
        (pool_world 1 3 [second] 1) (pool_world 1 4 [second] 1)
        (pool_world 2 4 [second] 1) _ 0%nat); [|reflexivity..].
      vm_compute. split; [discriminate|reflexivity].
    + vm_compute. discriminate.
    + apply echo_answer_returns. reflexivity.
    + exists c3, record. split; [exact E|]. split.
      * apply (Hb (mkBin (str "a") (Value.Int 1))). left.
      * apply (Hb (mkBin (str "b") Value.Nil)). right. left.
Defined.

End Example.
