(* ===== verification/ClientFacts.v ===== *)
(** * The operations of the client

    [records_are_there]: an operation that ends without an error has a record to
    hand over.  [scan_covers]: the commands of a scan or a query are as many as
    the record set waits for, and share the partitions out.  [info_command]: an
    index is managed with exactly the command and the verdict of the answer. *)

From stdpp Require Import base list strings gmap numbers.
From Stdlib Require Import ZArith Lia.
From S2P Require Import Prelude ResultCodes Monad Invariants ByteOrder Slices Text Wire Buffer.
From S2P Require Import Values Expressions Operations Policy Records Connection Statements.
From S2P Require Import Commands Queries Responses Recordset Streams Execute ExecuteFacts.
From S2P Require Import Hosts ClientPolicy Info ConnectionPool PoolFacts Nodes Cluster.
From S2P Require Import ConnectionFacts ResponseFacts PartitionFacts ClusterExecute EndToEnd BatchExecutor BatchExecutorFacts.
From S2P Require Import Tasks Client.

From stdpp Require Import list.

#[local] Open Scope Z_scope.
#[local] Open Scope m_scope.

Import Client.

(** ** Records *)

Section Records.
Context `{BO : ByteOrder} `{VF : ValueFmt} `{CL : Clock} `{DI : Dialer Net}.

(** A response that is parsed leaves a record. *)
Lemma read_parse_gives (s : ReadCommand * Connection) :
  match ReadCommand.parse_result s with
  | Ret _ s' => ReadCommand.record s'.1 <> None
  | _ => True
  end.
Proof.
  destruct (ReadCommand.parse_result s) as [u s'| | |] eqn:E; try exact I.
  unfold ReadCommand.parse_result in E.
  apply bind_Ret_inv in E as ([[[[rc g] e] f] o] & s1 & _ & E).
  destruct (ResultCode.from_u8 rc); try discriminate E.
  - apply bind_Ret_inv in E as (cmd & s2 & _ & E). apply bind_Ret_inv in E as (r & s3 & _ & E).
    unfold on_fst in E. cbn in E. injection E as _ <-. discriminate.
  - apply bind_Ret_inv in E as (r & s2 & _ & E). discriminate E.
Qed.

Lemma embedded_parse_gives {P} (s : (P * ReadCommand) * Connection) :
  match on_embedded ReadCommand.parse_result s with
  | Ret _ s' => ReadCommand.record s'.1.2 <> None
  | _ => True
  end.
Proof.
  destruct s as [[p x] c]. unfold on_embedded. pose proof (read_parse_gives (x, c)) as H.
  destruct (ReadCommand.parse_result (x, c)) as [u [x' c']|e [x' c']| |]; exact H || exact I.
Qed.

(** What a command that was executed has. *)
Lemma single_gives `{CM : Command C} (Q : C -> Prop) fuel policy key (command : C)
    (w : Cluster.World Net) command' w' :
  (forall s : C * Connection, match parse_result s with Ret _ s' => Q s'.1 | _ => True end) ->
  single fuel policy key command w = Ret command' w' -> Q command'.
Proof.
  intros HQ H. apply bind_Ret_inv in H as (p & w1 & _ & H). unfold run in H.
  destruct (execute (EN := cluster_environment p) fuel policy (command, w1))
    as [[] [c w2]|? [? ?]| |] eqn:E; try discriminate H. injection H as <- _.
  apply (execute_gives (EN := cluster_environment p) Q HQ) in E. exact E.
Qed.

(** A panic after the command is none of the absent record. *)
Lemma unwrap_after {C A} (m : M (Cluster.World Net) C) (f : C -> option Record_)
    (k : Record_ -> M (Cluster.World Net) A) w :
  (forall c w', m w = Ret c w' -> f c <> None) ->
  (forall r w', k r w' <> Panic) ->
  (let! c := m in let! r := unwrap (f c) in k r) w = Panic -> m w = Panic.
Proof.
  intros Hm Hk. unfold bind. destruct (m w) as [c w1| | |]; try (discriminate || reflexivity).
  specialize (Hm c w1 eq_refl). destruct (f c) as [r|]; [|congruence]. cbn.
  intros H. now apply Hk in H.
Qed.

(** The operations that hand over a record never miss it: they panic only if
    executing their command does. *)
Theorem records_are_there `{HO : HashOrder} fuel key (w : Cluster.World Net) :
  (forall policy bins,
     get fuel policy key bins w = Panic ->
     single fuel policy key (ReadCommand.new policy key bins) w = Panic) /\
  (forall policy ops,
     operate fuel policy key ops w = Panic ->
     single fuel (wp_base_policy policy) key (OperateCommand_new policy key ops) w = Panic) /\
  (forall policy udf_name function_name args,
     execute_udf fuel policy key udf_name function_name args w = Panic ->
     single fuel (wp_base_policy policy) key
       (ExecuteUDFCommand_new policy key udf_name function_name args) w = Panic).
Proof.
  split; [|split].
  - intros policy bins H.
    apply (unwrap_after (A := Record_) _ ReadCommand.record ret w); [|discriminate|].
    + intros c w'. apply (single_gives (fun c => ReadCommand.record c <> None)), read_parse_gives.
    + unfold get, bind in *. destruct (single _ _ _ _ w) as [c w1| | |]; try exact H.
      destruct (ReadCommand.record c); exact H.
  - intros policy ops H.
    apply (unwrap_after (A := Record_) _ (fun c => ReadCommand.record c.2) ret w); [|discriminate|].
    + intros c w'. apply (single_gives (fun c => ReadCommand.record c.2 <> None)).
      intros s. apply embedded_parse_gives.
    + unfold operate, bind in *. destruct (single _ _ _ _ w) as [c w1| | |]; try exact H.
      destruct (ReadCommand.record c.2); exact H.
  - intros policy udf_name function_name args.
    apply (unwrap_after _ (fun c => ReadCommand.record c.2)).
    + intros c w'. apply (single_gives (fun c => ReadCommand.record c.2 <> None)).
      intros s. apply embedded_parse_gives.
    + intros r w'. case_bool_decide; [discriminate|].
      destruct (udf_result _); discriminate.
Qed.

End Records.

(** ** Scans and queries *)

(** Distinct names share the positions out, if every name of the list is one of
    them. *)
Lemma positions_split owners names : forall i,
  NoDup owners -> (forall name, name ∈ names -> name ∈ owners) ->
  concat ((fun owner => positions i owner names) <$> owners) ≡ₚ seqZ i (len names).
Proof.
  induction names as [|x names IH]; intros i Hd Hin.
  - clear. induction owners as [|o owners IHo]; [reflexivity|exact IHo].
  - rewrite len_cons.
    replace (seqZ i (1 + len names)) with (i :: seqZ (i + 1) (len names)).
    2: { pose proof (len_nonneg names). rewrite (seqZ_cons i (1 + len names)) by lia.
         f_equal. f_equal; lia. }
    rewrite <- (IH (i + 1) Hd) by (intros n Hn; apply Hin; right; exact Hn).
    assert (x ∈ owners) as Hx by (apply Hin; left). clear IH Hin.
    apply elem_of_Permutation in Hx as [owners' Hp]. rewrite Hp in Hd |- *.
    apply NoDup_cons in Hd as [Hx Hd]. cbn. rewrite bool_decide_true by reflexivity.
    cbn. constructor. f_equiv. f_equiv. apply reflexive_eq, list_fmap_ext. intros k o Ho.
    rewrite bool_decide_false; [reflexivity|]. intros ->. apply Hx.
    eapply list_elem_of_lookup_2, Ho.
Qed.

Section Partitions.
Context {Net : Type}.
Implicit Types w : Cluster.World Net.

Lemma node_partitions_loop_spec w node name l : forall names i,
  node_name w node = Some name ->
  Forall2 (fun id n => node_name w id = Some n) l names -> i + len l < 2 ^ 16 ->
  Cluster.node_partitions_loop node i l w = Ret (positions i name names) w.
Proof.
  induction l as [|id l IH]; intros names i Hn Hl Hi.
  - apply Forall2_nil_inv_l in Hl as ->. reflexivity.
  - apply Forall2_cons_inv_l in Hl as (n & names' & Hid & Hl & ->).
    rewrite len_cons in Hi. pose proof (len_nonneg l). cbn [Cluster.node_partitions_loop].
    rewrite (bind_Ret _ _ _ _ _ (same_node_names w node id name n Hn Hid)).
    rewrite (proj2 (Z.ltb_lt _ _)) by lia.
    rewrite (bind_Ret _ _ _ _ _ (IH names' (i + 1) Hn Hl ltac:(lia))). cbn [positions].
    rewrite (bool_decide_ext (n = name) (name = n)) by (split; congruence).
    case_bool_decide; reflexivity.
Qed.

Lemma map_m_spec {A} (f : NodeId -> M (Cluster.World Net) A) (g : NodeId -> A) w l :
  (forall node, node ∈ l -> f node w = Ret (g node) w) -> map_m f l w = Ret (g <$> l) w.
Proof.
  induction l as [|node l IH]; intros Hf; [reflexivity|]. cbn [map_m].
  rewrite (bind_Ret _ _ _ _ _ (Hf node ltac:(left))).
  rewrite (bind_Ret _ _ _ _ _ (IH ltac:(intros x Hx; apply Hf; right; exact Hx))). reflexivity.
Qed.

(** What the client knows of a namespace when its partition map is complete: the
    names of the nodes, and of the owners of the partitions. *)
Record known_namespace w (ns : bytes) (names owners : list bytes) : Prop := {
  known_nodes : Forall2 (fun id n => node_name w id = Some n)
                  (Cluster.nodes (Cluster.cluster w)) names;
  known_distinct : NoDup names;
  known_entry : exists entry,
    Cluster.partition_write_map (Cluster.cluster w) !! ns = Some entry /\
    Forall2 (fun id n => node_name w id = Some n) entry owners;
  known_complete : len owners = PARTITIONS;
  known_owners : forall name, name ∈ owners -> name ∈ names
}.

(** The partitions of a node. *)
Definition owned_by w (owners : list bytes) (node : NodeId) : list Z :=
  positions 0 (default [] (node_name w node)) owners.

Lemma node_partitions_owned w ns names owners node :
  known_namespace w ns names owners -> node ∈ Cluster.nodes (Cluster.cluster w) ->
  Cluster.node_partitions node ns w = Ret (owned_by w owners node) w.
Proof.
  intros [Hn Hd (entry & He & Ho) Hc Hin] Hnode.
  apply list_elem_of_lookup in Hnode as [i Hi].
  destruct (Forall2_lookup_l _ _ _ _ _ Hn Hi) as (name & _ & Hname).
  unfold Cluster.node_partitions, bind, Cluster.asks, owned_by. rewrite He, Hname.
  apply node_partitions_loop_spec; [exact Hname|exact Ho|].
  unfold len. rewrite (Forall2_length _ _ _ Ho). unfold len in Hc. rewrite Hc. reflexivity.
Qed.

Lemma owned_split w ns names owners :
  known_namespace w ns names owners ->
  concat (owned_by w owners <$> Cluster.nodes (Cluster.cluster w)) ≡ₚ seqZ 0 PARTITIONS.
Proof.
  intros [Hn Hd _ Hc Hin]. rewrite <- Hc, <- (positions_split names owners 0 Hd Hin).
  replace (owned_by w owners <$> Cluster.nodes (Cluster.cluster w))
    with ((fun owner => positions 0 owner owners) <$> names); [reflexivity|].
  unfold owned_by. clear -Hn. induction Hn as [|id n l names Hid _ IH]; [reflexivity|].
  cbn. rewrite IH, Hid. reflexivity.
Qed.

(** C28: a scan or a query of a namespace whose partition map is complete starts a
    command on every node, as many as its record set waits for; every partition
    is in the commands exactly once. *)
Theorem scan_covers w ns names owners :
  known_namespace w ns names owners ->
  (forall policy set_name bins random, exists commands,
     scan policy ns set_name bins random w
     = Ret (Recordset.new (sp_record_queue_size policy) (len commands) random, commands) w /\
     commands.*1 = Cluster.nodes (Cluster.cluster w) /\
     concat (sc_partitions <$> commands.*2) ≡ₚ seqZ 0 PARTITIONS) /\
  (forall policy statement random,
     Statement.namespace statement = ns -> Statement.validate statement = None ->
     exists commands,
       query policy statement random w
       = Ret (Recordset.new (qp_record_queue_size policy) (len commands) random, commands) w /\
       commands.*1 = Cluster.nodes (Cluster.cluster w) /\
       concat (qc_partitions <$> commands.*2) ≡ₚ seqZ 0 PARTITIONS).
Proof.
  intros Hk. pose proof (owned_split w ns names owners Hk) as Hall.
  pose proof (fun node => node_partitions_owned w ns names owners node Hk) as Hone.
  set (l := Cluster.nodes (Cluster.cluster w)) in *. split.
  - intros policy set_name bins random.
    set (g := fun node => (node, mkScanParams policy ns set_name bins (owned_by w owners node))).
    exists (g <$> l). split; [|split].
    + unfold scan. unfold bind at 1, Cluster.asks. fold l.
      rewrite (bind_Ret _ _ _ _ _ (map_m_spec _ g w l
        (fun node Hn => bind_Ret _ _ _ _ _ (Hone node Hn)))).
      rewrite len_map. reflexivity.
    + rewrite <- list_fmap_compose. apply list_fmap_id.
    + rewrite <- !list_fmap_compose. exact Hall.
  - intros policy statement random <- Hv.
    set (g := fun node => (node, mkQueryParams policy statement (owned_by w owners node))).
    exists (g <$> l). split; [|split].
    + unfold query, validated. rewrite Hv. unfold bind at 1, ret at 1.
      unfold bind at 1, Cluster.asks. fold l.
      rewrite (bind_Ret _ _ _ _ _ (map_m_spec _ g w l
        (fun node Hn => bind_Ret _ _ _ _ _ (Hone node Hn)))).
      rewrite len_map. reflexivity.
    + rewrite <- list_fmap_compose. apply list_fmap_id.
    + rewrite <- !list_fmap_compose. exact Hall.
Qed.

End Partitions.

(** Without a node nobody ends the iteration over the record set. *)
Lemma empty_scan_never_ends size random :
  Recordset.run Recordset.next_turn (Recordset.new size 0 random)
  = (inr tt, Recordset.new size 0 random).
Proof. reflexivity. Qed.

(** ** Info commands *)

Section Info.
Context `{BO : ByteOrder} `{CL : Clock} `{DI : Dialer Net} `{HO : HashOrder}.

Lemma first_value_singleton k v :
  (forall (m : gmap bytes bytes), entries m ≡ₚ map_to_list m) ->
  first_value {[ k := v ]} = Some v.
Proof.
  intros Ho. unfold first_value. specialize (Ho {[ k := v ]}).
  rewrite map_to_list_singleton in Ho. apply Permutation_singleton_r in Ho as ->. reflexivity.
Qed.

(** The world after the connection went back to its queue. *)
Definition returned (node : NodeId) (queue : nat) (c : Connection) : M (Cluster.World Net) unit :=
  Cluster.on_node node
    (Node.with_pool (ConnectionPool.drop (ConnectionPool.mkPooledConnection queue (Some c)))).

(** Two methods of a node in a row. *)
Lemma on_node_bind {A B} node (m : M (Node * Node.Shared Net) A)
    (k : A -> M (Node * Node.Shared Net) B) w n a n' sh' :
  Cluster.heap w !! node = Some n -> m (n, Cluster.shared w) = Ret a (n', sh') ->
  Cluster.on_node node (bind m k) w
  = Cluster.on_node node (k a)
      (Cluster.mkWorld (Cluster.cluster w) (<[node := n']> (Cluster.heap w)) sh' (Cluster.ticks w)).
Proof.
  intros Hn Hm. unfold Cluster.on_node, bind. cbn. rewrite Hn, Hm.
  rewrite list_lookup_insert_eq by (eapply lookup_lt_Some, Hn).
  destruct (k a (n', sh')) as [b [n2 sh2]|e [n2 sh2]| |]; try reflexivity;
    rewrite list_insert_insert_eq; reflexivity.
Qed.

Lemma on_node_ret {A B} node (m : M (Node * Node.Shared Net) A) (b : B) w :
  Cluster.on_node node (m ;;; ret b) w = (Cluster.on_node node m ;;; ret b) w.
Proof.
  unfold Cluster.on_node, bind. destruct (Cluster.heap w !! node) as [n|]; [|reflexivity].
  destruct (m _) as [a [n2 sh2]|e [n2 sh2]| |]; reflexivity.
Qed.

Lemma on_node_proper {A} node (m1 m2 : M (Node * Node.Shared Net) A) w :
  m1 ≈ m2 -> Cluster.on_node node m1 w = Cluster.on_node node m2 w.
Proof.
  intros H. unfold Cluster.on_node. destruct (Cluster.heap w !! node); [|reflexivity].
  rewrite (H (_, _)). reflexivity.
Qed.

(** C30: an info command goes to an active node as one line, on a connection that
    goes back to the pool with exactly the answer taken; the outcome is the verdict
    of the answer: success for [OK] in any case, the code after [FAIL:], or an
    error. *)
Theorem info_command policy cmd answer newlines v t rest node w w1 n n' sh' queue c :
  let timeout := base_timeout (wp_base_policy policy) in
  let text := response_text [(cmd, answer)] newlines in
  (forall (m : gmap bytes bytes), entries m ≡ₚ map_to_list m) ->
  Cluster.get_random_node w = Ret node w1 ->
  Cluster.heap w1 !! node = Some n ->
  Node.get_connection timeout (n, Cluster.shared w1)
  = Ret (ConnectionPool.mkPooledConnection queue (Some c)) (n', sh') ->
  Connection.incoming (Connection.conn c) = info_message v t text ++ rest ->
  plain cmd -> plain answer -> utf8_valid text = true ->
  len text <= MAX_BUFFER_SIZE -> len cmd + 9 <= Connection.accepts (Connection.conn c) ->
  len cmd + 1 < 2 ^ 64 ->
  exists c',
    Connection.incoming (Connection.conn c') = rest /\
    Connection.outgoing (Connection.conn c')
    = Connection.outgoing (Connection.conn c) ++ info_message 2 1 (cmd ++ [newline]) /\
    send_info_cmd cmd policy w
    = (returned node queue c' ;;;
       match info_verdict (Some answer) with inl _ => ret tt | inr e => throw e end)
        (Cluster.mkWorld (Cluster.cluster w1) (<[node := n']> (Cluster.heap w1)) sh'
           (Cluster.ticks w1)).
Proof.
  intros timeout text Ho Hr Hn Hg Hi Hpc Hpa Hu Ht Ha Hl.
  assert (Forall (fun e => plain e.1 /\ plain e.2) [(cmd, answer)]) as Hp
    by (constructor; [split; assumption|constructor]).
  destruct (info_spec [cmd] [(cmd, answer)] newlines v t rest c Hi ltac:(discriminate) Hp Hu Ht)
    as (c' & E & Hi' & Ho').
  { change (Text.join newline [cmd]) with cmd. rewrite len_app. exact Hl. }
  { change (Text.join newline [cmd]) with cmd. rewrite len_app. change (len [newline]) with 1. lia. }
  exists c'. split; [exact Hi'|]. split; [exact Ho'|].
  unfold send_info_cmd, ask_random_node. unfold bind at 1. unfold bind at 1. rewrite Hr.
  fold timeout. unfold Node.info.
  rewrite (on_node_bind _ _ _ _ _ _ _ _ Hn Hg).
  set (w2 := Cluster.mkWorld _ _ _ _).
  rewrite (on_node_proper node _ (Node.with_pool (ConnectionPool.drop
    (ConnectionPool.mkPooledConnection queue (Some c'))) ;;; ret (entries_map [(cmd, answer)]))).
  2: { intros s. unfold Node.on_pooled. cbn [ConnectionPool.conn ConnectionPool.queue].
       rewrite E. reflexivity. }
  rewrite on_node_ret. fold (returned node queue c'). unfold bind.
  destruct (returned node queue c' w2) as [[] w3|e w3| |]; try reflexivity.
  cbn [ret]. change (entries_map [(cmd, answer)]) with ({[cmd := answer]} : gmap bytes bytes).
  rewrite first_value_singleton by exact Ho. reflexivity.
Qed.

End Info.

(** ** Concrete operations *)

Definition list_order : HashOrder := {| entries := fun V m => map_to_list m |}.

Section Example.
#[local] Existing Instance byteorder_model.
#[local] Existing Instance valuefmt_model.
#[local] Existing Instance clock_model.
#[local] Existing Instance silent_dialer.
#[local] Existing Instance list_order.

(** A digest that is too short has no partition. *)
Lemma records_are_there_witness :
  let key := mkKey (str "test") [] None [1; 2] in
  single 4 BasePolicy_default key (ReadCommand.new BasePolicy_default key Bins.All)
    (sample_world 0 0 []) = Panic.
Proof.
  intros key.
  destruct (records_are_there 4 key (sample_world 0 0 [])) as [H _].
  apply H. vm_compute. reflexivity.
Defined.

(** Two nodes that take turns. *)
Definition two_nodes : Cluster.World unit :=
  let named name := Node.mkNode ClientPolicy_default name sample_host [] []
    (ConnectionPool.mkConnectionPool 1 [] 0) 0 0 0 0 true true true true in
  Cluster.mkWorld
    (Cluster.mkCluster [] ∅ [0; 1]%nat
       {[ str "test" := (fun i => Nat.modulo i 2) <$> seq 0 4096 ]} 0 ClientPolicy_default false)
    [named (str "A"); named (str "B")] ([], tt) 0.

Lemma two_nodes_known :
  known_namespace two_nodes (str "test") [str "A"; str "B"]
    ((fun i => if Nat.even i then str "A" else str "B") <$> seq 0 4096).
Proof.
  split.
  - repeat constructor.
  - apply (bool_decide_unpack _). vm_compute. exact I.
  - exists ((fun i => Nat.modulo i 2) <$> seq 0 4096). split; [reflexivity|].
    apply Forall2_fmap. generalize (seq 0 4096) as l.
    induction l as [|i l IH]; constructor; [|exact IH].
    destruct (Nat.even i) eqn:He.
    + apply Nat.even_spec in He as [k ->]. rewrite Nat.mul_comm, Nat.Div0.mod_mul. reflexivity.
    + assert (Nat.odd i = true) as Ho by (rewrite <- Nat.negb_even, He; reflexivity).
      apply Nat.odd_spec in Ho as [k ->].
      rewrite (Nat.add_comm (2 * k)), (Nat.mul_comm 2), Nat.Div0.mod_add. reflexivity.
  - vm_compute. reflexivity.
  - intros name (i & -> & _)%list_elem_of_fmap. destruct (Nat.even i); set_solver.
Qed.

Lemma scan_covers_witness :
  exists commands,
    scan ScanPolicy_default (str "test") (str "s") Bins.All 7 two_nodes
    = Ret (Recordset.new 1024 (len commands) 7, commands) two_nodes /\
    concat (sc_partitions <$> commands.*2) ≡ₚ seqZ 0 4096.
Proof.
  destruct (scan_covers two_nodes (str "test") _ _ two_nodes_known) as [H _].
  destruct (H ScanPolicy_default (str "s") Bins.All 7) as (commands & E & _ & Hp).
  exists commands. split; [exact E|exact Hp].
Defined.

(** The index is created, and the pool has its connection again. *)
Lemma info_command_witness :
  let cmd := str "sindex-delete:ns=test;indexname=i" in
  let stream := info_message 2 1 (response_text [(cmd, str "OK")] 1) ++ [9] in
  exists c' w',
    Connection.incoming (Connection.conn c') = [9] /\
    send_info_cmd cmd WritePolicy_default (sample_world 0 0 [sample_conn stream])
    = Ret tt w' /\ world_out w' = 0.
Proof.
  intros cmd stream.
  set (idle := sample_conn stream).
  set (c := default idle (Connection.set_timeout (base_timeout (wp_base_policy WritePolicy_default)) idle)).
  destruct (Node.get_connection (base_timeout (wp_base_policy WritePolicy_default))
    (sample_node, Cluster.shared (sample_world 1 0 [idle]))) as [pc [n' sh']|? ?| |] eqn:Hg;
    [|vm_compute in Hg; discriminate Hg..].
  assert (pc = ConnectionPool.mkPooledConnection 0 (Some c) /\ (n', sh')
    = (sample_node, Cluster.shared (sample_world 1 0 []))) as [-> [= -> ->]].
  { vm_compute in Hg. injection Hg as <- <- <-. split; vm_compute; reflexivity. }
  destruct (info_command WritePolicy_default cmd (str "OK") 1 2 1 [9] 0
    (sample_world 0 0 [idle]) (sample_world 1 0 [idle]) sample_node sample_node
    (Cluster.shared (sample_world 1 0 [])) 0 c) as (c' & Hi & _ & E).
  - intros m. reflexivity.
  - vm_compute. reflexivity.
  - reflexivity.
  - exact Hg.
  - vm_compute. reflexivity.
  - split; apply (bool_decide_unpack _); vm_compute; exact I.
  - split; apply (bool_decide_unpack _); vm_compute; exact I.
  - vm_compute. reflexivity.
  - vm_compute. discriminate.
  - vm_compute. discriminate.
  - vm_compute. reflexivity.
  - exists c'. eexists. split; [exact Hi|]. split; [rewrite E; reflexivity|reflexivity].
Defined.

End Example.
