(* ===== verification/ScanFacts.v ===== *)
(** * The threads of a scan are producers of its record set

    [RecordsetFacts] has the record set and its threads as a transition system;
    [Streams] and [Client] have the code of a thread.  [thread_refines]: whatever
    a node answers, and whatever other threads do to the record set in between,
    the accesses of the thread of a scan or a query are those of a producer, from
    the start to the end.  [scan_end_to_end], [query_end_to_end]: a thread whose
    node answers well produces exactly the records of the response.
    [failed_scan_looks_complete]: one whose node fails looks the same to the
    consumer as one that has no records. *)

From stdpp Require Import base list strings gmap relations.
From Stdlib Require Import ZArith Lia.
From S2P Require Import Prelude ResultCodes Monad Invariants ByteOrder Slices Wire Buffer.
From S2P Require Import Values Expressions Operations Policy Records Connection Statements.
From S2P Require Import Commands Queries Responses Recordset Streams Execute ExecuteFacts.
From S2P Require Import ConnectionFacts ResponseFacts StreamFacts RecordsetFacts ResponseTotality.
From S2P Require Import Hosts ClientPolicy ConnectionPool PoolFacts Nodes Cluster ClusterExecute.
From S2P Require Import CommandFacts QueryFacts EndToEnd BatchExecutor Client.
Import Connection.

#[local] Open Scope Z_scope.
#[local] Open Scope m_scope.

(** ** The protocol of a producer *)

Section Protocol.
Context `{IN : Interference}.

(** A producer and the others: it makes an access, or they do. *)
Inductive moves : Recordset * producer -> Recordset * producer -> Prop :=
| moves_own r p r' p' ls ds : produce r p r' p' ls ds -> moves (r, p) (r', p')
| moves_others n r p : moves (r, p) (interfere n r, p).

Abbreviation path := (rtc moves).

(** The thread pushed the records [todo], and is about to go on. *)
Definition pushes (todo : list Record_) (r r' : Recordset) : Prop :=
  forall todo' err, path (r, Ready (todo ++ todo') err) (r', Ready todo' err).

(** It pushed the records [todo] and tried to push an error, which ends it. *)
Definition fails (r r' : Recordset) : Prop :=
  exists todo e, path (r, Ready todo (Some e)) (r', Ending).

(** It goes on, or has failed. *)
Definition went (r r' : Recordset) : Prop :=
  (exists todo, pushes todo r r') \/ fails r r'.

Lemma pushes_refl r : pushes [] r r.
Proof. intros todo err. constructor. Qed.

Lemma pushes_trans todo1 todo2 r1 r2 r3 :
  pushes todo1 r1 r2 -> pushes todo2 r2 r3 -> pushes (todo1 ++ todo2) r1 r3.
Proof.
  intros H1 H2 todo err. rewrite <- (assoc_L (++)). etrans; [apply H1|apply H2].
Qed.

Lemma pushes_fails todo r1 r2 r3 : pushes todo r1 r2 -> fails r2 r3 -> fails r1 r3.
Proof.
  intros H1 (todo' & e & H2). exists (todo ++ todo'), e. etrans; [apply H1|exact H2].
Qed.

Lemma pushes_went todo r1 r2 r3 : pushes todo r1 r2 -> went r2 r3 -> went r1 r3.
Proof.
  intros H [[todo' H']|H'].
  - left. exists (todo ++ todo'). eapply pushes_trans; eassumption.
  - right. eapply pushes_fails; eassumption.
Qed.

Lemma pushes_others n r : pushes [] r (interfere n r).
Proof. intros todo err. apply rtc_once, moves_others. Qed.

End Protocol.

(** ** A thread makes the accesses of a producer *)

Section Thread.
Context `{BO : ByteOrder} `{VF : ValueFmt} `{CL : Clock} `{IN : Interference}.

Abbreviation path := (rtc moves).
Abbreviation set_of := StreamCommand.recordset.

Lemma is_active_pushes s :
  exists r, StreamCommand.is_active s
            = Ret (Recordset.is_active r) (StreamCommand.mkStreamCommand r (S (StreamCommand.accesses s))) /\
            pushes [] (set_of s) r.
Proof. eexists. split; [reflexivity|]. apply pushes_others. Qed.

(** The accesses of a [push], and where they leave the producer. *)
Lemma push_path x s : exists back s',
  StreamCommand.perform (Recordset.push x) s = Ret back s' /\
  forall todo err,
    path (set_of s, Trying x todo err)
      (set_of s', match back with
                  | None => proceed x todo err
                  | Some (inl rec) => Trying (inl rec) todo err
                  | Some (inr _) => Ending
                  end) /\
    match back with Some y => y = x | None => True end.
Proof.
  cbn [Recordset.push StreamCommand.perform].
  unfold bind at 1, StreamCommand.access at 1, Recordset.enter.
  set (r := interfere (StreamCommand.accesses s) (set_of s)).
  destruct (Z.ltb_spec (Recordset.record_queue_count r) (Recordset.record_queue_size r)) as [H|H];
    cbn [StreamCommand.perform]; unfold bind at 1, StreamCommand.access at 1;
    eexists _, _; (split; [reflexivity|]); intros todo err; (split; [|exact I || reflexivity]);
    (eapply rtc_l; [apply (moves_others (StreamCommand.accesses s))|]); fold r.
  - eapply rtc_l; [eapply moves_own, produce_enter, H|].
    eapply rtc_l; [apply (moves_others (S (StreamCommand.accesses s)))|].
    apply rtc_once. eapply moves_own, produce_push.
  - eapply rtc_l; [eapply moves_own, produce_refuse, H|].
    eapply rtc_l; [apply (moves_others (S (StreamCommand.accesses s)))|].
    apply rtc_once. destruct x; eapply moves_own; [apply produce_retry|apply produce_lose].
Qed.

(** Pushing a record, until there is room. *)
Lemma push_record_path fuel rec : forall s,
  match StreamCommand.push_record fuel rec s with
  | Ret _ s' => forall todo err,
      path (set_of s, Trying (inl rec) todo err) (set_of s', Ready todo err)
  | NoFuel => True
  | _ => False
  end.
Proof.
  induction fuel as [|fuel IH]; intros s; [exact I|]. cbn [StreamCommand.push_record].
  destruct (push_path (inl rec) s) as (back & s1 & E & Hp). unfold bind at 1. rewrite E.
  destruct back as [y|].
  - destruct (Hp [] None) as [_ ->]. specialize (IH s1).
    destruct (StreamCommand.push_record fuel rec s1) as [u s'| | |]; try exact IH.
    intros todo err. etrans; [apply Hp|apply IH].
  - intros todo err. apply Hp.
Qed.

(** Pushing an error, which is lost when the queue is full. *)
Lemma push_error_path e s :
  match StreamCommand.perform (Recordset.push (inr e)) s with
  | Ret _ s' => path (set_of s, Trying (inr e) [] None) (set_of s', Ending)
  | _ => False
  end.
Proof.
  destruct (push_path (inr e) s) as (back & s1 & E & Hp). rewrite E.
  destruct (Hp [] None) as [H Hy]. destruct back as [y|]; [subst y|]; exact H.
Qed.

(** What a part of the parser does to the record set; [goes] says of which results
    the parser goes on, so that it has not failed. *)
Definition protocol {A} (goes : A -> bool) (m : M (StreamCommand * Connection) A)
    (s : StreamCommand * Connection) : Prop :=
  match m s with
  | Ret a s' => if goes a then exists todo, pushes todo (set_of s.1) (set_of s'.1)
                else went (set_of s.1) (set_of s'.1)
  | Throw _ s' => went (set_of s.1) (set_of s'.1)
  | _ => True
  end.

(** Going on after some pushes. *)
Lemma protocol_after {A B} goes (m : M (StreamCommand * Connection) A)
    (k : A -> M (StreamCommand * Connection) B) s a s1 todo :
  m s = Ret a s1 -> pushes todo (set_of s.1) (set_of s1.1) -> protocol goes (k a) s1 ->
  protocol goes (bind m k) s.
Proof.
  unfold protocol, bind. intros -> Hp. destruct (k a s1) as [b s2|e s2| |]; auto;
    [|apply (pushes_went _ _ _ _ Hp)].
  destruct (goes b); [|apply (pushes_went _ _ _ _ Hp)].
  intros [todo' H']. exists (todo ++ todo'). eapply pushes_trans; eassumption.
Qed.

Lemma protocol_ret {A} goes (a : A) s : protocol goes (ret a) s.
Proof.
  unfold protocol. cbn. destruct (goes a); [|left]; exists []; apply pushes_refl.
Qed.

(** The connection is the thread's own. *)
Lemma protocol_conn {A B} goes (m : M Connection A)
    (k : A -> M (StreamCommand * Connection) B) s c :
  (forall a c', protocol goes (k a) (s, c')) -> protocol goes (bind (on_snd m) k) (s, c).
Proof.
  intros Hk. destruct (m c) as [a c'|e c'| |] eqn:E.
  - eapply (protocol_after _ _ _ _ a (s, c')); [unfold on_snd; cbn; rewrite E; reflexivity| |apply Hk].
    apply pushes_refl.
  - unfold protocol, bind, on_snd. cbn. rewrite E. left. exists []. apply pushes_refl.
  - unfold protocol, bind, on_snd. cbn. rewrite E. exact I.
  - unfold protocol, bind, on_snd. cbn. rewrite E. exact I.
Qed.

(** A record that was parsed while the set was active is pushed. *)
Lemma protocol_push {B} goes fuel rec (k : unit -> M (StreamCommand * Connection) B) s c :
  Recordset.is_active (set_of s) = true ->
  (forall s', protocol goes (k tt) (s', c)) ->
  protocol goes (bind (on_fst (StreamCommand.push_record fuel rec)) k) (s, c).
Proof.
  intros Ha Hk. pose proof (push_record_path fuel rec s) as Hp.
  destruct (StreamCommand.push_record fuel rec s) as [[] s'|e s'| |] eqn:E; [|contradiction|..].
  - eapply (protocol_after _ _ _ _ tt (s', c) [rec]);
      [unfold on_fst; cbn; rewrite E; reflexivity| |apply Hk].
    intros todo err. cbn. eapply rtc_l; [eapply moves_own, produce_record, Ha|apply Hp].
  - unfold protocol, bind, on_fst. cbn. rewrite E. exact I.
  - unfold protocol, bind, on_fst. cbn. rewrite E. exact I.
Qed.

Lemma protocol_error e s c :
  Recordset.is_active (set_of s) = true ->
  protocol id (on_fst (StreamCommand.perform (Recordset.push (inr e))) ;;; ret false) (s, c).
Proof.
  intros Ha. pose proof (push_error_path e s) as Hp. unfold protocol, bind, on_fst. cbn [fst snd].
  destruct (StreamCommand.perform (Recordset.push (inr e)) s) as [o s'|e' s'| |];
    try contradiction.
  right. exists [], e. eapply rtc_l; [eapply moves_own, produce_error, Ha|exact Hp].
Qed.

(** [parse_stream] goes on exactly when it returns [true]. *)
Lemma parse_stream_protocol fuel : forall size s, protocol id (StreamCommand.parse_stream fuel size) s.
Proof.
  induction fuel as [|fuel IH]; intros size [s c]; [exact I|].
  cbn [StreamCommand.parse_stream].
  destruct (is_active_pushes s) as (r & E & Hp).
  eapply (protocol_after _ _ _ _ _ (_, c)); [unfold on_fst; cbn [fst snd]; rewrite E; reflexivity|exact Hp|].
  apply protocol_conn. intros c0 c1.
  destruct (Recordset.is_active r) eqn:Ha; [|apply protocol_ret]. cbn [andb].
  destruct (_ <? size); [|apply protocol_ret].
  apply protocol_conn. intros _ c2. apply protocol_conn. intros [[[rec|] [|]]|e] c3;
    try (apply IH || apply protocol_ret); try (apply protocol_push; [exact Ha|intros s'; apply IH]).
  apply protocol_error, Ha.
Qed.

Lemma parse_result_protocol fuel : forall s,
  match StreamCommand.parse_result fuel s with
  | Ret _ s' | Throw _ s' => went (set_of s.1) (set_of s'.1)
  | _ => True
  end.
Proof.
  intros s. change (protocol (fun _ => false) (StreamCommand.parse_result fuel) s).
  revert s. induction fuel as [|fuel IH]; intros [s c]; [exact I|].
  cbn [StreamCommand.parse_result]. apply protocol_conn. intros _ c1.
  apply protocol_conn. intros size c2. apply protocol_conn. intros _ c3.
  match goal with |- protocol _ (bind ?m ?k) _ => set (m0 := m) end.
  assert (protocol id m0 (s, c3)) as Hm.
  { unfold m0. destruct (0 <? size); [apply parse_stream_protocol|apply protocol_ret]. }
  unfold protocol, bind in Hm |- *.
  destruct (m0 (s, c3)) as [[|] s1|e s1| |]; try exact I; try exact Hm.
  destruct Hm as [todo Hp]. specialize (IH s1). unfold protocol in IH.
  destruct (StreamCommand.parse_result fuel s1); try exact I;
    eapply pushes_went; eassumption.
Qed.

(** ** The records of a response *)

Section Feeds.
Hypothesis nobody_closes : forall n r, Recordset.is_active (interfere n r) = true.

(** [m] ends with [a] at the view [w] and pushes [todo], if it is not kept waiting
    for room. *)
Definition feeds_at {A} (m : M (StreamCommand * Connection) A) (todo : list Record_)
    (s : StreamCommand * Connection) (a : A) (w : view) : Prop :=
  match m s with
  | Ret b s' =>
      b = a /\ pushes todo (set_of s.1) (set_of s'.1) /\ at_view s'.2 w /\ quiet s.2 s'.2
  | NoFuel => True
  | _ => False
  end.

Definition feeds {A} (m : M (StreamCommand * Connection) A) (todo : list Record_)
    (w : view) (a : A) (w' : view) : Prop :=
  forall s c, at_view c w -> feeds_at m todo (s, c) a w'.

Lemma feeds_at_bind {A B} (m : M (StreamCommand * Connection) A)
    (k : A -> M (StreamCommand * Connection) B) todo1 todo2 s w1 w2 a b :
  feeds_at m todo1 s a w1 -> feeds (k a) todo2 w1 b w2 ->
  feeds_at (bind m k) (todo1 ++ todo2) s b w2.
Proof.
  unfold feeds_at, bind. intros H1 H2.
  destruct (m s) as [a' [s1 c1]|e s1| |]; auto. destruct H1 as (-> & Hp1 & Hc1 & Hq1).
  specialize (H2 s1 c1 Hc1). unfold feeds_at in H2.
  destruct (k a (s1, c1)) as [b' [s2 c2]|e s2| |]; auto.
  destruct H2 as (-> & Hp2 & Hc2 & Hq2). split; [reflexivity|].
  split; [eapply pushes_trans; eassumption|]. split; [exact Hc2|].
  apply (quiet_trans s.2 c1 c2); assumption.
Qed.

Lemma feeds_bind {A B} (m : M (StreamCommand * Connection) A)
    (k : A -> M (StreamCommand * Connection) B) todo1 todo2 w1 w2 w3 a b :
  feeds m todo1 w1 a w2 -> feeds (k a) todo2 w2 b w3 ->
  feeds (bind m k) (todo1 ++ todo2) w1 b w3.
Proof. intros H1 H2 s c Hc. eapply feeds_at_bind; [apply H1, Hc|exact H2]. Qed.

(** Work on the connection leaves the record set alone. *)
Lemma feeds_conn {A B} (m : M Connection A) (k : A -> M (StreamCommand * Connection) B)
    todo s c w a w' b w'' :
  runs m w (inl a) w' -> at_view c w ->
  (forall c', at_view c' w' -> feeds_at (k a) todo (s, c') b w'') ->
  feeds_at (bind (on_snd m) k) todo (s, c) b w''.
Proof.
  intros Hm Hc Hk. destruct (Hm c Hc) as (c' & E & Hc' & Hq). specialize (Hk c' Hc').
  unfold feeds_at, bind, on_snd in *. cbn [fst snd]. rewrite E. cbn [ends].
  destruct (k a (s, c')) as [b' [s2 c2]|e s2| |]; auto.
  destruct Hk as (-> & Hp & Hc2 & Hq2). split; [reflexivity|]. split; [exact Hp|].
  split; [exact Hc2|]. apply (quiet_trans c c' c2); assumption.
Qed.

Lemma feeds_ret {A} (a : A) s c w : at_view c w -> feeds_at (ret a) [] (s, c) a w.
Proof.
  intros Hc. split; [reflexivity|]. split; [apply pushes_refl|]. split; [exact Hc|split; reflexivity].
Qed.

Lemma feeds_any {A} (m : M (StreamCommand * Connection) A) todo b inc n a w' :
  feeds m todo (View None inc n) a w' -> feeds m todo (View b inc n) a w'.
Proof. intros H s c Hc. apply H. split; [exact I|apply Hc]. Qed.

(** The test of the loop: the set is active. *)
Lemma feeds_test {A} (k : bool -> Connection -> M (StreamCommand * Connection) A) todo w a w' :
  (forall s c, bytes_read c = v_read w -> Recordset.is_active (set_of s) = true ->
     at_view c w -> feeds_at (k true c) todo (s, c) a w') ->
  feeds (let! b := on_fst StreamCommand.is_active in let! c := on_snd get in k b c) todo w a w'.
Proof.
  intros H s c Hc. destruct (is_active_pushes s) as (r & E & Hp).
  assert (r = interfere (StreamCommand.accesses s) (set_of s)) as Hr
    by (unfold StreamCommand.is_active, StreamCommand.access in E; congruence).
  assert (Recordset.is_active r = true) as Ha by (rewrite Hr; apply nobody_closes).
  specialize (H (StreamCommand.mkStreamCommand r (S (StreamCommand.accesses s))) c
    (proj2 (proj2 Hc)) Ha Hc).
  unfold feeds_at, bind, on_fst, on_snd in *. cbn [fst snd] in *. rewrite E. cbn [get fst snd].
  rewrite Ha. destruct (k true c _) as [b [s' c']|e s'| |]; auto. destruct H as (-> & Hp' & H).
  split; [reflexivity|]. split; [|exact H]. apply (pushes_trans [] todo _ r); assumption.
Qed.

Lemma feeds_push f rec s c w :
  Recordset.is_active (set_of s) = true -> at_view c w ->
  feeds_at (on_fst (StreamCommand.push_record f rec)) [rec] (s, c) tt w.
Proof.
  intros Ha Hc. pose proof (push_record_path f rec s) as Hp. unfold feeds_at, on_fst. cbn [fst snd].
  destruct (StreamCommand.push_record f rec s) as [[] s'|e s'| |]; auto.
  split; [reflexivity|]. split; [|split; [exact Hc|split; reflexivity]].
  intros todo err. cbn. eapply rtc_l; [eapply moves_own, produce_record, Ha|apply Hp].
Qed.

(** The records among the messages, in order. *)
Definition found (ms : list StreamMessage) : list Record_ :=
  message_record <$> filter (fun m => done_partition m = false) ms.

Lemma found_cons m ms : found (m :: ms) = found [m] ++ found ms.
Proof.
  unfold found. cbn [filter list_filter]. unfold decide. destruct (done_partition m); reflexivity.
Qed.

Lemma found_one m : found [m] = if done_partition m then [] else [message_record m].
Proof. unfold found. cbn [filter list_filter]. unfold decide. destruct (done_partition m); reflexivity. Qed.

Lemma feed_message f size m b inc n todo a w' :
  stream_ok m -> n < size ->
  feeds (StreamCommand.parse_stream f size) todo (View None inc (n + len (message_bytes m))) a w' ->
  feeds (StreamCommand.parse_stream (S f) size) (found [m] ++ todo)
    (View b (message_bytes m ++ inc) n) a w'.
Proof.
  intros Hm Hn H. cbn [StreamCommand.parse_stream].
  apply feeds_test. intros s c -> Ha Hc. cbn [v_read]. decide_tests. cbn [andb].
  unfold message_bytes in Hc. rewrite <- (assoc_L (++)) in Hc.
  eapply feeds_conn; [apply (runs_read_buffer b (header_bytes (sm_header m)));
    [apply len_header_bytes|unfold MAX_BUFFER_SIZE, MSG_REMAINING_HEADER_SIZE; lia]|exact Hc|].
  intros c1 Hc1. eapply feeds_conn; [apply runs_catch, stream_parse_record_runs, Hm|exact Hc1|].
  intros c2 Hc2. cbv beta iota. rewrite <- Z.add_assoc, <- len_message in Hc2.
  rewrite found_one. destruct (done_partition m); [apply H, Hc2|].
  eapply (feeds_at_bind _ _ [_] todo _ _ _ tt); [|exact H].
  apply feeds_push; [exact Ha|exact Hc2].
Qed.

Lemma feed_messages size ms : forall f b inc n todo a w',
  Forall stream_ok ms -> n + len (concat (message_bytes <$> ms)) <= size ->
  (forall f', feeds (StreamCommand.parse_stream f' size) todo
     (View None inc (n + len (concat (message_bytes <$> ms)))) a w') ->
  feeds (StreamCommand.parse_stream f size) (found ms ++ todo)
    (View b (concat (message_bytes <$> ms) ++ inc) n) a w'.
Proof.
  induction ms as [|m ms IH]; intros f b inc n todo a w' Hok Hs H.
  - cbn in *. rewrite Z.add_0_r in H. apply feeds_any, H.
  - inversion_clear Hok as [|? ? Hm Hms]. rewrite found_cons, <- (assoc_L (++)).
    cbn [fmap list_fmap concat] in *. rewrite len_app in Hs, H.
    pose proof (len_message_pos m). pose proof (len_nonneg (concat (message_bytes <$> ms))).
    destruct f as [|f]; [intros s c _; exact I|]. rewrite <- (assoc_L (++)).
    apply feed_message; [exact Hm|lia|]. apply IH; [exact Hms|lia|].
    rewrite <- Z.add_assoc. exact H.
Qed.

Lemma feed_end f size b inc :
  feeds (StreamCommand.parse_stream f size) [] (View b inc size) true (View b inc size).
Proof.
  destruct f as [|f]; [intros s c _; exact I|]. cbn [StreamCommand.parse_stream].
  apply feeds_test. intros s c -> _ Hc. cbn [v_read andb]. rewrite Z.ltb_irrefl.
  apply feeds_ret, Hc.
Qed.

Lemma feed_last f size h b inc n :
  last_header h -> n < size ->
  feeds (StreamCommand.parse_stream f size) [] (View b (header_bytes h ++ inc) n) false
    (View (Some ([], header_bytes h)) inc (n + MSG_REMAINING_HEADER_SIZE)).
Proof.
  intros Hh Hn. destruct f as [|f]; [intros s c _; exact I|]. cbn [StreamCommand.parse_stream].
  apply feeds_test. intros s c -> _ Hc. cbn [v_read]. decide_tests. cbn [andb].
  eapply feeds_conn; [apply (runs_read_buffer b (header_bytes h)); [apply len_header_bytes|
    unfold MAX_BUFFER_SIZE, MSG_REMAINING_HEADER_SIZE; lia]|exact Hc|].
  intros c1 Hc1. eapply feeds_conn; [apply runs_catch, last_record_runs, Hh|exact Hc1|].
  intros c2 Hc2. apply feeds_ret, Hc2.
Qed.

(** The head of a group. *)
Lemma feed_group f v t size b inc n todo w' :
  in_u 48 size -> 0 < size ->
  (forall f', feeds (let! status := StreamCommand.parse_stream f' size in
           if status then StreamCommand.parse_result f' else ret tt)
    todo (View (Some (proto v t size, [])) inc 0) tt w') ->
  feeds (StreamCommand.parse_result f) todo (View b (proto v t size ++ inc) n) tt w'.
Proof.
  intros Hs Hp H. destruct f as [|f]; [intros s c _; exact I|].
  cbn [StreamCommand.parse_result]. intros s c Hc.
  eapply feeds_conn; [apply (runs_read_buffer b (proto v t size)); [apply len_proto|
    unfold MAX_BUFFER_SIZE; lia]|exact Hc|].
  intros c1 Hc1. eapply feeds_conn; [apply group_head_runs, Hs|exact Hc1|].
  intros c2 Hc2. eapply feeds_conn; [apply bookmark_runs|exact Hc2|].
  intros c3 Hc3. decide_tests. apply H, Hc3.
Qed.

Lemma feed_groups gs : forall f b inc n todo w',
  Forall group_ok gs ->
  (forall f' n', feeds (StreamCommand.parse_result f') todo (View None inc n') tt w') ->
  feeds (StreamCommand.parse_result f) (concat ((fun g => found g.2) <$> gs) ++ todo)
    (View b (concat (group_bytes <$> gs) ++ inc) n) tt w'.
Proof.
  induction gs as [|g gs IH]; intros f b inc n todo w' Hok H; [apply feeds_any, H|].
  inversion_clear Hok as [|? ? Hg Hgs].
  destruct (group_size g Hg) as [Hsz Hpos]. destruct Hg as (Hms & _ & _).
  destruct g as [[v t] ms]. cbn [group_bytes fmap list_fmap concat fst snd] in *.
  rewrite <- !(assoc_L (++)). apply feed_group; [exact Hsz|exact Hpos|]. intros f'.
  rewrite <- (app_nil_r (found ms)), <- (assoc_L (++)), (assoc_L (++)).
  eapply feeds_bind.
  - apply feed_messages; [exact Hms|lia|]. intros f''. rewrite Z.add_0_l. apply feed_end.
  - apply IH; [exact Hgs|exact H].
Qed.

(** A well-formed response under any interference that leaves the set open. *)
Lemma feed_response f s (c : Connection) gs v t ms h rest :
  let last := concat (message_bytes <$> ms) ++ header_bytes h in
  Forall group_ok gs -> Forall stream_ok ms -> last_header h -> len last < 2 ^ 48 ->
  incoming (conn c)
  = concat (group_bytes <$> gs) ++ proto v t (len last) ++ last ++ rest ->
  match StreamCommand.parse_result f (s, c) with
  | Ret _ (s', c') =>
      pushes (concat ((fun g => found g.2) <$> gs) ++ found ms) (set_of s) (set_of s') /\
      incoming (conn c') = rest /\ quiet c c'
  | NoFuel => True
  | _ => False
  end.
Proof.
  intros last Hgs Hms Hh Hl Hi. pose proof (len_nonneg (concat (message_bytes <$> ms))).
  assert (len last = len (concat (message_bytes <$> ms)) + 22) as Hlast
    by (subst last; rewrite len_app, len_header_bytes; reflexivity).
  assert (feeds (StreamCommand.parse_result f)
    (concat ((fun g => found g.2) <$> gs) ++ (found ms ++ []) ++ [])
    (View None (incoming (conn c)) (bytes_read c)) tt
    (View (Some ([], header_bytes h)) rest (len (concat (message_bytes <$> ms)) + 22))) as Hf.
  { rewrite Hi. apply feed_groups; [exact Hgs|]. intros f' n'.
    apply feed_group; [apply in_u_len, Hl|lia|]. intros f''.
    eapply (feeds_bind _ _ _ _ _ _ _ false); [|intros s1 c1 Hc1; apply feeds_ret, Hc1].
    subst last. rewrite <- (assoc_L (++)).
    apply feed_messages; [exact Hms|lia|]. intros f3. rewrite Z.add_0_l.
    apply (feed_last _ _ _ _ _ _ Hh). lia. }
  rewrite !app_nil_r in Hf. specialize (Hf s c). unfold feeds_at in Hf.
  destruct (StreamCommand.parse_result f (s, c)) as [u [s' c']|e s'| |];
    try (apply Hf; split; [exact I|split; reflexivity]).
  destruct Hf as (_ & Hp & Hc & Hq); [split; [exact I|split; reflexivity]|].
  split; [exact Hp|]. split; [apply Hc|exact Hq].
Qed.

End Feeds.

(** The [Drop] of the command. *)
Lemma drop_path s :
  exists s', StreamCommand.drop s = Ret tt s' /\
    path (set_of s, Ending) (set_of s', Gone).
Proof.
  unfold StreamCommand.drop. cbn [Recordset.signal_end StreamCommand.perform].
  unfold bind at 1, StreamCommand.access at 1.
  set (r := interfere (StreamCommand.accesses s) (set_of s)).
  destruct (Z.eqb_spec (Recordset.instances r) 1) as [H|H]; cbn [StreamCommand.perform];
    eexists; (split; [reflexivity|]);
    (eapply rtc_l; [apply (moves_others (StreamCommand.accesses s))|]); fold r.
  - eapply rtc_l; [eapply moves_own, produce_last, H|].
    eapply rtc_l; [apply (moves_others (S (StreamCommand.accesses s)))|].
    apply rtc_once. eapply moves_own, produce_close.
  - apply rtc_once. eapply moves_own, produce_leave, H.
Qed.

Lemma went_dropped r s :
  went r (set_of s) ->
  exists s', StreamCommand.drop s = Ret tt s' /\
    exists todo err, path (r, Ready todo err) (set_of s', Gone).
Proof.
  intros Hs. destruct (drop_path s) as (s' & E & Hdrop). exists s'. split; [exact E|].
  destruct Hs as [[todo Hs]|(todo & e & Hs)].
  - exists (todo ++ []), None. etrans; [apply Hs|].
    eapply rtc_l; [eapply moves_own, produce_end|exact Hdrop].
  - exists todo, (Some e). etrans; [exact Hs|exact Hdrop].
Qed.

End Thread.

(** ** The threads of the client *)

Section Client.
Context `{BO : ByteOrder} `{VF : ValueFmt} `{CL : Clock} `{IN : Interference} `{DI : Dialer Net}.

Lemma fixed_on_snd {C A} (m : M Connection A) (s : C * Connection) :
  match on_snd m s with Ret _ s' | Throw _ s' => s'.1 = s.1 | _ => True end.
Proof. destruct s as [x c]. unfold on_snd. cbn. destruct (m c); reflexivity || exact I. Qed.

Lemma fixed_preparing {C} (f : C -> M Buffer unit) (s : C * Connection) :
  match preparing f s with Ret _ s' | Throw _ s' => s'.1 = s.1 | _ => True end.
Proof. destruct s as [x c]. apply (fixed_on_snd (Connection.lift (f x)) (x, c)). Qed.

Lemma thread_path {P} (CM : Command (P * StreamCommand)) fuel policy node (params : P) r
    (w : Cluster.World Net) :
  (forall s, match prepare_buffer s with Ret _ s' | Throw _ s' => s'.1 = s.1 | _ => True end) ->
  (forall t s, match write_timeout t s with Ret _ s' | Throw _ s' => s'.1 = s.1 | _ => True end) ->
  (forall s, match write_buffer s with Ret _ s' | Throw _ s' => s'.1 = s.1 | _ => True end) ->
  (forall s, match parse_result s with
             | Ret _ s' | Throw _ s' =>
                 went (StreamCommand.recordset s.1.2) (StreamCommand.recordset s'.1.2)
             | _ => True end) ->
  match Client.thread fuel policy node CM params r w with
  | Ret r' _ => exists todo err, rtc moves (r, Ready todo err) (r', Gone)
  | Throw _ _ => False
  | _ => True
  end.
Proof.
  intros Hp Ht Hw Hr. unfold Client.thread.
  pose proof (execute_once (EN := node_environment node) Hp Ht Hw fuel policy
    ((params, StreamCommand.new r), w)) as H.
  assert (forall x', parsed (params, StreamCommand.new r) x' ->
            went r (StreamCommand.recordset x'.2)) as Hx.
  { intros x' [->|[conn Hc]]; [left; exists []; apply pushes_refl|].
    specialize (Hr ((params, StreamCommand.new r), conn)).
    destruct (parse_result _) as [u s'|e s'| |]; try contradiction; subst x'; exact Hr. }
  destruct (execute _ _ _) as [u [[p s] w']|e [[p s] w']| |]; try exact I;
    (destruct (went_dropped r s (Hx (p, s) H)) as (s' & Hd & Hpath); rewrite Hd; exact Hpath).
Qed.

Lemma embedded_protocol {P} fuel (x : (P * StreamCommand) * Connection) :
  match on_embedded (StreamCommand.parse_result fuel) x with
  | Ret _ s' | Throw _ s' =>
      went (StreamCommand.recordset x.1.2) (StreamCommand.recordset s'.1.2)
  | _ => True
  end.
Proof.
  destruct x as [[p s] c]. pose proof (parse_result_protocol fuel (s, c)) as H.
  unfold on_embedded. destruct (StreamCommand.parse_result fuel (s, c)) as [u [s' c']|e [s' c']| |];
    exact H.
Qed.

(** C6: whatever the node answers, and whatever other threads do to the record set
    between the accesses, the thread of a scan or a query behaves as a producer:
    there are records and perhaps an error that it gives up to the set by the steps
    of a producer, from its start to its end; it never ends with an error. *)
Theorem thread_refines fuel r (w : Cluster.World Net) :
  let producer o :=
    match o with
    | Ret r' _ => exists todo err, rtc moves (r, Ready todo err) (r', Gone)
    | Throw _ _ => False
    | _ => True
    end in
  (forall command, producer (Client.scan_thread fuel command r w)) /\
  (forall command, producer (Client.query_thread fuel command r w)).
Proof.
  split; intros command;
    (apply thread_path; [intros; apply fixed_preparing|intros; apply fixed_on_snd|
                         intros; apply fixed_on_snd|apply (embedded_protocol fuel)]).
Qed.

(** *** A node that answers *)

(** What a scan sends. *)
Definition scan_request (params : ScanParams) (task_id : Z) (fb : bytes) : bytes :=
  let policy := sc_policy params in
  message
    (timed (base_timeout (sp_base_policy policy))
       (header (consistency_attr (sp_base_policy policy)
                  (if Bins.is_none (sc_bins params) then Z.lor INFO1_READ INFO1_NOBINDATA
                   else INFO1_READ)) 0 0 0 0
          (scan_field_count policy (sc_namespace params) (sc_set_name params))
          (as_u16 (len (bin_names (sc_bins params))))))
    (scan_body policy (sc_namespace params) (sc_set_name params) (sc_bins params) task_id
       (sc_partitions params) fb).

(** What a query sends; [fields] are its [query_fields]. *)
Definition query_request (params : QueryParams) (fields : bytes) : bytes :=
  let policy := qc_policy params in
  let s := qc_statement params in
  message
    (timed (base_timeout (qp_base_policy policy))
       (header (consistency_attr (qp_base_policy policy)
                  (if Bins.is_none (Statement.bins s) then Z.lor INFO1_READ INFO1_NOBINDATA
                   else INFO1_READ)) 0 0 0 0
          (query_field_count policy s) (as_u16 (len (scan_bins s)))))
    (fields ++ concat (enc_bin_name <$> scan_bins s)).

(** A stream of groups of messages, and its last group. *)
Definition answers (c : Connection) (records : list Record_) (rest : bytes) : Prop :=
  exists gs v t ms h,
    let last := concat (message_bytes <$> ms) ++ header_bytes h in
    Forall group_ok gs /\ Forall stream_ok ms /\ last_header h /\ len last < 2 ^ 48 /\
    incoming (conn c) = concat (group_bytes <$> gs) ++ proto v t (len last) ++ last ++ rest /\
    records = concat ((fun g => found g.2) <$> gs) ++ found ms.

(** The consumer makes room within some number of tries, and the loops have more
    fuel than these and the bytes to read: then a thread ends. *)
Definition roomy (fuel : nat) (c : Connection) : Prop :=
  exists lag, makes_room lag /\ len (incoming (conn c)) + Z.of_nat lag < Z.of_nat fuel.

Lemma thread_answers {P} (CM : Command (P * StreamCommand)) (m : M Buffer unit) hdr body fuel
    policy node (params : P) r (w w3 : Cluster.World Net) lease c records rest :
  let x := (params, StreamCommand.new r) in
  (forall c, prepare_buffer (x, c) = on_snd (lift m) (x, c)) ->
  (forall t c, write_timeout t (x, c) = conn_write_timeout t (x, c)) ->
  (forall c, write_buffer (x, c) = conn_write_buffer (x, c)) ->
  (forall s, parse_result s = on_embedded (StreamCommand.parse_result (S fuel)) s) ->
  builds m hdr body -> untimed hdr -> total_size body <= MAX_BUFFER_SIZE ->
  small_timeout (base_timeout policy) ->
  reached (EN := node_environment node) fuel policy x w w3 lease c ->
  len (message (timed (base_timeout policy) hdr) body) <= accepts (conn c) ->
  (forall n r, Recordset.is_active (interfere n r) = true) ->
  all_bytes (incoming (conn c)) -> answers c records rest ->
  Client.thread (S fuel) policy node CM params r w = NoFuel /\ ~ roomy fuel c \/
  exists r' c',
    rtc moves (r, Ready records None) (r', Gone) /\
    incoming (conn c') = rest /\
    outgoing (conn c') = outgoing (conn c) ++ message (timed (base_timeout policy) hdr) body /\
    Client.thread (S fuel) policy node CM params r w
    = (catch (put_back (Environment := node_environment node) lease c') ;;; ret r') w3.
Proof.
  intros x Hp Ht Hw Hparse Hb Hu Hl Hs Hre Ha Hopen Hby
    (gs & v & t & ms & h & Hgs & Hms & Hh & Hlast & Hi & ->).
  destruct (execute_response (EN := node_environment node) m hdr body fuel policy x w w3 lease c
    Hp Ht Hw Hb Hu Hl Hs Hre Ha) as (c3 & Hi3 & Ho3 & E).
  assert (roomy fuel c -> StreamCommand.parse_result (S fuel) (StreamCommand.new r, c3) <> NoFuel)
    as Hend.
  { intros (lag & Hroom & Hfu). unfold len in Hfu.
    replace (S fuel) with (S (fuel - lag + lag)) by lia.
    apply (stream_ends lag Hroom); rewrite Hi3; [exact Hby|lia]. }
  rewrite <- Hi3 in Hi.
  pose proof (feed_response Hopen (S fuel) (StreamCommand.new r) c3 gs v t ms h rest Hgs Hms Hh Hlast Hi) as Hf.
  unfold Client.thread. fold x. rewrite E, Hparse. unfold on_embedded, x.
  destruct (StreamCommand.parse_result (S fuel) (StreamCommand.new r, c3)) as [[] [s' c4]|e s'| |];
    [right|contradiction..|left; split; [reflexivity|]; intros Hroom; exact (Hend Hroom eq_refl)].
  destruct Hf as (Hpush & Hi4 & Hq). destruct (drop_path s') as (s2 & Hd & Hdrop).
  exists (StreamCommand.recordset s2), c4. split; [|split; [exact Hi4|split; [rewrite (proj1 Hq); exact Ho3|]]].
  - specialize (Hpush [] None). rewrite app_nil_r in Hpush. etrans; [exact Hpush|].
    eapply rtc_l; [eapply moves_own, produce_end|exact Hdrop].
  - cbn [settled]. unfold bind, on_snd, catch. cbn [fst snd settle ret].
    destruct (put_back lease c4 w3) as [[] w4|e w4| |]; cbn [finish ret]; rewrite ?Hd; reflexivity.
Qed.

(** C5: the thread of a scan on a node that answers well sends exactly the scan of
    its partitions, with the task id of the record set; whatever other threads do
    to the open set in between, it produces exactly the records of the response and
    signals its end; it takes exactly the response, and puts the connection back.
    It ends if the consumer makes room. *)
Theorem scan_end_to_end fuel node params r (w w3 : Cluster.World Net) lease (c : Connection)
    fb records rest :
  let policy := sp_base_policy (sc_policy params) in
  let task := Recordset.task_id r in
  let thread := Client.scan_thread (S fuel) (node, params) r in
  let request := scan_request params task fb in
  enc_filter (sp_filter_expression (sc_policy params)) = Some fb ->
  total_size (scan_body (sc_policy params) (sc_namespace params) (sc_set_name params)
    (sc_bins params) task (sc_partitions params) fb) <= MAX_BUFFER_SIZE ->
  small_timeout (base_timeout policy) ->
  reached (CM := scan_command (S fuel)) (EN := node_environment node) fuel policy (params, StreamCommand.new r) w w3 lease c ->
  len request <= accepts (conn c) ->
  (forall n r, Recordset.is_active (interfere n r) = true) ->
  all_bytes (incoming (conn c)) -> answers c records rest ->
  thread w = NoFuel /\ ~ roomy fuel c \/
  exists r' c',
    rtc moves (r, Ready records None) (r', Gone) /\
    incoming (conn c') = rest /\ outgoing (conn c') = outgoing (conn c) ++ request /\
    thread w = (catch (put_back (Environment := node_environment node) lease c') ;;; ret r') w3.
Proof.
  intros policy task thread request Hfb Hl Ht Hre Ha Hopen Hby Hans.
  pose proof (set_scan_message (sc_policy params) (sc_namespace params) (sc_set_name params)
    (sc_bins params) task (sc_partitions params) fb Hfb) as Hb.
  exact (thread_answers (scan_command (S fuel)) _ _ _ fuel policy node params r w w3 lease c
    records rest (fun _ => eq_refl) (fun _ _ => eq_refl) (fun _ => eq_refl) (fun _ => eq_refl)
    Hb (header_untimed _ _ _ _ _ _ _) Hl Ht Hre Ha Hopen Hby Hans).
Qed.

(** The thread of a query likewise, with the query message of its statement. *)
Theorem query_end_to_end fuel node params r (w w3 : Cluster.World Net) lease (c : Connection)
    fields records rest :
  let policy := qp_base_policy (qc_policy params) in
  let s := qc_statement params in
  let task := Recordset.task_id r in
  let thread := Client.query_thread (S fuel) (node, params) r in
  let request := query_request params fields in
  Statement.filters s <> Some [] ->
  no_empty_bins (query_filter s) (Statement.bins s) ->
  query_fields (qc_policy params) s task (qc_partitions params) = Some fields ->
  total_size (fields ++ concat (enc_bin_name <$> scan_bins s)) <= MAX_BUFFER_SIZE ->
  small_timeout (base_timeout policy) ->
  reached (CM := query_command (S fuel)) (EN := node_environment node) fuel policy (params, StreamCommand.new r) w w3 lease c ->
  len request <= accepts (conn c) ->
  (forall n r, Recordset.is_active (interfere n r) = true) ->
  all_bytes (incoming (conn c)) -> answers c records rest ->
  thread w = NoFuel /\ ~ roomy fuel c \/
  exists r' c',
    rtc moves (r, Ready records None) (r', Gone) /\
    incoming (conn c') = rest /\ outgoing (conn c') = outgoing (conn c) ++ request /\
    thread w = (catch (put_back (Environment := node_environment node) lease c') ;;; ret r') w3.
Proof.
  intros policy s task thread request Hfs Hne Hf Hl Ht Hre Ha Hopen Hby Hans.
  pose proof (set_query_message (qc_policy params) s false task (qc_partitions params) fields
    Hfs Hne Hf) as Hb.
  exact (thread_answers (query_command (S fuel)) _ _ _ fuel policy node params r w w3 lease c
    records rest (fun _ => eq_refl) (fun _ _ => eq_refl) (fun _ => eq_refl) (fun _ => eq_refl)
    Hb (header_untimed _ _ _ _ _ _ _) Hl Ht Hre Ha Hopen Hby Hans).
Qed.

End Client.

(** ** An example: the cluster of one node, whose answer is on its idle connection *)

Section Example.

#[local] Existing Instance valuefmt_model.
#[local] Existing Instance clock_model.
#[local] Existing Instance silent_dialer.

(** A consumer that has always emptied the queue of an open set. *)
#[local] Instance attentive : Interference := {|
  interfere _ r :=
    Recordset.mkRecordset (Recordset.instances r) 0 1024 [] true (Recordset.task_id_ r)
|}.

Definition answer_bytes : bytes :=
  let ms := [sample_message; sample_done] in
  let last := concat (message_bytes <$> ms) ++ header_bytes sample_last in
  group_bytes (2, 3, ms) ++ proto 2 3 (len last) ++ last.

Definition answer_records : list Record_ :=
  [message_record sample_message; message_record sample_message].

Lemma answer_answers (c : Connection) :
  incoming (conn c) = answer_bytes ++ [9] -> answers c answer_records [9].
Proof.
  intros Hi. set (ms := [sample_message; sample_done]).
  exists [(2, 3, ms)], 2, 3, ms, sample_last. cbv zeta.
  split; [repeat constructor;
          first [apply sample_message_ok|apply sample_done_ok|vm_compute; congruence]|].
  split; [repeat constructor; first [apply sample_message_ok|apply sample_done_ok]|].
  split; [split; reflexivity|]. split; [vm_compute; reflexivity|].
  split; [|reflexivity]. rewrite Hi. vm_compute. reflexivity.
Qed.

Definition scan_sample : ScanParams :=
  mkScanParams ScanPolicy_default (str "test") (str "people") Bins.All [0; 1].

Definition fresh_set : Recordset := Recordset.mkRecordset 1 0 1024 [] true 99.

Lemma bytes_checked (bs : bytes) :
  forallb (fun b => (0 <=? b) && (b <? 256)) bs = true -> all_bytes bs.
Proof.
  rewrite forallb_forall. intros H. apply Forall_forall. intros b Hb.
  apply list_elem_of_In, H in Hb. unfold is_byte. lia.
Qed.

(** Its thread takes the idle connection [c]. *)
Lemma sample_reached `{CM : Command C} fuel (policy : BasePolicy) (x : C) incoming (c : Connection) :
  policy = BasePolicy_default ->
  set_timeout (base_timeout policy) (sample_conn incoming) = Some c ->
  reached (EN := node_environment 0%nat) fuel policy x (sample_world 0 0 [sample_conn incoming])
    (sample_world 0 2 []) 0%nat c.
Proof.
  intros -> Hc. apply (reached_first (EN := node_environment 0%nat) _ _ _ (Some 30000000000) _
    (sample_world 0 1 [sample_conn incoming]) (sample_world 0 2 [sample_conn incoming])
    (sample_world 0 2 [sample_conn incoming]) _ 0%nat); [|reflexivity..|].
  - vm_compute. split; [discriminate|reflexivity].
  - injection Hc as <-. reflexivity.
Qed.

Lemma scan_end_to_end_witness :
  let idle := sample_conn (answer_bytes ++ [9]) in
  exists r' c',
    rtc moves (fresh_set, Ready answer_records None) (r', Gone) /\
    incoming (conn c') = [9] /\
    Client.scan_thread 1000 (0%nat, scan_sample) fresh_set (sample_world 0 0 [idle])
    = (catch (put_back (Environment := node_environment 0%nat) 0%nat c') ;;; ret r')
        (sample_world 0 2 []).
Proof.
  intros idle. set (timeout := base_timeout (sp_base_policy ScanPolicy_default)).
  set (c := default idle (set_timeout timeout idle)).
  destruct (scan_end_to_end 999 0%nat scan_sample fresh_set (sample_world 0 0 [idle])
    (sample_world 0 2 []) 0%nat c [] answer_records [9])
    as [[_ Hfuel]|(r' & c' & Hp & Hi & _ & E)].
  - reflexivity.
  - vm_compute. discriminate.
  - vm_compute. repeat split; discriminate.
  - apply sample_reached; reflexivity.
  - vm_compute. discriminate.
  - reflexivity.
  - apply bytes_checked. vm_compute. reflexivity.
  - apply answer_answers. vm_compute. reflexivity.
  - destruct Hfuel. exists 0%nat. split; [|vm_compute; reflexivity].
    intros n. exists 0%nat. split; [lia|intros; cbn; lia].
  - exists r', c'. split; [exact Hp|]. split; [exact Hi|exact E].
Defined.

Definition query_sample : QueryParams :=
  mkQueryParams QueryPolicy_default (range_query Bins.All) [0; 1].

Lemma query_end_to_end_witness :
  let idle := sample_conn (answer_bytes ++ [9]) in
  exists r' c',
    rtc moves (fresh_set, Ready answer_records None) (r', Gone) /\
    incoming (conn c') = [9] /\
    Client.query_thread 1000 (0%nat, query_sample) fresh_set (sample_world 0 0 [idle])
    = (catch (put_back (Environment := node_environment 0%nat) 0%nat c') ;;; ret r')
        (sample_world 0 2 []).
Proof.
  intros idle. set (timeout := base_timeout (qp_base_policy QueryPolicy_default)).
  set (c := default idle (set_timeout timeout idle)).
  destruct (query_end_to_end 999 0%nat query_sample fresh_set (sample_world 0 0 [idle])
    (sample_world 0 2 []) 0%nat c
    (default [] (query_fields QueryPolicy_default (range_query Bins.All) 99 [0; 1]))
    answer_records [9]) as [[_ Hfuel]|(r' & c' & Hp & Hi & _ & E)].
  - discriminate.
  - exact I.
  - vm_compute. reflexivity.
  - vm_compute. discriminate.
  - vm_compute. repeat split; discriminate.
  - apply sample_reached; reflexivity.
  - vm_compute. discriminate.
  - reflexivity.
  - apply bytes_checked. vm_compute. reflexivity.
  - apply answer_answers. vm_compute. reflexivity.
  - destruct Hfuel. exists 0%nat. split; [|vm_compute; reflexivity].
    intros n. exists 0%nat. split; [lia|intros; cbn; lia].
  - exists r', c'. split; [exact Hp|]. split; [exact Hi|exact E].
Defined.

(** A scan whose node does not answer ends its record set without an error: the
    error of the command is unwrapped in its thread, and the iteration of the
    caller ends at once, as if the node had no records. *)
Theorem failed_scan_looks_complete :
  match Client.scan_thread (IN := alone) 5 (0%nat, scan_sample) fresh_set (sample_world 0 0 []) with
  | Ret r' _ => (Recordset.run Recordset.next_turn r').1 = inl None
  | _ => False
  end.
Proof. vm_compute. reflexivity. Qed.

End Example.
