(* ===== verification/Benchmark.v ===== *)
(** * The benchmark tool ([tools/benchmark/src/])

    The tool splits a range of keys among workers ([generator.rs]); every worker
    does one operation of the client per key ([workers.rs]) and sends histograms
    of what happened to a collector, which merges and reports them ([stats.rs]).
    What is printed as floating-point numbers (rates, percentages) is left out.

    [key_partitions]: the ranges of the workers are the keys, in their order.
    [describes]: a histogram is a summary of a list of requests, and adding and
    merging are appending.  [benchmark_counts]: whatever the server answers, and
    however the histograms of the workers arrive, the total that is printed is the
    number of keys. *)

From stdpp Require Import base list strings gmap numbers.
From Stdlib Require Import ZArith Lia.
From S2P Require Import Prelude ResultCodes Monad Invariants ByteOrder Slices Text Wire Buffer.
From S2P Require Import Values Expressions Operations Policy Records Connection Statements.
From S2P Require Import Hosts ClientPolicy ConnectionPool PoolFacts Nodes Cluster Client.
From stdpp Require Import list.

#[local] Open Scope Z_scope.
#[local] Open Scope m_scope.

(** An [i64] sum, difference or quotient, which may overflow. *)
Definition i64_checked {S} (v : Z) : M S Z :=
  if (- 2 ^ 63 <=? v) && (v <? 2 ^ 63) then ret v else panic.

(** ** Keys ([generator.rs]) *)

Module KeyRange.

(** [struct KeyRange]. *)
Record KeyRange : Type := mkKeyRange {
  namespace : bytes;
  set : bytes;
  index : Z;
  end_ : Z
}.

Definition new {S} (namespace set : bytes) (start count : Z) : M S KeyRange :=
  let! e := i64_checked (start + count) in ret (mkKeyRange namespace set start e).

(** [Iterator::next]; the increment stays below the end. *)
Definition next `{BO : ByteOrder} `{RD : Ripemd160} : M KeyRange (option Key) :=
  let! r := get in
  if index r <? end_ r then
    let! key := unwrap (Key_new (namespace r) (set r) (Value.Int (index r))) in
    put (mkKeyRange (namespace r) (set r) (index r + 1) (end_ r)) ;;;
    ret (Some key)
  else ret None.

End KeyRange.

Module KeyPartitions.

(** [struct KeyPartitions]. *)
Record KeyPartitions : Type := mkKeyPartitions {
  namespace : bytes;
  set : bytes;
  index : Z;
  end_ : Z;
  keys_per_partition : Z;
  remainder : Z
}.

(** [KeyPartitions::new]: the divisions panic on zero and on overflow. *)
Definition new {S} (namespace set : bytes) (start_key count partitions : Z)
    : M S KeyPartitions :=
  let! e := i64_checked (start_key + count) in
  let! q := if partitions =? 0 then panic else i64_checked (Z.quot count partitions) in
  ret (mkKeyPartitions namespace set start_key e q (Z.rem count partitions)).

(** [Iterator::next]. *)
Definition next : M KeyPartitions (option KeyRange.KeyRange) :=
  let! p := get in
  if index p <? end_ p then
    let more := 0 <? remainder p in
    let! count := if more then i64_checked (keys_per_partition p + 1)
                  else ret (keys_per_partition p) in
    let! range := KeyRange.new (namespace p) (set p) (index p) count in
    let! i := i64_checked (index p + count) in
    put (mkKeyPartitions (namespace p) (set p) i (end_ p) (keys_per_partition p)
           (if more then remainder p - 1 else remainder p)) ;;;
    ret (Some range)
  else ret None.

End KeyPartitions.

Abbreviation KeyRange := KeyRange.KeyRange.
Abbreviation KeyPartitions := KeyPartitions.KeyPartitions.

(** A [for] loop over an iterator, collecting. *)
Fixpoint collected {S A} (fuel : nat) (next : M S (option A)) : M S (list A) :=
  match fuel with
  | O => no_fuel
  | Datatypes.S fuel' =>
      let! r := next in
      match r with
      | Some x => let! l := collected fuel' next in ret (x :: l)
      | None => ret []
      end
  end.

(** ** Percentages and workloads ([percent.rs], [workers.rs]) *)

(** [struct Percent]. *)
Record Percent : Type := mkPercent { pct : Z }.

(** [Percent::from_str]. *)
Definition Percent_from_str (s : bytes) : Percent + string :=
  match parse_int false 0 255 s with
  | Some pct =>
      if pct <=? 100 then inl (mkPercent pct) else inr "Invalid percent value"%string
  | None => inr "Invalid percent value"%string
  end.

(** The random number generator of a thread: its draws, in order. *)
Class Rng := { draw_i64 : nat -> Z; draw_u32 : nat -> Z }.

(** [Distribution<Percent> for Standard], from a draw. *)
Definition Percent_sample (r : Z) : Percent := mkPercent (as_u8 (r mod 101)).

(** [enum Workload]. *)
Inductive Workload : Type :=
| Initialize
| ReadUpdate (read_pct : Percent).

(** [s.splitn(2, ',')]: what is before the first comma, and after it. *)
Fixpoint splitn_2 (s : bytes) : bytes * option bytes :=
  match s with
  | [] => ([], None)
  | c :: s' => if c =? 44 then ([], Some s')
               else let '(a, b) := splitn_2 s' in (c :: a, b)
  end.

(** [Workload::from_str]. *)
Definition Workload_from_str (s : bytes) : Workload + string :=
  let '(first, rest) := splitn_2 s in
  if bool_decide (first = str "RU") then
    match Percent_from_str (default (str "100") rest) with
    | inl read_pct => inl (ReadUpdate read_pct)
    | inr e => inr e
    end
  else if bool_decide (first = str "I") then inl Initialize
  else inr "Invalid workload definition"%string.

(** [enum Status]. *)
Inductive Status : Type := Success | Error | Timeout.

(** ** Histograms ([stats.rs]) *)

Module Histogram.

Definition HIST_BUCKETS : nat := 6.

(** [struct Histogram]: latencies in microseconds, instants in nanoseconds. *)
Record Histogram : Type := mkHistogram {
  buckets : list Z;
  min : Z;
  max : Z;
  sum : Z;
  count : Z;
  timeouts : Z;
  errors : Z;
  interval : Z;
  start : Z;
  total : Z
}.

Definition u128_max : Z := 2 ^ 128 - 1.

Definition new (now : Z) : Histogram :=
  mkHistogram (replicate HIST_BUCKETS 0) u128_max 0 0 0 0 0 now now 0.

(** [avg]; there is no average of nothing. *)
Definition avg {S} (h : Histogram) : M S Z :=
  if count h =? 0 then panic else ret (sum h / count h).

(** The loop over the buckets, from the [i]-th on. *)
Fixpoint bump (micros upper : Z) (i : nat) (buckets : list Z) : list Z :=
  match buckets with
  | [] => []
  | b :: buckets' =>
      if (micros <? upper) || (i =? HIST_BUCKETS - 1)%nat then (b + 1) :: buckets'
      else b :: bump micros (Z.shiftl upper 1) (S i) buckets'
  end.

Definition add (latency : Duration) (status : Status) (h : Histogram) : Histogram :=
  let micros := nanos latency / 1000 in
  mkHistogram (bump micros 1000 0 (buckets h))
    (if micros <? min h then micros else min h)
    (if max h <? micros then micros else max h)
    (sum h + micros) (count h + 1)
    (match status with Timeout => timeouts h + 1 | _ => timeouts h end)
    (match status with Error => errors h + 1 | _ => errors h end)
    (interval h) (start h) (total h).

Definition merge (other h : Histogram) : Histogram :=
  mkHistogram (zip_with Z.add (buckets h) (buckets other))
    (if min h <? min other then min h else min other)
    (if max other <? max h then max h else max other)
    (sum h + sum other) (count h + count other)
    (timeouts h + timeouts other) (errors h + errors other)
    (interval h) (start h) (total h).

Definition reset (now : Z) (h : Histogram) : Histogram :=
  mkHistogram ((fun _ => 0) <$> buckets h) u128_max 0 0 0 0 0 now (start h) (total h + count h).

End Histogram.

Abbreviation Histogram := Histogram.Histogram.

(** ** Workers ([workers.rs]) *)

Module Workers.

(** The two implementations of [Task], but for the client and the default policies. *)
Inductive Task : Type :=
| InsertTask
| ReadUpdateTask (reads : Percent).

Definition task_for (workload : Workload) : Task :=
  match workload with
  | Initialize => InsertTask
  | ReadUpdate read_pct => ReadUpdateTask read_pct
  end.

(** [Task::status]. *)
Definition status {A} (result : A + ErrorKind) : Status :=
  match result with
  | inr (ServerError ResultCode.Timeout) => Timeout
  | inr _ => Error
  | inl _ => Success
  end.

Section Worker.
Context `{BO : ByteOrder} `{VF : ValueFmt} `{CL : Clock} `{DI : Dialer Net} `{RG : Rng}.

(** A worker, with what it has sent to the collector, how often its thread has drawn
    a random number, and the world of its client. *)
Record Worker : Type := mkWorker {
  histogram : Histogram;
  sent : list Histogram;
  draws : nat;
  world : Cluster.World Net
}.

Definition random (draw : nat -> Z) : M Worker Z :=
  fun w => Ret (draw (draws w)) (mkWorker (histogram w) (sent w) (S (draws w)) (world w)).

Definition on_client {A} (m : M (Cluster.World Net) A) : M Worker A :=
  fun w =>
    let back := mkWorker (histogram w) (sent w) (draws w) in
    match m (world w) with
    | Ret a w' => Ret a (back w')
    | Throw e w' => Throw e (back w')
    | Panic => Panic
    | NoFuel => NoFuel
    end.

Definition on_histogram (f : Histogram -> Histogram) : M Worker unit :=
  fun w => Ret tt (mkWorker (f (histogram w)) (sent w) (draws w) (world w)).

Context (fuel : nat).

(** Both tasks put a random integer in the bin [int]. *)
Definition put_random (key : Key) : M Worker Status :=
  let! r := random draw_i64 in
  let! result := catch (on_client (Client.put fuel WritePolicy_default key
                                     [mkBin (str "int") (Value.Int r)])) in
  ret (status result).

(** [Task::execute]. *)
Definition execute (task : Task) (key : Key) : M Worker Status :=
  match task with
  | InsertTask => put_random key
  | ReadUpdateTask reads =>
      let! r := random draw_u32 in
      if pct (Percent_sample r) <=? pct reads then
        let! result := catch (on_client (Client.get fuel BasePolicy_default key
                                           (Bins.Some [str "int"]))) in
        ret (status result)
      else put_random key
  end.

(** [now.elapsed()]. *)
Definition elapsed (since : Z) : M Worker Z :=
  let! t := on_client Cluster.world_now in ret (Z.max 0 (t - since)).

(** How often statistics are sent, in nanoseconds. *)
Definition COLLECT : Z := 100 * 1000000.

Definition collect : M Worker unit :=
  (fun w => Ret tt (mkWorker (histogram w) (sent w ++ [histogram w]) (draws w) (world w))) ;;;
  let! t := on_client Cluster.world_now in
  on_histogram (Histogram.reset t).

(** The loop of [run] over the keys. *)
Fixpoint run_loop (task : Task) (keys : list Key) (last_collection : Z) : M Worker unit :=
  match keys with
  | [] => ret tt
  | key :: keys' =>
      let! now := on_client Cluster.world_now in
      let! status := execute task key in
      let! latency := elapsed now in
      on_histogram (Histogram.add (mkDuration (latency / 1000000000) (latency mod 1000000000)) status) ;;;
      let! since := elapsed last_collection in
      if COLLECT <? since then
        collect ;;;
        let! t := on_client Cluster.world_now in
        run_loop task keys' t
      else run_loop task keys' last_collection
  end.

(** [Worker::run] on the keys of its range. *)
Definition run (task : Task) (keys : list Key) : M Worker unit :=
  let! t := on_client Cluster.world_now in
  run_loop task keys t ;;;
  collect.

(** [Worker::for_workload]. *)
Definition for_workload (now : Z) (w : Cluster.World Net) : Worker :=
  mkWorker (Histogram.new now) [] 0 w.

End Worker.

End Workers.

(** ** The collector ([stats.rs]) *)

Module Collector.

(** What [report] prints, but for the rates and percentages. *)
Record Report : Type := mkReport {
  r_count : Z;
  r_timeouts : Z;
  r_errors : Z;
  r_min : Z;
  r_avg : Z;
  r_max : Z;
  r_buckets : list Z
}.

Section Collect.
Context `{CL : Clock}.

(** The collector's histogram, with what it has printed and the readings of the
    clock. *)
Record Collector : Type := mkCollector {
  merged : Histogram;
  reports : list Report;
  readings : nat
}.

Definition now : M Collector Z :=
  fun c => Ret (instant (readings c)) (mkCollector (merged c) (reports c) (S (readings c))).

Definition on_merged (f : Histogram -> Histogram) : M Collector unit :=
  fun c => Ret tt (mkCollector (f (merged c)) (reports c) (readings c)).

Definition report : M Collector unit :=
  let! c := get in
  let h := merged c in
  let! avg := Histogram.avg h in
  put (mkCollector h
         (reports c ++ [mkReport (Histogram.count h) (Histogram.timeouts h) (Histogram.errors h)
                          (Histogram.min h) avg (Histogram.max h) (Histogram.buckets h)])
         (readings c)).

(** How often the histogram is printed, in nanoseconds. *)
Definition REPORT : Z := 1000000000.

(** The loop of [collect] over what the workers sent. *)
Fixpoint collect_loop (received : list Histogram) (last_report : Z) : M Collector unit :=
  match received with
  | [] => ret tt
  | hist :: received' =>
      on_merged (Histogram.merge hist) ;;;
      let! t := now in
      if REPORT <? Z.max 0 (t - last_report) then
        report ;;;
        let! last_report := now in
        let! t := now in
        on_merged (Histogram.reset t) ;;;
        collect_loop received' last_report
      else collect_loop received' last_report
  end.

(** [Collector::collect]; the result is the total that [summary] prints. *)
Definition collect_all (received : list Histogram) : M Collector Z :=
  let! t := now in
  collect_loop received t ;;;
  report ;;;
  let! t := now in
  on_merged (Histogram.reset t) ;;;
  let! c := get in
  ret (Histogram.total (merged c)).

(** [Collector::new]. *)
Definition new (now : Z) : Collector := mkCollector (Histogram.new now) [] 0.

End Collect.

End Collector.

(** ** Keys *)

Lemma i64_checked_ret {S} v (s : S) : - 2 ^ 63 <= v < 2 ^ 63 -> i64_checked v s = Ret v s.
Proof.
  intros H. unfold i64_checked. rewrite (proj2 (Z.leb_le _ _)), (proj2 (Z.ltb_lt _ _)) by lia.
  reflexivity.
Qed.

(** The numbers of a range. *)
Definition numbers (r : KeyRange) : list Z :=
  seqZ (KeyRange.index r) (KeyRange.end_ r - KeyRange.index r).

(** [k] ranges are left: [q] keys each, and one more for the first [m]. *)
Record parts_left (p : KeyPartitions) (k : nat) : Prop := {
  left_each : 0 <= KeyPartitions.keys_per_partition p;
  left_more : 0 <= KeyPartitions.remainder p <= Z.of_nat k;
  left_all : KeyPartitions.end_ p - KeyPartitions.index p
             = Z.of_nat k * KeyPartitions.keys_per_partition p + KeyPartitions.remainder p;
  left_few : KeyPartitions.keys_per_partition p = 0 -> KeyPartitions.remainder p = Z.of_nat k;
  left_bounds : - 2 ^ 63 <= KeyPartitions.index p /\ KeyPartitions.end_ p < 2 ^ 63 /\
    KeyPartitions.end_ p - KeyPartitions.index p < 2 ^ 63
}.

(** A range of the partitions [p]. *)
Definition part_of (p : KeyPartitions) (r : KeyRange) : Prop :=
  KeyRange.namespace r = KeyPartitions.namespace p /\ KeyRange.set r = KeyPartitions.set p /\
  (len (numbers r) = KeyPartitions.keys_per_partition p \/
   len (numbers r) = KeyPartitions.keys_per_partition p + 1).

Lemma len_seqZ a n : 0 <= n -> len (seqZ a n) = n.
Proof. intros H. unfold len. rewrite length_seqZ. lia. Qed.

Lemma next_part p k :
  parts_left p (S k) ->
  exists r p',
    KeyPartitions.next p = Ret (Some r) p' /\ parts_left p' k /\ part_of p r /\
    KeyRange.index r = KeyPartitions.index p /\ KeyRange.end_ r = KeyPartitions.index p' /\
    KeyRange.index r <= KeyRange.end_ r /\
    KeyPartitions.end_ p' = KeyPartitions.end_ p /\
    KeyPartitions.keys_per_partition p' = KeyPartitions.keys_per_partition p /\
    KeyPartitions.namespace p' = KeyPartitions.namespace p /\
    KeyPartitions.set p' = KeyPartitions.set p.
Proof.
  destruct p as [ns st i e q m]. intros [Hq Hm Ha Hf (Hb1 & Hb2 & Hb3)].
  cbn [KeyPartitions.index KeyPartitions.end_ KeyPartitions.keys_per_partition
       KeyPartitions.remainder] in *.
  assert (0 < e - i) as Hpos.
  { destruct (Z.eq_dec q 0) as [->|]; [specialize (Hf eq_refl); nia|nia]. }
  set (n := if 0 <? m then q + 1 else q).
  set (m' := if 0 <? m then m - 1 else m).
  assert (0 <= n /\ i + n <= e /\ (n = q \/ n = q + 1) /\ 0 <= m' <= Z.of_nat k /\
          e - (i + n) = Z.of_nat k * q + m' /\ (q = 0 -> m' = Z.of_nat k)) as (Hn & Hie & Hor & Hm' & Ha' & Hf').
  { unfold n, m'. destruct (Z.ltb_spec 0 m); repeat split; try nia. }
  exists (KeyRange.mkKeyRange ns st i (i + n)), (KeyPartitions.mkKeyPartitions ns st (i + n) e q m').
  split; [|split; [constructor; cbn; auto; lia|]].
  - unfold KeyPartitions.next, KeyRange.new. unfold bind at 1, get.
    cbn [KeyPartitions.index KeyPartitions.end_ KeyPartitions.keys_per_partition
         KeyPartitions.remainder KeyPartitions.namespace KeyPartitions.set].
    rewrite (proj2 (Z.ltb_lt _ _)) by lia.
    assert (forall s : KeyPartitions, (if 0 <? m then i64_checked (q + 1) else ret q) s = Ret n s) as E.
    { intros s. unfold n in Hie |- *. destruct (0 <? m); [apply i64_checked_ret; lia|reflexivity]. }
    unfold bind at 1. rewrite E. unfold bind. rewrite i64_checked_ret by lia.
    cbn [ret]. rewrite i64_checked_ret by lia. reflexivity.
  - unfold part_of, numbers. cbn.
    split; [split; [reflexivity|split; [reflexivity|]]|repeat split; lia].
    rewrite len_seqZ by lia. lia.
Qed.

Lemma collect_parts k : forall p fuel,
  parts_left p k -> (k < fuel)%nat ->
  exists ranges p',
    collected fuel KeyPartitions.next p = Ret ranges p' /\ length ranges = k /\
    concat (numbers <$> ranges)
    = seqZ (KeyPartitions.index p) (KeyPartitions.end_ p - KeyPartitions.index p) /\
    Forall (part_of p) ranges.
Proof.
  induction k as [|k IH]; intros p fuel Hp Hf; (destruct fuel as [|fuel]; [lia|]).
  - exists [], p. destruct Hp as [_ Hm Ha _ _]. cbn [collected]. unfold KeyPartitions.next, bind, get.
    rewrite (proj2 (Z.ltb_ge _ _)) by lia. split; [reflexivity|]. split; [reflexivity|].
    split; [|constructor]. replace (_ - _) with 0 by lia. reflexivity.
  - destruct (next_part p k Hp) as (r & p1 & E & Hp1 & Hr & Hi & He & Hle & Hend & Hq & Hns & Hset).
    destruct (IH p1 fuel Hp1 ltac:(lia)) as (ranges & p' & E' & Hlen & Hnum & Hall).
    exists (r :: ranges), p'. cbn [collected]. unfold bind. rewrite E, E'.
    split; [reflexivity|]. split; [cbn; lia|]. split.
    + cbn [fmap list_fmap concat]. rewrite Hnum. unfold numbers. rewrite Hi, He, Hend.
      replace (KeyPartitions.end_ p - KeyPartitions.index p)
        with ((KeyPartitions.index p1 - KeyPartitions.index p)
              + (KeyPartitions.end_ p - KeyPartitions.index p1)) by lia.
      destruct Hp1 as [Hq1 Hm1 Ha1 _ _]. rewrite seqZ_app by nia. do 2 f_equal. lia.
    + constructor; [exact Hr|]. eapply Forall_impl; [exact Hall|]. unfold part_of.
      rewrite Hq, Hns, Hset. auto.
Qed.

(** The partitions of a range of keys: as many as asked for, or one per key if there
    are fewer keys; together they are the keys, in their order, and their sizes
    differ by at most one. *)
Lemma key_partitions namespace set start count partitions fuel :
  0 < partitions -> 0 <= count < 2 ^ 63 -> - 2 ^ 63 <= start -> start + count < 2 ^ 63 ->
  (Z.to_nat (Z.min count partitions) < fuel)%nat ->
  exists p ranges p',
    KeyPartitions.new namespace set start count partitions tt = Ret p tt /\
    collected fuel KeyPartitions.next p = Ret ranges p' /\
    len ranges = Z.min count partitions /\
    concat (numbers <$> ranges) = seqZ start count /\
    Forall (part_of p) ranges.
Proof.
  intros Hp Hc Hs He Hf. set (k := Z.to_nat (Z.min count partitions)) in *.
  pose proof (Z.div_mod count partitions ltac:(lia)) as Hdm.
  pose proof (Z.mod_pos_bound count partitions Hp) as Hm.
  pose proof (Z.div_pos count partitions ltac:(lia) Hp) as Hd.
  assert (count / partitions <= count) as Hle by (apply Z.div_le_upper_bound; nia).
  assert (count / partitions = 0 -> count < partitions) as H0 by (intros E; rewrite E in Hdm; lia).
  assert (count < partitions -> count / partitions = 0 /\ count mod partitions = count) as H1
    by (intros H; rewrite Z.div_small, Z.mod_small by lia; auto).
  set (p := KeyPartitions.mkKeyPartitions namespace set start (start + count)
              (Z.quot count partitions) (Z.rem count partitions)).
  assert (parts_left p k) as Hleft.
  { unfold p, k. split; cbn; rewrite ?Z.quot_div_nonneg, ?Z.rem_mod_nonneg by lia;
      destruct (Z.lt_ge_cases count partitions) as [H|H]; try (destruct (H1 H) as [-> ->]); lia. }
  destruct (collect_parts k p fuel Hleft Hf) as (ranges & p' & E & Hlen & Hnum & Hall).
  exists p, ranges, p'. split; [|split; [exact E|split; [unfold len; lia|split; [|exact Hall]]]].
  - unfold KeyPartitions.new, bind. rewrite i64_checked_ret by lia.
    rewrite (proj2 (Z.eqb_neq _ _)) by lia.
    rewrite i64_checked_ret by (rewrite Z.quot_div_nonneg by lia; lia). reflexivity.
  - rewrite Hnum. cbn. f_equal. lia.
Qed.

(** A range gives the key of every number. *)
Lemma range_keys `{BO : ByteOrder} `{RD : Ripemd160} fuel : forall r keys r',
  collected fuel KeyRange.next r = Ret keys r' ->
  Forall2 (fun n key => Key_new (KeyRange.namespace r) (KeyRange.set r) (Value.Int n) = Some key)
    (numbers r) keys.
Proof.
  induction fuel as [|fuel IH]; intros r keys r'; [discriminate|]. cbn [collected].
  unfold bind at 1, KeyRange.next at 1. unfold bind at 1, get.
  destruct (Z.ltb_spec (KeyRange.index r) (KeyRange.end_ r)).
  - unfold bind at 1. destruct (Key_new _ _ _) as [key|] eqn:Hk; [|discriminate]. cbn [unwrap ret].
    unfold bind at 1, put. cbn [ret]. unfold bind.
    destruct (collected fuel KeyRange.next _) as [l s| | |] eqn:E; try discriminate.
    intros [= <- _]. apply IH in E. unfold numbers in E |- *. cbn in E. rewrite seqZ_cons by lia.
    constructor; [exact Hk|]. unfold Z.succ, Z.pred.
    replace (KeyRange.end_ r - KeyRange.index r + -1)
      with (KeyRange.end_ r - (KeyRange.index r + 1)) by lia. exact E.
  - intros [= <- _]. unfold numbers. rewrite seqZ_nil by lia. constructor.
Qed.

(** ** Histograms *)

(** A request: its latency in microseconds, and how it ended. *)
Definition request : Type := Z * Status.

(** The bucket of a latency. *)
Definition bucket_of (micros : Z) : nat :=
  if micros <? 1000 then 0 else if micros <? 2000 then 1 else if micros <? 4000 then 2
  else if micros <? 8000 then 3 else if micros <? 16000 then 4 else 5%nat.

Definition bucket_count (l : list request) (i : nat) : Z :=
  len (List.filter (fun r => (bucket_of r.1 =? i)%nat) l).

Definition status_count (s : Status) (l : list request) : Z :=
  len (List.filter (fun r => match s, r.2 with
                             | Success, Success | Error, Error | Timeout, Timeout => true
                             | _, _ => false
                             end) l).

(** The histogram is the summary of the requests [l]. *)
Record describes (l : list request) (h : Histogram) : Prop := {
  describes_buckets : Histogram.buckets h = bucket_count l <$> seq 0 6;
  describes_min : Histogram.min h = foldr Z.min Histogram.u128_max l.*1;
  describes_max : Histogram.max h = foldr Z.max 0 l.*1;
  describes_sum : Histogram.sum h = foldr Z.add 0 l.*1;
  describes_count : Histogram.count h = len l;
  describes_timeouts : Histogram.timeouts h = status_count Timeout l;
  describes_errors : Histogram.errors h = status_count Error l
}.

Lemma describes_new now : describes [] (Histogram.new now).
Proof. split; reflexivity. Qed.

Lemma describes_reset l now h : describes l h -> describes [] (Histogram.reset now h).
Proof. intros Hh. split; try reflexivity. cbn. rewrite (describes_buckets _ _ Hh). reflexivity. Qed.

Lemma foldr_snoc_comm (f : Z -> Z -> Z) a x l :
  (forall x y, f x y = f y x) -> (forall x y z, f x (f y z) = f (f x y) z) ->
  foldr f a (l ++ [x]) = f (foldr f a l) x.
Proof.
  intros Hc Ha. rewrite foldr_app. cbn. induction l as [|y l IH]; cbn; [apply Hc|].
  rewrite IH. apply Ha.
Qed.

Lemma bucket_count_app l1 l2 i :
  bucket_count (l1 ++ l2) i = bucket_count l1 i + bucket_count l2 i.
Proof. unfold bucket_count. rewrite List.filter_app, len_app. reflexivity. Qed.

Lemma status_count_app s l1 l2 :
  status_count s (l1 ++ l2) = status_count s l1 + status_count s l2.
Proof. unfold status_count. rewrite List.filter_app, len_app. reflexivity. Qed.

Lemma bucket_count_one r i :
  bucket_count [r] i = if (bucket_of r.1 =? i)%nat then 1 else 0.
Proof. unfold bucket_count. cbn. destruct (_ =? _)%nat; reflexivity. Qed.

(** The loop over the buckets counts the latency in its own. *)
Lemma bump_counts l micros s :
  Histogram.bump micros 1000 0 (bucket_count l <$> seq 0 6)
  = bucket_count (l ++ [(micros, s)]) <$> seq 0 6.
Proof.
  cbn [seq fmap list_fmap]. rewrite !bucket_count_app, !bucket_count_one.
  cbn [fst Histogram.bump Histogram.HIST_BUCKETS Nat.sub Nat.eqb]. rewrite !orb_false_r, !orb_true_r.
  change (Z.shiftl 1000 1) with 2000. change (Z.shiftl 2000 1) with 4000.
  change (Z.shiftl 4000 1) with 8000. change (Z.shiftl 8000 1) with 16000.
  unfold bucket_of.
  destruct (micros <? 1000), (micros <? 2000), (micros <? 4000), (micros <? 8000),
    (micros <? 16000); cbn; rewrite !Z.add_0_r; reflexivity.
Qed.

Lemma describes_add l latency status h :
  describes l h -> describes (l ++ [(nanos latency / 1000, status)]) (Histogram.add latency status h).
Proof.
  intros [Hb Hmin Hmax Hs Hc Ht He]. set (micros := nanos latency / 1000).
  split; unfold Histogram.add; cbn [Histogram.buckets Histogram.min Histogram.max Histogram.sum
    Histogram.count Histogram.timeouts Histogram.errors]; fold micros; rewrite ?fmap_app; cbn [fmap list_fmap fst].
  - rewrite Hb. apply bump_counts.
  - rewrite foldr_snoc_comm by lia. rewrite <- Hmin. destruct (Z.ltb_spec micros (Histogram.min h)); lia.
  - rewrite foldr_snoc_comm by lia. rewrite <- Hmax. destruct (Z.ltb_spec (Histogram.max h) micros); lia.
  - rewrite foldr_snoc_comm by lia. rewrite <- Hs. reflexivity.
  - rewrite Hc, len_app. reflexivity.
  - rewrite status_count_app, Ht. destruct status; [symmetry; apply Z.add_0_r|symmetry; apply Z.add_0_r|reflexivity].
  - rewrite status_count_app, He. destruct status; [symmetry; apply Z.add_0_r|reflexivity|symmetry; apply Z.add_0_r].
Qed.

Lemma foldr_app_comm (f : Z -> Z -> Z) a l1 l2 :
  (forall x y z, f x (f y z) = f (f x y) z) -> (forall l, f a (foldr f a l) = foldr f a l) ->
  foldr f a (l1 ++ l2) = f (foldr f a l1) (foldr f a l2).
Proof.
  intros Ha Hi. induction l1 as [|x l1 IH]; cbn; [symmetry; apply Hi|]. rewrite IH. apply Ha.
Qed.

Lemma describes_merge l1 l2 h other :
  describes l1 h -> describes l2 other -> describes (l1 ++ l2) (Histogram.merge other h).
Proof.
  intros [Hb Hmin Hmax Hs Hc Ht He] [Hb' Hmin' Hmax' Hs' Hc' Ht' He'].
  assert (forall l, foldr Z.min Histogram.u128_max l <= Histogram.u128_max) as Hle
    by (induction l; cbn [foldr]; lia).
  assert (forall l, 0 <= foldr Z.max 0 l) as Hge by (induction l; cbn [foldr]; lia).
  split; unfold Histogram.merge; cbn [Histogram.buckets Histogram.min Histogram.max Histogram.sum
    Histogram.count Histogram.timeouts Histogram.errors]; rewrite ?fmap_app.
  - rewrite Hb, Hb'. cbn. rewrite !bucket_count_app. reflexivity.
  - rewrite foldr_app_comm; [|lia..|intros l; pose proof (Hle l); lia]. rewrite <- Hmin, <- Hmin'.
    destruct (Z.ltb_spec (Histogram.min h) (Histogram.min other)); lia.
  - rewrite foldr_app_comm; [|lia..|intros l; pose proof (Hge l); lia]. rewrite <- Hmax, <- Hmax'.
    destruct (Z.ltb_spec (Histogram.max other) (Histogram.max h)); lia.
  - rewrite foldr_app_comm by lia. rewrite <- Hs, <- Hs'. reflexivity.
  - rewrite Hc, Hc', len_app. reflexivity.
  - rewrite status_count_app, Ht, Ht'. reflexivity.
  - rewrite status_count_app, He, He'. reflexivity.
Qed.

(** ** Workers *)

Section Worker.
Context `{BO : ByteOrder} `{VF : ValueFmt} `{CL : Clock} `{DI : Dialer Net} `{RG : Rng}.
Import Workers.
Implicit Types w : Worker (Net := Net).

(** What the statistics of a worker are. *)
Definition statistics w := (histogram w, sent w).

Abbreviation uncounted := (stays (agree statistics)).

Lemma uncounted_client {A} (m : M (Cluster.World Net) A) : uncounted (on_client m).
Proof. intros w. unfold on_client. destruct (m (world w)); reflexivity || exact I. Qed.

Lemma uncounted_random draw : uncounted (random (Net := Net) draw).
Proof. intros w. reflexivity. Qed.

#[local] Hint Resolve uncounted_client uncounted_random : stays.

Lemma uncounted_put fuel key : uncounted (put_random fuel key).
Proof. unfold put_random. eauto 8 with stays typeclass_instances. Qed.

Lemma uncounted_execute fuel task key : uncounted (execute fuel task key).
Proof.
  destruct task as [|reads]; [apply uncounted_put|]. cbn [execute].
  apply stays_bind; [apply _|apply uncounted_random|]. intros r.
  destruct (_ <=? _); [|apply uncounted_put]. eauto 8 with stays typeclass_instances.
Qed.

(** The worker has counted the requests [l]: some in what it sent, the others in its
    histogram. *)
Definition tallied w (l : list request) : Prop :=
  exists (parts : list (list request)) (current : list request),
    Forall2 describes parts (sent w) /\ describes current (histogram w) /\
    concat parts ++ current = l.

Lemma tallied_uncounted w w' l : agree statistics w w' -> tallied w l -> tallied w' l.
Proof. unfold agree, statistics, tallied. intros [= -> ->]. auto. Qed.

Lemma uncounted_ret {A} (m : M (Worker (Net := Net)) A) w a w' l :
  uncounted m -> m w = Ret a w' -> tallied w l -> tallied w' l.
Proof. intros Hm E. specialize (Hm w). rewrite E in Hm. apply tallied_uncounted, Hm. Qed.

Lemma collect_tallied w w' l :
  collect w = Ret tt w' -> tallied w l ->
  exists parts, Forall2 describes parts (sent w') /\ concat parts = l /\ describes [] (histogram w').
Proof.
  intros E (parts & current & Hs & Hh & <-). unfold collect, bind in E.
  set (w1 := mkWorker (histogram w) (sent w ++ [histogram w]) (draws w) (world w)) in E.
  pose proof (uncounted_client Cluster.world_now w1) as Hn.
  destruct (on_client Cluster.world_now w1) as [t w2| | |]; try discriminate E.
  injection E as <-. injection Hn as Hh2 Hs2. cbn [sent histogram]. rewrite Hs2, Hh2.
  exists (parts ++ [current]). split; [|split; [|eapply describes_reset, Hh]].
  - apply Forall2_app; [exact Hs|constructor; [exact Hh|constructor]].
  - rewrite concat_app. cbn. rewrite app_nil_r. reflexivity.
Qed.

Lemma run_loop_tallied fuel task keys : forall last w w' l,
  run_loop fuel task keys last w = Ret tt w' -> tallied w l ->
  exists requests, length requests = length keys /\ tallied w' (l ++ requests).
Proof.
  induction keys as [|key keys IH]; intros last w w' l E Hw; cbn [run_loop] in E.
  - injection E as <-. exists []. rewrite app_nil_r. auto.
  - apply bind_Ret_inv in E as (now & w1 & E1 & E).
    apply bind_Ret_inv in E as (status & w2 & E2 & E).
    apply bind_Ret_inv in E as (latency & w3 & E3 & E).
    apply bind_Ret_inv in E as ([] & w4 & E4 & E).
    apply bind_Ret_inv in E as (since & w5 & E5 & E).
    assert (tallied w3 l) as (parts & current & Hs & Hh & <-).
    { eapply uncounted_ret; [|exact E3|]; [unfold elapsed; eauto with stays typeclass_instances|].
      eapply uncounted_ret; [apply uncounted_execute|exact E2|].
      eapply uncounted_ret; [apply uncounted_client|exact E1|exact Hw]. }
    set (d := mkDuration (latency / 1000000000) (latency mod 1000000000)) in *.
    set (req := (nanos d / 1000, status)).
    assert (tallied w4 ((concat parts ++ current) ++ [req])) as H4.
    { injection E4 as <-. exists parts, (current ++ [req]). split; [exact Hs|].
      split; [apply describes_add, Hh|]. rewrite (assoc_L (++)). reflexivity. }
    assert (tallied w5 ((concat parts ++ current) ++ [req])) as H5.
    { eapply uncounted_ret; [|exact E5|exact H4]. unfold elapsed. eauto with stays typeclass_instances. }
    assert (exists requests, length requests = length keys /\
              tallied w' (((concat parts ++ current) ++ [req]) ++ requests)) as (requests & Hlen & Hr).
    { destruct (COLLECT <? since).
      - apply bind_Ret_inv in E as ([] & w6 & E6 & E). apply bind_Ret_inv in E as (t & w7 & E7 & E).
        eapply IH; [exact E|]. eapply uncounted_ret; [apply uncounted_client|exact E7|].
        destruct (collect_tallied _ _ _ E6 H5) as (parts' & Hs' & Hc & Hh').
        exists parts', []. rewrite app_nil_r. auto.
      - eapply IH; [exact E|exact H5]. }
    exists (req :: requests). split; [cbn; congruence|]. rewrite <- (assoc_L (++)) in Hr. exact Hr.
Qed.

(** A worker that ends has sent histograms of one request per key. *)
Lemma run_sends fuel task keys now (w0 : Cluster.World Net) w' :
  run fuel task keys (for_workload now w0) = Ret tt w' ->
  exists parts, Forall2 describes parts (sent w') /\ length (concat parts) = length keys.
Proof.
  intros E. unfold run in E. apply bind_Ret_inv in E as (t & w1 & E1 & E).
  apply bind_Ret_inv in E as ([] & w2 & E2 & E).
  assert (tallied (for_workload now w0) []) as H0.
  { exists [], []. split; [constructor|]. split; [apply describes_new|reflexivity]. }
  apply (uncounted_ret _ _ _ _ _ (uncounted_client _) E1) in H0.
  destruct (run_loop_tallied _ _ _ _ _ _ _ E2 H0) as (requests & Hlen & H2).
  destruct (collect_tallied _ _ _ E H2) as (parts & Hs & Hc & _).
  exists parts. rewrite Hc. auto.
Qed.

End Worker.

(** ** The collector *)

Section Collect.
Context `{CL : Clock}.
Import Collector.

(** What was printed of a window of requests. *)
Definition reports_on (l : list request) (r : Report) : Prop :=
  l <> [] /\ r_count r = len l /\ r_timeouts r = status_count Timeout l /\
  r_errors r = status_count Error l /\ r_buckets r = bucket_count l <$> seq 0 6 /\
  r_min r = foldr Z.min Histogram.u128_max l.*1 /\ r_max r = foldr Z.max 0 l.*1 /\
  r_avg r = foldr Z.add 0 l.*1 / len l.

(** The collector has printed reports on windows of the requests [l], of which
    [current] are still in its histogram. *)
Definition progress (c : Collector) (l : list request) : Prop :=
  exists (windows : list (list request)) (current : list request),
    Forall2 reports_on windows (reports c) /\ describes current (merged c) /\
    concat windows ++ current = l /\
    Histogram.total (merged c) = len (concat windows).

Lemma progress_now c l t c' : now c = Ret t c' -> progress c l -> progress c' l.
Proof. intros [= _ <-]. auto. Qed.

(** Printing the report of a window, and resetting the histogram. *)
Lemma progress_report c l c1 t :
  report c = Ret tt c1 -> progress c l ->
  forall c2 c3, merged c2 = merged c1 -> reports c2 = reports c1 ->
  on_merged (Histogram.reset t) c2 = Ret tt c3 ->
  progress c3 l /\ Histogram.total (merged c3) = len l.
Proof.
  intros E (windows & current & Hr & Hh & Hl & Ht) c2 c3 Hm2 Hr2 E3.
  unfold report, bind, Histogram.avg in E. cbn [get] in E.
  destruct (Z.eqb_spec (Histogram.count (merged c)) 0) as [|Hc]; [discriminate|].
  cbn [ret put] in E. injection E as <-. injection E3 as <-. cbn in Hm2, Hr2.
  destruct Hh as [Hb Hmin Hmax Hs Hcount Hti He].
  assert (Histogram.total (Histogram.reset t (merged c)) = len l) as Htotal.
  { cbn. rewrite <- Hl, len_app, Ht, Hcount. reflexivity. }
  cbn [merged reports]. rewrite Hm2, Hr2. split; [|exact Htotal].
  exists (windows ++ [current]), []. split; [|split; [|split]].
  - apply Forall2_app; [exact Hr|]. constructor; [|constructor].
    split; [intros ->; apply Hc, Hcount|]. cbn. rewrite <- Hcount, <- Hs. auto 8.
  - eapply describes_reset. split; eassumption.
  - rewrite concat_app. cbn. rewrite !app_nil_r. exact Hl.
  - rewrite concat_app. cbn [concat]. rewrite app_nil_r, Hl. exact Htotal.
Qed.

Lemma collect_loop_progress received parts : Forall2 describes parts received ->
  forall last c c' l,
  collect_loop received last c = Ret tt c' -> progress c l -> progress c' (l ++ concat parts).
Proof.
  induction 1 as [|part hist parts received Hp _ IH]; intros last c c' l E Hc; cbn [collect_loop] in E.
  - injection E as <-. cbn. rewrite app_nil_r. exact Hc.
  - apply bind_Ret_inv in E as ([] & c1 & E1 & E). apply bind_Ret_inv in E as (t & c2 & E2 & E).
    assert (progress c1 (l ++ part)) as H1.
    { injection E1 as <-. destruct Hc as (windows & current & Hr & Hh & <- & Ht).
      exists windows, (current ++ part). split; [exact Hr|].
      split; [apply describes_merge; assumption|]. split; [apply (assoc_L (++))|exact Ht]. }
    apply (progress_now _ _ _ _ E2) in H1. cbn [concat]. rewrite (assoc_L (++)).
    destruct (_ <? _); [|eapply IH; eassumption].
    apply bind_Ret_inv in E as ([] & c3 & E3 & E). apply bind_Ret_inv in E as (last' & c4 & E4 & E).
    apply bind_Ret_inv in E as (t' & c5 & E5 & E). apply bind_Ret_inv in E as ([] & c6 & E6 & E).
    eapply IH; [exact E|]. injection E4 as _ <-. injection E5 as _ <-.
    exact (proj1 (progress_report _ _ _ _ E3 H1 (mkCollector _ _ _) _ eq_refl eq_refl E6)).
Qed.

Lemma collect_all_total received parts start total c' :
  Forall2 describes parts received ->
  collect_all received (Collector.new start) = Ret total c' ->
  progress c' (concat parts) /\ total = Histogram.total (merged c') /\ total = len (concat parts).
Proof.
  intros Hp E. unfold collect_all in E.
  apply bind_Ret_inv in E as (t & c1 & E1 & E). apply bind_Ret_inv in E as ([] & c2 & E2 & E).
  apply bind_Ret_inv in E as ([] & c3 & E3 & E). apply bind_Ret_inv in E as (t' & c4 & E4 & E).
  apply bind_Ret_inv in E as ([] & c5 & E5 & E). injection E as <- <-.
  assert (progress (Collector.new start) []) as H0.
  { exists [], []. split; [constructor|]. split; [apply describes_new|]. split; reflexivity. }
  apply (progress_now _ _ _ _ E1) in H0.
  pose proof (collect_loop_progress _ _ Hp _ _ _ _ E2 H0) as H2. cbn in H2.
  injection E4 as _ <-.
  destruct (progress_report _ _ _ _ E3 H2 (mkCollector _ _ _) _ eq_refl eq_refl E5) as [H5 Ht].
  split; [exact H5|]. split; [reflexivity|exact Ht].
Qed.

End Collect.

(** ** The whole run *)

Section Run.
Context `{BO : ByteOrder} `{VF : ValueFmt} `{CL : Clock} `{DI : Dialer Net} `{RG : Rng}
  `{RD : Ripemd160}.

(** A worker that has done the keys of a range, from whatever the world was then. *)
Definition worked (fuel : nat) (task : Workers.Task) (range : KeyRange)
    (w : Workers.Worker (Net := Net)) : Prop :=
  exists keys range' started world,
    collected fuel KeyRange.next range = Ret keys range' /\
    Workers.run fuel task keys (Workers.for_workload started world) = Ret tt w.

Lemma worked_sends fuel task range w :
  worked fuel task range w ->
  exists parts, Forall2 describes parts (Workers.sent w) /\
    length (concat parts) = length (numbers range).
Proof.
  intros (keys & range' & started & world & Hk & Hr). apply range_keys, Forall2_length in Hk.
  destruct (run_sends _ _ _ _ _ _ Hr) as (parts & Hp & Hl). exists parts. split; [exact Hp|congruence].
Qed.

Lemma all_send fuel task ranges workers :
  Forall2 (worked fuel task) ranges workers ->
  exists parts, Forall2 describes parts (workers ≫= Workers.sent) /\
    length (concat parts) = length (concat (numbers <$> ranges)).
Proof.
  induction 1 as [|range w ranges workers Hw _ IH]; [exists []; split; [constructor|reflexivity]|].
  destruct (worked_sends _ _ _ _ Hw) as (parts1 & H1 & L1). destruct IH as (parts2 & H2 & L2).
  exists (parts1 ++ parts2). split; [apply Forall2_app; assumption|].
  rewrite concat_app, length_app, L1, L2. cbn [fmap list_fmap concat]. rewrite length_app. reflexivity.
Qed.

Lemma concat_permuted {A} (l1 l2 : list (list A)) : l1 ≡ₚ l2 -> concat l1 ≡ₚ concat l2.
Proof.
  intros H. rewrite <- (List.map_id l1), <- (List.map_id l2), <- !flat_map_concat_map.
  apply Permutation_flat_map, H.
Qed.

(** C39: a benchmark of [count] keys, split among at least one worker, whose workers
    all end: whatever the server answers to whom, and in whatever order the
    histograms of the workers reach the collector, if the collector ends then every
    key is in exactly one range, the total that it prints is the number of keys,
    and its reports are on windows of one or more requests each that together are
    all requests. *)
Theorem benchmark_counts fuel task namespace set start count partitions p ranges p' workers
    received now total c' :
  0 < partitions -> 0 <= count < 2 ^ 63 -> - 2 ^ 63 <= start -> start + count < 2 ^ 63 ->
  KeyPartitions.new namespace set start count partitions tt = Ret p tt ->
  collected fuel KeyPartitions.next p = Ret ranges p' ->
  (Z.to_nat (Z.min count partitions) < fuel)%nat ->
  Forall2 (worked fuel task) ranges workers ->
  received ≡ₚ workers ≫= Workers.sent ->
  Collector.collect_all received (Collector.new now) = Ret total c' ->
  concat (numbers <$> ranges) = seqZ start count /\ total = count /\
  exists windows,
    Forall2 reports_on windows (Collector.reports c') /\ len (concat windows) = count.
Proof.
  intros Hp Hc Hs He Hnew Hcol Hf Hw Hrec Hall.
  destruct (key_partitions namespace set start count partitions fuel Hp Hc Hs He Hf)
    as (p1 & ranges1 & p1' & E1 & E2 & _ & Hnum & _).
  rewrite Hnew in E1. injection E1 as <-. rewrite Hcol in E2. injection E2 as <- <-.
  split; [exact Hnum|].
  destruct (all_send _ _ _ _ Hw) as (parts & Hparts & Hlen). rewrite Hnum, length_seqZ in Hlen.
  symmetry in Hrec. apply Forall2_flip in Hparts.
  destruct (Permutation_Forall2 Hrec Hparts) as (parts' & Hperm & Hparts').
  apply Forall2_flip in Hparts'.
  destruct (collect_all_total _ _ _ _ _ Hparts' Hall) as [(windows & current & Hr & Hh & Hl & Ht) Htotal].
  assert (len (concat parts') = count) as Hcount.
  { unfold len. rewrite <- (Permutation_length (concat_permuted _ _ Hperm)), Hlen. lia. }
  split; [lia|]. exists windows. split; [exact Hr|lia].
Qed.

End Run.

(** ** Examples *)

Section Example.
#[local] Existing Instance byteorder_model.
#[local] Existing Instance valuefmt_model.
#[local] Existing Instance clock_model.
#[local] Existing Instance silent_dialer.
#[local] Existing Instance ripemd160_model.

#[local] Instance fair_dice : Rng := {| draw_i64 := Z.of_nat; draw_u32 := Z.of_nat |}.

(** The last report of the collector panics when no request came after the report
    before, as [avg] divides by their number: without a key, at once. *)
Theorem empty_report_panics `{CL : Clock} start :
  Collector.collect_all [] (Collector.new start) = Panic.
Proof. reflexivity. Qed.

(** Two keys on two workers; the cluster has no node, so both requests fail. *)
Definition empty_world : Cluster.World unit :=
  Cluster.mkWorld (Cluster.mkCluster [] ∅ [] ∅ 0 ClientPolicy_default false) [] ([], tt) 0.

Definition sample_range (i : Z) : KeyRange :=
  KeyRange.mkKeyRange (str "test") (str "demo") i (i + 1).

(** The worker on the key [i]. *)
Definition sample_run (i : Z) : outcome (Workers.Worker (Net := unit)) unit :=
  match collected 5 KeyRange.next (sample_range i) with
  | Ret keys _ => Workers.run 5 Workers.InsertTask keys (Workers.for_workload 0 empty_world)
  | _ => Panic
  end.

Lemma sample_worked i w :
  sample_run i = Ret tt w -> worked 5 Workers.InsertTask (sample_range i) w.
Proof.
  unfold sample_run. destruct (collected 5 KeyRange.next (sample_range i)) as [keys r'| | |] eqn:E;
    try discriminate.
  intros H. exists keys, r', 0, empty_world. split; [exact E|exact H].
Qed.

Lemma benchmark_counts_witness :
  exists workers total c',
    Forall2 (worked 5 Workers.InsertTask) [sample_range 0; sample_range 1] workers /\
    Collector.collect_all (workers ≫= Workers.sent) (Collector.new 0) = Ret total c' /\
    total = 2.
Proof.
  destruct (sample_run 0) as [[] w0| | |] eqn:E0; [|vm_compute in E0; discriminate E0..].
  destruct (sample_run 1) as [[] w1| | |] eqn:E1; [|vm_compute in E1; discriminate E1..].
  assert (Forall2 (worked 5 Workers.InsertTask) [sample_range 0; sample_range 1] [w0; w1]) as Hw.
  { constructor; [apply sample_worked, E0|]. constructor; [apply sample_worked, E1|]. constructor. }
  destruct (Collector.collect_all ([w0; w1] ≫= Workers.sent) (Collector.new 0)) as [total c'| | |] eqn:E;
    [|vm_compute in E0, E1; injection E0 as <-; injection E1 as <-; vm_compute in E; discriminate E..].
  exists [w0; w1], total, c'. split; [exact Hw|]. split; [exact E|].
  apply (benchmark_counts 5 Workers.InsertTask (str "test") (str "demo") 0 2 2
    (KeyPartitions.mkKeyPartitions (str "test") (str "demo") 0 2 1 0)
    [sample_range 0; sample_range 1]
    (KeyPartitions.mkKeyPartitions (str "test") (str "demo") 2 2 1 0)
    [w0; w1] ([w0; w1] ≫= Workers.sent) 0 total c'); try lia; try reflexivity; try assumption.
Defined.

End Example.
